(* ===== verification/_CoqProject ===== *)
-Q . S2P
Prelude.v
Errors.v
SocketBuffer.v
Posix.v
SocketAddress.v
SocketOps.v
SocketBase.v
Gateway.v
GatewayFacts.v
WireExample.v
ServerRouter.v
ServerRouterFacts.v
ClientRouter.v
ClientRouterFacts.v
IpcEndToEnd.v
Channel.v
PipeBase.v
PipeFrames.v
SocketServer.v
ServerStack.v
SocketClient.v
ClientStack.v
Streams.v
SdkStream.v
DaemonStream.v
IpcLink.v
IpcSafety.v
ChannelLink.v
ServiceState.v
NodeService.v
NodeServiceFacts.v
ListRegisters.v
ExecCmd.v
AccessRegisters.v
Config.v
FileProvider.v
FileServer.v
RawPublisher.v
RawSubscriber.v
RawRpcClient.v
NodeClients.v
RelayClients.v
RelayEndToEnd.v
FileServerClients.v
EventLoop.v
IfaceText.v
SocketCan.v
CanMedia.v
UdpMedia.v
TransportBags.v
Execution.v
NodeSenders.v
NodeEndToEnd.v
ListEndToEnd.v
AccessEndToEnd.v
Startup.v
DaemonMain.v
Sdk.v
Cli.v
CliRules.v
CliFacts.v
Logging.v
Reports.v
