(* ===== verification/Prelude.v ===== *)
(** * OCVSMD: a verification development

    OCVSMD is a daemon for Cyphal networks, its client SDK and a command line
    tool. Programs use the SDK; the SDK talks to the daemon over a socket; the
    daemon talks to the nodes of the network. This library models the daemon, the
    inter-process communication (IPC) and the SDK, as they are written in C++ (and
    the media in C) under [src/], and proves them correct.

    ** How the parts interact

<<
      SDK client --- ClientRouter --- socket pipe --- ServerRouter --- services --- Cyphal
                     (channels)       (framing)       (channels)       (machines)    network
>>
    A client opens a channel by sending a message: [ClientRouter] makes a gateway
    with a fresh tag, wraps each message in a route header, and sends it as one
    framed message on the stream. [ServerRouter] parses the route, finds the
    gateway of the client and tag, or, for the first message of a channel, asks
    the factory of the service to make one. A service keeps one machine per
    channel, works on the Cyphal network, sends responses, and completes the
    channel. When the connection is lost, both routers complete every gateway.

    ** The files

    - [Prelude]: integers with their width, bytes, the outcome of C++ expressions
      that may be undefined, the state monad and its weakest preconditions.
    - [Errors]: [include/ocvsmd/sdk/defines.hpp], [src/common/common_helpers.hpp],
      [src/daemon/engine/engine_helpers.hpp]. [SocketBuffer]: [src/common/io/socket_buffer.hpp],
      [src/common/dsdl_helpers.hpp]. [Posix]: [posix_utils.hpp], [src/common/io/io.hpp].
    - [SocketAddress], [SocketOps]: [src/common/io/socket_address.cpp], its text forms and
      its socket operations.
    - [SocketBase]: [src/common/ipc/pipe/socket_base.cpp], the framing of messages on a
      stream: [send], and the incremental receiver [receiveData].
    - [Gateway], [GatewayFacts]: [src/common/ipc/gateway.hpp]: gateways as objects with
      reference counts in a heap, events to their handlers, and what both routers
      do with them, against the class [GatewayWorld].
    - [WireExample]: one codec of the route messages, to run the routers.
    - [ServerRouter], [ServerRouterFacts]: [src/common/ipc/server_router.cpp].
      [ClientRouter], [ClientRouterFacts]: [src/common/ipc/client_router.cpp].
      [IpcEndToEnd]: both routers together. [Channel]: [src/common/ipc/channel.hpp], the
      typed channels on top of either router.
    - [PipeBase], [PipeFrames]: what the two ends of the socket pipe share.
      [SocketServer]: [src/common/ipc/pipe/socket_server.cpp] and [client_context.hpp];
      [SocketClient]: [src/common/ipc/pipe/socket_client.cpp]. [ServerStack],
      [ClientStack]: an end of the pipe together with its router.
    - [Streams], [SdkStream], [DaemonStream]: the steps of either end, seen as messages on the two
      streams of a connection. [IpcLink]: both ends and the connection. [IpcSafety]: the same with
      the routers' invariants: what can be reached is defined, what is sent is handled.
      [ChannelLink]: typed channels over all of it.
    - [ServiceState]: the map of machines that the six asynchronous services share.
      [NodeService], [NodeServiceFacts]: what the three node services share.
      [ListRegisters], [ExecCmd], [AccessRegisters]: [src/daemon/engine/svc/node/].
      [RawPublisher], [RawSubscriber], [RawRpcClient]: [src/daemon/engine/svc/relay/].
    - [Config]: [src/daemon/engine/config.cpp] and [Engine::getUniqueId].
      [FileProvider]: [src/daemon/engine/cyphal/file_provider.cpp].
      [FileServer]: [src/daemon/engine/svc/file_server/].
    - [NodeClients]: [src/sdk/svc/node/]. [NodeSenders]: [node_registry_client.cpp],
      [node_command_client.cpp], their headers (the operations for one node), and the
      senders of [client_helpers.hpp]. [NodeEndToEnd], [ListEndToEnd], [AccessEndToEnd]: the
      operations of the SDK and the services: commands, lists of registers, values of
      registers.
    - [RelayClients]: [src/sdk/svc/relay/], the publishers, subscribers and RPC clients
      of the SDK with their senders. [RelayEndToEnd]: each with its service.
      [FileServerClients]: [src/sdk/svc/file_server/] and [src/sdk/file_server.cpp],
      with the services.
    - [EventLoop]: the executors of Linux and BSD in [include/ocvsmd/platform/], and
      the loops that turn them. [Execution]: [include/ocvsmd/sdk/execution.hpp], waiting
      for the result of a sender, and the typed operations of [node_pub_sub.hpp]
      and [node_rpc_client.hpp].
    - [IfaceText]: the lists of interfaces in the configuration. [SocketCan], [CanMedia]:
      [src/daemon/engine/platform/can/]. [UdpMedia]: [src/daemon/engine/platform/udp/].
      [TransportBags]: [can_transport_bag.hpp] and [udp_transport_bag.hpp] of
      [src/daemon/engine/cyphal/].
    - [Startup]: [Engine::init], the registration of the services, and [DaemonImpl::start] of
      [src/sdk/daemon.cpp]. [DaemonMain]: [src/daemon/main.cpp] and the reports of
      [setup_logging.hpp]. [Logging]: the levels at which both programs' loggers flush.
      [Reports]: the texts of errors, and [transport_helpers.hpp], the reports of transient errors.
    - [Sdk]: what a program sees of the SDK, [include/ocvsmd/sdk/], as classes of operations.
      [Cli], [CliRules], [CliFacts]: [src/cli/main.cpp], the command line tool, as a program over
      them; the rules for what such a program logs and asks for; its theorems.

    A definition has the name of the function or type it models, and the files
    say which lines of C++ are left out (logging, memory resources).

    ** How the code is modelled

    Stateful code is a computation in [M S A], that is [S -> outcome (A * S)] for a
    record [S] with the members of the object and the part of its world that it
    touches. [Undef] is undefined behaviour (or an exception that nothing
    catches), so [wp m Q s] says both that [m] has none from [s], and that [Q]
    holds at its end. Objects that C++ shares by pointer live in a heap of the
    model: the gateways, by identity, with strong and registered references; the
    machines of a service, by the identifier in its map. An access to an object
    that was destroyed is [Undef], also one that only writes ([ServiceState.put_fsm]). The promise
    that a machine holds for a node records what was asked of it ([NodeService.CyPromise]: the node, the
    request, the deadline), so that an answer can be one to what was sent. Integers are in Z; conversions and additions of
    fixed width are written out ([wrap], [i64]).

    What is not in this repository is a parameter: the generated serialisers
    (class [Codec], with the laws that parsing inverts printing, and that what is printed fits its
    fields, [CodecTyped]), [inet_pton] and
    [inet_ntop], the kernel (scripts of answers), the file system and the Cyphal
    presentation layer (functions on an environment about which nothing is
    assumed unless a theorem says so), the TOML library (class [Toml]; that parsing inverts printing is
    assumed of documents that are [representable], since a TOML document is UTF-8), time and
    signals (class [SdkClock]: [usleep] sleeps its time or a signal is caught), handlers
    of users (assumed to call only operations of the router, see [Handlers]). For
    each class there is an instance, and for each theorem with hypotheses an
    example at which they hold.

    ** What the theorems show

    - IPC: what is sent on a stream by a kernel that writes whole is received, message by
      message, whatever the chunks ([SocketBase.pipe_roundtrip], [receiveLoop_delivers]), within
      bounds ([receiveData_safe]), also among other clients
      ([SocketServer.server_delivers]). No event makes a router touch a destroyed
      gateway ([server_pipe_event_safe], [client_pipe_event_safe]: invariants of the
      heap). A value sent on a typed channel reaches the service, and the answer
      the channel's handler ([Channel.request_reaches_service],
      [answer_reaches_handler]). A lost connection completes every gateway, and
      only those. Socket and router together are a router that handles
      sessions ([ServerStack.daemon_refines_router], [ClientStack.sdk_refines_router]),
      and every complete message is handled ([daemon_serves_client]). With a stream between
      them that does not fail, kernels that write whole, and messages of 1 byte to 1 MB, whatever
      is done at both ends, the messages that one router is given are
      the first of those that the other has sent ([IpcLink.link_delivers]), nothing is
      undefined at either end, since routers announce the payload that they send
      ([IpcSafety.link_never_fails]), and what is on its way will be handled
      ([link_drains]). Every connection of two running sides begins as these theorems
      ask ([connection_begins]). So a value that a user sends on a channel calls its service, and the
      answer the user's handler, through both sockets ([ChannelLink.request_over_the_pipe],
      [answer_over_the_pipe]).
    - Services: each is shown to never use a destroyed machine and to complete
      each channel exactly once. The relay services refine a step relation of one
      channel; their theorems say exactly which events are undefined. What a user asks of
      nodes through the SDK comes to an end; every promise that is waited for is for what the user asked,
      and the result is what the nodes answered to it, node by node: commands ([NodeEndToEnd.exec_cmd_end_to_end]), the names
      of registers ([ListEndToEnd.list_end_to_end]; a list that breaks off is reported as if it were whole, and a
      node without registers is left out, against [node_registry_client.hpp]), their values
      ([AccessEndToEnd.access_end_to_end]). What a user
      publishes, with the priority that it sets, or calls reaches the network unchanged, and what the network
      gives reaches the user ([RelayEndToEnd]); an operation on the roots changes
      the daemon's roots as it says, unless it pops a root from the back that is not there,
      which is undefined ([FileServerClients.roots_end_to_end]).
    - The SDK's objects: no event makes them use a destroyed sender if their user
      is careful ([relay_clients_safe]); typed operations carry the message
      ([typed_operations_roundtrip]); [sync_wait] returns the first result
      ([sync_wait_returns_first]), and with a timeout it always returns
      ([sync_wait_for_returns]).
    - The executors: each implements a registry of live callbacks, whatever is
      created, moved and destroyed ([epoll_refines_registry]), they are equivalent
      ([executors_equivalent]), and schedule live callbacks only
      ([epoll_poll_schedules_live]); the loops end when they should
      ([loops_terminate]).
    - Files: remote requests stay under the roots, reading chunk by chunk gives
      the whole file, the roots are a double-ended list that survives a restart.
    - Errors, addresses, sockets: round trips, the behaviour of the retry loops,
      and the balance of descriptors; the text of an error tells the error
      ([format_error_inj], [transient_errors_told], and [format_value_told] for the values of registers).
    - The network side: the kernel drops the same frames as the
      filters it is given ([SocketCan.filters_equivalent]); a pushed frame is what the
      other end pops ([CanMedia.media_roundtrip]); every descriptor of a socket has one
      owner, and what fails gives it back ([udp_sockets_set_up]);
      a bag has one medium for each interface that the configuration names and that
      opened ([can_bag_media], [udp_bag_media]).
    - The start: the engine is up exactly when its parts could be made, in
      their order, and its failure is that of the first that could not ([Startup.engine_ready]); a parent
      process that has its pipe, its child and its standard descriptors reports whether the
      child got to run the engine ([DaemonMain.start_is_reported]); it runs until a
      signal ends it ([signals_end_it]), and once it ran,
      the daemon saves its configuration and succeeds ([main_saves]).
    - The command line tool: its exit code tells what happened, and a success means that all
      scenarios asked for what they are to ask for ([CliFacts.main_reports]); its
      publisher ends after thirty messages at most, a second apart, or one more for each signal that
      is caught ([publisher_bounds]); the
      registers that it reads are the ones that the nodes listed
      ([listed_registers_are_read]).
    - Some theorems state what the code does where it does not do what it
      should: [send_short_write], [unix_path_text], [server_oversized_payload_undefined],
      [relay_receiver_dangles], [prepared_twice_publishes_empty],
      [kqueue_timeout_invalid], [open_reports_close],
      [unlimited_descriptors_undefined], [closed_stdout_misreported], and a part of
      [FileServer.file_server_refines] (popping a root from the back that is not there),
      [raw_publisher_refines] and [raw_rpc_client_refines] (a payload announced too large, a
      timeout too long), [list_end_to_end] and [publisher_bounds] (fourteen messages of thirty have the low
      priority, not half of them).

    ** Fuel

    Loops over data are structural. [SocketBase.receiveLoop] has the length of the
    kernel's script as measure, [posix_retry] and [accept_loop] recurse on the
    script of the kernel, [format_uint] has 20 digits as fuel, enough for 64 bits;
    [NodeClients.split_nodes] has the number of nodes (each turn takes at
    least one), [AccessRegisters.access_loop] has as fuel the number of
    registers (each turn moves to the next one), and [access_registers_safe] shows
    that it suffices; the conversations of nodes with the daemon are relations, with
    [answers_left] as the measure that every step decreases; [FileProvider.download], which is the loop of a remote node,
    is shown to end with as much fuel as the file has bytes, plus one.
    [EventLoop.waitPollingUntil], [runWhile] and [sync_wait] turn the executor until
    something happens, which need not be; their theorems say that they return
    exactly when it happens, and the number of turns, plus one, is enough fuel.
    [IfaceText.for_each_piece] has the length of the text plus two ([for_each_piece_run]
    shows that it suffices), and [DaemonMain.close_from] the limit of descriptors.
    The scenarios of the command line tool loop until ten or thirty seconds are over
    ([Sdk.while_before]): 31 turns suffice for the publisher, which sleeps a second in each, and one
    more for every signal that may cut a sleep short; 10^7 + 1 suffice for the subscriber, whose
    messages take a microsecond at least.

    ** What is not modelled

    The transports, the presentation layer and the nodes of libcyphal (they are not
    in this repository), the formatting of other log messages, and the making of loggers. *)
From stdpp Require Export prelude gmap list strings numbers fin_maps pretty.
From Stdlib Require Export Strings.Byte ZArith Lia.

Declare Scope ocvsmd_scope.
Delimit Scope ocvsmd_scope with ocv.

(** ** Machine integers *)

(** [wrap w z]: the value of [z] in a [w]-bit unsigned integer. *)
Definition wrap (w z : Z) : Z := (z mod 2 ^ w)%Z.

Abbreviation u8 := (wrap 8).
Abbreviation u16 := (wrap 16).
Abbreviation u32 := (wrap 32).
Abbreviation u64 := (wrap 64).

(** [i32 z]: conversion of [z] to a 32-bit two's complement integer. *)
Definition i32 (z : Z) : Z :=
  (let r := wrap 32 z in if r <? 2 ^ 31 then r else r - 2 ^ 32)%Z.

Lemma wrap_id w z : (0 <= z < 2 ^ w)%Z -> wrap w z = z.
Proof. intros. by apply Z.mod_small. Qed.

Lemma wrap_bound w z : (0 <= w)%Z -> (0 <= wrap w z < 2 ^ w)%Z.
Proof. intros. apply Z.mod_pos_bound. lia. Qed.

Lemma wrap_wrap w z : (0 <= w)%Z -> wrap w (wrap w z) = wrap w z.
Proof. intros. apply wrap_id, wrap_bound. lia. Qed.

Lemma wrap_add_l w a b : wrap w (wrap w a + b) = wrap w (a + b).
Proof. unfold wrap. by rewrite Zplus_mod_idemp_l. Qed.

Lemma wrap_add_r w a b : wrap w (a + wrap w b) = wrap w (a + b).
Proof. unfold wrap. by rewrite Zplus_mod_idemp_r. Qed.

Lemma i32_id z : (- 2 ^ 31 <= z < 2 ^ 31)%Z -> i32 z = z.
Proof.
  intros H. unfold i32, wrap. destruct (decide (0 <= z)%Z).
  - rewrite Z.mod_small by lia. by destruct (Z.ltb_spec z (2 ^ 31)); [|lia].
  - rewrite <- (Z.mod_add z 1) by lia. rewrite Z.mod_small by lia.
    destruct (Z.ltb_spec (z + 1 * 2 ^ 32) (2 ^ 31)); lia.
Qed.

(** ** Bytes and strings *)

Abbreviation bytes := (list byte).

(** [b"..."]: the bytes of a string literal. *)
Definition str (s : string) : bytes := String.list_byte_of_string s.
Arguments str s%_string_scope : simpl never.

Definition Z_of_byte (b : byte) : Z := Z.of_N (Byte.to_N b).

Definition byte_of_Z (z : Z) : byte :=
  match Byte.of_N (Z.to_N (wrap 8 z)) with Some b => b | None => x00 end.

Lemma Z_of_byte_bound b : (0 <= Z_of_byte b < 256)%Z.
Proof. unfold Z_of_byte. pose proof (Byte.to_N_bounded b). lia. Qed.

Lemma Z_of_byte_of_Z z : Z_of_byte (byte_of_Z z) = wrap 8 z.
Proof.
  unfold Z_of_byte, byte_of_Z.
  pose proof (wrap_bound 8 z ltac:(lia)) as Hb. change (2 ^ 8)%Z with 256%Z in Hb.
  destruct (Byte.of_N _) eqn:E.
  - apply Byte.to_of_N in E. rewrite E. lia.
  - apply Byte.of_N_None_iff in E. lia.
Qed.

Lemma byte_of_Z_of_byte b : byte_of_Z (Z_of_byte b) = b.
Proof.
  unfold byte_of_Z. rewrite wrap_id by (pose proof (Z_of_byte_bound b); lia).
  unfold Z_of_byte. rewrite N2Z.id. by rewrite Byte.of_to_N.
Qed.

#[export] Instance byte_eq_dec : EqDecision byte := Byte.byte_eq_dec.
Lemma of_to_byte b : default x00 (Byte.of_N (Byte.to_N b)) = b.
Proof. by rewrite Byte.of_to_N. Qed.

#[export] Instance byte_countable : Countable byte :=
  inj_countable' Byte.to_N (fun n => default x00 (Byte.of_N n)) of_to_byte.

(** The string up to its first NUL: what a callee sees of [std::string::c_str()]. *)
Fixpoint c_str (s : bytes) : bytes :=
  match s with
  | [] => []
  | b :: s' => if decide (b = x00) then [] else b :: c_str s'
  end.

Lemma c_str_no_nul s : x00 ∉ s -> c_str s = s.
Proof.
  induction s as [|b s IH]; [done|]. intros Hs. cbn.
  rewrite decide_False by set_solver. f_equal. apply IH. set_solver.
Qed.

(** ** Fixed-width integers in memory (little-endian hosts) *)

Fixpoint le_bytes (n : nat) (z : Z) : bytes :=
  match n with
  | O => []
  | S n' => byte_of_Z z :: le_bytes n' (z / 256)
  end.

Fixpoint le_value (bs : bytes) : Z :=
  match bs with
  | [] => 0
  | b :: bs' => Z_of_byte b + 256 * le_value bs'
  end.

Lemma length_le_bytes n z : length (le_bytes n z) = n.
Proof. revert z. induction n; intros; cbn; auto. Qed.

Lemma le_value_bytes n z : le_value (le_bytes n z) = wrap (8 * Z.of_nat n) z.
Proof.
  revert z. induction n as [|n IH]; intros z; cbn [le_bytes le_value].
  - unfold wrap. cbn. by rewrite Z.mod_1_r.
  - rewrite IH, Z_of_byte_of_Z. unfold wrap.
    replace (8 * Z.of_nat (S n))%Z with (8 + 8 * Z.of_nat n)%Z by lia.
    rewrite Z.pow_add_r by lia. change (2 ^ 8)%Z with 256%Z.
    rewrite Z.rem_mul_r by lia. lia.
Qed.

(** ** Lists *)

Lemma list_take_drop_app {A} n (l : list A) : take n l ++ drop n l = l.
Proof. apply take_drop. Qed.

(** [is_prefix p s]: does [s] start with [p]? ([0 == s.compare(0, p.size(), p)]) *)
Definition is_prefix (p s : bytes) : bool := bool_decide (take (length p) s = p).

Lemma is_prefix_app p s : is_prefix p (p ++ s) = true.
Proof. apply bool_decide_eq_true. by rewrite take_app_length. Qed.

Lemma is_prefix_spec p s : is_prefix p s = true <-> s = p ++ drop (length p) s.
Proof.
  unfold is_prefix. rewrite bool_decide_eq_true. split.
  - intros H. rewrite <- H at 1. by rewrite take_drop.
  - intros ->. by rewrite take_app_length.
Qed.

(** ** Computations that may have undefined behaviour *)

(** The outcome of a C++ expression: a value, or undefined behaviour. *)
Inductive outcome (A : Type) : Type :=
| Done (a : A)
| Undef.
Arguments Done {A} a.
Arguments Undef {A}.

#[export] Instance outcome_ret : MRet outcome := fun A a => Done a.
#[export] Instance outcome_bind : MBind outcome := fun A B f m =>
  match m with Done a => f a | Undef => Undef end.

(** [M S A]: a computation on a store [S] that returns an [A]. *)
Definition M (S A : Type) : Type := S -> outcome (A * S).

#[export] Instance M_ret S : MRet (M S) := fun A a s => Done (a, s).
#[export] Instance M_bind S : MBind (M S) := fun A B f m s =>
  match m s with Done (a, s') => f a s' | Undef => Undef end.

Definition gets {S A} (f : S -> A) : M S A := fun s => Done (f s, s).
Definition modify {S} (f : S -> S) : M S unit := fun s => Done (tt, f s).
Definition undef {S A} : M S A := fun _ => Undef.
(** [liftF f]: run a state transformer that cannot fail. *)
Definition liftF {S A} (f : S -> A * S) : M S A := fun s => Done (f s).
(** [ofOutcome o]: a store-independent outcome. *)
Definition ofOutcome {S A} (o : outcome A) : M S A := fun s =>
  match o with Done a => Done (a, s) | Undef => Undef end.

Fixpoint mfor {S A} (l : list A) (body : A -> M S unit) : M S unit :=
  match l with
  | [] => mret tt
  | a :: l' => body a ;; mfor l' body
  end.

(** Weakest precondition: [m] has no undefined behaviour from [s], and its
    result and final store satisfy [Q]. *)
Definition wp {S A} (m : M S A) (Q : A -> S -> Prop) (s : S) : Prop :=
  match m s with Done (a, s') => Q a s' | Undef => False end.

Section wp_rules.
Context {S : Type}.

Lemma wp_ret {A} (a : A) (Q : A -> S -> Prop) s : Q a s -> wp (mret a) Q s.
Proof. done. Qed.

Lemma wp_bind {A B} (m : M S A) (f : A -> M S B) Q s :
  wp m (fun a s' => wp (f a) Q s') s -> wp (m ≫= f) Q s.
Proof. unfold wp, mbind, M_bind. by destruct (m s) as [[a s']|]. Qed.

Lemma wp_assoc {A B C} (m : M S A) (f : A -> M S B) (g : B -> M S C) Q s :
  wp ((m ≫= f) ≫= g) Q s -> wp (m ≫= fun a => f a ≫= g) Q s.
Proof. unfold wp, mbind, M_bind. by destruct (m s) as [[a s']|]. Qed.

Lemma wp_gets {A} (f : S -> A) (Q : A -> S -> Prop) s : Q (f s) s -> wp (gets f) Q s.
Proof. done. Qed.

Lemma wp_modify (f : S -> S) (Q : unit -> S -> Prop) s : Q tt (f s) -> wp (modify f) Q s.
Proof. done. Qed.

Lemma wp_liftF {A} (f : S -> A * S) (Q : A -> S -> Prop) s :
  Q (f s).1 (f s).2 -> wp (liftF f) Q s.
Proof. unfold wp, liftF. by destruct (f s). Qed.

Lemma wp_ofOutcome {A} (o : outcome A) a (Q : A -> S -> Prop) s :
  o = Done a -> Q a s -> wp (ofOutcome o) Q s.
Proof. by intros ->. Qed.

Lemma wp_mono {A} (m : M S A) (Q Q' : A -> S -> Prop) s :
  wp m Q s -> (forall a s', Q a s' -> Q' a s') -> wp m Q' s.
Proof. unfold wp. destruct (m s) as [[a s']|]; auto. Qed.

Lemma wp_Done {A} (m : M S A) Q s :
  wp m Q s <-> exists a s', m s = Done (a, s') /\ Q a s'.
Proof.
  unfold wp. destruct (m s) as [[a s']|]; split; try done; eauto.
  - by intros (? & ? & [= <- <-] & ?).
  - by intros (? & ? & ? & ?).
Qed.

(** Loop rule: the invariant speaks of the elements still to be visited. *)
Lemma wp_mfor {A} (I : list A -> S -> Prop) (body : A -> M S unit) l s :
  (forall a l' s', I (a :: l') s' -> wp (body a) (fun _ => I l') s') ->
  I l s -> wp (mfor l body) (fun _ => I []) s.
Proof.
  intros Hbody. revert s. induction l as [|a l IH]; intros s Hs; [done|].
  cbn. apply wp_bind. eapply wp_mono; [by apply Hbody|]. eauto.
Qed.
End wp_rules.

(** Partial correctness: if [m] returns from [s], its result and final store
    satisfy [Q]. *)
Definition wlp {S A} (m : M S A) (Q : A -> S -> Prop) (s : S) : Prop :=
  match m s with Done (a, s') => Q a s' | Undef => True end.

Section wlp_rules.
Context {S : Type}.

Lemma wlp_ret {A} (a : A) (Q : A -> S -> Prop) s : Q a s -> wlp (mret a) Q s.
Proof. done. Qed.

Lemma wlp_bind {A B} (m : M S A) (f : A -> M S B) Q s :
  wlp m (fun a s' => wlp (f a) Q s') s -> wlp (m ≫= f) Q s.
Proof. unfold wlp, mbind, M_bind. by destruct (m s) as [[a s']|]. Qed.

Lemma wlp_gets {A} (f : S -> A) (Q : A -> S -> Prop) s : Q (f s) s -> wlp (gets f) Q s.
Proof. done. Qed.

Lemma wlp_modify (f : S -> S) (Q : unit -> S -> Prop) s : Q tt (f s) -> wlp (modify f) Q s.
Proof. done. Qed.

Lemma wlp_undef {A} (Q : A -> S -> Prop) s : wlp undef Q s.
Proof. done. Qed.

Lemma wlp_mono {A} (m : M S A) (Q Q' : A -> S -> Prop) s :
  wlp m Q s -> (forall a s', Q a s' -> Q' a s') -> wlp m Q' s.
Proof. unfold wlp. destruct (m s) as [[a s']|]; auto. Qed.

Lemma wlp_Done {A} (m : M S A) Q s a s' : wlp m Q s -> m s = Done (a, s') -> Q a s'.
Proof. unfold wlp. intros H E. by rewrite E in H. Qed.

Lemma wp_result {A} (m : M S A) Q s a s' : wp m Q s -> m s = Done (a, s') -> Q a s'.
Proof. unfold wp. intros H E. by rewrite E in H. Qed.

(** Total correctness is partial correctness and definedness. *)
Lemma wp_wlp {A} (m : M S A) (Q R : A -> S -> Prop) s :
  wp m R s -> wlp m Q s -> wp m (fun a s' => R a s' /\ Q a s') s.
Proof. unfold wp, wlp. by destruct (m s) as [[a s']|]. Qed.
End wlp_rules.

(** [wp_step]: one step of symbolic execution of a [wp] or [wlp] goal. *)
Ltac wp_step :=
  lazymatch goal with
  | |- wp (mret _) _ _ => apply wp_ret
  | |- wp (_ ≫= _) _ _ => apply wp_bind
  | |- wp (gets _) _ _ => apply wp_gets
  | |- wp (modify _) _ _ => apply wp_modify
  | |- wp (liftF _) _ _ => apply wp_liftF
  | |- wlp (mret _) _ _ => apply wlp_ret
  | |- wlp (_ ≫= _) _ _ => apply wlp_bind
  | |- wlp (gets _) _ _ => apply wlp_gets
  | |- wlp (modify _) _ _ => apply wlp_modify
  | |- wlp undef _ _ => apply wlp_undef
  end.
Ltac wp_steps := repeat (wp_step; cbn beta).

(** Case analysis on the guard of the goal, keeping the equation. *)
Ltac guard_cases :=
  repeat match goal with
  | |- context [if ?b then _ else _] => let E := fresh "E" in destruct b eqn:E
  end.

(** ** Computations that may stop *)

(** [Stops S X A]: a computation on [S] that returns an [A], or stops the computation
    that it is a part of with an [X]: the process exits, or an exception is thrown. *)
Definition Stops (S X A : Type) : Type := M S (X + A).

#[export] Instance Stops_ret S X : MRet (Stops S X) := fun A a s => Done (inr a, s).
#[export] Instance Stops_bind S X : MBind (Stops S X) := fun A B f m s =>
  match m s with
  | Done (inr a, s') => f a s'
  | Done (inl x, s') => Done (inl x, s')
  | Undef => Undef
  end.

Definition stop {S X A} (x : X) : Stops S X A := fun s => Done (inl x, s).

Section wpx_rules.
Context {S X : Type}.

(** [m] has no undefined behaviour from [s]; if it returns, [Q] holds, if it stops, [R]. *)
Definition wpx {A} (m : Stops S X A) (Q : A -> S -> Prop) (R : X -> S -> Prop) (s : S) : Prop :=
  match m s with
  | Done (inr a, s') => Q a s'
  | Done (inl x, s') => R x s'
  | Undef => False
  end.

Lemma wpx_ret {A} (a : A) (Q : A -> S -> Prop) (R : X -> S -> Prop) s : Q a s -> wpx (mret a) Q R s.
Proof. done. Qed.

Lemma wpx_bind {A B} (m : Stops S X A) (f : A -> Stops S X B) Q R s :
  wpx m (fun a => wpx (f a) Q R) R s -> wpx (m ≫= f) Q R s.
Proof. unfold wpx, mbind, Stops_bind. by destruct (m s) as [[[x|a] s']|]. Qed.

Lemma wpx_stop {A} x (Q : A -> S -> Prop) (R : X -> S -> Prop) s : R x s -> wpx (stop x) Q R s.
Proof. done. Qed.

Lemma wpx_mono {A} (m : Stops S X A) (Q Q' : A -> S -> Prop) (R R' : X -> S -> Prop) s :
  wpx m Q R s -> (forall a s', Q a s' -> Q' a s') -> (forall x s', R x s' -> R' x s') -> wpx m Q' R' s.
Proof. unfold wpx. destruct (m s) as [[[x|a] s']|]; auto. Qed.

Lemma wpx_and {A} (m : Stops S X A) (Q Q' : A -> S -> Prop) (R R' : X -> S -> Prop) s :
  wpx m Q R s -> wpx m Q' R' s -> wpx m (fun a s' => Q a s' /\ Q' a s') (fun x s' => R x s' /\ R' x s') s.
Proof. unfold wpx. destruct (m s) as [[[x|a] s']|]; auto. Qed.

Lemma wpx_returns {A} (m : Stops S X A) Q R s a s' : wpx m Q R s -> m s = Done (inr a, s') -> Q a s'.
Proof. unfold wpx. intros Hw Hm. by rewrite Hm in Hw. Qed.
End wpx_rules.

(** ** Transition sequences *)

Section sequences.
Context {A : Type} (R : A -> A -> Prop).

Lemma rtc_invariant (I : A -> Prop) x y :
  (forall a b, I a -> R a b -> I b) -> I x -> rtc R x y -> I y.
Proof. intros Hstep Hx Hr. revert Hx. induction Hr; eauto. Qed.
End sequences.

Create HintDb ocvsmd.
Create Rewrite HintDb ocvsmd_rw.
#[export] Hint Resolve wrap_bound Z_of_byte_bound is_prefix_app : ocvsmd.
#[export] Hint Rewrite length_le_bytes le_value_bytes @length_app @length_take @length_drop : ocvsmd_rw.
