(* ===== verification/Errors.v ===== *)
(** * Errors: [sdk::Error], [errno] mapping and the DSDL error record

    Models [include/ocvsmd/sdk/defines.hpp] (the error type),
    [src/common/common_helpers.hpp] (the conversions to and from the wire and
    the formatter) and [src/daemon/engine/engine_helpers.hpp] (failures of the
    Cyphal stack).  An error code is the raw [std::uint32_t] of the C++
    enumeration, because [static_cast] admits every raw value. *)
From S2P Require Import Prelude.

Local Open Scope Z_scope.

(** ** POSIX error numbers (the values of the Linux ABI) *)
Module Errno.
Definition EPERM := 1.
Definition ENOENT := 2.
Definition EINTR := 4.
Definition EIO := 5.
Definition E2BIG := 7.
Definition EBADF := 9.
Definition EAGAIN := 11.
Definition ENOMEM := 12.
Definition EACCES := 13.
Definition EBUSY := 16.
Definition EEXIST := 17.
Definition EISDIR := 21.
Definition EINVAL := 22.
Definition EFBIG := 27.
Definition ENOSPC := 28.
Definition ENAMETOOLONG := 36.
Definition EPROTO := 71.
Definition ENOTSUP := 95.
Definition ENETDOWN := 100.
Definition ENETUNREACH := 101.
Definition ECONNABORTED := 103.
Definition ECONNRESET := 104.
Definition ENOTCONN := 107.
Definition ESHUTDOWN := 108.
Definition ETIMEDOUT := 110.
Definition EHOSTDOWN := 112.
Definition EHOSTUNREACH := 113.
Definition EINPROGRESS := 115.
Definition ECANCELED := 125.
End Errno.

(** ** [sdk::Error::Code] *)
Module Code.
Definition Other := 1.
Definition Busy := 2.
Definition NoEntry := 3.
Definition Canceled := 4.
Definition TimedOut := 5.
Definition Shutdown := 6.
Definition OutOfMemory := 7.
Definition Disconnected := 8.
Definition NotConnected := 9.
Definition AlreadyExists := 10.
Definition InvalidArgument := 11.
Definition OperationInProgress := 12.
End Code.

(** [sdk::Error]: a code and the [errno] it came from, if any. *)
Record Error := mkError { getCode : Z; getOptErrno : option Z }.

(** [sdk::OptError]: [None] is success. *)
Abbreviation OptError := (option Error).

#[export] Instance Error_eq_dec : EqDecision Error.
Proof. solve_decision. Defined.

(** [Error{code}] *)
Definition Err (code : Z) : Error := mkError code None.

(** [operator==] compares the codes only. *)
Definition Error_eqb (lhs rhs : Error) : bool := getCode lhs =? getCode rhs.

(** Values that the two machine fields can hold. *)
Definition Error_wf (e : Error) : Prop :=
  0 <= getCode e < 2 ^ 32 /\
  (forall n, getOptErrno e = Some n -> - 2 ^ 31 <= n < 2 ^ 31).

Definition errnoToError (errno_value : Z) : Error :=
  let mk code := mkError code (Some errno_value) in
  if errno_value =? Errno.EBUSY then mk Code.Busy
  else if errno_value =? Errno.ENOENT then mk Code.NoEntry
  else if errno_value =? Errno.ETIMEDOUT then mk Code.TimedOut
  else if errno_value =? Errno.ENOMEM then mk Code.OutOfMemory
  else if errno_value =? Errno.EEXIST then mk Code.AlreadyExists
  else if errno_value =? Errno.EINVAL then mk Code.InvalidArgument
  else if errno_value =? Errno.ECANCELED then mk Code.Canceled
  else if errno_value =? Errno.ENOTCONN then mk Code.NotConnected
  else if errno_value =? Errno.ECONNRESET then mk Code.Disconnected
  else if errno_value =? Errno.ESHUTDOWN then mk Code.Shutdown
  else if errno_value =? Errno.EINPROGRESS then mk Code.OperationInProgress
  else mk Code.Other.

(** ** The DSDL record [ocvsmd.common.Error.0.1] *)
Record Error_0_1 := mkDsdlError { error_code : Z; raw_errno : Z }.

#[export] Instance Error_0_1_eq_dec : EqDecision Error_0_1.
Proof. solve_decision. Defined.

Definition dsdlErrorToOptError (dsdl_error : Error_0_1) : OptError :=
  if error_code dsdl_error =? 0 then None
  else
    let code := u32 (error_code dsdl_error) in
    if raw_errno dsdl_error =? 0 then Some (Err code)
    else Some (mkError code (Some (raw_errno dsdl_error))).

Definition optErrorToDsdlError (opt_error : OptError) : Error_0_1 :=
  match opt_error with
  | Some error => mkDsdlError (u32 (getCode error)) (default 0 (getOptErrno error))
  | None => mkDsdlError 0 0
  end.

(** ** Formatting ([fmt::formatter<sdk::Error>]) *)

Definition error_name (code : Z) : string :=
  if code =? Code.Other then "Other"
  else if code =? Code.Busy then "Busy"
  else if code =? Code.NoEntry then "NoEntry"
  else if code =? Code.TimedOut then "TimedOut"
  else if code =? Code.OutOfMemory then "OutOfMemory"
  else if code =? Code.AlreadyExists then "AlreadyExists"
  else if code =? Code.InvalidArgument then "InvalidArgument"
  else if code =? Code.Canceled then "Canceled"
  else if code =? Code.NotConnected then "NotConnected"
  else if code =? Code.Disconnected then "Disconnected"
  else if code =? Code.Shutdown then "Shutdown"
  else if code =? Code.OperationInProgress then "OperationInProgress"
  else "ErrorCode".

Definition format_error (error : Error) : string :=
  match getOptErrno error with
  | Some n => error_name (getCode error) +:+ "(errno=" +:+ pretty n +:+ ")"
  | None => error_name (getCode error)
  end.

Definition format_opt_error (opt_error : OptError) : string :=
  match opt_error with Some error => format_error error | None => "null" end.

(** ** Failures of the Cyphal stack *)

(** The alternatives of the libcyphal and Nunavut failure variants. *)
Inductive CyError : Type :=
| MemoryError
| CapacityError
| ArgumentError
| AnonymousError
| SerializationError
| AlreadyExistsError
| PlatformError (code : Z)
| ResponsePromiseExpired
| TooManyPendingRequestsError.

(** [PosixPlatformError::code]: the [int] error number as [std::uint32_t]. *)
Definition PosixPlatformError_code (code_ : Z) : Z := u32 code_.

Definition cyErrorToSdkError (cy_error : CyError) : Error :=
  match cy_error with
  | MemoryError => Err Code.OutOfMemory
  | CapacityError => Err Code.OutOfMemory
  | ArgumentError => Err Code.InvalidArgument
  | AnonymousError => Err Code.InvalidArgument
  | SerializationError => Err Code.InvalidArgument
  | AlreadyExistsError => Err Code.AlreadyExists
  | PlatformError code => errnoToError (i32 code)
  | ResponsePromiseExpired => Err Code.TimedOut
  | TooManyPendingRequestsError => Err Code.Busy
  end.

Definition cyFailureToOptError (cy_failure : CyError) : OptError :=
  Some (cyErrorToSdkError cy_failure).

(** ** Properties *)

Lemma errnoToError_errno n : getOptErrno (errnoToError n) = Some n.
Proof. unfold errnoToError. by guard_cases. Qed.

Lemma errnoToError_code n :
  1 <= getCode (errnoToError n) <= Code.OperationInProgress.
Proof. unfold errnoToError. guard_cases; cbv; split; congruence. Qed.

Lemma errnoToError_wf n : - 2 ^ 31 <= n < 2 ^ 31 -> Error_wf (errnoToError n).
Proof.
  intros Hn. pose proof (errnoToError_code n) as Hc. cbv [Code.OperationInProgress] in Hc.
  split; [lia|]. rewrite errnoToError_errno. by intros ? [= <-].
Qed.

Lemma i32_u32 z : - 2 ^ 31 <= z < 2 ^ 31 -> i32 (u32 z) = z.
Proof. intros. rewrite <- (i32_id z) at 2 by done. unfold i32. by rewrite wrap_wrap. Qed.

(** What survives a trip over the wire: an [errno] of [0] is dropped. *)
Definition on_wire (e : Error) : Error :=
  mkError (getCode e) (match getOptErrno e with
                       | Some n => if n =? 0 then None else Some n
                       | None => None
                       end).

Definition wire_error (opt_error : OptError) : OptError :=
  match opt_error with
  | Some e => Some (on_wire e)
  | None => None
  end.

Lemma dsdl_roundtrip_general opt_error :
  (forall e, opt_error = Some e -> Error_wf e /\ getCode e <> 0) ->
  dsdlErrorToOptError (optErrorToDsdlError opt_error) = wire_error opt_error.
Proof.
  intros Hwf. destruct opt_error as [e|]; [|done].
  destruct (Hwf e eq_refl) as [[Hc Hn] Hnz]. cbn.
  unfold dsdlErrorToOptError; cbn. rewrite !wrap_id by (rewrite ?wrap_id; lia).
  destruct (Z.eqb_spec (getCode e) 0) as [|Hc0]; [done|]. unfold on_wire.
  destruct (getOptErrno e) as [n|]; cbn; [|done].
  by destruct (Z.eqb_spec n 0) as [->|].
Qed.

Lemma dsdl_roundtrip_exact e :
  Error_wf e -> getCode e <> 0 -> getOptErrno e <> Some 0 ->
  dsdlErrorToOptError (optErrorToDsdlError (Some e)) = Some e.
Proof.
  intros Hwf Hc Hn. rewrite dsdl_roundtrip_general by (intros ? [= <-]; done).
  destruct e as [c [n|]]; [|done]. cbn in *. unfold on_wire; cbn.
  by destruct (Z.eqb_spec n 0) as [->|].
Qed.

(** An SDK error crosses the IPC wire unchanged (code and [errno]) exactly
    when its code is not zero and it does not carry the [errno] zero. *)
Theorem dsdl_error_roundtrip (e : Error) :
  Error_wf e ->
  dsdlErrorToOptError (optErrorToDsdlError (Some e)) = Some e <->
  getCode e <> 0 /\ getOptErrno e <> Some 0.
Proof.
  intros Hwf. split; [|intros []; by apply dsdl_roundtrip_exact].
  intros H. assert (Hc : getCode e <> 0).
  { intros H0. unfold dsdlErrorToOptError in H. cbn in H. by rewrite H0 in H. }
  split; [done|]. intros Hn.
  rewrite dsdl_roundtrip_general in H by (intros ? [= <-]; done).
  destruct e as [c o]. cbn in *. by subst o.
Qed.

Lemma dsdl_error_roundtrip_witness :
  dsdlErrorToOptError (optErrorToDsdlError (Some (errnoToError Errno.ENOENT)))
  = Some (mkError Code.NoEntry (Some Errno.ENOENT)).
Proof.
  apply (dsdl_error_roundtrip (errnoToError Errno.ENOENT)).
  - split; [cbv; intuition congruence|]. intros n [= <-]. cbv; intuition congruence.
  - by vm_compute.
Defined.

(** Every failure of the Cyphal stack is an error for the IPC client. *)
Lemma cy_failure_seen (f : CyError) :
  dsdlErrorToOptError (optErrorToDsdlError (cyFailureToOptError f)) = Some (on_wire (cyErrorToSdkError f)).
Proof.
  unfold cyFailureToOptError. rewrite dsdl_roundtrip_general; [done|]. intros e [= <-].
  assert (forall z, - 2 ^ 31 <= i32 z < 2 ^ 31) as Hi.
  { intros z. unfold i32. pose proof (wrap_bound 32 z ltac:(lia)). destruct (Z.ltb_spec (wrap 32 z) (2 ^ 31)); lia. }
  assert (forall c, 0 < c < 2 ^ 32 -> Error_wf (Err c) /\ getCode (Err c) <> 0) as Hs
    by (intros c Hc; split; [split; cbn; [lia|done]|cbn; lia]).
  destruct f; cbn [cyErrorToSdkError]; try (apply Hs; cbv; intuition congruence).
  split; [by apply errnoToError_wf|]. pose proof (errnoToError_code (i32 code)). lia.
Qed.

(** Failures that the Cyphal stack reports: a platform error has an error number. *)
Definition cy_failure_ok (f : CyError) : Prop :=
  forall c, f = PlatformError c -> exists n, c = PosixPlatformError_code n /\ 0 < n < 2 ^ 31.

(** Every failure of the Cyphal stack reaches the IPC client as the same error:
    the code that the daemon chose and the platform's error number. *)
Lemma cy_failure_over_wire (f : CyError) :
  cy_failure_ok f -> dsdlErrorToOptError (optErrorToDsdlError (cyFailureToOptError f)) = cyFailureToOptError f.
Proof.
  intros Hp. unfold cyFailureToOptError.
  assert (Hsimple : forall c, 0 < c < 2 ^ 32 ->
    dsdlErrorToOptError (optErrorToDsdlError (Some (Err c))) = Some (Err c)).
  { intros c Hc. apply dsdl_roundtrip_exact; cbn; [|lia|done]. split; cbn; [lia|done]. }
  destruct f; cbn [cyErrorToSdkError]; try (apply Hsimple; cbv; intuition congruence).
  destruct (Hp _ eq_refl) as (n & -> & Hn).
  unfold PosixPlatformError_code. rewrite i32_u32 by lia.
  pose proof (errnoToError_code n). apply dsdl_roundtrip_exact.
  - apply errnoToError_wf. lia.
  - lia.
  - rewrite errnoToError_errno. intros [= ->]. lia.
Qed.

(** The comment above [errnoToError] promises [nullopt] for [0]; the code
    returns an error in that case too (the comment belongs to the function
    below it). *)
Example errnoToError_zero : errnoToError 0 = mkError Code.Other (Some 0).
Proof. reflexivity. Qed.
