(* ===== verification/SocketBuffer.v ===== *)
(** * Payload fragments, [io::SocketBuffer] and DSDL serialisation helpers

    Models [src/common/io/socket_buffer.hpp] and [src/common/dsdl_helpers.hpp].
    A payload is a span of constant bytes that may have a null data pointer; a
    socket buffer is a list of such spans with their running total. The DSDL
    (de)serialisers are generated by Nunavut and are not part of the
    repository: they are the operations of the class [Codec]. *)
From S2P Require Import Prelude Errors.

Local Open Scope Z_scope.

(** [io::Payload] ([libcyphal::transport::PayloadFragment], a span). *)
Record Payload := mkPayload { pl_null : bool; pl_bytes : bytes }.

(** A span over existing data. *)
Definition span (bs : bytes) : Payload := mkPayload false bs.

Definition pl_size (p : Payload) : Z := Z.of_nat (length (pl_bytes p)).

(** [payload.subspan(offset)], with [offset] a [std::size_t]: beyond the end of
    the span the behaviour is undefined. *)
Definition subspan (p : bytes) (offset : Z) : outcome bytes :=
  if u64 offset <=? Z.of_nat (length p) then Done (drop (Z.to_nat (u64 offset)) p) else Undef.

Module SocketBuffer.
Record t := mk { size_ : Z; payloads_ : list Payload }.

Definition empty : t := mk 0 [].

Definition isValidPayload (payload : Payload) : bool :=
  negb (pl_null payload) && negb (bool_decide (pl_bytes payload = [])).

Definition size (b : t) : Z := size_ b.
Definition listFragments (b : t) : list Payload := payloads_ b.

Definition prepend (payload : Payload) (b : t) : t :=
  if isValidPayload payload
  then mk (u64 (size_ b + pl_size payload)) (payload :: payloads_ b) else b.

Definition append (payload : Payload) (b : t) : t :=
  if isValidPayload payload
  then mk (u64 (size_ b + pl_size payload)) (payloads_ b ++ [payload]) else b.

(** [IFragmentsVisitor::onNext] *)
Definition onNext (payload : Payload) (b : t) : t :=
  if isValidPayload payload
  then mk (u64 (size_ b + pl_size payload)) (payloads_ b ++ [payload]) else b.

(** [SocketBuffer(const Payload)] *)
Definition ofPayload (payload : Payload) : t := append payload empty.

(** [SocketBuffer(const ScatteredBuffer&)]: [forEachFragment] visits the
    fragments in order. *)
Definition ofFragments (fragments : list Payload) : t :=
  fold_left (fun b p => onNext p b) fragments empty.

(** The bytes that a reader of all the fragments sees. *)
Definition contents (b : t) : bytes := concat (pl_bytes <$> payloads_ b).

(** What a valid payload contributes. *)
Definition payload_data (p : Payload) : bytes := if isValidPayload p then pl_bytes p else [].

(** Type invariant: the size is the total length, and no fragment is empty. *)
Definition wf (b : t) : Prop :=
  size_ b = u64 (Z.of_nat (length (contents b))) /\
  Forall (fun p => isValidPayload p = true) (payloads_ b).

Lemma wf_empty : wf empty.
Proof. split; [done|constructor]. Qed.

Lemma contents_prepend p b : contents (prepend p b) = payload_data p ++ contents b.
Proof. unfold contents, prepend, payload_data. by destruct (isValidPayload p). Qed.

Lemma contents_append p b : contents (append p b) = contents b ++ payload_data p.
Proof.
  unfold contents, append, payload_data. destruct (isValidPayload p); cbn.
  - by rewrite fmap_app, concat_app; cbn; rewrite app_nil_r.
  - by rewrite app_nil_r.
Qed.

Lemma size_add (n m : nat) : u64 (u64 (Z.of_nat n) + Z.of_nat m) = u64 (Z.of_nat (m + n)).
Proof. rewrite wrap_add_l. f_equal. lia. Qed.

Lemma wf_prepend p b : wf b -> wf (prepend p b).
Proof.
  intros [Hs Hf]. split.
  - rewrite contents_prepend. unfold prepend, payload_data.
    destruct (isValidPayload p); [|done]. cbn. rewrite Hs, length_app.
    unfold pl_size. by rewrite size_add.
  - unfold prepend. destruct (isValidPayload p) eqn:E; [|done]. by constructor.
Qed.

Lemma wf_append p b : wf b -> wf (append p b).
Proof.
  intros [Hs Hf]. split.
  - rewrite contents_append. unfold append, payload_data.
    destruct (isValidPayload p); [|by rewrite app_nil_r]. cbn.
    rewrite Hs, length_app. unfold pl_size. rewrite size_add. do 2 f_equal. lia.
  - unfold append. destruct (isValidPayload p) eqn:E; [|done]. cbn.
    apply Forall_app. repeat constructor; auto.
Qed.

Lemma onNext_append p b : onNext p b = append p b.
Proof. reflexivity. Qed.

Lemma ofFragments_acc fs b :
  wf b ->
  wf (fold_left (fun b p => onNext p b) fs b) /\
  contents (fold_left (fun b p => onNext p b) fs b) =
  contents b ++ concat (payload_data <$> fs).
Proof.
  revert b. induction fs as [|p fs IH]; intros b Hb; cbn.
  - by rewrite app_nil_r.
  - destruct (IH (onNext p b)) as [Hw Hc]; [by apply wf_append|].
    split; [done|]. by rewrite Hc, onNext_append, contents_append, <- app_assoc.
Qed.

(** Building a buffer from scattered fragments and then putting a header
    in front keeps every byte in order, drops null and empty fragments only,
    and the size is the total length. *)
Theorem scattered_then_prepend (hdr : Payload) (fs : list Payload) :
  wf (prepend hdr (ofFragments fs)) /\
  contents (prepend hdr (ofFragments fs)) = payload_data hdr ++ concat (payload_data <$> fs).
Proof.
  destruct (ofFragments_acc fs empty wf_empty) as [Hw Hc].
  split; [by apply wf_prepend|]. rewrite contents_prepend. by setoid_rewrite Hc.
Qed.

Lemma payload_data_span bs : payload_data (span bs) = bs.
Proof. unfold payload_data, isValidPayload. cbn. by destruct bs. Qed.

Lemma contents_ofPayload p : contents (ofPayload p) = payload_data p.
Proof. unfold ofPayload. by rewrite contents_append. Qed.

Lemma wf_ofPayload p : wf (ofPayload p).
Proof. apply wf_append, wf_empty. Qed.
End SocketBuffer.

#[export] Hint Resolve SocketBuffer.wf_empty SocketBuffer.wf_prepend SocketBuffer.wf_append
  SocketBuffer.wf_ofPayload : ocvsmd.

(** ** DSDL codecs

    [serialize m n]: the generated serialiser writing into a buffer of [n]
    bytes; [None] when it reports an error. [deserialize] reads a message from
    the front of the data. *)
Class Codec (T : Type) := {
  serialize : T -> Z -> option bytes;
  deserialize : bytes -> option T;
  SerializationBufferSizeBytes : Z;
}.

(** What the code relies on: a deserialiser reads back the value that was
    serialised, whatever bytes follow it (DSDL's implicit truncation). *)
Class CodecOk (T : Type) `{Codec T} (valid : T -> Prop) := {
  serialize_total m :
    valid m -> exists bs, serialize m SerializationBufferSizeBytes = Some bs /\ bs <> [];
  deserialize_serialize m bs rest :
    valid m -> serialize m SerializationBufferSizeBytes = Some bs ->
    deserialize (bs ++ rest) = Some m;
}.

(** In C++ the fields of a message hold only values of their types, so nothing else is ever
    serialised. *)
Class CodecTyped (T : Type) `{Codec T} (valid : T -> Prop) : Prop :=
  serialize_typed m bs : serialize m SerializationBufferSizeBytes = Some bs -> valid m.

Definition tryDeserializePayload {T} `{Codec T} (payload : bytes) : option T :=
  deserialize payload.

(** The three overloads of [tryPerformOnSerialized] differ in where the
    serialisation buffer lives (stack or heap), which the model does not see. *)
Definition tryPerformOnSerialized {T S} `{Codec T} (message : T) (BufferSize : Z)
    (action : Payload -> M S OptError) : M S OptError :=
  match serialize message BufferSize with
  | None => mret (Some (Err Code.InvalidArgument))
  | Some bs => action (span bs)
  end.

(** The tail of a payload: [payload.subspan(payload.size() - size)]. *)
Definition payload_tail (payload : bytes) (size : Z) : outcome bytes :=
  subspan payload (Z.of_nat (length payload) - size).

Lemma payload_tail_app (pre data : bytes) :
  Z.of_nat (length (pre ++ data)) < 2 ^ 64 ->
  payload_tail (pre ++ data) (Z.of_nat (length data)) = Done data.
Proof.
  intros Hlen. unfold payload_tail, subspan. rewrite length_app in *.
  rewrite wrap_id by lia. rewrite (proj2 (Z.leb_le _ _)) by lia.
  f_equal. replace (Z.to_nat _) with (length pre) by lia. by rewrite drop_app_length.
Qed.

(** The defined cases of [payload_tail] are exactly the sizes that fit. *)
Lemma payload_tail_defined (payload : bytes) (size : Z) :
  Z.of_nat (length payload) < 2 ^ 64 -> 0 <= size < 2 ^ 64 ->
  payload_tail payload size <> Undef <-> size <= Z.of_nat (length payload).
Proof.
  intros Hl Hs. unfold payload_tail, subspan.
  destruct (decide (size <= Z.of_nat (length payload))) as [Hle|Hgt].
  - rewrite wrap_id by lia. rewrite (proj2 (Z.leb_le _ _)) by lia. done.
  - assert (u64 (Z.of_nat (length payload) - size)
            = Z.of_nat (length payload) - size + 2 ^ 64) as ->.
    { unfold wrap. rewrite <- (Z.mod_add _ 1) by lia. rewrite Z.mod_small by lia. lia. }
    rewrite (proj2 (Z.leb_gt _ _)) by lia. tauto.
Qed.
