(* ===== verification/Posix.v ===== *)
(** * System calls: the kernel's answers, EINTR retries and owned descriptors

    Models [include/ocvsmd/platform/posix_utils.hpp] ([posixSyscallError]) and
    the RAII descriptor of [src/common/io/io.hpp] and [io.cpp]. The kernel is
    not part of the repository: it is a finite script of answers, one per call
    (after the script every call returns 0), so each call is interrupted only
    finitely often; the calls made are logged in order. *)
From S2P Require Import Prelude Errors.

Local Open Scope Z_scope.

(** The result of one system call: its return value or [errno]. *)
Inductive SysRes : Type :=
| Ret (v : Z)
| Fail (errno : Z).

(** The calls that the modelled code makes. *)
Inductive Syscall : Type :=
| SysSocket (family type : Z)
| SysSetNonBlock (fd : Z)
| SysSetNoDelay (fd : Z)
| SysSetReuseAddr (fd : Z)
| SysSetV6Only (fd value : Z)
| SysBind (fd : Z)
| SysListen (fd backlog : Z)
| SysConnect (fd : Z)
| SysAccept (fd : Z)
| SysGetSockError (fd : Z)
| SysClose (fd : Z).

#[export] Instance Syscall_eq_dec : EqDecision Syscall.
Proof. solve_decision. Defined.

Record Kernel := mkKernel { k_script : list SysRes; k_calls : list Syscall }.

(** One call, whatever its answer. *)
Definition syscall (c : Syscall) (k : Kernel) : SysRes * Kernel :=
  match k_script k with
  | [] => (Ret 0, mkKernel [] (k_calls k ++ [c]))
  | r :: s => (r, mkKernel s (k_calls k ++ [c]))
  end.

(** [posixSyscallError]: repeat the call while it fails with [EINTR]. The final
    answer is returned; the C++ function returns its [errno], or 0. *)
Fixpoint posix_retry (c : Syscall) (script : list SysRes) (calls : list Syscall) : SysRes * Kernel :=
  match script with
  | [] => (Ret 0, mkKernel [] (calls ++ [c]))
  | Fail error_num :: s =>
      if error_num =? Errno.EINTR then posix_retry c s (calls ++ [c])
      else (Fail error_num, mkKernel s (calls ++ [c]))
  | Ret v :: s => (Ret v, mkKernel s (calls ++ [c]))
  end.

Definition posixSyscallError (c : Syscall) (k : Kernel) : SysRes * Kernel :=
  posix_retry c (k_script k) (k_calls k).

(** The calls are a repetition of the one requested. *)
Definition repeated (c : Syscall) (n : nat) : list Syscall := replicate n c.

Lemma posix_retry_calls c script calls r k :
  posix_retry c script calls = (r, k) ->
  exists n, k_calls k = calls ++ repeated c (S n).
Proof.
  revert calls. induction script as [|[v|e] s IH]; intros calls H; cbn in H.
  - injection H as <- <-. by exists O.
  - injection H as <- <-. by exists O.
  - destruct (Z.eqb_spec e Errno.EINTR).
    + destruct (IH _ H) as [n Hn]. exists (S n). by rewrite Hn, <- app_assoc.
    + injection H as <- <-. by exists O.
Qed.

(** The wrapper never reports [EINTR], stops at the first answer that is
    not an interruption and consumes exactly the interruptions before it. *)
Theorem posixSyscallError_spec (c : Syscall) (n : nat) (r : SysRes) (s : list SysRes) (calls : list Syscall) :
  r <> Fail Errno.EINTR ->
  posixSyscallError c (mkKernel (replicate n (Fail Errno.EINTR) ++ r :: s) calls) =
  (r, mkKernel s (calls ++ repeated c (S n))).
Proof.
  intros Hr. unfold posixSyscallError; cbn. revert calls.
  induction n as [|n IH]; intros calls; cbn.
  - destruct r as [v|e]; [done|].
    by destruct (Z.eqb_spec e Errno.EINTR) as [->|].
  - by rewrite IH, <- app_assoc.
Qed.

Lemma posixSyscallError_spec_witness :
  posixSyscallError (SysBind 3) (mkKernel [Fail Errno.EINTR; Fail Errno.EINTR; Fail Errno.EINVAL; Ret 0] [])
  = (Fail Errno.EINVAL, mkKernel [Ret 0] [SysBind 3; SysBind 3; SysBind 3]).
Proof. apply (posixSyscallError_spec (SysBind 3) 2 (Fail Errno.EINVAL) [Ret 0] []). by vm_compute. Defined.

Lemma posixSyscallError_not_EINTR c k r k' :
  posixSyscallError c k = (r, k') -> r <> Fail Errno.EINTR.
Proof.
  unfold posixSyscallError. generalize (k_calls k).
  induction (k_script k) as [|[v|e] s IH]; intros calls H; cbn in H; try congruence.
  destruct (Z.eqb_spec e Errno.EINTR); [eauto|congruence].
Qed.

(** ** [io::OwnedFd] *)

(** [OwnedFd::reset]: close once, whatever [close] answers. *)
Definition OwnedFd_reset (fd : Z) (k : Kernel) : Z * Kernel :=
  if 0 <=? fd then (-1, (syscall (SysClose fd) k).2) else (fd, k).

(** The destructor. *)
Definition OwnedFd_drop (fd : Z) (k : Kernel) : Kernel := (OwnedFd_reset fd k).2.

(** Move assignment: the old descriptor is destroyed, the source is left empty.
    Returns the new value of the target and of the source. *)
Definition OwnedFd_move (fd other : Z) (k : Kernel) : Z * Z * Kernel :=
  (other, -1, OwnedFd_drop fd k).

Lemma syscall_calls c k : k_calls (syscall c k).2 = k_calls k ++ [c].
Proof. unfold syscall. by destruct (k_script k). Qed.

Lemma OwnedFd_drop_calls fd k :
  k_calls (OwnedFd_drop fd k) = k_calls k ++ (if 0 <=? fd then [SysClose fd] else []).
Proof.
  unfold OwnedFd_drop, OwnedFd_reset. destruct (0 <=? fd).
  - apply syscall_calls.
  - by rewrite app_nil_r.
Qed.

(** Closing twice is harmless: the second reset makes no call. *)
Lemma OwnedFd_reset_idem fd k :
  let '(fd', k') := OwnedFd_reset fd k in OwnedFd_reset fd' k' = (fd', k').
Proof. unfold OwnedFd_reset. destruct (0 <=? fd) eqn:E; by rewrite ?E. Qed.
