(* ===== verification/SocketAddress.v ===== *)
(** * [io::SocketAddress]: parsing, printing and socket set-up

    Models [src/common/io/socket_address.hpp] and [.cpp]. Strings are byte
    lists. The address text conversions [inet_pton] and [inet_ntop] belong to
    the platform and are section variables; [strtoull] is the C function. *)
From S2P Require Import Prelude Errors Posix.

Local Open Scope Z_scope.

Definition AF_UNSPEC := 0.
Definition AF_UNIX := 1.
Definition AF_INET := 2.
Definition AF_INET6 := 10.
Definition SOCK_STREAM := 1.

(** [sizeof sockaddr_un::sun_path], [offsetof(sockaddr_un, sun_path)],
    [sizeof sockaddr_in], [sizeof sockaddr_in6] and [sizeof sockaddr_storage]. *)
Definition sun_path_size : nat := 108.
Definition sun_path_offset := 2.
Definition sockaddr_in_size := 16.
Definition sockaddr_in6_size := 28.
Definition sockaddr_storage_size := 128.

(** [htons] and [ntohs] on a little-endian host. *)
Definition htons (p : Z) : Z := (p mod 256) * 256 + p / 256.
Definition ntohs := htons.
Arguments htons : simpl never.
Arguments ntohs : simpl never.

Lemma ntohs_htons p : 0 <= p < 2 ^ 16 -> ntohs (htons p) = p.
Proof.
  intros. unfold ntohs, htons.
  pose proof (Z.mod_pos_bound p 256). pose proof (Z.div_mod p 256).
  assert (0 <= p / 256 < 256) by (split; [apply Z.div_pos|apply Z.div_lt_upper_bound]; lia).
  assert (((p mod 256) * 256 + p / 256) mod 256 = p / 256) as ->.
  { rewrite Z.add_comm, Z.mod_add by lia. by rewrite Z.mod_small by lia. }
  rewrite Z.div_add_l by lia. rewrite (Z.div_small (p / 256)) by lia. lia.
Qed.

(** The storage, by the member of the union that is in use. *)
Inductive Addr : Type :=
| AddrUnspec
| AddrUnix (sun_path : bytes)
| AddrInet (sin_port : Z) (sin_addr : bytes)
| AddrInet6 (sin6_port : Z) (sin6_addr : bytes).

Record SocketAddress := mkSA { is_wildcard_ : bool; addr_len_ : Z; addr_storage_ : Addr }.

#[export] Instance Addr_eq_dec : EqDecision Addr.
Proof. solve_decision. Defined.
#[export] Instance SocketAddress_eq_dec : EqDecision SocketAddress.
Proof. solve_decision. Defined.

(** [SocketAddress{}] *)
Definition SocketAddress_default : SocketAddress := mkSA false 0 AddrUnspec.

Definition sa_family (sa : SocketAddress) : Z :=
  match addr_storage_ sa with
  | AddrUnspec => AF_UNSPEC
  | AddrUnix _ => AF_UNIX
  | AddrInet _ _ => AF_INET
  | AddrInet6 _ _ => AF_INET6
  end.

Definition isUnix (sa : SocketAddress) : bool := sa_family sa =? AF_UNIX.
Definition isAnyInet (sa : SocketAddress) : bool :=
  (sa_family sa =? AF_INET) || (sa_family sa =? AF_INET6).

Definition getPort (sa : SocketAddress) : Z :=
  match addr_storage_ sa with
  | AddrInet sin_port _ => ntohs sin_port
  | AddrInet6 sin6_port _ => ntohs sin6_port
  | _ => 0
  end.

(** ** The C library *)

(** [std::string::find_first_of(c)] and [find_last_of(c)]. *)
Definition find_first_of (c : byte) (s : bytes) : option nat :=
  fst <$> list_find (fun b => b = c) s.
Definition find_last_of (c : byte) (s : bytes) : option nat :=
  (fun i => length s - 1 - i)%nat <$> find_first_of c (reverse s).

(** [fmt::format("{}", n)] for an unsigned number of at most 20 digits. *)
Definition digit (d : Z) : byte := byte_of_Z (48 + d).
Fixpoint dec_go (fuel : nat) (n : Z) (acc : bytes) : bytes :=
  match fuel with
  | O => acc
  | S f => if n <? 10 then digit n :: acc else dec_go f (n / 10) (digit (n mod 10) :: acc)
  end.
Definition format_uint (n : Z) : bytes := dec_go 20 n [].

Arguments format_uint : simpl never.

Definition is_space (b : byte) : bool :=
  let z := Z_of_byte b in (z =? 32) || ((9 <=? z) && (z <=? 13)).

(** The value of a digit in any base up to 16. *)
Definition digit_value (b : byte) : option Z :=
  let z := Z_of_byte b in
  if (48 <=? z) && (z <=? 57) then Some (z - 48)
  else if (97 <=? z) && (z <=? 102) then Some (z - 87)
  else if (65 <=? z) && (z <=? 70) then Some (z - 55)
  else None.

Definition digit_in (base : Z) (b : byte) : option Z :=
  match digit_value b with
  | Some d => if d <? base then Some d else None
  | None => None
  end.

(** The longest run of digits: its value and what follows it. *)
Fixpoint take_digits (base acc : Z) (s : bytes) : Z * bytes :=
  match s with
  | [] => (acc, [])
  | b :: s' => match digit_in base b with
               | Some d => take_digits base (acc * base + d) s'
               | None => (acc, s)
               end
  end.

Fixpoint drop_spaces (s : bytes) : bytes :=
  match s with
  | b :: s' => if is_space b then drop_spaces s' else s
  | [] => []
  end.

Definition ULLONG_MAX := 2 ^ 64 - 1.

(** [strtoull(s, &end, 0)]: white space, an optional sign, a base prefix and
    digits; the result is the value and the text at [end]. Without digits the
    value is 0 and [end] is the whole text; out of range gives [ULLONG_MAX]. *)
Definition strtoull (s : bytes) : Z * bytes :=
  let t := drop_spaces s in
  let '(neg, t) := match t with
                   | b :: t' => if decide (b = "-"%byte) then (true, t')
                                else if decide (b = "+"%byte) then (false, t') else (false, t)
                   | [] => (false, t)
                   end in
  let finish (v : Z) (rest : bytes) :=
    if ULLONG_MAX <? v then (ULLONG_MAX, rest)
    else (if neg then u64 (- v) else v, rest) in
  match t with
  | b :: t' =>
      if decide (b = "0"%byte) then
        match t' with
        | x :: h :: t'' =>
            if (bool_decide (x = "x"%byte) || bool_decide (x = "X"%byte))
               && bool_decide (is_Some (digit_in 16 h))
            then let '(v, rest) := take_digits 16 0 (h :: t'') in finish v rest
            else let '(v, rest) := take_digits 8 0 t in finish v rest
        | _ => let '(v, rest) := take_digits 8 0 t in finish v rest
        end
      else match digit_in 10 b with
           | Some _ => let '(v, rest) := take_digits 10 0 t in finish v rest
           | None => (0, s)
           end
  | [] => (0, s)
  end.

Example strtoull_dec : strtoull (str " 8080") = (8080, []). Proof. reflexivity. Qed.
Example strtoull_hex : strtoull (str "0x1Fz") = (31, str "z"). Proof. reflexivity. Qed.
Example strtoull_bad : strtoull (str "80_80") = (80, str "_80"). Proof. reflexivity. Qed.

(** ** Parsing *)

(** The family, host and port text of an address; [None] is [AF_UNSPEC]. *)
Definition splitHostAndPort (s : bytes) : option (Z * bytes * bytes) :=
  if decide (find_first_of "["%byte s = Some 0%nat) then
    match find_last_of "]"%byte s with
    | None => None
    | Some end_bracket_pos =>
        let host := take (end_bracket_pos - 1) (drop 1 s) in
        if (end_bracket_pos + 1 <? length s)%nat then
          if decide (s !! (end_bracket_pos + 1)%nat = Some ":"%byte)
          then Some (AF_INET6, host, drop (end_bracket_pos + 2) s)
          else None
        else Some (AF_INET6, host, [])
    end
  else
    match find_first_of ":"%byte s with
    | Some colon_pos =>
        match find_first_of ":"%byte (drop (colon_pos + 1) s) with
        | Some _ => Some (AF_INET6, s, [])
        | None => Some (AF_INET, take colon_pos s, drop (colon_pos + 1) s)
        end
    | None => Some (AF_INET, s, [])
    end.

Definition parsePort (port_part : bytes) (port : Z) : option Z :=
  if decide (port_part = []) then Some port
  else
    let '(maybe_port, end_ptr) := strtoull (c_str port_part) in
    if decide (end_ptr <> []) then None
    else if maybe_port >? 65535 then None
    else Some (u16 maybe_port).

Definition extractFamilyHostAndPort (s : bytes) (port : Z) : option (Z * bytes * Z) :=
  match splitHostAndPort s with
  | Some (family, host, port_part) =>
      match parsePort port_part port with
      | Some port' => Some (family, host, port')
      | None => None
      end
  | None => None
  end.

Definition tryParseAsWildcard (host : bytes) (port : Z) : option SocketAddress :=
  if decide (host <> str "*") then None
  else Some (mkSA true sockaddr_in6_size (AddrInet6 (htons port) (replicate 16 x00))).

(** The answer of [inet_pton]. *)
Inductive PtonResult : Type :=
| PtonOk (addr : bytes)
| PtonInvalid
| PtonErrno (err : Z).

(** [ParseResult::Var]: [inl] is Success and [inr] is Failure. *)
Abbreviation ParseResult := (SocketAddress + Error)%type.

Section Parse.
Variable inet_pton : Z -> bytes -> PtonResult.

Definition tryParseAsTcpAddress (conn_str : bytes) (port_hint : Z) : option ParseResult :=
  let tcp_prefix := str "tcp://" in
  if negb (is_prefix tcp_prefix conn_str) then None
  else
    let addr_str := drop (length tcp_prefix) conn_str in
    match extractFamilyHostAndPort addr_str port_hint with
    | None => Some (inr (Err Code.InvalidArgument))
    | Some (family, host, port) =>
        match tryParseAsWildcard host port with
        | Some result => Some (inl result)
        | None =>
            match inet_pton family (c_str host) with
            | PtonOk addr =>
                Some (inl (if family =? AF_INET6
                           then mkSA false sockaddr_in6_size (AddrInet6 (htons port) addr)
                           else mkSA false sockaddr_in_size (AddrInet (htons port) addr)))
            | PtonInvalid => Some (inr (Err Code.InvalidArgument))
            | PtonErrno err => Some (inr (errnoToError err))
            end
        end
    end.

(** [strncpy]: up to the first NUL, the rest filled with NULs. *)
Definition strncpy (path : bytes) (n : nat) : bytes :=
  resize n x00 (c_str path).

Definition tryParseAsUnixDomain (conn_str : bytes) : option ParseResult :=
  let unix_prefix := str "unix:" in
  if negb (is_prefix unix_prefix conn_str) then None
  else
    let path := drop (length unix_prefix) conn_str in
    if (sun_path_size <? length path + 1)%nat then Some (inr (Err Code.InvalidArgument))
    else Some (inl (mkSA false (sun_path_offset + Z.of_nat (length path) + 1)
                         (AddrUnix (strncpy path sun_path_size)))).

Definition tryParseAsAbstractUnixDomain (conn_str : bytes) : option ParseResult :=
  let unix_prefix := str "unix-abstract:" in
  if negb (is_prefix unix_prefix conn_str) then None
  else
    let path := drop (length unix_prefix) conn_str in
    if (sun_path_size - 1 <? length path + 1)%nat then Some (inr (Err Code.InvalidArgument))
    else Some (inl (mkSA false (sun_path_offset + Z.of_nat (length path) + 1)
                         (AddrUnix (resize sun_path_size x00 (x00 :: path))))).

Definition parse (conn_str : bytes) (port_hint : Z) : ParseResult :=
  match tryParseAsUnixDomain conn_str with
  | Some result => result
  | None =>
      match tryParseAsAbstractUnixDomain conn_str with
      | Some result => result
      | None =>
          match tryParseAsTcpAddress conn_str port_hint with
          | Some result => result
          | None => inr (Err Code.InvalidArgument)
          end
      end
  end.
End Parse.

(** ** Printing *)

Definition getUnixPrefixAndPath (sa : SocketAddress) (sun_path : bytes) : bytes * bytes :=
  let path_len := addr_len_ sa - sun_path_offset in
  if path_len =? 0 then (str "unix:", [])
  else if decide (sun_path !! 0%nat = Some x00)
       then (str "unix-abstract:", take (Z.to_nat (path_len - 1)) (drop 1 sun_path))
       else (str "unix:", take (Z.to_nat path_len) sun_path).

Section Print.
Variable inet_ntop : Z -> bytes -> option bytes.

Definition unknown_family (sa : SocketAddress) : bytes :=
  str "<unknown>(family=" ++ format_uint (sa_family sa) ++ str ")".

Definition toString (sa : SocketAddress) : bytes :=
  if is_wildcard_ sa then str "*:" ++ format_uint (getPort sa)
  else
    match addr_storage_ sa with
    | AddrInet _ sin_addr =>
        match inet_ntop AF_INET sin_addr with
        | Some addr => addr ++ str ":" ++ format_uint (getPort sa)
        | None => unknown_family sa
        end
    | AddrInet6 _ sin6_addr =>
        match inet_ntop AF_INET6 sin6_addr with
        | Some addr => str "[" ++ addr ++ str "]:" ++ format_uint (getPort sa)
        | None => unknown_family sa
        end
    | AddrUnix sun_path =>
        let '(prefix, path) := getUnixPrefixAndPath sa sun_path in prefix ++ path
    | AddrUnspec => unknown_family sa
    end.
End Print.

(** ** Decimal numbers: what [format_uint] prints, [strtoull] reads *)

Lemma Z_of_digit d : 0 <= d < 10 -> Z_of_byte (digit d) = 48 + d.
Proof. intros. unfold digit. rewrite Z_of_byte_of_Z, wrap_id; lia. Qed.

Lemma digit_in_digit d : 0 <= d < 10 -> digit_in 10 (digit d) = Some d.
Proof.
  intros. unfold digit_in, digit_value. rewrite Z_of_digit by done.
  rewrite (proj2 (Z.leb_le _ _)), (proj2 (Z.leb_le _ _)) by lia. cbn.
  replace (48 + d - 48) with d by lia. by rewrite (proj2 (Z.ltb_lt _ _)) by lia.
Qed.

Definition is_digit (b : byte) : Prop := exists d, 0 <= d < 10 /\ b = digit d.

Lemma is_digit_ne b c : is_digit b -> ~ (48 <= Z_of_byte c < 58) -> b <> c.
Proof. intros (d & Hd & ->) Hc E. rewrite <- E, Z_of_digit in Hc by done. lia. Qed.

Lemma dec_go_take fuel n acc :
  0 <= n < 10 ^ Z.of_nat fuel ->
  take_digits 10 0 (dec_go fuel n acc) = take_digits 10 n acc.
Proof.
  revert n acc. induction fuel as [|f IH]; intros n acc Hn; cbn [dec_go].
  - cbn in Hn. by replace n with 0 by lia.
  - destruct (Z.ltb_spec n 10); cbn [take_digits].
    + by rewrite digit_in_digit by lia.
    + rewrite IH; cbn [take_digits].
      * rewrite digit_in_digit by (apply Z.mod_pos_bound; lia).
        f_equal. pose proof (Z.div_mod n 10). lia.
      * split; [apply Z.div_pos; lia|]. apply Z.div_lt_upper_bound; [lia|].
        rewrite <- Z.pow_succ_r by lia. replace (Z.succ (Z.of_nat f)) with (Z.of_nat (S f)) by lia.
        lia.
Qed.

Lemma dec_go_digits fuel n acc :
  0 <= n -> Forall is_digit acc -> Forall is_digit (dec_go fuel n acc).
Proof.
  revert n acc. induction fuel as [|f IH]; intros n acc Hn Hacc; cbn [dec_go]; [done|].
  destruct (Z.ltb_spec n 10).
  - constructor; [exists n; split; [lia|done]|done].
  - apply IH; [apply Z.div_pos; lia|]. constructor; [|done].
    exists (n mod 10). split; [apply Z.mod_pos_bound; lia|done].
Qed.

Lemma dec_go_head fuel n acc :
  0 < n < 10 ^ Z.of_nat fuel -> exists d ds, 0 < d < 10 /\ dec_go fuel n acc = digit d :: ds.
Proof.
  revert n acc. induction fuel as [|f IH]; intros n acc Hn; cbn [dec_go]; [cbn in Hn; lia|].
  destruct (Z.ltb_spec n 10); [exists n, acc; split; [lia|done]|].
  apply IH. split; [apply Z.div_str_pos; lia|].
  apply Z.div_lt_upper_bound; [lia|]. rewrite <- Z.pow_succ_r by lia.
  replace (Z.succ (Z.of_nat f)) with (Z.of_nat (S f)) by lia. lia.
Qed.

Lemma format_uint_digits n : 0 <= n -> Forall is_digit (format_uint n).
Proof. intros. apply dec_go_digits; [done|constructor]. Qed.

Lemma format_uint_notin n c :
  0 <= n -> ~ (48 <= Z_of_byte c < 58) -> c ∉ format_uint n.
Proof.
  intros Hn Hc Hin. pose proof (format_uint_digits n Hn) as Hf.
  rewrite Forall_forall in Hf. by eapply (is_digit_ne c c); [by apply Hf|..].
Qed.

Lemma format_uint_nonempty n : 0 <= n < 10 ^ 20 -> format_uint n <> [].
Proof.
  intros Hn. unfold format_uint. destruct (decide (n = 0)) as [->|]; [done|].
  destruct (dec_go_head 20 n []) as (d & ds & _ & ->); [lia|done].
Qed.

Lemma strtoull_nonzero_digit d ds v :
  0 < d < 10 -> take_digits 10 0 (digit d :: ds) = (v, []) -> v <= ULLONG_MAX ->
  strtoull (digit d :: ds) = (v, []).
Proof.
  intros Hd Ht Hv. unfold strtoull. cbn [drop_spaces].
  assert (is_space (digit d) = false) as ->.
  { unfold is_space. rewrite Z_of_digit by lia.
    rewrite (proj2 (Z.eqb_neq _ _)) by lia. cbn. apply andb_false_iff. right.
    apply Z.leb_gt. lia. }
  assert (Hne : forall c, Z_of_byte c < 49 -> digit d <> c).
  { intros c Hc E. rewrite <- E, Z_of_digit in Hc by lia. lia. }
  rewrite !decide_False by (by apply Hne). rewrite digit_in_digit by lia.
  rewrite Ht. by rewrite (proj2 (Z.ltb_ge _ _)) by lia.
Qed.

Lemma strtoull_format_uint n : 0 <= n <= ULLONG_MAX -> strtoull (format_uint n) = (n, []).
Proof.
  intros Hn. unfold format_uint. destruct (decide (n = 0)) as [->|]; [by vm_compute|].
  assert (Hlt : 0 < n < 10 ^ Z.of_nat 20) by (cbv [ULLONG_MAX] in Hn; lia).
  pose proof (dec_go_take 20 n [] ltac:(lia)) as Ht. cbn [take_digits] in Ht.
  destruct (dec_go_head 20 n [] Hlt) as (d & ds & Hd & E). rewrite E in *.
  apply strtoull_nonzero_digit; [done|done|lia].
Qed.

(** A decimal port is accepted exactly when it fits 16 bits, and then it is
    the port; a larger one is refused, never truncated. *)
Theorem parsePort_decimal (n hint : Z) :
  0 <= n <= ULLONG_MAX ->
  parsePort (format_uint n) hint = if n <=? 65535 then Some n else None.
Proof.
  intros Hn. unfold parsePort.
  rewrite decide_False by (apply format_uint_nonempty; cbv [ULLONG_MAX] in Hn; lia).
  rewrite c_str_no_nul by (apply format_uint_notin; [lia|by vm_compute; intros []]).
  rewrite strtoull_format_uint by done.
  rewrite decide_False by (intros []; done). rewrite Z.gtb_ltb. destruct (Z.leb_spec n 65535).
  - rewrite (proj2 (Z.ltb_ge _ _)) by lia. by rewrite wrap_id by lia.
  - by rewrite (proj2 (Z.ltb_lt _ _)) by lia.
Qed.

Lemma parsePort_decimal_witness :
  parsePort (format_uint 8080) 80 = Some 8080 /\ parsePort (format_uint 65536) 80 = None.
Proof.
  split; [apply (parsePort_decimal 8080 80)|apply (parsePort_decimal 65536 80)];
    cbv [ULLONG_MAX]; lia.
Defined.

(** ** Splitting *)

Lemma find_first_of_app c pre post :
  c ∉ pre -> find_first_of c (pre ++ c :: post) = Some (length pre).
Proof.
  unfold find_first_of. induction pre as [|b pre IH]; intros Hc; cbn.
  - by rewrite decide_True.
  - rewrite decide_False by set_solver.
    specialize (IH ltac:(set_solver)). destruct (list_find _ _) as [[i x]|]; [|done].
    cbn in *. by injection IH as ->.
Qed.

Lemma find_first_of_None c s : c ∉ s -> find_first_of c s = None.
Proof.
  intros Hc. unfold find_first_of. destruct (list_find _ s) as [[i x]|] eqn:E; [|done].
  apply list_find_Some in E as (Hi & -> & _). apply list_elem_of_lookup_2 in Hi. done.
Qed.

Lemma find_first_of_head c b s : b <> c -> find_first_of c (b :: s) <> Some 0%nat.
Proof.
  intros Hb. unfold find_first_of. cbn. rewrite decide_False by done.
  by destruct (list_find _ s) as [[? ?]|].
Qed.

Lemma find_last_of_app c pre post :
  c ∉ post -> find_last_of c (pre ++ c :: post) = Some (length pre).
Proof.
  intros Hc. unfold find_last_of.
  rewrite reverse_app, reverse_cons, <- app_assoc. cbn.
  rewrite find_first_of_app by (by rewrite elem_of_reverse). cbn.
  f_equal. rewrite length_app, length_reverse. cbn. lia.
Qed.

Lemma split_bracketed host ds :
  "]"%byte ∉ ds -> ds <> [] ->
  splitHostAndPort (str "[" ++ host ++ str "]:" ++ ds) = Some (AF_INET6, host, ds).
Proof.
  intros Hds Hne. unfold splitHostAndPort.
  change (str "[" ++ host ++ str "]:" ++ ds) with ("["%byte :: host ++ "]"%byte :: ":"%byte :: ds).
  rewrite decide_True by done.
  change ("["%byte :: host ++ "]"%byte :: ":"%byte :: ds)
    with (("["%byte :: host) ++ "]"%byte :: (":"%byte :: ds)).
  rewrite find_last_of_app by (intros [?|?]%elem_of_cons; done).
  rewrite decide_True.
  2:{ rewrite lookup_app_r by lia. by replace (_ - _)%nat with 1%nat by lia. }
  rewrite (proj2 (Nat.ltb_lt _ _)) by (rewrite length_app; cbn; lia).
  cbn [length]. do 3 f_equal.
  - replace (S (length host) - 1)%nat with (length host) by lia. apply take_app_length.
  - rewrite drop_app_ge by (cbn; lia). cbn [length].
    by replace (S (length host) + 2 - S (length host))%nat with 2%nat by lia.
Qed.

Lemma split_host_port host ds :
  ":"%byte ∉ host -> ":"%byte ∉ ds -> host !! 0%nat <> Some "["%byte ->
  splitHostAndPort (host ++ str ":" ++ ds) = Some (AF_INET, host, ds).
Proof.
  intros Hh Hds H0. unfold splitHostAndPort.
  change (str ":" ++ ds) with (":"%byte :: ds).
  rewrite decide_False.
  2:{ destruct host as [|b host]; cbn [app]; apply find_first_of_head; [done|].
      intros ->. by apply H0. }
  rewrite find_first_of_app by done.
  assert (Hdrop : drop (length host + 1) (host ++ ":"%byte :: ds) = ds).
  { rewrite drop_app_ge by lia. by replace (_ - _)%nat with 1%nat by lia. }
  rewrite Hdrop, find_first_of_None by done. by rewrite take_app_length.
Qed.

(** ** Round trips *)

Lemma parse_tcp inet_pton s hint r :
  tryParseAsTcpAddress inet_pton (str "tcp://" ++ s) hint = Some r ->
  parse inet_pton (str "tcp://" ++ s) hint = r.
Proof. intros H. unfold parse.
  change (tryParseAsUnixDomain (str "tcp://" ++ s)) with (@None ParseResult).
  change (tryParseAsAbstractUnixDomain (str "tcp://" ++ s)) with (@None ParseResult).
  by rewrite H. Qed.

(** Internet addresses as the parser makes them. *)
Definition inet_wf (sa : SocketAddress) : Prop :=
  match addr_storage_ sa with
  | AddrInet p _ => is_wildcard_ sa = false /\ addr_len_ sa = sockaddr_in_size /\ 0 <= p < 2 ^ 16
  | AddrInet6 p a =>
      addr_len_ sa = sockaddr_in6_size /\ 0 <= p < 2 ^ 16 /\
      (is_wildcard_ sa = true -> a = replicate 16 x00)
  | _ => False
  end.

Lemma htons_bound p : 0 <= p < 2 ^ 16 -> 0 <= htons p < 2 ^ 16.
Proof.
  intros. unfold htons. pose proof (Z.mod_pos_bound p 256).
  assert (0 <= p / 256 < 256) by (split; [apply Z.div_pos|apply Z.div_lt_upper_bound]; lia).
  lia.
Qed.

(** The address bytes, without the port. *)
Definition sa_host (sa : SocketAddress) : bytes :=
  match addr_storage_ sa with
  | AddrInet _ a => a
  | AddrInet6 _ a => a
  | _ => []
  end.

Section RoundTrip.
Context (inet_pton : Z -> bytes -> PtonResult) (inet_ntop : Z -> bytes -> option bytes).

(** What POSIX says of the two conversions: the text that [inet_ntop] makes
    is read back by [inet_pton]; it has no NUL, an IPv4 text has no colon
    and starts with a digit, and no text is the wildcard star. *)
Definition ntop_reads_back : Prop := forall family a txt,
  inet_ntop family a = Some txt ->
  inet_pton family txt = PtonOk a /\ (x00 ∉ txt) /\ (txt <> str "*") /\
  (family = AF_INET -> (":"%byte ∉ txt) /\ (txt !! 0%nat <> Some "["%byte)).

Hypothesis Hntop : ntop_reads_back.

Lemma tryParse_extracted s hint family host port :
  extractFamilyHostAndPort s hint = Some (family, host, port) ->
  host <> str "*" -> forall a, inet_pton family (c_str host) = PtonOk a ->
  parse inet_pton (str "tcp://" ++ s) hint =
  inl (if family =? AF_INET6
       then mkSA false sockaddr_in6_size (AddrInet6 (htons port) a)
       else mkSA false sockaddr_in_size (AddrInet (htons port) a)).
Proof.
  intros He Hs a Ha. apply parse_tcp. unfold tryParseAsTcpAddress.
  rewrite is_prefix_app, drop_app_length. cbn [negb]. rewrite He.
  unfold tryParseAsWildcard. rewrite decide_True by done. by rewrite Ha.
Qed.

Lemma port_text q :
  0 <= q < 2 ^ 16 -> forall hint, parsePort (format_uint (ntohs q)) hint = Some (ntohs q).
Proof.
  intros Hq hint. pose proof (htons_bound q Hq) as Hb. fold ntohs in Hb.
  unfold parsePort.
  rewrite decide_False by (apply format_uint_nonempty; lia).
  rewrite c_str_no_nul by (apply format_uint_notin; [lia|by vm_compute; intros []]).
  rewrite strtoull_format_uint by (cbv [ULLONG_MAX]; lia).
  rewrite decide_False by (intros []; done).
  rewrite Z.gtb_ltb, (proj2 (Z.ltb_ge _ _)) by lia. by rewrite wrap_id by lia.
Qed.

Lemma port_text_notin q c :
  0 <= q < 2 ^ 16 -> ~ (48 <= Z_of_byte c < 58) -> c ∉ format_uint (ntohs q).
Proof. intros Hq. apply format_uint_notin. pose proof (htons_bound q Hq). unfold ntohs. lia. Qed.

Lemma port_text_nonempty q : 0 <= q < 2 ^ 16 -> format_uint (ntohs q) <> [].
Proof. intros Hq. apply format_uint_nonempty. pose proof (htons_bound q Hq). unfold ntohs. lia. Qed.

Ltac not_digit := by vm_compute; intros [].

Lemma wildcard_roundtrip q hint :
  0 <= q < 2 ^ 16 ->
  parse inet_pton (str "tcp://" ++ str "*:" ++ format_uint (ntohs q)) hint =
  inl (mkSA true sockaddr_in6_size (AddrInet6 q (replicate 16 x00))).
Proof.
  intros Hq. apply parse_tcp. unfold tryParseAsTcpAddress.
  rewrite is_prefix_app, drop_app_length. cbn [negb]. unfold extractFamilyHostAndPort.
  change (str "*:" ++ format_uint (ntohs q)) with (str "*" ++ str ":" ++ format_uint (ntohs q)).
  rewrite split_host_port; [|by apply (bool_decide_unpack _); vm_compute|by apply port_text_notin; [|not_digit]|done].
  rewrite port_text by done. unfold tryParseAsWildcard. rewrite decide_False by tauto.
  by rewrite (ntohs_htons q Hq : htons (ntohs q) = q).
Qed.

(** C23: the text of an internet address (wildcard, IPv4 or IPv6) is a
    connection string that parses back to the same address, whatever the
    port hint. *)
Theorem inet_roundtrip (sa : SocketAddress) (hint : Z) :
  inet_wf sa ->
  (is_wildcard_ sa = true \/ is_Some (inet_ntop (sa_family sa) (sa_host sa))) ->
  parse inet_pton (str "tcp://" ++ toString inet_ntop sa) hint = inl sa.
Proof.
  destruct sa as [w len [| |q a|q a]]; cbn; try done.
  - intros (-> & -> & Hq) [|[txt Ht]]; [done|]. cbn in Ht. unfold toString; cbn. rewrite Ht.
    destruct (Hntop _ _ _ Ht) as (Hp & Hz & Hs & H4). destruct (H4 eq_refl) as [Hc Hb].
    rewrite (tryParse_extracted _ _ AF_INET txt (ntohs q)) with (a := a).
    + by rewrite (ntohs_htons q Hq : htons (ntohs q) = q).
    + unfold extractFamilyHostAndPort.
      rewrite split_host_port; [|done|by apply port_text_notin; [|not_digit]|done].
      by rewrite port_text.
    + done.
    + by rewrite c_str_no_nul.
  - intros (-> & Hq & Hw) Hor. unfold toString; cbn.
    destruct w; [rewrite (Hw eq_refl); by apply wildcard_roundtrip|].
    destruct Hor as [|[txt Ht]]; [done|]. cbn in Ht. rewrite Ht.
    destruct (Hntop _ _ _ Ht) as (Hp & Hz & Hs & _).
    rewrite (tryParse_extracted _ _ AF_INET6 txt (ntohs q)) with (a := a).
    + by rewrite (ntohs_htons q Hq : htons (ntohs q) = q).
    + unfold extractFamilyHostAndPort.
      rewrite split_bracketed; [|by apply port_text_notin; [|not_digit]|by apply port_text_nonempty].
      by rewrite port_text.
    + done.
    + by rewrite c_str_no_nul.
Qed.
End RoundTrip.

(** A two-entry address book as the platform's conversions. *)
Module Example.
Definition loopback4 : bytes := [x7f; x00; x00; x01].
Definition loopback6 : bytes := replicate 15 x00 ++ [x01].

Definition inet_ntop (family : Z) (a : bytes) : option bytes :=
  if decide (family = AF_INET /\ a = loopback4) then Some (str "127.0.0.1")
  else if decide (family = AF_INET6 /\ a = loopback6) then Some (str "::1")
  else None.

Definition inet_pton (family : Z) (txt : bytes) : PtonResult :=
  if decide (family = AF_INET /\ txt = str "127.0.0.1") then PtonOk loopback4
  else if decide (family = AF_INET6 /\ txt = str "::1") then PtonOk loopback6
  else PtonInvalid.

Lemma reads_back : ntop_reads_back inet_pton inet_ntop.
Proof.
  intros family a txt. unfold inet_ntop.
  repeat case_decide; intros [= <-]; destruct_and!; subst; (split; [done|]);
    (split; [by apply (bool_decide_unpack _); vm_compute|]); (split; [done|]); intros Hf; [|done].
  split; [by apply (bool_decide_unpack _); vm_compute|done].
Qed.
End Example.

Lemma inet_roundtrip_witness :
  parse Example.inet_pton (str "tcp://[::1]:8080") 80 =
  inl (mkSA false sockaddr_in6_size (AddrInet6 (htons 8080) Example.loopback6)).
Proof.
  apply (inet_roundtrip Example.inet_pton Example.inet_ntop Example.reads_back
           (mkSA false sockaddr_in6_size (AddrInet6 (htons 8080) Example.loopback6)) 80).
  - cbn. repeat split; by vm_compute.
  - right. by exists (str "::1").
Defined.

Example parse_bad_port : parse Example.inet_pton (str "tcp://[::1]:65536") 0 = inr (Err Code.InvalidArgument).
Proof. reflexivity. Qed.
Example parse_unclosed : parse Example.inet_pton (str "tcp://[::1") 0 = inr (Err Code.InvalidArgument).
Proof. reflexivity. Qed.
Example parse_hint : parse Example.inet_pton (str "tcp://127.0.0.1") 4660 =
  inl (mkSA false 16 (AddrInet (htons 4660) Example.loopback4)).
Proof. reflexivity. Qed.

(** ** Unix domain addresses *)

Lemma resize_exact {A} (x : A) (l : list A) n :
  (length l <= n)%nat -> take (length l) (resize n x l) = l.
Proof. intros. rewrite take_resize_le by done. by rewrite resize_all_alt. Qed.

(** An abstract name of at most 106 bytes (NULs included) is accepted and
    prints back as it was written; a longer one is an invalid argument. *)
Theorem abstract_unix_roundtrip (inet_pton : Z -> bytes -> PtonResult)
    (inet_ntop : Z -> bytes -> option bytes) (path : bytes) (hint : Z) :
  match parse inet_pton (str "unix-abstract:" ++ path) hint with
  | inl sa => (length path <= 106)%nat /\ toString inet_ntop sa = str "unix-abstract:" ++ path
  | inr e => (106 < length path)%nat /\ e = Err Code.InvalidArgument
  end.
Proof.
  unfold parse.
  change (tryParseAsUnixDomain (str "unix-abstract:" ++ path)) with (@None ParseResult).
  unfold tryParseAsAbstractUnixDomain. rewrite is_prefix_app, drop_app_length. cbn [negb].
  unfold sun_path_size. destruct (Nat.ltb_spec (108 - 1) (length path + 1)); [split; [lia|done]|].
  split; [lia|]. unfold toString, getUnixPrefixAndPath; cbn [is_wildcard_ addr_storage_ addr_len_].
  unfold sun_path_offset.
  destruct (Z.eqb_spec (2 + Z.of_nat (length path) + 1 - 2) 0); [lia|].
  rewrite decide_True by (by rewrite lookup_resize by (cbn; lia)).
  replace (Z.to_nat _) with (length path) by lia.
  f_equal. rewrite take_drop_commute.
  replace (1 + length path)%nat with (length (x00 :: path)) by (cbn; lia).
  by rewrite resize_exact by (cbn; lia).
Qed.

(** A path of 1 to 107 bytes without NUL is stored whole and terminated,
    but prints with that terminating NUL at its end (the recorded address
    length counts it); a longer one is an invalid argument. *)
Theorem unix_path_text (inet_pton : Z -> bytes -> PtonResult)
    (inet_ntop : Z -> bytes -> option bytes) (path : bytes) (hint : Z) :
  path <> [] -> x00 ∉ path ->
  match parse inet_pton (str "unix:" ++ path) hint with
  | inl sa =>
      (length path <= 107)%nat /\
      (exists sun_path, addr_storage_ sa = AddrUnix sun_path /\ c_str sun_path = path) /\
      toString inet_ntop sa = str "unix:" ++ path ++ [x00]
  | inr e => (107 < length path)%nat /\ e = Err Code.InvalidArgument
  end.
Proof.
  intros Hne Hz. unfold parse, tryParseAsUnixDomain.
  rewrite is_prefix_app, drop_app_length. cbn [negb]. unfold sun_path_size.
  destruct (Nat.ltb_spec 108 (length path + 1)); [split; [lia|done]|].
  assert (Hs : strncpy path 108 = path ++ [x00] ++ replicate (107 - length path) x00).
  { unfold strncpy. rewrite c_str_no_nul by done. rewrite resize_ge by lia.
    by replace (108 - length path)%nat with (S (107 - length path)) by lia. }
  split; [lia|]. split.
  { eexists. split; [done|]. rewrite Hs. clear -Hz.
    generalize (replicate (107 - length path) x00). intros tl. induction path as [|b path IH]; cbn; [done|].
    rewrite decide_False by set_solver. f_equal. apply IH. set_solver. }
  unfold toString, getUnixPrefixAndPath; cbn [is_wildcard_ addr_storage_ addr_len_].
  unfold sun_path_offset.
  destruct (Z.eqb_spec (2 + Z.of_nat (length path) + 1 - 2) 0); [lia|].
  rewrite Hs, decide_False.
  2:{ destruct path as [|b path]; [done|]. intros [= ->]. set_solver. }
  f_equal. replace (Z.to_nat _) with (length (path ++ [x00])) by (rewrite length_app; cbn; lia).
  by rewrite app_assoc, take_app_length.
Qed.

Lemma unix_path_text_witness :
  exists sa, parse Example.inet_pton (str "unix:/a") 0 = inl sa /\
             toString Example.inet_ntop sa = str "unix:/a" ++ [x00].
Proof.
  pose proof (unix_path_text Example.inet_pton Example.inet_ntop (str "/a") 0
                ltac:(done) ltac:(by apply (bool_decide_unpack _); vm_compute)) as H.
  eexists. split; [reflexivity|]. exact (proj2 (proj2 H)).
Defined.
