(* ===== verification/SocketOps.v ===== *)
(** * Socket set-up on a [SocketAddress]: create, bind, connect, accept

    Models the members of [src/common/io/socket_address.cpp] that make system
    calls. A failing call sets [errno] to a positive number. Owned descriptors
    that go out of scope are closed where C++ runs their destructors. *)
From S2P Require Import Prelude Errors Posix SocketAddress.

Local Open Scope Z_scope.

(** [configureNoDelay]: a failure is only logged. *)
Definition configureNoDelay (fd : Z) (k : Kernel) : Kernel :=
  (posixSyscallError (SysSetNoDelay fd) k).2.

(** [SocketAddress::socket] *)
Definition socket (sa : SocketAddress) (socket_type : Z) (k : Kernel) : (Z + Error) * Kernel :=
  match posixSyscallError (SysSocket (sa_family sa) socket_type) k with
  | (Fail err, k) => (inr (errnoToError err), OwnedFd_drop (-1) k)
  | (Ret out_fd, k) =>
      match posixSyscallError (SysSetNonBlock out_fd) k with
      | (Fail err, k) => (inr (errnoToError err), OwnedFd_drop out_fd k)
      | (Ret _, k) =>
          (inl out_fd,
           if (SOCK_STREAM =? socket_type) && isAnyInet sa then configureNoDelay out_fd k else k)
      end
  end.

(** [SocketAddress::bind] *)
Definition bind (sa : SocketAddress) (raw_fd : Z) (k : Kernel) : OptError * Kernel :=
  let do_bind (k : Kernel) : OptError * Kernel :=
    match posixSyscallError (SysBind raw_fd) k with
    | (Fail err, k) => (Some (errnoToError err), k)
    | (Ret _, k) => (None, k)
    end in
  if is_wildcard_ sa then
    match posixSyscallError (SysSetV6Only raw_fd 0) k with
    | (Fail err, k) => (Some (errnoToError err), k)
    | (Ret _, k) => do_bind k
    end
  else do_bind k.

(** [SocketAddress::connect]: [EINPROGRESS] is success. *)
Definition connect (raw_fd : Z) (k : Kernel) : OptError * Kernel :=
  match posixSyscallError (SysConnect raw_fd) k with
  | (Ret _, k) => (None, k)
  | (Fail err, k) =>
      if err =? Errno.EINPROGRESS then (None, k) else (Some (errnoToError err), k)
  end.

(** The errors after which [accept] tries again. *)
Definition accept_retries (err : Z) : bool :=
  (err =? Errno.EINTR) || (err =? Errno.ENETDOWN) || (err =? Errno.ETIMEDOUT)
  || (err =? Errno.EHOSTDOWN) || (err =? Errno.ENETUNREACH) || (err =? Errno.ECONNABORTED)
  || (err =? Errno.EHOSTUNREACH) || (err =? Errno.EPROTO).

(** What happens to an accepted descriptor: non-blocking mode, no delay. *)
Definition accept_setup (any_inet : bool) (client_fd : Z) (k : Kernel) : option Z * Kernel :=
  match posixSyscallError (SysSetNonBlock client_fd) k with
  | (Fail _, k) => (None, OwnedFd_drop client_fd k)
  | (Ret _, k) => (Some client_fd, if any_inet then configureNoDelay client_fd k else k)
  end.

Fixpoint accept_loop (any_inet : bool) (server_fd : Z) (script : list SysRes) (calls : list Syscall)
    : option Z * Kernel :=
  let k s := mkKernel s (calls ++ [SysAccept server_fd]) in
  match script with
  | [] => accept_setup any_inet 0 (k [])
  | Ret client_fd :: s => accept_setup any_inet client_fd (k s)
  | Fail err :: s =>
      if err =? Errno.EAGAIN then (None, k s)
      else if accept_retries err then accept_loop any_inet server_fd s (calls ++ [SysAccept server_fd])
      else (None, k s)
  end.

(** [SocketAddress::accept]: the kernel writes the peer's address into the
    storage, so the address that decides about no-delay is the peer's. *)
Definition accept (peer : SocketAddress) (server_fd : Z) (k : Kernel) : option Z * Kernel :=
  accept_loop (isAnyInet peer) server_fd (k_script k) (k_calls k).

(** ** Properties *)

(** [accept] survives any number of transient network errors: after them it
    answers with the next connection, and each attempt was one call. *)
Theorem accept_skips_transient (peer : SocketAddress) (server_fd fd v : Z)
    (errs : list Z) (s : list SysRes) (calls : list Syscall) :
  Forall (fun e => accept_retries e = true) errs ->
  accept peer server_fd (mkKernel ((Fail <$> errs) ++ Ret fd :: Ret v :: s) calls) =
  (Some fd,
   let calls' := calls ++ repeated (SysAccept server_fd) (S (length errs)) ++ [SysSetNonBlock fd] in
   if isAnyInet peer then configureNoDelay fd (mkKernel s calls') else mkKernel s calls').
Proof.
  intros He. unfold accept; cbn [k_script k_calls].
  revert calls. induction He as [|e errs He Herrs IH]; intros calls; cbn.
  - unfold accept_setup, posixSyscallError; cbn. by rewrite <- app_assoc.
  - assert ((e =? Errno.EAGAIN) = false) as ->.
    { apply Z.eqb_neq. intros ->. done. }
    rewrite He, IH. unfold repeated; cbn. by rewrite <- !app_assoc.
Qed.

Lemma accept_skips_transient_witness :
  accept SocketAddress_default 3
    (mkKernel [Fail Errno.EINTR; Fail Errno.ECONNABORTED; Ret 7; Ret 0; Fail Errno.EAGAIN] []) =
  (Some 7, mkKernel [Fail Errno.EAGAIN] [SysAccept 3; SysAccept 3; SysAccept 3; SysSetNonBlock 7]).
Proof.
  apply (accept_skips_transient SocketAddress_default 3 7 0 [Errno.EINTR; Errno.ECONNABORTED] [Fail Errno.EAGAIN] []).
  repeat constructor.
Defined.

(** Descriptors opened and closed by a run of calls, from the kernel's side. *)
Definition closed_in (fd : Z) (calls : list Syscall) : nat :=
  length (filter (fun c => c = SysClose fd) calls).

Lemma closed_in_app fd l1 l2 : closed_in fd (l1 ++ l2) = (closed_in fd l1 + closed_in fd l2)%nat.
Proof. unfold closed_in. by rewrite filter_app, length_app. Qed.

Lemma posix_closes fd c k r k' :
  c <> SysClose fd -> posixSyscallError c k = (r, k') ->
  closed_in fd (k_calls k') = closed_in fd (k_calls k).
Proof.
  intros Hc H. apply posix_retry_calls in H as [n ->].
  rewrite closed_in_app. unfold closed_in at 2, repeated.
  assert (filter (fun c0 => c0 = SysClose fd) (replicate (S n) c) = []) as ->; [|cbn; lia].
  induction n as [|n IH]; cbn; rewrite decide_False by done; done.
Qed.

Lemma configureNoDelay_closes fd fd' k :
  closed_in fd (k_calls (configureNoDelay fd' k)) = closed_in fd (k_calls k).
Proof.
  unfold configureNoDelay. destruct (posixSyscallError _ k) as [r k'] eqn:E.
  by apply (posix_closes fd) in E.
Qed.

(** [socket] does not leak: the descriptor that the kernel gave is either
    returned open, or closed exactly once when the set-up fails. *)
Theorem socket_descriptor_balance (sa : SocketAddress) (ty fd : Z) (k k1 : Kernel) :
  0 <= fd ->
  posixSyscallError (SysSocket (sa_family sa) ty) k = (Ret fd, k1) ->
  match socket sa ty k with
  | (inl out_fd, k') => out_fd = fd /\ closed_in fd (k_calls k') = closed_in fd (k_calls k)
  | (inr e, k') =>
      closed_in fd (k_calls k') = S (closed_in fd (k_calls k)) /\
      exists err, e = errnoToError err /\ err <> Errno.EINTR
  end.
Proof.
  intros Hfd E1. unfold socket. rewrite E1.
  apply (posix_closes fd) in E1; [|done].
  destruct (posixSyscallError (SysSetNonBlock fd) k1) as [[v|err] k2] eqn:E2.
  - apply (posix_closes fd) in E2; [|done]. split; [done|].
    destruct (_ && _); [rewrite configureNoDelay_closes|]; congruence.
  - pose proof (posixSyscallError_not_EINTR _ _ _ _ E2) as Hne.
    apply (posix_closes fd) in E2; [|done]. split.
    + rewrite OwnedFd_drop_calls, (proj2 (Z.leb_le _ _)) by done.
      rewrite closed_in_app. unfold closed_in at 2. cbn. rewrite decide_True by done. cbn. lia.
    + exists err. split; [done|]. congruence.
Qed.

Lemma socket_descriptor_balance_witness :
  closed_in 5 (k_calls (socket SocketAddress_default SOCK_STREAM
                 (mkKernel [Fail Errno.EINTR; Ret 5; Fail Errno.EBUSY] [])).2) = 1%nat.
Proof.
  exact (proj1 (socket_descriptor_balance SocketAddress_default SOCK_STREAM 5
    (mkKernel [Fail Errno.EINTR; Ret 5; Fail Errno.EBUSY] [])
    (mkKernel [Fail Errno.EBUSY] [SysSocket 0 1; SysSocket 0 1]) ltac:(done) eq_refl)).
Defined.
