(* ===== verification/SocketBase.v ===== *)
(** * The message framing of the IPC pipe

    Models [src/common/ipc/pipe/socket_base.hpp] and [socket_base.cpp]:
    [SocketBase::send] puts an 8-byte header (signature and size) in front of a
    socket buffer and writes its fragments; [SocketBase::receiveData] reassembles
    messages from whatever pieces the kernel returns. The kernel's side of a
    descriptor is a finite script of answers for reading and one for writing. *)
From S2P Require Import Prelude Errors SocketBuffer.

Local Open Scope Z_scope.

Definition MsgHeaderSignature : Z := 0x5356434F.
Definition MsgPayloadMaxSize : Z := Z.shiftl 1 20.
Definition header_size : nat := 8.

(** [isNotReadyCondition]: [EAGAIN] and [EWOULDBLOCK] are equal on Linux. *)
Definition isNotReadyCondition (err : Z) : bool := err =? Errno.EAGAIN.

(** ** The kernel's side *)

(** Answers of [recv]: an error, data that has arrived, or the end of the stream. *)
Inductive RxEvent : Type :=
| RxErr (errno : Z)
| RxData (bs : bytes)
| RxEof.

Inductive RecvRes : Type :=
| RecvFail (err : Z)
| RecvBytes (bs : bytes).

(** [posixSyscallError] around a non-blocking [recv] of at most [n] bytes:
    interruptions are retried, data that does not fit stays in the socket, and
    a socket without news is not ready. *)
Fixpoint recv (n : nat) (rx : list RxEvent) : RecvRes * list RxEvent :=
  match rx with
  | [] => (RecvFail Errno.EAGAIN, [])
  | RxErr e :: s => if e =? Errno.EINTR then recv n s else (RecvFail e, s)
  | RxData bs :: s =>
      if (length bs <=? n)%nat then (RecvBytes bs, s)
      else (RecvBytes (take n bs), RxData (drop n bs) :: s)
  | RxEof :: s => (RecvBytes [], RxEof :: s)
  end.

(** ** Receiving *)

(** [IoState::MsgPart]; a header is the 8 bytes of its memory. *)
Inductive MsgPart : Type :=
| MsgHeader (raw : bytes)
| MsgPayload (size : Z) (buffer : bytes).

Record IoState := mkIoState { rx_partial_size : nat; rx_msg_part : MsgPart }.

(** [MsgHeader{}] *)
Definition emptyHeader : MsgPart := MsgHeader (replicate header_size x00).
Definition IoState_init : IoState := mkIoState 0 emptyHeader.

Definition signature (raw : bytes) : Z := le_value (take 4 raw).
Definition payload_size (raw : bytes) : Z := le_value (take 4 (drop 4 raw)).

(** Writing [bs] into a buffer at offset [off]. *)
Definition write_at (buf : bytes) (off : nat) (bs : bytes) : bytes :=
  take off buf ++ bs ++ drop (off + length bs) buf.

(** What one call of [receiveData] does: its result, the message passed to
    [on_rx_msg_payload] if any, the new state and the kernel's remaining script. *)
Record Received := mkReceived {
  rcv_error : OptError; rcv_msg : option bytes; rcv_state : IoState; rcv_rx : list RxEvent }.

Definition invalidHeader (raw : bytes) : bool :=
  negb (signature raw =? MsgHeaderSignature)
  || (payload_size raw =? 0) || (payload_size raw >? MsgPayloadMaxSize).

(** Part 2 of [receiveData]: the payload. *)
Definition receivePayload (io_state : IoState) (rx : list RxEvent) : Received :=
  match rx_msg_part io_state with
  | MsgHeader _ => mkReceived None None io_state rx
  | MsgPayload size buffer =>
      let partial := rx_partial_size io_state in
      let deliver buffer rx :=
        mkReceived None (Some (take (Z.to_nat size) buffer)) IoState_init rx in
      if Z.of_nat partial <? size then
        match recv (Z.to_nat size - partial) rx with
        | (RecvFail err, rx) =>
            if isNotReadyCondition err then mkReceived None None io_state rx
            else mkReceived (Some (errnoToError err)) None io_state rx
        | (RecvBytes bs, rx) =>
            let buffer' := write_at buffer partial bs in
            let partial' := (partial + length bs)%nat in
            let io_state' := mkIoState partial' (MsgPayload size buffer') in
            if bool_decide (bs = []) then mkReceived (Some (Err Code.Disconnected)) None io_state' rx
            else if Z.of_nat partial' <? size then mkReceived None None io_state' rx
            else deliver buffer' rx
        end
      else deliver buffer rx
  end.

Definition startPayload (raw : bytes) (rx : list RxEvent) : Received :=
  receivePayload
    (mkIoState 0 (MsgPayload (payload_size raw) (replicate (Z.to_nat (payload_size raw)) x00))) rx.

(** [SocketBase::receiveData] *)
Definition receiveData (io_state : IoState) (rx : list RxEvent) : Received :=
  match rx_msg_part io_state with
  | MsgHeader raw =>
      let partial := rx_partial_size io_state in
      if (partial <? header_size)%nat then
        match recv (header_size - partial) rx with
        | (RecvFail err, rx) =>
            if isNotReadyCondition err then mkReceived None None io_state rx
            else if err =? Errno.ECONNRESET
            then mkReceived (Some (mkError Code.Disconnected (Some err))) None io_state rx
            else mkReceived (Some (errnoToError err)) None io_state rx
        | (RecvBytes bs, rx) =>
            let raw' := write_at raw partial bs in
            let partial' := (partial + length bs)%nat in
            let io_state' := mkIoState partial' (MsgHeader raw') in
            if bool_decide (bs = []) then mkReceived (Some (Err Code.Disconnected)) None io_state' rx
            else if (partial' <? header_size)%nat then mkReceived None None io_state' rx
            else if invalidHeader raw'
            then mkReceived (Some (Err Code.InvalidArgument)) None io_state' rx
            else startPayload raw' rx
        end
      else startPayload raw rx
  | MsgPayload _ _ => receivePayload io_state rx
  end.

(** The executor calls [receiveData] again while the descriptor has news and
    no error was reported: the messages delivered, the error and what is left. *)
Fixpoint receiveLoop (fuel : nat) (io_state : IoState) (rx : list RxEvent)
    : list bytes * OptError * IoState * list RxEvent :=
  match fuel with
  | O => ([], None, io_state, rx)
  | S f =>
      if bool_decide (rx = []) then ([], None, io_state, rx)
      else
        let r := receiveData io_state rx in
        let msg := match rcv_msg r with Some m => [m] | None => [] end in
        match rcv_error r with
        | Some e => (msg, Some e, rcv_state r, rcv_rx r)
        | None =>
            let '(ms, e, st, rx') := receiveLoop f (rcv_state r) (rcv_rx r) in
            (msg ++ ms, e, st, rx')
        end
  end.

(** ** Sending *)

(** Answers of [send]: an error, or how many bytes were taken. *)
Inductive TxEvent : Type :=
| TxErr (errno : Z)
| TxSent (count : nat).

(** [posixSyscallError] around one [send]; the bytes that reach the stream. *)
Fixpoint send_fragment (payload : bytes) (tx : list TxEvent) : OptError * bytes * list TxEvent :=
  match tx with
  | [] => (None, payload, [])
  | TxErr e :: s =>
      if e =? Errno.EINTR then send_fragment payload s else (Some (errnoToError e), [], s)
  | TxSent n :: s => (None, take n payload, s)
  end.

Fixpoint send_fragments (fragments : list Payload) (tx : list TxEvent)
    : OptError * bytes * list TxEvent :=
  match fragments with
  | [] => (None, [], tx)
  | p :: ps =>
      match send_fragment (pl_bytes p) tx with
      | (Some e, out, tx) => (Some e, out, tx)
      | (None, out, tx) =>
          let '(e, out', tx') := send_fragments ps tx in (e, out ++ out', tx')
      end
  end.

Definition headerBytes (size : Z) : bytes := le_bytes 4 MsgHeaderSignature ++ le_bytes 4 (u32 size).

(** [SocketBase::send]: the result, the bytes written to the stream and the
    kernel's remaining script. *)
Definition send (sock_buff : SocketBuffer.t) (tx : list TxEvent)
    : OptError * bytes * SocketBuffer.t * list TxEvent :=
  let sock_buff := SocketBuffer.prepend (span (headerBytes (SocketBuffer.size sock_buff))) sock_buff in
  let '(e, out, tx) := send_fragments (SocketBuffer.listFragments sock_buff) tx in
  (e, out, sock_buff, tx).

(** ** Specification *)

(** The wire form of a message. *)
Definition frame (m : bytes) : bytes := headerBytes (Z.of_nat (length m)) ++ m.

(** Messages that the receiver accepts: not empty, at most 1 MB. *)
Definition valid_msg (m : bytes) : Prop := m <> [] /\ Z.of_nat (length m) <= MsgPayloadMaxSize.

(** The data that a script carries. *)
Definition rx_data (rx : list RxEvent) : bytes :=
  concat ((fun e => match e with RxData bs => bs | _ => [] end) <$> rx).

(** A healthy connection: data, interruptions and "not ready" in any order. *)
Definition benign (e : RxEvent) : Prop :=
  match e with
  | RxErr err => err = Errno.EINTR \/ err = Errno.EAGAIN
  | RxData bs => bs <> []
  | RxEof => False
  end.

(** The bytes of the current frame that were already received. *)
Definition pending (io_state : IoState) : bytes :=
  match rx_msg_part io_state with
  | MsgHeader raw => take (rx_partial_size io_state) raw
  | MsgPayload size buffer => headerBytes size ++ take (rx_partial_size io_state) buffer
  end.

(** Type invariant of [IoState] between calls: the part in progress is never
    complete, and a payload has an accepted size. *)
Definition IoState_wf (io_state : IoState) : Prop :=
  match rx_msg_part io_state with
  | MsgHeader raw => length raw = header_size /\ (rx_partial_size io_state < header_size)%nat
  | MsgPayload size buffer =>
      0 < size <= MsgPayloadMaxSize /\ Z.of_nat (length buffer) = size /\
      Z.of_nat (rx_partial_size io_state) < size
  end.

Definition rx_measure (rx : list RxEvent) : nat :=
  sum_list ((fun e => match e with RxData bs => S (length bs) | _ => 1%nat end) <$> rx).

Arguments frame : simpl never.
Arguments headerBytes : simpl never.
Arguments rx_data : simpl never.
Arguments write_at : simpl never.

(** ** Lemmas *)

Lemma length_headerBytes n : length (headerBytes n) = header_size.
Proof. unfold headerBytes. by rewrite length_app, !length_le_bytes. Qed.

Lemma length_frame m : length (frame m) = (header_size + length m)%nat.
Proof. unfold frame. by rewrite length_app, length_headerBytes. Qed.

Lemma MsgPayloadMaxSize_val : MsgPayloadMaxSize = 2 ^ 20.
Proof. reflexivity. Qed.

Lemma signature_headerBytes n : signature (headerBytes n) = MsgHeaderSignature.
Proof. reflexivity. Qed.

Lemma payload_size_headerBytes n : 0 <= n < 2 ^ 32 -> payload_size (headerBytes n) = n.
Proof.
  intros Hn. unfold payload_size, headerBytes.
  rewrite drop_app_length', take_ge by (by rewrite length_le_bytes).
  rewrite le_value_bytes. change (8 * Z.of_nat 4) with 32.
  by rewrite wrap_wrap, wrap_id.
Qed.

Lemma invalidHeader_frame m : valid_msg m -> invalidHeader (headerBytes (Z.of_nat (length m))) = false.
Proof.
  intros [Hne Hle]. rewrite MsgPayloadMaxSize_val in Hle.
  assert (0 < length m)%nat by (destruct m; cbn; [done|lia]).
  unfold invalidHeader. rewrite signature_headerBytes, payload_size_headerBytes by lia.
  rewrite Z.eqb_refl, Z.gtb_ltb. cbn [negb orb]. rewrite MsgPayloadMaxSize_val.
  apply orb_false_iff. split; [apply Z.eqb_neq|apply Z.ltb_ge]; lia.
Qed.

Lemma length_write_at buf off bs :
  (off + length bs <= length buf)%nat -> length (write_at buf off bs) = length buf.
Proof. intros. unfold write_at. rewrite !length_app, length_take, length_drop. lia. Qed.

Lemma take_write_at buf off bs :
  (off + length bs <= length buf)%nat ->
  take (off + length bs) (write_at buf off bs) = take off buf ++ bs.
Proof.
  intros H. unfold write_at. rewrite app_assoc, take_app_length'; [done|].
  rewrite length_app, length_take. lia.
Qed.

Lemma rx_measure_cons e rx :
  rx_measure (e :: rx) =
  (match e with RxData bs => S (length bs) | _ => 1 end + rx_measure rx)%nat.
Proof. reflexivity. Qed.

(** One [recv] on a healthy connection. *)
Lemma recv_benign n rx :
  (0 < n)%nat -> Forall benign rx ->
  let '(res, rx') := recv n rx in
  Forall benign rx' /\ (rx_measure rx' <= rx_measure rx - 1)%nat /\
  match res with
  | RecvFail err => err = Errno.EAGAIN /\ rx_data rx' = rx_data rx
  | RecvBytes bs => bs <> [] /\ (length bs <= n)%nat /\ rx_data rx = bs ++ rx_data rx'
  end.
Proof.
  intros Hn Hb. induction Hb as [|[e|bs|] rx He Hb IH]; cbn [recv]; [by auto| | |done].
  - destruct (Z.eqb_spec e Errno.EINTR).
    + destruct (recv n rx) as [res rx']. destruct IH as (? & Hm & IH).
      split; [done|]. split; [rewrite rx_measure_cons; lia|done].
    + destruct He as [| ->]; [done|]. split; [done|]. split; [rewrite rx_measure_cons; lia|done].
  - destruct (Nat.leb_spec (length bs) n).
    + split; [done|]. split; [rewrite rx_measure_cons; lia|]. done.
    + split; [constructor; [|done]; cbn; intros E|].
      { apply (f_equal length) in E. rewrite length_drop in E. cbn in E. lia. }
      split; [rewrite !rx_measure_cons, length_drop; lia|].
      split; [intros E; apply (f_equal length) in E; rewrite length_take in E; cbn in E; lia|].
      split; [rewrite length_take; lia|].
      unfold rx_data; cbn. by rewrite app_assoc, take_drop.
Qed.

(** The first frame of a stream, seen through its first 8 bytes. *)
Lemma frame_front (hdr rest : bytes) ms :
  length hdr = header_size -> hdr ++ rest = concat (frame <$> ms) -> Forall valid_msg ms ->
  exists m ms', ms = m :: ms' /\ hdr = headerBytes (Z.of_nat (length m)) /\
                rest = m ++ concat (frame <$> ms').
Proof.
  intros Hlen E Hv. destruct ms as [|m ms'].
  - destruct hdr; [done|discriminate E].
  - exists m, ms'. split; [done|]. cbn in E. unfold frame in E at 1. rewrite <- app_assoc in E.
    apply app_inj_1 in E as [-> ->]; [done|]. by rewrite length_headerBytes.
Qed.

Lemma IoState_init_wf : IoState_wf IoState_init.
Proof. split; [done|]. unfold header_size. cbn. lia. Qed.

(** The five parts of the step lemmas below. *)
Ltac split_step := split; [|split; [|split; [|split]]].

(** The payload part, under the stream equation [pending ++ data ++ future]. *)
Lemma receivePayload_step io_state rx future ms :
  IoState_wf io_state -> (exists size buffer, rx_msg_part io_state = MsgPayload size buffer) ->
  Forall benign rx -> Forall valid_msg ms ->
  pending io_state ++ rx_data rx ++ future = concat (frame <$> ms) ->
  let r := receivePayload io_state rx in
  rcv_error r = None /\ IoState_wf (rcv_state r) /\ Forall benign (rcv_rx r) /\
  (rx_measure (rcv_rx r) <= rx_measure rx - 1)%nat /\
  exists ms', ms = (match rcv_msg r with Some m => [m] | None => [] end) ++ ms' /\
    pending (rcv_state r) ++ rx_data (rcv_rx r) ++ future = concat (frame <$> ms').
Proof.
  intros Hwf (size & buffer & Ep) Hb Hv E. destruct io_state as [partial part]. cbn in Ep. subst part.
  destruct Hwf as (Hs & Hl & Hp). cbn in Hp. unfold receivePayload; cbn.
  rewrite (proj2 (Z.ltb_lt _ _)) by lia.
  pose proof (recv_benign (Z.to_nat size - partial) rx ltac:(lia) Hb) as Hrecv.
  destruct (recv _ rx) as [[err|bs] rx'].
  - destruct Hrecv as (Hb' & Hm & -> & Hd). cbn.
    split_step; [done|done|done|done|]. exists ms. cbn [rcv_msg rcv_state rcv_rx]. by rewrite Hd.
  - destruct Hrecv as (Hb' & Hm & Hne & Hn & Hd). rewrite bool_decide_eq_false_2 by done.
    assert (Hfit : (partial + length bs <= length buffer)%nat) by lia.
    assert (E' : headerBytes size ++ take (partial + length bs) (write_at buffer partial bs) ++
                 rx_data rx' ++ future = concat (frame <$> ms)).
    { rewrite take_write_at by done. rewrite <- E. cbn. by rewrite Hd, <- !app_assoc. }
    destruct (Z.ltb_spec (Z.of_nat (partial + length bs)) size); cbn.
    + split_step; [done|split; [done|cbn; rewrite length_write_at by done; lia]|done|done|].
      exists ms. split; [done|]. by rewrite <- app_assoc.
    + split_step; [done|exact IoState_init_wf|done|done|].
      apply frame_front in E' as (m & ms' & -> & Hh & E'); [|by rewrite length_headerBytes|done].
      apply Forall_cons in Hv as [[Hv1 Hv2] _]. rewrite MsgPayloadMaxSize_val in *.
      apply (f_equal payload_size) in Hh. rewrite !payload_size_headerBytes in Hh by lia.
      replace (partial + length bs)%nat with (Z.to_nat size) in E' by lia.
      apply app_inj_1 in E' as [Em Er].
      2:{ rewrite length_take, length_write_at by done. lia. }
      exists ms'. rewrite Em. split; [done|]. exact Er.
Qed.

(** One call of [receiveData] on a healthy connection. *)
Lemma receiveData_step io_state rx future ms :
  IoState_wf io_state -> Forall benign rx -> Forall valid_msg ms ->
  pending io_state ++ rx_data rx ++ future = concat (frame <$> ms) ->
  let r := receiveData io_state rx in
  rcv_error r = None /\ IoState_wf (rcv_state r) /\ Forall benign (rcv_rx r) /\
  (rx_measure (rcv_rx r) <= rx_measure rx - 1)%nat /\
  exists ms', ms = (match rcv_msg r with Some m => [m] | None => [] end) ++ ms' /\
    pending (rcv_state r) ++ rx_data (rcv_rx r) ++ future = concat (frame <$> ms').
Proof.
  intros Hwf Hb Hv E. destruct io_state as [partial [raw|size buffer]].
  2:{ apply receivePayload_step; eauto. }
  destruct Hwf as [Hl Hp]. cbn in Hp, Hl. unfold receiveData; cbn [rx_msg_part rx_partial_size].
  rewrite (proj2 (Nat.ltb_lt _ _)) by done.
  pose proof (recv_benign (header_size - partial) rx ltac:(unfold header_size in *; lia) Hb) as Hrecv.
  destruct (recv _ rx) as [[err|bs] rx'].
  - destruct Hrecv as (Hb' & Hm & -> & Hd). cbn.
    split_step; [done|by split|done|done|]. exists ms. cbn [rcv_msg rcv_state rcv_rx]. by rewrite Hd.
  - destruct Hrecv as (Hb' & Hm & Hne & Hn & Hd). rewrite bool_decide_eq_false_2 by done.
    assert (Hfit : (partial + length bs <= length raw)%nat) by lia.
    assert (E' : take (partial + length bs) (write_at raw partial bs) ++ rx_data rx' ++ future
                 = concat (frame <$> ms)).
    { rewrite take_write_at by done. rewrite <- E. cbn. by rewrite Hd, <- !app_assoc. }
    destruct (Nat.ltb_spec (partial + length bs) header_size).
    + cbn. split_step; [done|by split; cbn; rewrite ?length_write_at by done|done|done|].
      exists ms. done.
    + rewrite take_ge in E' by (rewrite length_write_at; lia).
      pose proof E' as E''.
      apply frame_front in E' as (m & ms' & -> & Hh & E');
        [|rewrite length_write_at by done; done|done].
      pose proof Hv as [[Hv1 Hv2] _]%Forall_cons. rewrite Hh, invalidHeader_frame by done.
      rewrite MsgPayloadMaxSize_val in *. unfold startPayload.
      rewrite payload_size_headerBytes by lia.
      assert (0 < length m)%nat by (destruct m; cbn; [done|lia]).
      destruct (receivePayload_step
        (mkIoState 0 (MsgPayload (Z.of_nat (length m)) (replicate (Z.to_nat (Z.of_nat (length m))) x00)))
        rx' future (m :: ms')) as (? & ? & ? & ? & ?); eauto.
      * split_and!; cbn; rewrite ?length_replicate; rewrite ?MsgPayloadMaxSize_val; lia.
      * cbn. rewrite app_nil_r. rewrite <- Hh. exact E''.
      * split_step; try done. lia.
Qed.

Lemma receiveLoop_stream fuel io_state rx future ms :
  IoState_wf io_state -> Forall benign rx -> Forall valid_msg ms ->
  pending io_state ++ rx_data rx ++ future = concat (frame <$> ms) ->
  (rx_measure rx <= fuel)%nat ->
  exists delivered rest st',
    receiveLoop fuel io_state rx = (delivered, None, st', []) /\
    ms = delivered ++ rest /\ IoState_wf st' /\
    pending st' ++ future = concat (frame <$> rest).
Proof.
  revert io_state rx ms. induction fuel as [|f IH]; intros io_state rx ms Hwf Hb Hv E Hf.
  - destruct rx as [|e rx]; [|rewrite rx_measure_cons in Hf; destruct e; lia].
    by exists [], ms, io_state.
  - cbn [receiveLoop]. case_bool_decide as Hrx.
    + subst rx. by exists [], ms, io_state.
    + destruct (receiveData_step io_state rx future ms Hwf Hb Hv E)
        as (He & Hwf' & Hb' & Hm & ms' & Ems & E').
      rewrite He. rewrite Ems in Hv. apply Forall_app in Hv as [_ Hv'].
      destruct (IH _ _ ms' Hwf' Hb' Hv' E') as (dl & rest & st' & -> & -> & ? & ?); [lia|].
      exists ((match rcv_msg (receiveData io_state rx) with Some m => [m] | None => [] end) ++ dl), rest, st'.
      rewrite <- app_assoc. done.
Qed.

(** A state between calls never holds a complete frame. *)
Lemma pending_short io_state m tl :
  IoState_wf io_state -> valid_msg m -> pending io_state = frame m ++ tl -> False.
Proof.
  intros Hwf Hv E. destruct io_state as [p [raw|size buffer]]; cbn in Hwf, E.
  - destruct Hwf as [Hl Hp]. apply (f_equal length) in E.
    rewrite length_take, length_app, length_frame in E. lia.
  - destruct Hwf as (Hs & Hl & Hp). destruct Hv as [_ Hv]. rewrite MsgPayloadMaxSize_val in *.
    unfold frame in E. rewrite <- app_assoc in E.
    apply app_inj_1 in E as [Hh Er]; [|by rewrite !length_headerBytes].
    apply (f_equal payload_size) in Hh. rewrite !payload_size_headerBytes in Hh by lia.
    apply (f_equal length) in Er. rewrite length_take, length_app in Er. lia.
Qed.

Lemma pending_init : pending IoState_init = [].
Proof. reflexivity. Qed.

(** What is still in a stream that ends inside the frame of [m]: not all of that
    frame was read, and when the socket is empty only its beginning is left. *)
Lemma unfinished_frame ms m delivered rest part future io_state rx :
  Forall valid_msg ms -> IoState_wf io_state -> ms ++ [m] = delivered ++ rest ->
  part ++ future = frame m -> future <> [] ->
  pending io_state ++ rx_data rx ++ future = concat (frame <$> rest) ->
  delivered `prefix_of` ms /\ (rx = [] -> delivered = ms /\ pending io_state = part).
Proof.
  intros Hv Hwf Ems Ef Hne Ep. destruct rest as [|r rest' _] using rev_ind.
  { cbn in Ep. apply app_eq_nil in Ep as [_ [_ ?]%app_eq_nil]. done. }
  rewrite app_assoc in Ems. apply app_inj_tail in Ems as [-> <-].
  split; [by apply prefix_app_r|]. intros ->.
  rewrite fmap_app, concat_app in Ep. cbn in Ep. rewrite app_nil_r, <- Ef, !app_assoc, app_nil_r in Ep.
  apply app_inv_tail in Ep. destruct rest' as [|r rest']; [by rewrite app_nil_r|].
  exfalso. apply Forall_app in Hv as [_ [Hr _]%Forall_cons].
  cbn in Ep. rewrite <- app_assoc in Ep. exact (pending_short _ _ _ Hwf Hr Ep).
Qed.

(** However the kernel cuts and interrupts the stream, exactly the messages
    whose frames are complete are delivered, in order and unchanged; the
    beginning of the next frame is kept for later. *)
Theorem receiveLoop_delivers (ms : list bytes) (m part future : bytes) (rx : list RxEvent) :
  Forall valid_msg ms -> valid_msg m -> part ++ future = frame m -> future <> [] ->
  Forall benign rx -> rx_data rx = concat (frame <$> ms) ++ part ->
  exists st', receiveLoop (rx_measure rx) IoState_init rx = (ms, None, st', []) /\
              IoState_wf st' /\ pending st' = part.
Proof.
  intros Hv Hm Ef Hne Hb Ed.
  destruct (receiveLoop_stream (rx_measure rx) IoState_init rx future (ms ++ [m]))
    as (dl & rest & st' & -> & Ems & Hwf & Ep); [exact IoState_init_wf|done| |..|done|].
  { apply Forall_app. split; [done|by apply Forall_singleton]. }
  { rewrite pending_init, Ed, fmap_app, concat_app. cbn. by rewrite app_nil_r, <- app_assoc, Ef. }
  destruct (unfinished_frame ms m dl rest part future st' [] Hv Hwf Ems Ef Hne Ep) as [_ [-> Hp]]; eauto.
Qed.

(** "hi", cut after 3 bytes, and the beginning of "you". *)
Definition example_rx : list RxEvent :=
  [RxData (take 3 (frame (str "hi"))); RxErr Errno.EAGAIN;
   RxData (drop 3 (frame (str "hi")) ++ take 9 (frame (str "you"))); RxErr Errno.EINTR].

Lemma receiveLoop_delivers_witness :
  exists st', receiveLoop (rx_measure example_rx) IoState_init example_rx = ([str "hi"], None, st', [])
    /\ IoState_wf st' /\ pending st' = take 9 (frame (str "you")).
Proof.
  apply (receiveLoop_delivers [str "hi"] (str "you") (take 9 (frame (str "you")))
           (drop 9 (frame (str "you"))) example_rx).
  - repeat constructor; by vm_compute.
  - split; by vm_compute.
  - by vm_compute.
  - done.
  - unfold example_rx. repeat constructor; done.
  - by vm_compute.
Defined.

(** *** Any peer, however hostile *)

Lemma recv_length n rx bs rx' : recv n rx = (RecvBytes bs, rx') -> (length bs <= n)%nat.
Proof.
  revert rx'. induction rx as [|[e|d|] rx IH]; intros rx' H; cbn in H.
  - done.
  - destruct (e =? Errno.EINTR); [eauto|done].
  - destruct (Nat.leb_spec (length d) n); injection H as <- _; [done|]. rewrite length_take. lia.
  - injection H as <- _. cbn. lia.
Qed.

Lemma receivePayload_wf io_state rx :
  IoState_wf io_state ->
  let r := receivePayload io_state rx in
  (rcv_error r = None -> IoState_wf (rcv_state r)) /\ (forall m, rcv_msg r = Some m -> valid_msg m).
Proof.
  intros Hwf. destruct io_state as [p [raw|size buffer]].
  { split; [intros _; exact Hwf|done]. }
  destruct Hwf as (Hs & Hl & Hp). cbn in Hp. unfold receivePayload; cbn [rx_msg_part rx_partial_size].
  rewrite (proj2 (Z.ltb_lt _ _)) by lia.
  destruct (recv _ rx) as [[err|bs] rx'] eqn:Er.
  - by destruct (isNotReadyCondition err).
  - apply recv_length in Er. case_bool_decide; [by split|].
    assert (Hfit : (p + length bs <= length buffer)%nat) by lia.
    destruct (Z.ltb_spec (Z.of_nat (p + length bs)) size); (split; [intros _|intros m [= <-]]).
    + split; [done|]. cbn. rewrite length_write_at by done. lia.
    + exact IoState_init_wf.
    + split; [intros E; apply (f_equal length) in E|];
        rewrite length_take, length_write_at in * by done; cbn in *; lia.
Qed.

(** C14: whatever bytes arrive, a call that reports no error leaves a state whose
    partial size is within its buffer (so no [recv] can write past it), and a
    message handed to the upper layer is not empty and at most 1 MB. *)
Theorem receiveData_safe (io_state : IoState) (rx : list RxEvent) :
  IoState_wf io_state ->
  let r := receiveData io_state rx in
  (rcv_error r = None -> IoState_wf (rcv_state r)) /\ (forall m, rcv_msg r = Some m -> valid_msg m).
Proof.
  intros Hwf. destruct io_state as [p [raw|size buffer]]; [|by apply receivePayload_wf].
  destruct Hwf as [Hl Hp]. cbn in Hl, Hp. unfold receiveData; cbn [rx_msg_part rx_partial_size].
  rewrite (proj2 (Nat.ltb_lt _ _)) by done.
  destruct (recv _ rx) as [[err|bs] rx'] eqn:Er.
  - destruct (isNotReadyCondition err); [by split|]. by destruct (err =? Errno.ECONNRESET).
  - apply recv_length in Er. case_bool_decide; [by split|].
    destruct (Nat.ltb_spec (p + length bs) header_size).
    { split; [intros _|done]. split; cbn; [rewrite length_write_at|]; lia. }
    destruct (invalidHeader _) eqn:Ei; [by split|].
    apply receivePayload_wf. set (raw' := write_at raw p bs) in *.
    unfold invalidHeader in Ei. rewrite !orb_false_iff, Z.gtb_ltb in Ei.
    destruct Ei as [[_ Hz%Z.eqb_neq] Hmx%Z.ltb_ge].
    assert (0 <= payload_size raw').
    { unfold payload_size. generalize (take 4 (drop 4 raw')). intros l.
      induction l as [|b l IH]; cbn; [lia|]. pose proof (Z_of_byte_bound b). lia. }
    split; cbn; [lia|]. rewrite length_replicate. lia.
Qed.

Lemma receiveData_safe_witness :
  rcv_error (receiveData IoState_init [RxData (str "garbage!x")]) = Some (Err Code.InvalidArgument) /\
  IoState_wf (rcv_state (receiveData IoState_init [RxData (str "OCV")])).
Proof.
  split; [by vm_compute|].
  exact (proj1 (receiveData_safe IoState_init [RxData (str "OCV")] IoState_init_wf) eq_refl).
Defined.

(** ** Sending: the stream that the peer receives *)

(** A kernel that takes every fragment whole (fragments are at most [n] bytes),
    possibly after interruptions. *)
Definition takes_whole (n : nat) (e : TxEvent) : Prop :=
  match e with
  | TxErr err => err = Errno.EINTR
  | TxSent k => (n <= k)%nat
  end.

Lemma send_fragment_whole n payload tx :
  (length payload <= n)%nat -> Forall (takes_whole n) tx ->
  exists tx', send_fragment payload tx = (None, payload, tx') /\ Forall (takes_whole n) tx'.
Proof.
  intros Hl Hf. induction Hf as [|[e|k] tx He Hf IH]; cbn.
  - by exists [].
  - cbn in He. subst e. exact IH.
  - exists tx. rewrite take_ge by (cbn in He; lia). done.
Qed.

Lemma send_fragments_whole n fs tx :
  Forall (fun p => (length (pl_bytes p) <= n)%nat) fs -> Forall (takes_whole n) tx ->
  exists tx', send_fragments fs tx = (None, concat (pl_bytes <$> fs), tx').
Proof.
  intros Hfs. revert tx. induction Hfs as [|p fs Hp Hfs IH]; intros tx Htx; cbn; [eauto|].
  destruct (send_fragment_whole n _ _ Hp Htx) as (tx1 & -> & Htx1).
  destruct (IH _ Htx1) as (tx2 & ->). eauto.
Qed.

Lemma fragments_le (fs : list Payload) n :
  (length (concat (pl_bytes <$> fs)) <= n)%nat ->
  Forall (fun p => (length (pl_bytes p) <= n)%nat) fs.
Proof.
  induction fs as [|p fs IH]; cbn; [constructor|]. rewrite length_app. intros.
  constructor; [lia|]. apply IH. lia.
Qed.

(** The buffer that [send] writes out. *)
Lemma send_contents b :
  SocketBuffer.wf b -> Z.of_nat (length (SocketBuffer.contents b)) < 2 ^ 32 ->
  SocketBuffer.contents
    (SocketBuffer.prepend (span (headerBytes (SocketBuffer.size b))) b) = frame (SocketBuffer.contents b).
Proof.
  intros [Hs _] Hl. rewrite SocketBuffer.contents_prepend, SocketBuffer.payload_data_span.
  unfold frame, SocketBuffer.size. by rewrite Hs, wrap_id by lia.
Qed.

Lemma send_whole b tx :
  SocketBuffer.wf b -> Z.of_nat (length (SocketBuffer.contents b)) < 2 ^ 32 ->
  Forall (takes_whole (length (frame (SocketBuffer.contents b)))) tx ->
  exists b' tx', send b tx = (None, frame (SocketBuffer.contents b), b', tx').
Proof.
  intros Hwf Hl Htx. pose proof (send_contents b Hwf Hl) as Hc. unfold send.
  destruct (send_fragments_whole (length (frame (SocketBuffer.contents b)))
    (SocketBuffer.listFragments (SocketBuffer.prepend (span (headerBytes (SocketBuffer.size b))) b)) tx)
    as (tx' & Hs).
  - apply fragments_le. by rewrite <- Hc.
  - done.
  - rewrite Hs. eexists _, tx'. do 3 f_equal. exact Hc.
Qed.

(** Sending buffers one after the other on the same descriptor; every [send]
    has its own answers from the kernel. *)
Fixpoint send_all (bs : list (SocketBuffer.t * list TxEvent)) : list OptError * bytes :=
  match bs with
  | [] => ([], [])
  | (b, tx) :: bs' =>
      let '(e, out, _, _) := send b tx in
      let '(es, outs) := send_all bs' in (e :: es, out ++ outs)
  end.

Definition sendable (x : SocketBuffer.t * list TxEvent) : Prop :=
  SocketBuffer.wf x.1 /\ valid_msg (SocketBuffer.contents x.1) /\
  Forall (takes_whole (length (frame (SocketBuffer.contents x.1)))) x.2.

Lemma send_all_frames bs :
  Forall sendable bs ->
  send_all bs = (replicate (length bs) None,
                 concat (frame <$> ((fun x => SocketBuffer.contents x.1) <$> bs))).
Proof.
  intros H. induction H as [|[b tx] bs (Hwf & [_ Hv] & Htx) H IH]; [done|]. cbn in *.
  rewrite MsgPayloadMaxSize_val in Hv.
  destruct (send_whole b tx Hwf ltac:(lia) Htx) as (b' & tx' & ->). by rewrite IH.
Qed.

(** C13: the pipe is a message channel over kernels that write whole. Buffers of 1 byte to 1 MB
    sent on one side, over a kernel that takes each fragment whole or is interrupted ([EINTR]),
    come out on the other side as the same messages in the same order, whatever the sizes of
    the pieces received and however often a read is interrupted or finds nothing. A kernel
    that writes a part of a fragment is excluded: then the framing is lost ([send_short_write]). *)
Theorem pipe_roundtrip (bs : list (SocketBuffer.t * list TxEvent)) (rx : list RxEvent) :
  Forall sendable bs -> Forall benign rx -> rx_data rx = (send_all bs).2 ->
  (send_all bs).1 = replicate (length bs) None /\
  exists st', receiveLoop (rx_measure rx) IoState_init rx =
    ((fun x => SocketBuffer.contents x.1) <$> bs, None, st', []) /\ pending st' = [].
Proof.
  intros Hb Hrx Hd. rewrite (send_all_frames bs Hb) in *. split; [done|]. cbn in Hd.
  destruct (receiveLoop_stream (rx_measure rx) IoState_init rx []
    ((fun x => SocketBuffer.contents x.1) <$> bs)) as (dl & rest & st' & -> & E & Hwf & Ep).
  - exact IoState_init_wf.
  - done.
  - apply Forall_fmap. eapply Forall_impl; [exact Hb|]. by intros [b tx] (_ & ? & _).
  - by rewrite pending_init, Hd, app_nil_r.
  - done.
  - rewrite app_nil_r in Ep. exists st'. destruct rest as [|m rest].
    { rewrite app_nil_r in E. by rewrite E. }
    exfalso. eapply (pending_short st' m); [done| |exact Ep].
    assert (Hall : Forall valid_msg ((fun x => SocketBuffer.contents x.1) <$> bs)).
    { apply Forall_fmap. eapply Forall_impl; [exact Hb|]. by intros [b tx] (_ & ? & _). }
    rewrite E in Hall. by apply Forall_app in Hall as [_ [? _]%Forall_cons].
Qed.

Definition example_sent : list (SocketBuffer.t * list TxEvent) :=
  [(SocketBuffer.ofPayload (span (str "ab")), [TxErr Errno.EINTR; TxSent 10; TxSent 10]);
   (SocketBuffer.prepend (span (str "c")) (SocketBuffer.ofPayload (span (str "d"))), [])].

Lemma pipe_roundtrip_witness :
  exists st', receiveLoop 22 IoState_init
    [RxData (take 13 (send_all example_sent).2); RxData (drop 13 (send_all example_sent).2)] =
    ([str "ab"; str "cd"], None, st', []) /\ pending st' = [].
Proof.
  refine (proj2 (pipe_roundtrip example_sent
    [RxData (take 13 (send_all example_sent).2); RxData (drop 13 (send_all example_sent).2)] _ _ _)).
  - unfold example_sent. repeat constructor; cbn; try done; by vm_compute.
  - repeat constructor; done.
  - reflexivity.
Defined.

(** A short write is not noticed. When the kernel takes only [k] bytes of
    the payload, [send] still reports success, and the stream holds a header
    that announces more bytes than follow it. *)
Theorem send_short_write (m : bytes) (k : nat) :
  valid_msg m -> (k < length m)%nat ->
  exists b', send (SocketBuffer.ofPayload (span m)) [TxSent 8; TxSent k] =
    (None, headerBytes (Z.of_nat (length m)) ++ take k m, b', []) /\
  headerBytes (Z.of_nat (length m)) ++ take k m <> frame m.
Proof.
  intros [Hne Hv] Hk. rewrite MsgPayloadMaxSize_val in Hv.
  unfold send, SocketBuffer.ofPayload, SocketBuffer.append, SocketBuffer.isValidPayload, span.
  cbn [pl_null pl_bytes negb andb]. rewrite bool_decide_eq_false_2 by done. cbn [negb].
  unfold SocketBuffer.size, pl_size; cbn [SocketBuffer.size_ SocketBuffer.empty pl_bytes].
  rewrite Z.add_0_l, (wrap_id 64) by lia.
  unfold SocketBuffer.prepend, SocketBuffer.isValidPayload. cbn [pl_null pl_bytes negb andb].
  rewrite bool_decide_eq_false_2.
  2:{ intros E. apply (f_equal length) in E. by rewrite length_headerBytes in E. }
  cbn. eexists. split.
  - rewrite app_nil_r. rewrite (take_ge (headerBytes _)) by (rewrite length_headerBytes; done). done.
  - intros E. apply (f_equal length) in E.
    rewrite length_frame, length_app, length_headerBytes, length_take in E. lia.
Qed.

Lemma send_short_write_witness :
  exists b', send (SocketBuffer.ofPayload (span (str "hello"))) [TxSent 8; TxSent 2] =
    (None, headerBytes 5 ++ str "he", b', []).
Proof.
  destruct (send_short_write (str "hello") 2) as (b' & E & _).
  - split; by vm_compute.
  - vm_compute. lia.
  - exists b'. exact E.
Defined.
