(* ===== verification/Gateway.v ===== *)
(** * Gateways: the objects shared by an IPC router and its channels

    Models [src/common/ipc/gateway.hpp], the wire messages of
    [src/common/dsdl/ocvsmd/common/ipc/] and the part of the two [GatewayImpl]
    classes that does not depend on the router: the fields, and the life of the
    object under its strong and weak pointers. A gateway lives in a heap; a
    strong pointer is held either by a channel ([gw_owners]) or by a router
    function that has locked a weak pointer ([gw_locks]); the object is
    destroyed when both counts are zero. A weak pointer is an address. *)
From S2P Require Import Prelude Errors SocketBuffer.

Local Open Scope Z_scope.

(** ** Wire messages ([Route.0.2.dsdl]) *)
Inductive Route : Type :=
| Route_empty
| Route_connect (version_major version_minor : Z) (error : Error_0_1)
| Route_channel_msg (tag sequence service_id payload_size : Z)
| Route_channel_end (tag : Z) (keep_alive : bool) (error : Error_0_1).

#[export] Instance Route_eq_dec : EqDecision Route.
Proof. solve_decision. Defined.

Definition u64_field (z : Z) : Prop := 0 <= z < 2 ^ 64.
Definition error_field (e : Error_0_1) : Prop :=
  0 <= error_code e < 2 ^ 32 /\ - 2 ^ 31 <= raw_errno e < 2 ^ 31.

(** Values that the DSDL fields can hold. *)
Definition Route_wf (r : Route) : Prop :=
  match r with
  | Route_empty => True
  | Route_connect major minor e => 0 <= major < 256 /\ 0 <= minor < 256 /\ error_field e
  | Route_channel_msg tag sequence service_id payload_size =>
      u64_field tag /\ u64_field sequence /\ u64_field service_id /\ u64_field payload_size
  | Route_channel_end tag _ e => u64_field tag /\ error_field e
  end.

(** ** Events ([Gateway::Event]) *)
Inductive GwEvent : Type :=
| Connected
| Message (sequence : Z) (payload : bytes)
| Completed (opt_error : OptError) (keep_alive : bool).

#[export] Instance GwEvent_eq_dec : EqDecision GwEvent.
Proof. solve_decision. Defined.

(** ** The gateway object *)
Abbreviation GwId := nat.

Record Gateway (EP H : Type) := mkGateway {
  gw_endpoint : EP;
  gw_next_sequence : Z;
  gw_event_handler : option H;
  gw_completion_opt_error : OptError;
  gw_owners : nat;
  gw_locks : nat;
}.
Arguments mkGateway {EP H}.
Arguments gw_endpoint {EP H}.
Arguments gw_next_sequence {EP H}.
Arguments gw_event_handler {EP H}.
Arguments gw_completion_opt_error {EP H}.
Arguments gw_owners {EP H}.
Arguments gw_locks {EP H}.

(** [hp_events] records every event handed to a gateway, in order. *)
Record Heap (EP H : Type) := mkHeap {
  hp_gateways : gmap GwId (Gateway EP H);
  hp_next : GwId;
  hp_events : list (GwId * GwEvent);
}.
Arguments mkHeap {EP H}.
Arguments hp_gateways {EP H}.
Arguments hp_next {EP H}.
Arguments hp_events {EP H}.

Section Heap.
Context {EP H : Type}.
Implicit Types (hp : Heap EP H) (gw : Gateway EP H) (g : GwId).

Definition Heap_init : Heap EP H := mkHeap ∅ 0%nat [].

(** [GatewayImpl::create]: the result is held by a local strong pointer. *)
Definition heap_create (endpoint : EP) (hp : Heap EP H) : GwId * Heap EP H :=
  (hp_next hp,
   mkHeap (<[hp_next hp := mkGateway endpoint 0 None None 0 1]> (hp_gateways hp))
          (S (hp_next hp)) (hp_events hp)).

Definition heap_update g (f : Gateway EP H -> Gateway EP H) (hp : Heap EP H) : Heap EP H :=
  mkHeap (alter f g (hp_gateways hp)) (hp_next hp) (hp_events hp).

Definition heap_free g (hp : Heap EP H) : Heap EP H :=
  mkHeap (delete g (hp_gateways hp)) (hp_next hp) (hp_events hp).

Definition heap_log g (e : GwEvent) (hp : Heap EP H) : Heap EP H :=
  mkHeap (hp_gateways hp) (hp_next hp) (hp_events hp ++ [(g, e)]).

Definition gw_set_sequence (n : Z) gw : Gateway EP H :=
  mkGateway (gw_endpoint gw) n (gw_event_handler gw) (gw_completion_opt_error gw)
            (gw_owners gw) (gw_locks gw).
Definition gw_set_handler (h : option H) gw : Gateway EP H :=
  mkGateway (gw_endpoint gw) (gw_next_sequence gw) h (gw_completion_opt_error gw)
            (gw_owners gw) (gw_locks gw).
Definition gw_set_completion (e : OptError) gw : Gateway EP H :=
  mkGateway (gw_endpoint gw) (gw_next_sequence gw) (gw_event_handler gw) e
            (gw_owners gw) (gw_locks gw).
Definition gw_set_refs (owners locks : nat) gw : Gateway EP H :=
  mkGateway (gw_endpoint gw) (gw_next_sequence gw) (gw_event_handler gw)
            (gw_completion_opt_error gw) owners locks.

(** The strong pointers that are on the stack of the router. *)
Definition locks_of (hp : Heap EP H) g : nat :=
  match hp_gateways hp !! g with Some gw => gw_locks gw | None => O end.

(** Heap invariant: a live object has a strong pointer, a bounded sequence
    number, and an address below the next one. *)
Definition Heap_wf (hp : Heap EP H) : Prop :=
  forall g gw, hp_gateways hp !! g = Some gw ->
    (0 < gw_owners gw + gw_locks gw)%nat /\ (g < hp_next hp)%nat /\ u64_field (gw_next_sequence gw).

Lemma Heap_init_wf : Heap_wf Heap_init.
Proof. by intros g gw. Qed.

Lemma heap_create_wf ep hp : Heap_wf hp -> Heap_wf (heap_create ep hp).2.
Proof.
  intros Hw g gw. cbn. rewrite lookup_insert_Some.
  intros [[<- <-]|[_ Hg]]; cbn; [by split_and!; [lia|lia|split; lia]|].
  destruct (Hw _ _ Hg) as (? & ? & ?). split_and!; auto; lia.
Qed.

Lemma heap_update_wf g f hp :
  Heap_wf hp ->
  (forall gw, hp_gateways hp !! g = Some gw ->
     (0 < gw_owners (f gw) + gw_locks (f gw))%nat /\ u64_field (gw_next_sequence (f gw))) ->
  Heap_wf (heap_update g f hp).
Proof.
  intros Hw Hf g' gw'. cbn. rewrite lookup_alter_Some.
  intros [(<- & gw & Hg & ->)|[_ Hg]]; destruct (Hw _ _ Hg) as (? & ? & ?); [|done].
  destruct (Hf _ Hg). done.
Qed.

Lemma heap_free_wf g hp : Heap_wf hp -> Heap_wf (heap_free g hp).
Proof. intros Hw g' gw'. cbn. rewrite lookup_delete_Some. intros [_ Hg]. by apply Hw. Qed.

Lemma heap_log_wf g e hp : Heap_wf hp -> Heap_wf (heap_log g e hp).
Proof. done. Qed.

Lemma heap_fresh hp : Heap_wf hp -> hp_gateways hp !! hp_next hp = None.
Proof.
  intros Hw. destruct (hp_gateways hp !! hp_next hp) as [gw|] eqn:E; [|done].
  apply Hw in E. lia.
Qed.

Lemma locks_of_update_same g f hp g' :
  (forall gw, gw_locks (f gw) = gw_locks gw) -> locks_of (heap_update g f hp) g' = locks_of hp g'.
Proof.
  intros Hf. unfold locks_of; cbn. rewrite lookup_alter. case_decide; [subst|done].
  destruct (hp_gateways hp !! g') as [gw|]; cbn; [apply Hf|done].
Qed.
End Heap.

#[export] Hint Resolve Heap_init_wf heap_create_wf heap_free_wf heap_log_wf : ocvsmd.

(** ** Routers as worlds of gateways

    A router owns a heap of gateways and registers some of them by endpoint.
    [w_later] is how the router's own state may move while its clients run. *)
Class GatewayWorld (W EP H : Type) := {
  w_heap : W -> Heap EP H;
  w_set_heap : (Heap EP H -> Heap EP H) -> W -> W;
  w_registered : EP -> W -> option GwId;
  w_later : W -> W -> Prop;
}.

Section World.
Context {W EP H : Type} `{GatewayWorld W EP H}.
(** [router_.onGatewayDisposal], called by the destructor. *)
Context (dispose : Gateway EP H -> M W unit).
Context (run_handler : H -> GwEvent -> M W OptError).

Definition find_gw (g : GwId) (w : W) : option (Gateway EP H) := hp_gateways (w_heap w) !! g.

(** The destructor, run when the last strong pointer goes: [~GatewayImpl]. *)
Definition destroy_gateway (g : GwId) (gw : Gateway EP H) : M W unit :=
  modify (w_set_heap (heap_free g));; dispose gw.

(** Giving up one strong pointer, leaving these counts. *)
Definition drop_refs (g : GwId) (gw : Gateway EP H) (owners locks : nat) : M W unit :=
  if decide (owners + locks = 0)%nat then destroy_gateway g gw
  else modify (w_set_heap (heap_update g (gw_set_refs owners locks))).

(** [weak_ptr::lock] and the end of the scope of its result. *)
Definition lock (g : GwId) : M W bool :=
  o ← gets (find_gw g);
  match o with
  | Some gw =>
      modify (w_set_heap (heap_update g (gw_set_refs (gw_owners gw) (S (gw_locks gw)))));;
      mret true
  | None => mret false
  end.

Definition unlock (g : GwId) : M W unit :=
  o ← gets (find_gw g);
  match o with
  | Some gw => match gw_locks gw with
               | S n => drop_refs g gw (gw_owners gw) n
               | O => undef
               end
  | None => undef
  end.

(** A channel copies its gateway pointer, and is destroyed. *)
Definition own (g : GwId) : M W unit :=
  o ← gets (find_gw g);
  match o with
  | Some gw => modify (w_set_heap (heap_update g (gw_set_refs (S (gw_owners gw)) (gw_locks gw))))
  | None => undef
  end.

Definition disown (g : GwId) : M W unit :=
  o ← gets (find_gw g);
  match o with
  | Some gw => match gw_owners gw with
               | S n => drop_refs g gw n (gw_locks gw)
               | O => undef
               end
  | None => undef
  end.

(** [GatewayImpl::event] *)
Definition gateway_event (g : GwId) (event : GwEvent) : M W OptError :=
  o ← gets (find_gw g);
  match o with
  | Some gw =>
      modify (w_set_heap (heap_log g event));;
      match gw_event_handler gw with
      | Some event_handler => run_handler event_handler event
      | None => mret None
      end
  | None => undef
  end.

(** [if (const auto gateway = weak.lock()) { return action(gateway); } return otherwise;] *)
Definition with_locked (g : GwId) (action : M W OptError) (otherwise : M W OptError) : M W OptError :=
  ok ← lock g;
  if (ok : bool) then (e ← action; unlock g;; mret e) else otherwise.

(** [findAndActOnRegisteredGateway] *)
Definition findAndActOnRegisteredGateway (endpoint : EP) (action : GwId -> M W OptError) : M W OptError :=
  o ← gets (w_registered endpoint);
  match o with
  | Some g => with_locked g (action g) (mret None)
  | None => mret None
  end.

(** One gateway of a lost connection is told so. *)
Definition notify_completed (g : GwId) : M W unit :=
  with_locked g (gateway_event g (Completed (Some (Err Code.Disconnected)) false)) (mret None);;
  mret tt.
End World.

(** ** The interfaces between the layers *)

(** What a gateway offers to the channel on top of it ([detail::Gateway]),
    in a world [W]; handlers are values of [H]. *)
Class GatewayI (W H : Type) := {
  gwi_send : GwId -> Z -> SocketBuffer.t -> M W OptError;
  gwi_complete : GwId -> OptError -> bool -> M W OptError;
  gwi_subscribe : GwId -> option H -> M W unit;
}.
