(* ===== verification/GatewayFacts.v ===== *)
(** * The life of gateways

    Theory shared by both routers ([GatewayWorld]): registered weak pointers
    never dangle, strong pointers taken by a router are given back, events are
    only added. The router supplies the laws [GatewayWorldOk] and a disposal
    that unregisters ([Disposer]); the channels above supply handlers that keep
    the invariant ([Handlers]). *)
From S2P Require Import Prelude Errors SocketBuffer Gateway.

Local Open Scope Z_scope.

(** *** A channel message on the wire *)

(** The generated serialiser never fills more than half of the address space. *)
Definition serializer_bounded `{Codec Route} : Prop :=
  forall route bs, serialize route SerializationBufferSizeBytes = Some bs -> Z.of_nat (length bs) < 2 ^ 63.

Lemma channel_msg_wire `{CodecOk Route Route_wf} tag seq svc (buf : SocketBuffer.t) :
  u64_field tag -> u64_field seq -> u64_field svc ->
  SocketBuffer.wf buf -> Z.of_nat (length (SocketBuffer.contents buf)) < 2 ^ 63 -> serializer_bounded ->
  exists bs,
    serialize (Route_channel_msg tag seq svc (SocketBuffer.size buf)) SerializationBufferSizeBytes = Some bs /\
    let wire := SocketBuffer.contents (SocketBuffer.prepend (span bs) buf) in
    tryDeserializePayload wire = Some (Route_channel_msg tag seq svc (SocketBuffer.size buf)) /\
    payload_tail wire (SocketBuffer.size buf) = Done (SocketBuffer.contents buf).
Proof.
  intros Htag Hseq Hsvc [Hsize _] Hlen Hser. rewrite wrap_id in Hsize by lia.
  change (SocketBuffer.size_ buf) with (SocketBuffer.size buf) in Hsize.
  assert (Route_wf (Route_channel_msg tag seq svc (SocketBuffer.size buf))) as Hwf.
  { split; [done|]. split; [done|]. split; [done|]. rewrite Hsize. unfold u64_field. lia. }
  destruct (serialize_total _ Hwf) as (bs & Hbs & _). exists bs. split; [done|].
  cbv zeta. rewrite SocketBuffer.contents_prepend, SocketBuffer.payload_data_span.
  split; [by eapply deserialize_serialize|]. rewrite Hsize. apply payload_tail_app.
  rewrite length_app. apply Hser in Hbs. lia.
Qed.

(** *** What goes to the pipe *)

Definition is_channel_msg (route : Route) : bool :=
  match route with Route_channel_msg _ _ _ _ => true | _ => false end.

(** A property of everything that a router hands to its pipe: routes of their own, and
    routes of channel messages with the payload after them. *)
Class WireFine `{Codec Route} (fine : bytes -> Prop) : Prop := {
  fine_route route bs :
    serialize route SerializationBufferSizeBytes = Some bs -> is_channel_msg route = false -> fine bs;
  fine_channel_msg tag seq svc buf bs :
    SocketBuffer.wf buf ->
    serialize (Route_channel_msg tag seq svc (SocketBuffer.size buf)) SerializationBufferSizeBytes = Some bs ->
    fine (bs ++ SocketBuffer.contents buf);
}.

#[export] Instance any_wire_fine `{Codec Route} : WireFine (fun _ => True).
Proof. by split. Qed.

(** A message does not announce more payload than it has. *)
Definition announced `{Codec Route} (m : bytes) : Prop :=
  Z.of_nat (length m) < 2 ^ 63 -> forall tag seq svc size,
    tryDeserializePayload m = Some (Route_channel_msg tag seq svc size) -> payload_tail m size <> Undef.

(** What routers send is so. *)
#[export] Instance announced_wire_fine `{CodecOk Route Route_wf} `{!CodecTyped Route Route_wf} : WireFine announced.
Proof.
  split.
  - intros route bs Hs Hr _ tag seq svc size Hd. unfold tryDeserializePayload in Hd.
    rewrite <- (app_nil_r bs), (deserialize_serialize route bs []) in Hd by (try apply (serialize_typed _ _ Hs); done).
    by injection Hd as ->.
  - intros tag seq svc buf bs [Hsize _] Hs Hlen tag' seq' svc' size' Hd. unfold tryDeserializePayload in Hd.
    rewrite (deserialize_serialize _ _ _ (serialize_typed _ _ Hs) Hs) in Hd. injection Hd as _ _ _ <-.
    change (SocketBuffer.size buf) with (SocketBuffer.size_ buf).
    rewrite length_app in Hlen. rewrite Hsize, wrap_id by lia. rewrite payload_tail_app; [done|].
    rewrite length_app. lia.
Qed.

Class GatewayWorldOk (W EP H : Type) `{GatewayWorld W EP H} : Prop := {
  w_heap_set f w : w_heap (w_set_heap f w) = f (w_heap w);
  w_registered_set ep f w : w_registered ep (w_set_heap f w) = w_registered ep w;
  #[global] w_later_preorder :: PreOrder w_later;
  w_later_set f w : w_later w (w_set_heap f w);
}.

Section Facts.
Context {W EP H : Type} `{GatewayWorldOk W EP H}.
Implicit Types (w : W) (g : GwId) (gw : Gateway EP H) (ep : EP).

(** Every registered pointer is to a live gateway of that endpoint. *)
Definition registered_live w : Prop :=
  forall ep g, w_registered ep w = Some g ->
    exists gw, find_gw g w = Some gw /\ gw_endpoint gw = ep.

Definition Inv w : Prop := Heap_wf (w_heap w) /\ registered_live w.

Abbreviation locks w g := (locks_of (w_heap w) g).

(** How the world may change below a pipe event: events are only added,
    addresses are not reused, destroyed gateways stay destroyed. *)
Record grows w w' : Prop := {
  grows_events : hp_events (w_heap w) `prefix_of` hp_events (w_heap w');
  grows_next : (hp_next (w_heap w) <= hp_next (w_heap w'))%nat;
  grows_dead : forall g, (g < hp_next (w_heap w))%nat -> find_gw g w = None -> find_gw g w' = None;
  grows_later : w_later w w';
}.

#[export] Instance grows_preorder : PreOrder grows.
Proof.
  split.
  - intros w. by split.
  - intros w1 w2 w3 [] []. split; [by etrans|lia| |by etrans]. intros g Hg Hd. auto with lia.
Qed.

Definition same_locks w w' : Prop := forall g, locks w' g = locks w g.

(** [m] keeps the invariant and returns every strong pointer it took. *)
Definition safe {A} (P : W -> Prop) (m : M W A) : Prop :=
  forall w, Inv w -> P w -> wp m (fun _ w' => Inv w' /\ grows w w' /\ same_locks w w') w.

Abbreviation any := (fun _ : W => True).

Lemma safe_ret {A} P (a : A) : safe P (mret a).
Proof. intros w Hi _. apply wp_ret. split; [done|]. split; [reflexivity|done]. Qed.

Lemma safe_bind {A B} P (m : M W A) (f : A -> M W B) :
  safe P m -> (forall a, safe any (f a)) -> safe P (m ≫= f).
Proof.
  intros Hm Hf w Hi HP. apply wp_bind. eapply wp_mono; [by apply Hm|].
  intros a w1 (Hi1 & Hg1 & Hl1). eapply wp_mono; [by apply Hf|].
  intros b w2 (Hi2 & Hg2 & Hl2). split; [done|]. split; [by etrans|].
  intros g. by rewrite Hl2, Hl1.
Qed.

(** What has ended well has kept the invariant. *)
Lemma safe_Done {A} P (m : M W A) w a w' : safe P m -> Inv w -> P w -> m w = Done (a, w') -> Inv w'.
Proof. intros Hm Hi HP E. exact (proj1 (wp_result _ _ _ _ _ (Hm w Hi HP) E)). Qed.

Lemma safe_weaken {A} (P P' : W -> Prop) (m : M W A) :
  (forall w, P' w -> P w) -> safe P m -> safe P' m.
Proof. intros HP Hm w Hi Hw. auto. Qed.

Lemma mfor_safe {A} (body : A -> M W unit) l :
  (forall a, safe any (body a)) -> safe any (mfor l body).
Proof. intros Hb. induction l as [|a l IH]; [apply safe_ret|]. cbn. by apply safe_bind. Qed.

(** *** Steps that leave the heap alone and register nothing *)

Record quiet w w' : Prop := {
  quiet_heap : w_heap w' = w_heap w;
  quiet_registered : forall ep g, w_registered ep w' = Some g -> w_registered ep w = Some g;
  quiet_later : w_later w w';
}.

#[export] Instance quiet_preorder : PreOrder quiet.
Proof.
  split.
  - intros w. by split.
  - intros w1 w2 w3 [Ha ? ?] [Hb ? ?]. split; [by rewrite Hb| |by etrans]. auto.
Qed.

Lemma quiet_safe w w' : quiet w w' -> Inv w -> Inv w' /\ grows w w' /\ same_locks w w'.
Proof.
  intros [Hh Hq Hl] [Hw Hr]. split; [split|split].
  - by rewrite Hh.
  - intros ep g Hg. unfold find_gw. rewrite Hh. by apply Hr, Hq.
  - split; unfold find_gw; rewrite ?Hh; done.
  - intros g. by rewrite Hh.
Qed.

Lemma quiet_event_safe {A} (m : M W A) :
  (forall w, wp m (fun _ w' => quiet w w') w) -> safe any m.
Proof. intros Hm w Hi _. eapply wp_mono; [apply Hm|]. intros a w' Hq. by apply quiet_safe. Qed.

(** *** Heap steps *)

(** Only for a live gateway do these end well. *)
Lemma Done_live {A} g (m : Gateway EP H -> M W A) w a w' :
  (o ← gets (find_gw g); match o with None => undef | Some gw => m gw end) w = Done (a, w') -> is_Some (find_gw g w).
Proof. unfold mbind, M_bind, gets. destruct (find_gw g w); [eauto|done]. Qed.

Lemma heap_step f w :
  Heap_wf (f (w_heap w)) ->
  (forall g gw, find_gw g w = Some gw -> exists gw', hp_gateways (f (w_heap w)) !! g = Some gw' /\
                                                     gw_endpoint gw' = gw_endpoint gw) ->
  hp_events (w_heap w) `prefix_of` hp_events (f (w_heap w)) ->
  (hp_next (w_heap w) <= hp_next (f (w_heap w)))%nat ->
  (forall g, (g < hp_next (w_heap w))%nat -> find_gw g w = None -> hp_gateways (f (w_heap w)) !! g = None) ->
  Inv w -> Inv (w_set_heap f w) /\ grows w (w_set_heap f w).
Proof.
  intros Hwf Hlive Hev Hnx Hdead [Hw Hr]. split; [split|].
  - by rewrite w_heap_set.
  - intros ep g. rewrite w_registered_set. intros Hg. destruct (Hr _ _ Hg) as (gw & Hgw & <-).
    unfold find_gw. rewrite w_heap_set. by apply Hlive.
  - split; unfold find_gw; rewrite ?w_heap_set; auto using w_later_set.
Qed.

Lemma update_step g (f : Gateway EP H -> Gateway EP H) w :
  (forall gw, gw_endpoint (f gw) = gw_endpoint gw) ->
  (forall gw, find_gw g w = Some gw ->
     (0 < gw_owners (f gw) + gw_locks (f gw))%nat /\ u64_field (gw_next_sequence (f gw))) ->
  Inv w -> Inv (w_set_heap (heap_update g f) w) /\ grows w (w_set_heap (heap_update g f) w).
Proof.
  intros He Hf Hi. apply heap_step; [|intros g' gw Hg| | |intros g' _ Hg|done]; cbn; try done.
  - by apply heap_update_wf; [apply Hi|].
  - rewrite lookup_alter. case_decide; [subst|by eauto]. unfold find_gw in Hg. rewrite Hg. cbn. eauto.
  - rewrite lookup_alter. case_decide; [subst|done]. unfold find_gw in Hg. by rewrite Hg.
Qed.

Lemma update_safe g (f : Gateway EP H -> Gateway EP H) :
  (forall gw, gw_owners (f gw) = gw_owners gw /\ gw_locks (f gw) = gw_locks gw /\
              gw_endpoint (f gw) = gw_endpoint gw /\
              (u64_field (gw_next_sequence gw) -> u64_field (gw_next_sequence (f gw)))) ->
  safe any (modify (w_set_heap (heap_update g f))).
Proof.
  intros Hf w Hi _. apply wp_modify. apply and_assoc. split.
  - apply update_step; [apply Hf| |done]. intros gw Hg. destruct (Hf gw) as (-> & -> & _ & Hs).
    destruct (proj1 Hi _ _ Hg) as (? & _ & ?). auto.
  - intros g'. rewrite w_heap_set. apply locks_of_update_same. intros gw. apply Hf.
Qed.

Lemma log_safe g e : safe any (modify (w_set_heap (heap_log g e))).
Proof.
  intros w Hi _. apply wp_modify. apply and_assoc. split.
  - apply heap_step; try done; [apply Hi|eauto|cbn; by apply prefix_app_r].
  - intros g'. by rewrite w_heap_set.
Qed.

(** *** Strong pointers *)

(** The count of [g] becomes [n], those of the others are unchanged. *)
Definition locks_set w w' g (n : nat) : Prop :=
  locks w' g = n /\ forall g', g' <> g -> locks w' g' = locks w g'.

Lemma locks_set_trans_same w1 w2 w3 g n :
  locks_set w1 w2 g n -> same_locks w2 w3 -> locks_set w1 w3 g n.
Proof.
  intros [Ha Hb] Hs. split; [by rewrite Hs|]. intros g' Hne. rewrite Hs. auto.
Qed.

Lemma locks_set_back w w' g n : locks_set w w' g n -> locks w g = n -> same_locks w w'.
Proof. intros [Hl Hl'] <- g'. destruct (decide (g' = g)) as [->|]; auto. Qed.

Lemma locks_pos g w : (0 < locks w g)%nat -> exists gw, find_gw g w = Some gw /\ gw_locks gw = locks w g.
Proof. unfold locks_of, find_gw. destruct (hp_gateways (w_heap w) !! g) as [gw|]; [eauto|lia]. Qed.

Lemma find_locks g gw w : find_gw g w = Some gw -> locks w g = gw_locks gw.
Proof. unfold find_gw, locks_of. by intros ->. Qed.

Lemma set_refs_inv g gw owners lcks w :
  find_gw g w = Some gw -> (0 < owners + lcks)%nat -> Inv w ->
  let w' := w_set_heap (heap_update g (gw_set_refs owners lcks)) w in
  Inv w' /\ grows w w' /\ locks_set w w' g lcks.
Proof.
  intros Hg Hpos Hi w'. apply and_assoc. split.
  - apply update_step; [done| |done]. intros gw' Hg'. split; [done|]. by apply Hi in Hg' as (_ & _ & ?).
  - unfold find_gw in Hg. split; [|intros g' Hne]; unfold w', locks_of; rewrite w_heap_set; cbn.
    + by rewrite lookup_alter_eq, Hg.
    + by rewrite lookup_alter_ne.
Qed.

Lemma lock_dead g w : find_gw g w = None -> lock g w = Done (false, w).
Proof. intros Hg. unfold lock, mbind, M_bind, gets. by rewrite Hg. Qed.

Lemma lock_live g gw w :
  find_gw g w = Some gw ->
  lock g w = Done (true, w_set_heap (heap_update g (gw_set_refs (gw_owners gw) (S (gw_locks gw)))) w).
Proof. intros Hg. unfold lock, mbind, M_bind, gets. by rewrite Hg. Qed.

Lemma own_safe g : safe (fun w => is_Some (find_gw g w)) (own g).
Proof.
  intros w Hi [gw Hg]. unfold own. wp_step. wp_step. rewrite Hg. apply wp_modify.
  edestruct (set_refs_inv g gw (S (gw_owners gw)) (gw_locks gw) w) as (? & ? & Hl); [done|lia|done|].
  split; [done|]. split; [done|]. eapply locks_set_back; [done|]. by apply find_locks.
Qed.

Lemma own_Done g w u w' : Inv w -> own g w = Done (u, w') -> Inv w'.
Proof. intros Hi E. exact (safe_Done _ _ _ _ _ (own_safe g) Hi (Done_live _ _ _ _ _ E) E). Qed.

(** *** Disposal *)

(** What a router's disposal must do: unregister the endpoint, and no more than
    a quiet step besides. *)
Definition Disposer (dispose : Gateway EP H -> M W unit) : Prop :=
  forall gw w, wp (dispose gw) (fun _ w' => quiet w w' /\ w_registered (gw_endpoint gw) w' = None) w.

Section dispose.
Context (dispose : Gateway EP H -> M W unit) (Hdisp : Disposer dispose).

Lemma wp_destroy_gateway g gw w (Q : unit -> W -> Prop) :
  find_gw g w = Some gw -> Inv w ->
  (forall w', Inv w' -> grows w w' -> locks_set w w' g 0 -> Q tt w') ->
  wp (destroy_gateway dispose g gw) Q w.
Proof.
  intros Hg [Hw Hr] HQ. unfold destroy_gateway. wp_steps.
  eapply wp_mono; [apply Hdisp|]. intros [] w' ([Hh Hq Hl] & Hgone). rewrite w_heap_set in Hh.
  assert (forall g', find_gw g' w' = if decide (g' = g) then None else find_gw g' w) as Hfind.
  { intros g'. unfold find_gw. rewrite Hh; cbn. rewrite lookup_delete. repeat case_decide; congruence. }
  apply HQ; [split|split|].
  - rewrite Hh. by apply heap_free_wf.
  - intros ep g' Hg'. pose proof (Hq _ _ Hg') as Hg0. rewrite w_registered_set in Hg0.
    destruct (Hr _ _ Hg0) as (gw' & Hgw' & He). exists gw'. split; [|done].
    rewrite Hfind. case_decide as E; [|done]. subst g'. congruence.
  - by rewrite Hh.
  - by rewrite Hh.
  - intros g' _ Hn. rewrite Hfind. by case_decide.
  - etrans; [apply w_later_set|done].
  - split; [|intros g' Hne]; unfold locks_of; rewrite Hh; cbn.
    + by rewrite lookup_delete_eq.
    + by rewrite lookup_delete_ne.
Qed.

Lemma wp_drop_refs g gw owners lcks w (Q : unit -> W -> Prop) :
  find_gw g w = Some gw -> Inv w ->
  (forall w', Inv w' -> grows w w' -> locks_set w w' g lcks -> Q tt w') ->
  wp (drop_refs dispose g gw owners lcks) Q w.
Proof.
  intros Hg Hi HQ. unfold drop_refs. case_decide as Hz.
  - eapply wp_destroy_gateway; [done|done|]. replace lcks with O in HQ by lia. auto.
  - apply wp_modify. destruct (set_refs_inv g gw owners lcks w) as (? & ? & ?); auto; lia.
Qed.

Lemma wp_unlock g n w (Q : unit -> W -> Prop) :
  Inv w -> locks w g = S n ->
  (forall w', Inv w' -> grows w w' -> locks_set w w' g n -> Q tt w') ->
  wp (unlock dispose g) Q w.
Proof.
  intros Hi Hl HQ. destruct (locks_pos g w) as (gw & Hg & Hgl); [lia|].
  unfold unlock. wp_steps. rewrite Hg, Hgl, Hl. by apply wp_drop_refs.
Qed.

(** A channel may drop its own pointer. *)
Lemma disown_safe g :
  safe (fun w => exists gw, find_gw g w = Some gw /\ 0 < gw_owners gw)%nat (disown dispose g).
Proof.
  intros w Hi (gw & Hg & Ho). unfold disown. wp_step. wp_step. rewrite Hg.
  destruct (gw_owners gw); [lia|]. apply wp_drop_refs; [done|done|]. intros w' Hi' Hg' Hl.
  split; [done|]. split; [done|]. eapply locks_set_back; [done|]. by apply find_locks.
Qed.

Lemma disown_Done g w u w' : Inv w -> disown dispose g w = Done (u, w') -> Inv w'.
Proof.
  intros Hi E. apply (safe_Done _ _ _ _ _ (disown_safe g) Hi) in E; [done|].
  unfold disown, mbind, M_bind, gets in E. destruct (find_gw g w) as [gw|]; [|done].
  exists gw. split; [done|]. destruct (gw_owners gw); [done|lia].
Qed.

(** A locked pointer protects its gateway for as long as the action runs. *)
Lemma wp_with_locked g gw action otherwise (Q : OptError -> W -> Prop) w :
  Inv w -> find_gw g w = Some gw ->
  (forall w1, Inv w1 -> (0 < locks w1 g)%nat -> grows w w1 -> locks_set w w1 g (S (gw_locks gw)) ->
     hp_events (w_heap w1) = hp_events (w_heap w) ->
     wp action (fun e w2 => Inv w2 /\ grows w1 w2 /\ same_locks w1 w2 /\
       forall w3, Inv w3 -> grows w2 w3 -> same_locks w w3 -> Q e w3) w1) ->
  wp (with_locked dispose g action otherwise) Q w.
Proof.
  intros Hi Hg Ha. unfold with_locked. apply wp_bind. unfold wp at 1. rewrite (lock_live _ _ _ Hg).
  edestruct (set_refs_inv g gw (gw_owners gw) (S (gw_locks gw)) w) as (Hi1 & Hg1 & Hl1); [done|lia|done|].
  apply wp_bind. eapply wp_mono; [apply Ha; [done|destruct Hl1; lia|done|done|by rewrite w_heap_set]|].
  intros e w2 (Hi2 & Hg2 & Hl2 & HQ). apply wp_bind. destruct Hl1 as [Hl1 Hl1'].
  apply (wp_unlock g (gw_locks gw)); [done|by rewrite Hl2|].
  intros w3 Hi3 Hg3 [Hl3 Hl3']. apply wp_ret. apply HQ; [done|done|].
  intros g'. destruct (decide (g' = g)) as [->|Hne].
  - rewrite Hl3. symmetry. by apply find_locks.
  - rewrite Hl3', Hl2 by done. auto.
Qed.

Lemma with_locked_safe g action otherwise :
  safe (fun w => 0 < locks w g)%nat action -> safe any otherwise ->
  safe any (with_locked dispose g action otherwise).
Proof.
  intros Ha Ho w Hi _. destruct (find_gw g w) as [gw|] eqn:Hg.
  - eapply wp_with_locked; [done|done|]. intros w1 Hi1 Hl1 Hg1 Hls1 _.
    eapply wp_mono; [by apply Ha|]. intros e w2 (Hi2 & Hg2 & Hl2).
    split; [done|]. split; [done|]. split; [done|]. intros w3 Hi3 Hg3 Hl3.
    split; [done|]. split; [|done]. etrans; [done|]. by etrans.
  - unfold with_locked. apply wp_bind. unfold wp at 1. rewrite lock_dead by done. by apply Ho.
Qed.

(** *** Events *)

Section handlers.
Context (run_handler : H -> GwEvent -> M W OptError).

(** What a router needs of the channels above it. *)
Definition Handlers : Prop := forall h e, safe any (run_handler h e).
Context (Hhandlers : Handlers).

Lemma event_safe g e : safe (fun w => 0 < locks w g)%nat (gateway_event run_handler g e).
Proof.
  intros w Hi Hl. unfold gateway_event. wp_step. wp_step.
  destruct (locks_pos g w Hl) as (gw & -> & _).
  eapply (safe_bind any); [apply log_safe| |done|done].
  intros []. destruct (gw_event_handler gw); [apply Hhandlers|apply safe_ret].
Qed.

Lemma find_and_event_safe ep e :
  safe any (findAndActOnRegisteredGateway dispose ep (fun g => gateway_event run_handler g e)).
Proof.
  intros w Hi _. unfold findAndActOnRegisteredGateway. wp_steps.
  destruct (w_registered ep w); [|by apply (safe_ret any)].
  apply with_locked_safe; auto using event_safe, safe_ret.
Qed.

(** The event is the first of those that the world gains. *)
Lemma wp_gateway_event g e gw w :
  Inv w -> find_gw g w = Some gw ->
  wp (gateway_event run_handler g e)
     (fun _ w' => Inv w' /\ grows w w' /\ same_locks w w' /\
                  hp_events (w_heap w) ++ [(g, e)] `prefix_of` hp_events (w_heap w')) w.
Proof.
  intros Hi Hg. unfold gateway_event. wp_step. wp_step. rewrite Hg. wp_step. wp_step.
  destruct (log_safe g e w Hi I) as (Hi2 & Hg2 & Hl2).
  set (w2 := w_set_heap (heap_log g e) w) in *.
  assert (safe any (match gw_event_handler gw with Some h => run_handler h e | None => mret None end)) as Hs
    by (destruct (gw_event_handler gw); [apply Hhandlers|apply safe_ret]).
  eapply wp_mono; [by apply Hs|]. intros err w3 (Hi3 & Hg3 & Hl3).
  split; [done|]. split; [by etrans|]. split; [intros g'; by rewrite Hl3, Hl2|].
  etrans; [|apply Hg3]. unfold w2. by rewrite w_heap_set.
Qed.

Lemma wp_locked_event g e otherwise gw w :
  Inv w -> find_gw g w = Some gw ->
  wp (with_locked dispose g (gateway_event run_handler g e) otherwise)
     (fun _ w' => Inv w' /\ grows w w' /\ same_locks w w' /\
                  hp_events (w_heap w) ++ [(g, e)] `prefix_of` hp_events (w_heap w')) w.
Proof.
  intros Hi Hg. eapply wp_with_locked; [done|done|]. intros w1 Hi1 Hl1 Hg1 Hls1 Hev.
  destruct (locks_pos g w1 Hl1) as (gw1 & Hgw1 & _).
  eapply wp_mono; [by apply (wp_gateway_event g e gw1)|]. intros err w2 (Hi2 & Hg2 & Hl2 & Hp).
  split; [done|]. split; [done|]. split; [done|]. intros w3 Hi3 Hg3 Hl3.
  split; [done|]. split; [etrans; [done|]; by etrans|]. split; [done|].
  rewrite Hev in Hp. etrans; [done|apply Hg3].
Qed.

Lemma notify_completed_safe g : safe any (notify_completed dispose run_handler g).
Proof.
  unfold notify_completed. apply safe_bind; [|intros; apply safe_ret].
  apply with_locked_safe; [apply event_safe|apply safe_ret].
Qed.

Definition disconnected_event : GwEvent := Completed (Some (Err Code.Disconnected)) false.

Lemma wp_notify_completed g w :
  Inv w ->
  wp (notify_completed dispose run_handler g)
     (fun _ w' => Inv w' /\ grows w w' /\ same_locks w w' /\
        (find_gw g w = None \/
         hp_events (w_heap w) ++ [(g, disconnected_event)] `prefix_of` hp_events (w_heap w'))) w.
Proof.
  intros Hi. unfold notify_completed. apply wp_bind. destruct (find_gw g w) as [gw|] eqn:Hg.
  - eapply wp_mono; [by apply (wp_locked_event _ _ _ gw)|].
    intros e w' (? & ? & ? & ?). apply wp_ret. auto.
  - unfold with_locked. apply wp_bind. unfold wp at 1. rewrite lock_dead by done. do 2 apply wp_ret.
    split; [done|]. split; [done|]. split; [done|]. by left.
Qed.

(** Each of these gateways is told that the connection is lost, unless it was
    destroyed before its turn came. *)
Lemma wp_notify_all {K} (l : list (K * GwId)) w :
  Inv w -> Forall (fun x => x.2 < hp_next (w_heap w))%nat l ->
  wp (mfor l (fun x => notify_completed dispose run_handler x.2))
     (fun _ w' => Inv w' /\ grows w w' /\ same_locks w w' /\
        exists added, hp_events (w_heap w') = hp_events (w_heap w) ++ added /\
          forall x, x ∈ l -> find_gw x.2 w' = None \/ (x.2, disconnected_event) ∈ added) w.
Proof.
  intros Hi Hlt. revert w Hi Hlt. induction l as [|x l IH]; intros w Hi Hlt.
  { apply wp_ret. split; [done|]. split; [done|]. split; [done|]. exists []. rewrite app_nil_r.
    split; [done|]. intros x Hx. by apply not_elem_of_nil in Hx. }
  cbn. apply wp_bind. eapply wp_mono; [by apply wp_notify_completed|].
  intros [] w1 (Hi1 & Hg1 & Hl1 & Hx). apply Forall_cons in Hlt as [Hltx Hltl].
  eapply wp_mono.
  { apply IH; [done|]. eapply Forall_impl; [done|]. intros y Hy. cbn in *. pose proof (grows_next _ _ Hg1). lia. }
  intros [] w2 (Hi2 & Hg2 & Hl2 & added & Hadd & Hdone).
  split; [done|]. split; [by etrans|]. split; [intros g; by rewrite Hl2, Hl1|].
  destruct (grows_events _ _ Hg1) as [k Hk]. exists (k ++ added). split; [by rewrite Hadd, Hk, app_assoc|].
  intros y [->|Hy]%elem_of_cons.
  - destruct Hx as [Hx|[k' Hk']].
    + left. apply (grows_dead _ _ Hg2); [pose proof (grows_next _ _ Hg1); lia|]. by apply (grows_dead _ _ Hg1).
    + right. rewrite Hk, <- app_assoc in Hk'. apply app_inv_head in Hk' as ->. set_solver.
  - destruct (Hdone y Hy) as [?|?]; [by left|right; apply elem_of_app; by right].
Qed.
End handlers.
End dispose.
End Facts.
