(* ===== verification/WireExample.v ===== *)
(** * A concrete codec for the wire messages

    The DSDL serialisers are generated code, so the development takes them as a
    parameter ([Codec], [CodecOk]). This file shows that the laws asked of them
    can hold: a small tagged little-endian encoding, which the witnesses of the
    router theorems use. *)
From S2P Require Import Prelude Errors SocketBuffer Gateway GatewayFacts.

Local Open Scope Z_scope.

Module WireExample.

(** Read an [n]-byte field from the front. *)
Definition le_take (n : nat) (bs : bytes) : option (Z * bytes) :=
if decide (n <= length bs)%nat then Some (le_value (take n bs), drop n bs) else None.

Lemma le_take_app n z w rest :
w = 8 * Z.of_nat n -> 0 <= z < 2 ^ w -> le_take n (le_bytes n z ++ rest) = Some (z, rest).
Proof.
intros -> Hz. unfold le_take. rewrite length_app, length_le_bytes, decide_True by lia.
assert (take n (le_bytes n z ++ rest) = le_bytes n z) as ->
  by (rewrite take_app_le by (rewrite length_le_bytes; lia); apply take_ge; rewrite length_le_bytes; lia).
assert (drop n (le_bytes n z ++ rest) = rest) as ->
  by (rewrite <- (length_le_bytes n z) at 1; apply drop_app_length).
by rewrite le_value_bytes, wrap_id.
Qed.

Lemma wrap_i32 z : - 2 ^ 31 <= z < 2 ^ 31 -> i32 (wrap 32 z) = z.
Proof. intros H. unfold i32. rewrite wrap_wrap by lia. by apply i32_id. Qed.

Definition encode_error (e : Error_0_1) : bytes :=
le_bytes 4 (error_code e) ++ le_bytes 4 (wrap 32 (raw_errno e)).

Definition decode_error (bs : bytes) : option Error_0_1 :=
'(code, bs) ← le_take 4 bs; '(errno, _) ← le_take 4 bs; Some (mkDsdlError code (i32 errno)).

Lemma decode_encode_error e rest :
error_field e -> decode_error (encode_error e ++ rest) = Some e.
Proof.
intros [Hc He]. unfold decode_error, encode_error. rewrite <- app_assoc.
rewrite (le_take_app 4 _ 32) by (done || lia). cbn [mbind option_bind].
rewrite (le_take_app 4 _ 32); [|done|apply wrap_bound; lia]. cbn [mbind option_bind].
rewrite wrap_i32 by done. by destruct e.
Qed.

Definition encode (r : Route) : bytes :=
match r with
| Route_empty => [x00]
| Route_connect major minor e => x01 :: le_bytes 1 major ++ le_bytes 1 minor ++ encode_error e
| Route_channel_msg tag sequence service_id payload_size =>
    x02 :: le_bytes 8 tag ++ le_bytes 8 sequence ++ le_bytes 8 service_id ++ le_bytes 8 payload_size
| Route_channel_end tag keep_alive e =>
    x03 :: le_bytes 8 tag ++ le_bytes 1 (if keep_alive then 1 else 0) ++ encode_error e
end.

Definition decode (bs : bytes) : option Route :=
match bs with
| x00 :: _ => Some Route_empty
| x01 :: bs =>
    '(major, bs) ← le_take 1 bs; '(minor, bs) ← le_take 1 bs;
    e ← decode_error bs; Some (Route_connect major minor e)
| x02 :: bs =>
    '(tag, bs) ← le_take 8 bs; '(sequence, bs) ← le_take 8 bs;
    '(service_id, bs) ← le_take 8 bs; '(payload_size, _) ← le_take 8 bs;
    Some (Route_channel_msg tag sequence service_id payload_size)
| x03 :: bs =>
    '(tag, bs) ← le_take 8 bs; '(k, bs) ← le_take 1 bs;
    e ← decode_error bs; Some (Route_channel_end tag (negb (k =? 0)) e)
| _ => None
end.

#[export] Instance Route_wf_dec r : Decision (Route_wf r).
Proof. destruct r; unfold Route_wf, u64_field, error_field; apply _. Defined.

#[export] Instance Route_codec : Codec Route := {
serialize r n := if bool_decide (Route_wf r) && (Z.of_nat (length (encode r)) <=? n) then Some (encode r) else None;
deserialize := decode;
SerializationBufferSizeBytes := 64;
}.

Lemma length_encode r : (0 < length (encode r) <= 33)%nat.
Proof. destruct r; cbn; lia. Qed.

#[export] Instance Route_codec_ok : CodecOk Route Route_wf.
Proof.
split.
- intros r Hr. exists (encode r). pose proof (length_encode r). cbn [serialize Route_codec].
  split.
  + rewrite bool_decide_eq_true_2, (proj2 (Z.leb_le _ _)); [done| |done]. change (@SerializationBufferSizeBytes _ Route_codec) with 64. lia.
  + by destruct (encode r); [cbn in *; lia|].
- intros r bs rest Hr Hs. cbn [serialize Route_codec] in Hs. case_match; simplify_eq.
  destruct r as [|major minor e|tag sequence service_id payload_size|tag k e];
    cbn [deserialize Route_codec encode decode app]; [done|..]; unfold Route_wf in Hr.
  + destruct Hr as (? & ? & ?). rewrite <- !app_assoc.
    rewrite !(le_take_app 1 _ 8) by (done || lia); cbn [mbind option_bind].
    rewrite !(le_take_app 1 _ 8) by (done || lia); cbn [mbind option_bind].
    by rewrite decode_encode_error.
  + destruct Hr as (? & ? & ? & ?). rewrite <- !app_assoc.
    by do 4 (rewrite (le_take_app 8 _ 64) by (done || (unfold u64_field in *; lia)); cbn [mbind option_bind]).
  + destruct Hr as (? & ?). rewrite <- !app_assoc.
    rewrite (le_take_app 8 _ 64) by (done || (unfold u64_field in *; lia)); cbn [mbind option_bind].
    rewrite (le_take_app 1 _ 8) by (done || (destruct k; lia)); cbn [mbind option_bind].
    rewrite decode_encode_error by done. by destruct k.
Qed.

#[export] Instance Route_codec_typed : CodecTyped Route Route_wf.
Proof. intros r bs. cbn [serialize Route_codec]. destruct (bool_decide_reflect (Route_wf r)); [done|by cbn]. Qed.

Lemma Route_codec_bounded : serializer_bounded.
Proof.
  intros route bs. cbn [serialize Route_codec]. case_match; [|done]. intros [= <-].
  pose proof (length_encode route). lia.
Qed.

End WireExample.
