(* ===== verification/ServerRouter.v ===== *)
(** * The server-side IPC router

    Models [ServerRouterImpl] of [src/common/ipc/server_router.cpp] and
    [ServerRouter::registerChannel] of [server_router.hpp]: every pipe event,
    the gateway operations offered to channels, and the life of gateways. The
    pipe, the DSDL codec, the event handlers and the channel factories are
    parameters; handlers and factories are arbitrary computations on the
    router's own world, so they may call back into it. *)
From S2P Require Import Prelude Errors SocketBuffer Gateway.

Local Open Scope Z_scope.

Abbreviation ClientId := Z.
Abbreviation Tag := Z.

Module Server.

Record Endpoint := mkEndpoint { ep_tag : Tag; ep_client_id : ClientId }.

#[export] Instance Endpoint_eq_dec : EqDecision Endpoint.
Proof. solve_decision. Defined.

(** [ServerRouterImpl]: the gateways, the two maps, and the pipe's state;
  [sr_sent] records the buffers handed to the pipe. *)
Record Router (H F Env : Type) := mkRouter {
sr_heap : Heap Endpoint H;
client_id_to_map_of_gateways_ : gmap ClientId (gmap Tag GwId);
service_id_to_channel_factory_ : gmap Z F;
sr_sent : list (ClientId * bytes);
sr_env : Env;
}.
Arguments mkRouter {H F Env}.
Arguments sr_heap {H F Env}.
Arguments client_id_to_map_of_gateways_ {H F Env}.
Arguments service_id_to_channel_factory_ {H F Env}.
Arguments sr_sent {H F Env}.
Arguments sr_env {H F Env}.

(** [ServerPipe::Event] *)
Inductive PipeEvent : Type :=
| PipeConnected (client_id : ClientId)
| PipeMessage (client_id : ClientId) (payload : bytes)
| PipeDisconnected (client_id : ClientId).

Section Router.
Context {H F Env : Type} `{RouteCodec : Codec Route}.
Abbreviation W := (Router H F Env).
Context (VERSION_MAJOR VERSION_MINOR : Z).
Context (pipe_send : ClientId -> SocketBuffer.t -> Env -> OptError * Env).
Context (run_handler : H -> GwEvent -> M W OptError).
Context (run_factory : F -> GwId -> bytes -> M W unit).
(** The iteration order of an [std::unordered_map] of gateways. *)
Context (gw_order : gmap Tag GwId -> list (Tag * GwId)).

Definition set_heap (f : Heap Endpoint H -> Heap Endpoint H) (r : W) : W :=
  mkRouter (f (sr_heap r)) (client_id_to_map_of_gateways_ r)
           (service_id_to_channel_factory_ r) (sr_sent r) (sr_env r).
Definition set_map (f : gmap ClientId (gmap Tag GwId) -> gmap ClientId (gmap Tag GwId)) (r : W) : W :=
  mkRouter (sr_heap r) (f (client_id_to_map_of_gateways_ r))
           (service_id_to_channel_factory_ r) (sr_sent r) (sr_env r).

(** [ServerRouterImpl::ServerRouterImpl], over its pipe. *)
Definition ServerRouterImpl_new (server_pipe : Env) : W := mkRouter (mkHeap ∅ 0 []) ∅ ∅ [] server_pipe.

(** [server_pipe_->send(client_id, sock_buff)] *)
Definition pipe_write (client_id : ClientId) (sock_buff : SocketBuffer.t) : M W OptError := fun r =>
  let '(e, env) := pipe_send client_id sock_buff (sr_env r) in
  Done (e, mkRouter (sr_heap r) (client_id_to_map_of_gateways_ r) (service_id_to_channel_factory_ r)
                    (sr_sent r ++ [(client_id, SocketBuffer.contents sock_buff)]) env).

Definition isConnected (endpoint : Endpoint) (r : W) : bool :=
  bool_decide (is_Some (client_id_to_map_of_gateways_ r !! ep_client_id endpoint)).

Definition lookup_gateway (endpoint : Endpoint) (r : W) : option GwId :=
  client_id_to_map_of_gateways_ r !! ep_client_id endpoint ≫= fun m => m !! ep_tag endpoint.

(** Clients do not appear while handlers run. *)
#[global] Instance server_world : GatewayWorld W Endpoint H := {
  w_heap := sr_heap;
  w_set_heap := set_heap;
  w_registered := lookup_gateway;
  w_later r r' := forall cl, client_id_to_map_of_gateways_ r !! cl = None ->
                             client_id_to_map_of_gateways_ r' !! cl = None;
}.

Definition isRegisteredGateway (endpoint : Endpoint) (r : W) : bool :=
  bool_decide (is_Some (lookup_gateway endpoint r)).

(** Serialise a route message and send it as a whole buffer. *)
Definition send_route (client_id : ClientId) (route : Route) : M W OptError :=
  tryPerformOnSerialized route SerializationBufferSizeBytes
    (fun payload => pipe_write client_id (SocketBuffer.ofPayload payload)).

(** [map_of_gws.erase(tag)] in the map of one client. *)
Definition erase_gateway (endpoint : Endpoint) (r : W) : W :=
  set_map (alter (delete (ep_tag endpoint)) (ep_client_id endpoint)) r.

Definition onGatewayDisposal (endpoint : Endpoint) (completion_opt_error : OptError) : M W unit :=
  r ← gets id;
  match client_id_to_map_of_gateways_ r !! ep_client_id endpoint with
  | Some map_of_gws =>
      let was_registered := bool_decide (is_Some (map_of_gws !! ep_tag endpoint)) in
      modify (erase_gateway endpoint);;
      connected ← gets (isConnected endpoint);
      if was_registered && connected then
        send_route (ep_client_id endpoint)
          (Route_channel_end (ep_tag endpoint) false (optErrorToDsdlError completion_opt_error));;
        mret tt
      else mret tt
  | None => mret tt
  end.

Definition dispose (gw : Gateway Endpoint H) : M W unit :=
  onGatewayDisposal (gw_endpoint gw) (gw_completion_opt_error gw).

Definition onGatewaySubscription (endpoint : Endpoint) : M W unit :=
  connected ← gets (isConnected endpoint);
  if (connected : bool) then
    findAndActOnRegisteredGateway dispose endpoint (fun gateway => gateway_event run_handler gateway Connected);;
    mret tt
  else mret tt.

(** ** The gateway operations *)

(** [GatewayImpl::send] *)
Definition gateway_send (g : GwId) (service_id : Z) (sock_buff : SocketBuffer.t) : M W OptError :=
  o ← gets (find_gw g);
  match o with
  | None => undef
  | Some gw =>
      let endpoint_ := gw_endpoint gw in
      connected ← gets (isConnected endpoint_);
      if negb connected then mret (Some (Err Code.NotConnected))
      else
        registered ← gets (isRegisteredGateway endpoint_);
        if negb registered then mret (Some (Err Code.Shutdown))
        else
          let sequence := gw_next_sequence gw in
          modify (set_heap (heap_update g (gw_set_sequence (u64 (sequence + 1)))));;
          tryPerformOnSerialized
            (Route_channel_msg (ep_tag endpoint_) sequence service_id (SocketBuffer.size sock_buff))
            SerializationBufferSizeBytes
            (fun prefix => pipe_write (ep_client_id endpoint_) (SocketBuffer.prepend prefix sock_buff))
  end.

(** [GatewayImpl::complete] *)
Definition gateway_complete (g : GwId) (opt_error : OptError) (keep_alive : bool) : M W OptError :=
  o ← gets (find_gw g);
  match o with
  | None => undef
  | Some gw =>
      let endpoint_ := gw_endpoint gw in
      connected ← gets (isConnected endpoint_);
      if negb connected then mret (Some (Err Code.NotConnected))
      else
        registered ← gets (isRegisteredGateway endpoint_);
        if negb registered then mret None
        else
          modify (set_heap (heap_update g (gw_set_completion opt_error)));;
          send_route (ep_client_id endpoint_)
            (Route_channel_end (ep_tag endpoint_) keep_alive (optErrorToDsdlError opt_error))
  end.

(** [GatewayImpl::subscribe] *)
Definition gateway_subscribe (g : GwId) (event_handler : option H) : M W unit :=
  o ← gets (find_gw g);
  match o with
  | None => undef
  | Some gw =>
      modify (set_heap (heap_update g (gw_set_handler event_handler)));;
      onGatewaySubscription (gw_endpoint gw)
  end.

(** ** Pipe events *)

Definition handlePipeDisconnected (client_id : ClientId) : M W OptError :=
  r ← gets id;
  match client_id_to_map_of_gateways_ r !! client_id with
  | Some local_map_of_gateways =>
      modify (set_map (delete client_id));;
      mfor (gw_order local_map_of_gateways) (fun tag_to_gw => notify_completed dispose run_handler tag_to_gw.2);;
      mret None
  | None => mret None
  end.

Definition handleRouteConnect (client_id : ClientId) : M W OptError :=
  opt_error ← send_route client_id
    (Route_connect VERSION_MAJOR VERSION_MINOR (optErrorToDsdlError None));
  match opt_error with
  | None =>
      (* [insert] keeps the map of a client that is already connected. *)
      modify (set_map (fun m => match m !! client_id with
                                | Some _ => m
                                | None => <[client_id := ∅]> m
                                end));;
      mret None
  | Some e => mret (Some e)
  end.

(** The first message of a channel: a new gateway for the service's factory. *)
Definition open_channel (client_id : ClientId) (tag : Tag) (factory : F) (payload : bytes) : M W OptError :=
  let endpoint := mkEndpoint tag client_id in
  gateway ← liftF (fun r => let '(g, hp) := heap_create endpoint (sr_heap r) in
                            (g, set_heap (fun _ => hp) r));
  modify (set_map (alter <[tag := gateway]> client_id));;
  (* the factory receives its own copy of the pointer *)
  ok ← lock gateway;
  run_factory factory gateway payload;;
  (if (ok : bool) then unlock dispose gateway else mret tt);;
  unlock dispose gateway;;
  mret None.

Definition handleRouteChannelMsg (client_id : ClientId)
    (tag sequence service_id payload_size : Z) (payload : bytes) : M W OptError :=
  msg_real_payload ← ofOutcome (payload_tail payload payload_size);
  r ← gets id;
  match client_id_to_map_of_gateways_ r !! client_id with
  | None => mret None
  | Some map_of_gws =>
      (* Only the very first message in the sequence may open a channel. *)
      let otherwise :=
        if sequence =? 0 then
          match service_id_to_channel_factory_ r !! service_id with
          | Some factory => open_channel client_id tag factory msg_real_payload
          | None => mret None
          end
        else mret None in
      match map_of_gws !! tag with
      | Some gateway =>
          with_locked dispose gateway (gateway_event run_handler gateway (Message sequence msg_real_payload)) otherwise
      | None => otherwise
      end
  end.

Definition handleRouteChannelEnd (client_id : ClientId) (tag : Tag) (keep_alive : bool)
    (error : Error_0_1) : M W OptError :=
  let opt_error := dsdlErrorToOptError error in
  r ← gets id;
  match client_id_to_map_of_gateways_ r !! client_id with
  | Some _ =>
      let endpoint := mkEndpoint tag client_id in
      findAndActOnRegisteredGateway dispose endpoint (fun gateway =>
        (if keep_alive then mret tt else modify (erase_gateway endpoint));;
        gateway_event run_handler gateway (Completed opt_error keep_alive))
  | None => mret None
  end.

Definition handlePipeMessage (client_id : ClientId) (payload : bytes) : M W OptError :=
  match tryDeserializePayload payload with
  | None => mret (Some (Err Code.InvalidArgument))
  | Some Route_empty => mret (Some (Err Code.InvalidArgument))
  | Some (Route_connect _ _ _) => handleRouteConnect client_id
  | Some (Route_channel_msg tag sequence service_id payload_size) =>
      handleRouteChannelMsg client_id tag sequence service_id payload_size payload
  | Some (Route_channel_end tag keep_alive error) =>
      handleRouteChannelEnd client_id tag keep_alive error
  end.

Definition handlePipeEvent (event : PipeEvent) : M W OptError :=
  match event with
  | PipeConnected _ => mret None
  | PipeMessage client_id payload => handlePipeMessage client_id payload
  | PipeDisconnected client_id => handlePipeDisconnected client_id
  end.

Definition registerChannelFactory (service_id : Z) (channel_factory : F) : M W unit :=
  modify (fun r => mkRouter (sr_heap r) (client_id_to_map_of_gateways_ r)
    (<[service_id := channel_factory]> (service_id_to_channel_factory_ r)) (sr_sent r) (sr_env r)).

(** [ServerRouter::registerChannel]: the factory of a typed channel. The
    message that opens the channel is parsed first; if that fails no channel
    is made, and the gateway goes away with the factory's pointer. *)
Definition channel_factory {Input : Type} `{Codec Input} (svc_id : Z)
    (new_ch_handler : GwId -> Z -> Input -> M W unit) (gateway : GwId) (payload : bytes) : M W unit :=
  match tryDeserializePayload payload with
  | Some input => own gateway;; new_ch_handler gateway svc_id input
  | None => mret tt
  end.
End Router.

End Server.
