(* ===== verification/ServerRouterFacts.v ===== *)
(** * Theorems about the server-side router

    The invariant of [ServerRouterImpl] and what each pipe event and gateway
    operation does, for arbitrary handlers and factories that respect the
    invariant. *)
From S2P Require Import Prelude Errors SocketBuffer Gateway GatewayFacts WireExample ServerRouter.
Import Server.

Local Open Scope Z_scope.

#[export] Instance server_world_ok {H F Env} : GatewayWorldOk (Router H F Env) Endpoint H.
Proof.
  split; [done|done| |].
  - split; [by intros r cl|]. intros r1 r2 r3 H1 H2 cl Hcl. by apply H2, H1.
  - by intros f r cl.
Qed.

Section Facts.
Context {H F Env : Type} `{RouteCodec : Codec Route}.
Abbreviation W := (Router H F Env).
Context (VERSION_MAJOR VERSION_MINOR : Z).
Context (pipe_send : ClientId -> SocketBuffer.t -> Env -> OptError * Env).
Context (run_handler : H -> GwEvent -> M W OptError).
Context (run_factory : F -> GwId -> bytes -> M W unit).
Context (gw_order : gmap Tag GwId -> list (Tag * GwId)).
Implicit Types (r : W) (g : GwId) (gw : Gateway Endpoint H).

Abbreviation locks r g := (locks_of (sr_heap r) g).
Abbreviation any := (fun _ : W => True).

Lemma new_server_router_inv (env : Env) : Inv (ServerRouterImpl_new (H := H) (F := F) env).
Proof.
  split; [by intros g gw; cbn; rewrite lookup_empty|]. intros ep g. cbn. unfold lookup_gateway; cbn. by rewrite lookup_empty.
Qed.

(** *** Pipe traffic and unregistering are quiet *)

(** Only the pipe's side of the world moves. *)
Definition sent_more r r' : Prop :=
  sr_heap r' = sr_heap r /\ client_id_to_map_of_gateways_ r' = client_id_to_map_of_gateways_ r.

Lemma sent_more_quiet r r' : sent_more r r' -> quiet r r'.
Proof.
  intros [Hh Hm]. split; cbn; [done| |].
  - intros ep g. unfold lookup_gateway. by rewrite Hm.
  - intros cl. by rewrite Hm.
Qed.

Lemma wp_pipe_write cl b (Q : OptError -> W -> Prop) r :
  (forall e r', sent_more r r' -> Q e r') -> wp (pipe_write pipe_send cl b) Q r.
Proof.
  intros HQ. unfold wp, pipe_write. destruct (pipe_send cl b (sr_env r)) as [e env].
  by apply HQ.
Qed.

Lemma wp_send_route cl route (Q : OptError -> W -> Prop) r :
  (forall e r', sent_more r r' -> Q e r') -> wp (send_route pipe_send cl route) Q r.
Proof.
  intros HQ. unfold send_route, tryPerformOnSerialized.
  destruct (serialize _ _); [by apply wp_pipe_write|by apply HQ].
Qed.

Lemma erase_quiet ep r : quiet r (erase_gateway ep r) /\ lookup_gateway ep (erase_gateway ep r) = None.
Proof.
  split; [split|]; cbn.
  - done.
  - intros ep' g. unfold lookup_gateway, erase_gateway; cbn. rewrite !bind_Some.
    intros (m & Hm & Hg). apply lookup_alter_Some in Hm as [(He & m0 & Hm0 & ->)|[_ Hm]]; [|eauto].
    apply lookup_delete_Some in Hg as [_ Hg]. eauto.
  - intros cl. unfold erase_gateway; cbn. by rewrite lookup_alter_None.
  - unfold lookup_gateway, erase_gateway; cbn. rewrite lookup_alter_eq.
    destruct (_ !! _); cbn; [apply lookup_delete_eq|done].
Qed.

Lemma erase_safe ep : safe any (modify (erase_gateway (H := H) (F := F) (Env := Env) ep)).
Proof. apply quiet_event_safe. intros r. apply wp_modify. apply erase_quiet. Qed.

(** [onGatewayDisposal] unregisters, and besides that only sends. *)
Lemma wp_dispose gw r (Q : unit -> W -> Prop) :
  (forall r', sent_more (erase_gateway (gw_endpoint gw) r) r' -> Q tt r') -> wp (dispose pipe_send gw) Q r.
Proof.
  intros HQ. unfold dispose, onGatewayDisposal. wp_steps. cbn [id].
  destruct (client_id_to_map_of_gateways_ _ !! _) eqn:E.
  - wp_steps. match goal with |- wp (if ?b then _ else _) _ _ => destruct b end.
    + apply wp_bind, wp_send_route. intros e r' Hs. apply wp_ret. by apply HQ.
    + apply wp_ret, HQ. done.
  - apply wp_ret, HQ. split; [done|]. unfold erase_gateway; cbn.
    symmetry. apply alter_id. intros x Hx. congruence.
Qed.

Lemma server_disposer : Disposer (dispose (H := H) (F := F) pipe_send).
Proof.
  intros gw r. apply wp_dispose. intros r' [Hh Hm].
  destruct (erase_quiet (gw_endpoint gw) r) as [Hq Hn]. split.
  - etrans; [done|]. by apply sent_more_quiet.
  - cbn in *. unfold lookup_gateway in *. by rewrite Hm.
Qed.

(** *** The gateway operations *)

(** What the router needs of the channels above it. *)
Class Clients : Prop := {
  handler_safe : Handlers run_handler;
  factory_safe : forall f g payload, safe (fun r => 0 < locks r g)%nat (run_factory f g payload);
}.

Section clients.
Context `{Clients}.

Lemma set_heap_update_safe g (f : Gateway Endpoint H -> Gateway Endpoint H) :
  (forall gw, gw_owners (f gw) = gw_owners gw /\ gw_locks (f gw) = gw_locks gw /\
              gw_endpoint (f gw) = gw_endpoint gw /\
              (u64_field (gw_next_sequence gw) -> u64_field (gw_next_sequence (f gw)))) ->
  safe any (modify (set_heap (F := F) (Env := Env) (heap_update g f))).
Proof. intros Hf. exact (update_safe (W := W) (EP := Endpoint) g f Hf). Qed.

(** They keep the invariant, for as long as the caller holds a strong pointer. *)
Lemma gateway_subscribe_safe g h :
  safe (fun r => is_Some (find_gw g r)) (gateway_subscribe pipe_send run_handler g h).
Proof.
  intros r Hi [gw Hg]. unfold gateway_subscribe. wp_step. wp_step. rewrite Hg.
  eapply (safe_bind any); [apply (set_heap_update_safe g); by intros| |done|done].
  intros []. intros r' Hi' _. unfold onGatewaySubscription. wp_step. wp_step.
  destruct (isConnected _ r'); [|by apply (safe_ret any)].
  eapply (safe_bind any); [apply find_and_event_safe; [apply server_disposer|apply handler_safe]| |done|done].
  intros; apply safe_ret.
Qed.

Lemma send_route_safe cl route : safe any (send_route pipe_send cl route).
Proof. apply quiet_event_safe. intros r. apply wp_send_route. intros. by apply sent_more_quiet. Qed.

Lemma gateway_complete_safe g e k :
  safe (fun r => is_Some (find_gw g r)) (gateway_complete pipe_send g e k).
Proof.
  intros r Hi [gw Hg]. unfold gateway_complete. wp_step. wp_step. rewrite Hg.
  wp_step. wp_step. destruct (isConnected _ r); [|by apply (safe_ret any)].
  cbn [negb]. wp_step. wp_step. destruct (isRegisteredGateway _ r); [|by apply (safe_ret any)].
  cbn [negb]. eapply (safe_bind any); [apply (set_heap_update_safe g); by intros| |done|done].
  intros []. apply send_route_safe.
Qed.

Lemma gateway_subscribe_Done g h u r r' : Inv r -> gateway_subscribe pipe_send run_handler g h r = Done (u, r') -> Inv r'.
Proof. intros Hi E. exact (safe_Done _ _ _ _ _ (gateway_subscribe_safe g h) Hi (Done_live _ _ _ _ _ E) E). Qed.

Lemma gateway_complete_Done g oe k e r r' : Inv r -> gateway_complete pipe_send g oe k r = Done (e, r') -> Inv r'.
Proof. intros Hi E. exact (safe_Done _ _ _ _ _ (gateway_complete_safe g oe k) Hi (Done_live _ _ _ _ _ E) E). Qed.

Lemma gateway_send_safe g svc b :
  safe (fun r => is_Some (find_gw g r)) (gateway_send pipe_send g svc b).
Proof.
  intros r Hi [gw Hg]. unfold gateway_send. wp_step. wp_step. rewrite Hg.
  wp_step. wp_step. destruct (isConnected _ r); [|by apply (safe_ret any)].
  cbn [negb]. wp_step. wp_step. destruct (isRegisteredGateway _ r); [|by apply (safe_ret any)].
  cbn [negb]. eapply (safe_bind any); [| |done|done].
  - apply (set_heap_update_safe g). intros gw'. split; [done|]. split; [done|]. split; [done|]. intros _.
    unfold u64_field; cbn. apply wrap_bound. lia.
  - intros []. unfold tryPerformOnSerialized. destruct (serialize _ _); [|by apply (safe_ret any)].
    apply quiet_event_safe. intros r1. apply wp_pipe_write. intros. by apply sent_more_quiet.
Qed.

Lemma gateway_send_Done g svc b e r r' : Inv r -> gateway_send pipe_send g svc b r = Done (e, r') -> Inv r'.
Proof. intros Hi E. exact (safe_Done _ _ _ _ _ (gateway_send_safe g svc b) Hi (Done_live _ _ _ _ _ E) E). Qed.

(** *** Pipe events *)

Lemma drop_client_quiet cl r : quiet r (set_map (delete cl) r).
Proof.
  split; cbn; [done| |].
  - intros ep g. unfold lookup_gateway; cbn. rewrite !bind_Some. intros (m & Hm & Hg).
    apply lookup_delete_Some in Hm as [_ Hm]. eauto.
  - intros cl' Hcl. rewrite lookup_delete_None. auto.
Qed.

Lemma handlePipeDisconnected_safe cl : safe any (handlePipeDisconnected pipe_send run_handler gw_order cl).
Proof.
  intros r Hi _. unfold handlePipeDisconnected. wp_step. wp_step. cbn [id].
  destruct (_ !! cl) eqn:E; [|by apply (safe_ret any)].
  eapply (safe_bind any); [| |done|done].
  - apply quiet_event_safe. intros r1. apply wp_modify, drop_client_quiet.
  - intros []. apply safe_bind; [|intros; apply safe_ret].
    apply mfor_safe. intros. apply notify_completed_safe; [apply server_disposer|apply handler_safe].
Qed.

(** The state in which [open_channel] calls the factory. *)
Definition opened cl tag r : W :=
  let ep := mkEndpoint tag cl in
  let g := hp_next (sr_heap r) in
  set_map (alter <[tag := g]> cl)
    (set_heap (fun hp => mkHeap (<[g := mkGateway ep 0 None None 0 2]> (hp_gateways hp)) (S g) (hp_events hp)) r).

Lemma open_channel_eq cl tag f payload r :
  open_channel pipe_send run_factory cl tag f payload r =
  (run_factory f (hp_next (sr_heap r)) payload;; unlock (dispose pipe_send) (hp_next (sr_heap r));;
   unlock (dispose pipe_send) (hp_next (sr_heap r));; mret None) (opened cl tag r).
Proof.
  set (g := hp_next (sr_heap r)).
  set (s1 := set_map (alter <[tag := g]> cl)
               (set_heap (fun _ => (heap_create (mkEndpoint tag cl) (sr_heap r)).2) r)).
  assert (find_gw g s1 = Some (mkGateway (mkEndpoint tag cl) 0 None None 0 1)) as Hg
    by (unfold find_gw; cbn; by rewrite lookup_insert_eq).
  assert (w_set_heap (heap_update g (gw_set_refs 0 2)) s1 = opened cl tag r) as Hop.
  { cbn [w_set_heap server_world]. unfold s1, opened, set_map, set_heap, heap_update; cbn. do 2 f_equal.
    by rewrite alter_insert_eq. }
  change (open_channel pipe_send run_factory cl tag f payload r) with
    ((ok ← lock g; run_factory f g payload;; (if ok : bool then unlock (dispose pipe_send) g else mret tt);;
      unlock (dispose pipe_send) g;; mret (None : OptError)) s1).
  unfold mbind at 1, M_bind at 1. rewrite (lock_live _ _ _ Hg). cbn [gw_owners gw_locks]. by rewrite Hop.
Qed.

Lemma opened_inv cl tag r : Inv r ->
  Inv (opened cl tag r) /\ grows r (opened cl tag r) /\ locks_set r (opened cl tag r) (hp_next (sr_heap r)) 2.
Proof.
  intros [Hw Hr]. pose proof (heap_fresh _ Hw) as Hf. split; [split|split].
  - intros g gw. cbn. rewrite lookup_insert_Some. intros [[<- <-]|[_ Hg]]; cbn.
    + split; [lia|]. split; [lia|]. unfold u64_field; lia.
    + destruct (Hw _ _ Hg) as (? & ? & ?). cbn in *. split; [done|]. split; [lia|done].
  - intros ep g. unfold opened, find_gw; cbn. unfold lookup_gateway; cbn. rewrite bind_Some.
    intros (m & Hm & Ht).
    assert ((g = hp_next (sr_heap r) /\ mkEndpoint tag cl = ep) \/ lookup_gateway ep r = Some g) as [[-> <-]|Hg].
    { apply lookup_alter_Some in Hm as [(He & m0 & Hm0 & ->)|[_ Hm]];
        [|right; unfold lookup_gateway; by rewrite Hm].
      apply lookup_insert_Some in Ht as [[He' <-]|[_ Ht]].
      - left. split; [done|]. destruct ep; cbn in *; congruence.
      - right. unfold lookup_gateway. by rewrite Hm0. }
    + rewrite lookup_insert_eq. eauto.
    + destruct (Hr _ _ Hg) as (gw & Hgw & He). exists gw. split; [|done].
      rewrite lookup_insert_ne; [done|]. intros <-. unfold find_gw in Hgw. cbn in Hgw, Hf. congruence.
  - split; [done|cbn; lia| |].
    + intros g Hg. unfold find_gw; cbn. intros Hd. rewrite lookup_insert_ne by (cbn in Hg; lia). done.
    + intros cl' Hcl. unfold opened; cbn. by apply lookup_alter_None.
  - split; unfold locks_of; cbn; [by rewrite lookup_insert_eq|].
    intros g Hne. by rewrite lookup_insert_ne.
Qed.

Lemma open_channel_safe cl tag f payload :
  safe any (open_channel pipe_send run_factory cl tag f payload).
Proof.
  intros r Hi _. unfold wp. rewrite open_channel_eq.
  destruct (opened_inv cl tag r Hi) as (Hi1 & Hg1 & Hl1 & Hl1').
  pose proof (heap_fresh _ (proj1 Hi)) as Hfr. set (g := hp_next (sr_heap r)) in *.
  apply wp_bind. eapply wp_mono; [apply factory_safe; [done|cbn in *; lia]|].
  intros [] r2 (Hi2 & Hg2 & Hl2). apply wp_bind.
  apply (wp_unlock _ server_disposer g 1); [done|by rewrite Hl2|]. intros r3 Hi3 Hg3 [Hl3 Hl3'].
  apply wp_bind. apply (wp_unlock _ server_disposer g 0); [done|done|]. intros r4 Hi4 Hg4 [Hl4 Hl4'].
  apply wp_ret. split; [done|]. split; [etrans; [done|]; etrans; [done|]; by etrans|].
  intros g'. destruct (decide (g' = g)) as [->|Hne].
  - rewrite Hl4. unfold locks_of. cbn in Hfr |- *. fold g in Hfr. by rewrite Hfr.
  - rewrite Hl4', Hl3', Hl2, Hl1' by done. done.
Qed.

Lemma handleRouteChannelMsg_safe cl tag seq sid size payload :
  payload_tail payload size <> Undef ->
  safe any (handleRouteChannelMsg pipe_send run_handler run_factory cl tag seq sid size payload).
Proof.
  intros Hd r Hi _. unfold handleRouteChannelMsg. destruct (payload_tail payload size) as [data|] eqn:E; [|done].
  apply wp_bind. eapply wp_ofOutcome; [done|]. wp_step. wp_step. cbn [id].
  destruct (_ !! cl) as [m|]; [|by apply (safe_ret any)].
  assert (safe any (if seq =? 0 then match service_id_to_channel_factory_ r !! sid with
          | Some factory => open_channel pipe_send run_factory cl tag factory data
          | None => mret None end else mret None)).
  { destruct (seq =? 0); [|apply safe_ret]. destruct (_ !! sid); [apply open_channel_safe|apply safe_ret]. }
  destruct (m !! tag) as [g|]; [|by auto].
  by apply with_locked_safe; [apply server_disposer|apply event_safe; apply handler_safe| | |].
Qed.

Lemma handleRouteChannelEnd_safe cl tag k e :
  safe any (handleRouteChannelEnd pipe_send run_handler cl tag k e).
Proof.
  intros r Hi _. unfold handleRouteChannelEnd, findAndActOnRegisteredGateway. wp_step. wp_step. cbn [id].
  destruct (_ !! cl) as [m|]; [|by apply (safe_ret any)]. wp_steps.
  destruct (w_registered _ _) as [g|]; [|by apply (safe_ret any)].
  apply with_locked_safe; [apply server_disposer| |apply safe_ret|done|done].
  intros r1 Hi1 Hl1. apply wp_bind.
  assert (safe any (if k then mret tt else modify (erase_gateway (H := H) (F := F) (Env := Env) (mkEndpoint tag cl)))) as Hs
    by (destruct k; [apply safe_ret|apply erase_safe]).
  eapply wp_mono; [by apply Hs|]. intros _ r2 (Hi2 & Hg2 & Hl2).
  eapply wp_mono; [apply event_safe; [apply handler_safe|done|by rewrite Hl2]|]. intros _ r3 (Hi3 & Hg3 & Hl3).
  split; [done|]. split; [by etrans|]. intros g'. by rewrite Hl3, Hl2.
Qed.

(** A message whose announced size is not larger than what was received. *)
Definition event_fits (event : PipeEvent) : Prop :=
  match event with
  | PipeMessage _ payload =>
      forall tag seq sid size,
        tryDeserializePayload payload = Some (Route_channel_msg tag seq sid size) ->
        payload_tail payload size <> Undef
  | _ => True
  end.

(** Every pipe event, from every state. *)
Lemma handlePipeEvent_total event r :
  Inv r -> event_fits event ->
  wp (handlePipeEvent VERSION_MAJOR VERSION_MINOR pipe_send run_handler run_factory gw_order event)
     (fun _ r' => Inv r' /\ same_locks r r' /\
                  hp_events (sr_heap r) `prefix_of` hp_events (sr_heap r')) r.
Proof.
  intros Hi Hf.
  assert (forall m : M W OptError, safe any m -> wp m (fun _ r' => Inv r' /\ same_locks r r' /\
            hp_events (sr_heap r) `prefix_of` hp_events (sr_heap r')) r) as Hsafe.
  { intros m Hm. eapply wp_mono; [by apply Hm|]. intros ? r' (? & [] & ?). done. }
  destruct event as [cl|cl payload|cl]; cbn [handlePipeEvent];
    [by apply Hsafe, safe_ret| |by apply Hsafe, handlePipeDisconnected_safe].
  unfold handlePipeMessage. destruct (tryDeserializePayload payload) as [route|] eqn:E;
    [|by apply Hsafe, safe_ret].
  destruct route as [|major minor e|tag seq sid size|tag k e].
  - by apply Hsafe, safe_ret.
  - unfold handleRouteConnect. apply wp_bind, wp_send_route. intros err r1 Hs.
    destruct (quiet_safe _ _ (sent_more_quiet _ _ Hs) Hi) as (Hi1 & [] & Hl1).
    destruct err as [err|]; [apply wp_ret; done|]. wp_steps. split; [|done].
    destruct Hi1 as [Hw Hr]. split; [done|]. intros ep g Hg. apply (Hr ep g). revert Hg. cbn.
    unfold lookup_gateway; cbn. destruct (client_id_to_map_of_gateways_ r1 !! cl) eqn:Hcl; [done|].
    destruct (decide (cl = ep_client_id ep)) as [->|Hne]; [by rewrite lookup_insert_eq|].
    by rewrite lookup_insert_ne.
  - apply Hsafe, handleRouteChannelMsg_safe. by eapply Hf.
  - by apply Hsafe, handleRouteChannelEnd_safe.
Qed.

(** A message that does not fit is undefined behaviour, so events that were handled have kept
    the invariant. *)
Lemma handled_event_inv event r e r' :
  Inv r -> handlePipeEvent VERSION_MAJOR VERSION_MINOR pipe_send run_handler run_factory gw_order event r = Done (e, r') ->
  Inv r'.
Proof.
  intros Hi E. assert (event_fits event -> Inv r') as Hfit.
  { intros Hf. exact (proj1 (wp_result _ _ _ _ _ (handlePipeEvent_total event r Hi Hf) E)). }
  destruct event as [cl|cl payload|cl]; [by apply Hfit| |by apply Hfit].
  destruct (tryDeserializePayload payload) as [[|major minor err|tag seq sid size|tag k err]|] eqn:Hd.
  all: apply Hfit; intros tag' seq' sid' size' Hd'; rewrite Hd in Hd'; try done. injection Hd' as <- <- <- <-. intros Hu.
  cbn [handlePipeEvent] in E. unfold handlePipeMessage, handleRouteChannelMsg in E. rewrite Hd, Hu in E. done.
Qed.

(** C11: whatever a client sends, a pipe event is handled without undefined
    behaviour, provided that the payload size announced by a channel
    message fits in what was received: registered gateways stay alive, the
    counts of strong pointers are restored, and events are only added. *)
Theorem server_pipe_event_safe event r :
  Inv r -> event_fits event ->
  wp (handlePipeEvent VERSION_MAJOR VERSION_MINOR pipe_send run_handler run_factory gw_order event)
     (fun _ r' => Inv r' /\ same_locks r r' /\
                  hp_events (sr_heap r) `prefix_of` hp_events (sr_heap r')) r.
Proof. apply handlePipeEvent_total. Qed.

(** The three cases of the dispatch of a channel message. *)
Lemma channel_msg_registered cl tag seq sid size payload data g r :
  Inv r -> payload_tail payload size = Done data -> lookup_gateway (mkEndpoint tag cl) r = Some g ->
  wp (handleRouteChannelMsg pipe_send run_handler run_factory cl tag seq sid size payload)
     (fun _ r' => Inv r' /\ grows r r' /\ same_locks r r' /\
        hp_events (sr_heap r) ++ [(g, Message seq data)] `prefix_of` hp_events (sr_heap r')) r.
Proof.
  intros Hi Hd Hg. unfold handleRouteChannelMsg. rewrite Hd.
  destruct (proj2 Hi (mkEndpoint tag cl) g Hg) as (gw & Hgw & _).
  apply bind_Some in Hg as (m & Hm & Hg). cbn in Hm, Hg. apply wp_bind, (wp_ofOutcome _ data); [done|].
  wp_step. wp_step. cbn [id]. rewrite Hm, Hg.
  by apply (wp_locked_event _ server_disposer _ handler_safe _ _ _ gw).
Qed.

Lemma channel_msg_opens cl tag sid size payload data f r :
  payload_tail payload size = Done data -> lookup_gateway (mkEndpoint tag cl) r = None ->
  is_Some (client_id_to_map_of_gateways_ r !! cl) -> service_id_to_channel_factory_ r !! sid = Some f ->
  handleRouteChannelMsg pipe_send run_handler run_factory cl tag 0 sid size payload r =
  open_channel pipe_send run_factory cl tag f data r.
Proof.
  intros Hd Hno [m Hm] Hf. unfold handleRouteChannelMsg, lookup_gateway in *. rewrite Hd. cbn [ep_client_id ep_tag] in Hno.
  unfold mbind at 1, M_bind at 1, ofOutcome. unfold mbind at 1, M_bind at 1, gets. cbn [id].
  rewrite Hm in *. cbn in Hno. by rewrite Hno, Hf.
Qed.

Lemma channel_msg_ignored cl tag seq sid size payload data r :
  payload_tail payload size = Done data -> lookup_gateway (mkEndpoint tag cl) r = None ->
  ~ (is_Some (client_id_to_map_of_gateways_ r !! cl) /\ seq = 0 /\ is_Some (service_id_to_channel_factory_ r !! sid)) ->
  handleRouteChannelMsg pipe_send run_handler run_factory cl tag seq sid size payload r = Done (None, r).
Proof.
  intros Hd Hno Hn. unfold handleRouteChannelMsg, lookup_gateway in *. rewrite Hd. cbn [ep_client_id ep_tag] in Hno.
  unfold mbind, M_bind, ofOutcome, gets. cbn [id].
  destruct (client_id_to_map_of_gateways_ r !! cl) as [m|] eqn:Hm; [|done]. cbn in Hno. rewrite Hno.
  destruct (Z.eqb_spec seq 0) as [->|]; [|done].
  destruct (service_id_to_channel_factory_ r !! sid) as [f|] eqn:Hf; [|done].
  destruct Hn. by eauto.
Qed.

(** Dispatch of a channel message, when its size fits. A registered
    gateway receives it as the next event. Otherwise, the first message
    (sequence 0) to a known service runs that service's factory on a new
    gateway that is registered under the tag, and on the message's payload.
    Every other message, and every message of an unknown client, leaves the
    router as it was. *)
Theorem server_channel_msg_dispatch cl tag seq sid size payload data r :
  Inv r -> payload_tail payload size = Done data ->
  let run := handleRouteChannelMsg pipe_send run_handler run_factory cl tag seq sid size payload in
  let opens := is_Some (client_id_to_map_of_gateways_ r !! cl) /\ seq = 0 in
  (forall g, lookup_gateway (mkEndpoint tag cl) r = Some g ->
     wp run (fun _ r' => hp_events (sr_heap r) ++ [(g, Message seq data)]
                           `prefix_of` hp_events (sr_heap r')) r) /\
  (forall f, lookup_gateway (mkEndpoint tag cl) r = None -> opens ->
     service_id_to_channel_factory_ r !! sid = Some f ->
     let g := hp_next (sr_heap r) in
     find_gw g r = None /\ lookup_gateway (mkEndpoint tag cl) (opened cl tag r) = Some g /\
     run r = (run_factory f g data;; unlock (dispose pipe_send) g;; unlock (dispose pipe_send) g;; mret None) (opened cl tag r)) /\
  (lookup_gateway (mkEndpoint tag cl) r = None ->
     ~ (opens /\ is_Some (service_id_to_channel_factory_ r !! sid)) ->
     run r = Done (None, r)).
Proof.
  intros Hi Hd run opens. split; [|split].
  - intros g Hg. eapply wp_mono; [by apply (channel_msg_registered cl tag seq sid size payload data g r)|].
    by intros ? ? (? & ? & ? & ?).
  - intros f Hno [Hm ->] Hf. pose proof (heap_fresh _ (proj1 Hi)) as Hfr. cbv zeta.
    split; [done|]. split; [|rewrite <- open_channel_eq; by apply channel_msg_opens].
    destruct Hm as [m Hm]. unfold opened, lookup_gateway. cbn. rewrite lookup_alter_eq, Hm. cbn. apply lookup_insert_eq.
  - intros Hno Hn. apply (channel_msg_ignored _ _ _ _ _ _ data); [done|done|]. unfold opens in Hn. tauto.
Qed.

(** C15: when the pipe of a client is lost, the client is forgotten and every
    gateway that was registered for it is told exactly why it is over
    ([Disconnected], not to be kept alive) unless it was destroyed before
    its turn came; nothing is left registered for that client. *)
Theorem server_disconnect_notifies_all cl m r :
  Inv r -> client_id_to_map_of_gateways_ r !! cl = Some m -> gw_order m ≡ₚ map_to_list m ->
  wp (handlePipeDisconnected pipe_send run_handler gw_order cl)
     (fun e r' => e = None /\ Inv r' /\ client_id_to_map_of_gateways_ r' !! cl = None /\
        exists added, hp_events (sr_heap r') = hp_events (sr_heap r) ++ added /\
          forall tag g, m !! tag = Some g ->
            find_gw g r' = None \/ (g, Completed (Some (Err Code.Disconnected)) false) ∈ added) r.
Proof.
  intros Hi Hm Hord. unfold handlePipeDisconnected. do 2 wp_step. cbn [id]. rewrite Hm. do 2 wp_step.
  destruct (quiet_safe _ _ (drop_client_quiet cl r) Hi) as (Hi1 & _ & _).
  apply wp_bind. eapply wp_mono.
  - apply wp_notify_all; [apply server_disposer|apply handler_safe|done|].
    rewrite Hord. apply Forall_forall. intros [tag g] Hx. apply elem_of_map_to_list in Hx. cbn.
    destruct (proj2 Hi (mkEndpoint tag cl) g) as (gw & Hgw & _);
      [cbn; unfold lookup_gateway; cbn; by rewrite Hm|]. by apply (proj1 Hi) in Hgw as (_ & ? & _).
  - intros [] r' (Hi' & Hg' & _ & added & Hadd & Hdone). apply wp_ret. split; [done|]. split; [done|].
    split; [apply (grows_later _ _ Hg'); cbn; apply lookup_delete_eq|]. exists added. split; [done|].
    intros tag g Hg. apply (Hdone (tag, g)). rewrite Hord. by apply elem_of_map_to_list.
Qed.
End clients.

(** C24: a channel message that announces more payload than was received is
    undefined behaviour, whatever the state of the router: the offset of the
    subspan wraps below zero, and nothing checks it. *)
Theorem server_oversized_payload_undefined cl tag seq sid size payload r :
  tryDeserializePayload payload = Some (Route_channel_msg tag seq sid size) ->
  Z.of_nat (length payload) < size < 2 ^ 64 ->
  handlePipeEvent VERSION_MAJOR VERSION_MINOR pipe_send run_handler run_factory gw_order
    (PipeMessage cl payload) r = Undef.
Proof.
  intros Hd Hs. cbn. unfold handlePipeMessage. rewrite Hd. unfold handleRouteChannelMsg.
  assert (payload_tail payload size = Undef) as ->; [|done].
  destruct (payload_tail payload size) eqn:E; [|done].
  pose proof (proj1 (payload_tail_defined payload size ltac:(lia) ltac:(lia))) as Hd2.
  rewrite E in Hd2. specialize (Hd2 ltac:(done)). lia.
Qed.

(** *** Sending *)

Definition sent_after (cl : ClientId) (b : bytes) env r : W :=
  mkRouter (sr_heap r) (client_id_to_map_of_gateways_ r) (service_id_to_channel_factory_ r)
           (sr_sent r ++ [(cl, b)]) env.

Lemma isConnected_true ep r : isConnected ep r = true <-> is_Some (client_id_to_map_of_gateways_ r !! ep_client_id ep).
Proof. apply bool_decide_eq_true. Qed.

Lemma registered_connected ep r : isRegisteredGateway ep r = true -> isConnected ep r = true.
Proof.
  unfold isRegisteredGateway, lookup_gateway. rewrite bool_decide_eq_true, isConnected_true.
  intros [g Hg]. apply bind_Some in Hg as (m & Hm & _). eauto.
Qed.

(** What a successful send does. *)
Lemma gateway_send_wire `{!CodecOk Route Route_wf} g gw svc buf r :
  Inv r -> find_gw g r = Some gw -> isRegisteredGateway (gw_endpoint gw) r = true ->
  u64_field (ep_tag (gw_endpoint gw)) -> u64_field svc ->
  SocketBuffer.wf buf -> Z.of_nat (length (SocketBuffer.contents buf)) < 2 ^ 63 -> serializer_bounded ->
  exists sock_buff, let ep := gw_endpoint gw in let wire := SocketBuffer.contents sock_buff in
    let '(e, env) := pipe_send (ep_client_id ep) sock_buff (sr_env r) in
    gateway_send pipe_send g svc buf r =
      Done (e, sent_after (ep_client_id ep) wire env
                 (set_heap (heap_update g (gw_set_sequence (u64 (gw_next_sequence gw + 1)))) r)) /\
    tryDeserializePayload wire =
      Some (Route_channel_msg (ep_tag ep) (gw_next_sequence gw) svc (SocketBuffer.size buf)) /\
    payload_tail wire (SocketBuffer.size buf) = Done (SocketBuffer.contents buf).
Proof.
  intros [Hw _] Hg Hreg Htag Hsvc Hb Hlen Hser. unfold gateway_send, mbind, M_bind, gets. rewrite Hg.
  rewrite (registered_connected _ _ Hreg). cbn [negb]. rewrite Hreg. cbn [negb].
  destruct (channel_msg_wire (ep_tag (gw_endpoint gw)) (gw_next_sequence gw) svc buf)
    as (bs & Hbs & Hwire & Htail); [done|by apply (Hw g)|done|done|done|done|].
  unfold tryPerformOnSerialized. rewrite Hbs. exists (SocketBuffer.prepend (span bs) buf). cbv zeta.
  unfold modify, pipe_write. cbn [sr_env set_heap]. by destruct (pipe_send _ _ _) as [e env].
Qed.

(** Sending through a live gateway. A disconnected client is [NotConnected]
    and a gateway that is no longer registered is [Shutdown], with nothing
    sent. Otherwise one buffer goes to the pipe of the gateway's client: it
    parses as a channel message with the gateway's tag and sequence number,
    the announced size cuts the caller's bytes back out of it, and the
    sequence number is advanced (modulo 2^64) even if the pipe refuses. *)
Theorem server_gateway_send `{!CodecOk Route Route_wf} g gw svc buf r :
  Inv r -> find_gw g r = Some gw -> u64_field (ep_tag (gw_endpoint gw)) -> u64_field svc ->
  SocketBuffer.wf buf -> Z.of_nat (length (SocketBuffer.contents buf)) < 2 ^ 63 -> serializer_bounded ->
  let ep := gw_endpoint gw in
  (isConnected ep r = false -> gateway_send pipe_send g svc buf r = Done (Some (Err Code.NotConnected), r)) /\
  (isConnected ep r = true -> isRegisteredGateway ep r = false ->
     gateway_send pipe_send g svc buf r = Done (Some (Err Code.Shutdown), r)) /\
  (isRegisteredGateway ep r = true -> exists sock_buff, let wire := SocketBuffer.contents sock_buff in
     let '(e, env) := pipe_send (ep_client_id ep) sock_buff (sr_env r) in
     gateway_send pipe_send g svc buf r =
       Done (e, sent_after (ep_client_id ep) wire env
                  (set_heap (heap_update g (gw_set_sequence (u64 (gw_next_sequence gw + 1)))) r)) /\
     tryDeserializePayload wire =
       Some (Route_channel_msg (ep_tag ep) (gw_next_sequence gw) svc (SocketBuffer.size buf)) /\
     payload_tail wire (SocketBuffer.size buf) = Done (SocketBuffer.contents buf)).
Proof.
  intros Hi Hg Htag Hsvc Hb Hlen Hser ep. split; [|split].
  - unfold gateway_send, mbind, M_bind, gets. rewrite Hg. fold ep. by intros ->.
  - unfold gateway_send, mbind, M_bind, gets. rewrite Hg. fold ep. intros ->. cbn [negb]. by intros ->.
  - intros Hreg. by apply (gateway_send_wire g gw svc buf r).
Qed.

(** A gateway that loses its last strong pointer is unregistered, and the
    client is sent exactly one end of channel, with the completion error and
    not to be kept alive, if the gateway was still registered with a connected
    client; otherwise nothing is sent. *)
Theorem server_gateway_disposal `{!CodecOk Route Route_wf} g gw r :
  Inv r -> find_gw g r = Some gw -> gw_owners gw = 1%nat -> gw_locks gw = O ->
  u64_field (ep_tag (gw_endpoint gw)) -> error_field (optErrorToDsdlError (gw_completion_opt_error gw)) ->
  let ep := gw_endpoint gw in
  let gone := erase_gateway ep (set_heap (heap_free g) r) in
  lookup_gateway ep gone = None /\ find_gw g gone = None /\
  (isRegisteredGateway ep r = false -> disown (dispose pipe_send) g r = Done (tt, gone)) /\
  (isRegisteredGateway ep r = true -> exists wire env,
     disown (dispose pipe_send) g r = Done (tt, sent_after (ep_client_id ep) wire env gone) /\
     tryDeserializePayload wire =
       Some (Route_channel_end (ep_tag ep) false (optErrorToDsdlError (gw_completion_opt_error gw)))).
Proof.
  intros Hi Hg Ho Hl Htag Herr ep gone.
  assert (disown (dispose pipe_send) g r = destroy_gateway (dispose pipe_send) g gw r) as ->.
  { unfold disown, mbind, M_bind, gets. rewrite Hg, Ho. unfold drop_refs. by rewrite Hl, decide_True. }
  split; [|split; [|split]].
  - unfold gone, lookup_gateway; cbn. rewrite lookup_alter_eq.
    destruct (_ !! _); cbn; [apply lookup_delete_eq|done].
  - unfold gone, find_gw; cbn. apply lookup_delete_eq.
  - unfold isRegisteredGateway, lookup_gateway. rewrite bool_decide_eq_false. intros Hn.
    unfold destroy_gateway, dispose, onGatewayDisposal, mbind, M_bind, modify, gets. cbn [id w_set_heap server_world].
    fold ep. cbn [set_heap client_id_to_map_of_gateways_].
    destruct (client_id_to_map_of_gateways_ r !! ep_client_id ep) as [m|] eqn:Hm; cbn in Hn.
    + rewrite bool_decide_false by done. done.
    + unfold gone, erase_gateway, set_map, mret, M_ret; cbn. do 2 f_equal.
      destruct r; unfold set_heap; cbn in *. f_equal. symmetry. apply alter_id. intros; congruence.
  - intros Hreg. pose proof Hreg as Hreg'.
    unfold isRegisteredGateway, lookup_gateway in Hreg. rewrite bool_decide_eq_true in Hreg.
    destruct Hreg as [g' Hreg]. apply bind_Some in Hreg as (m & Hm & Ht).
    destruct (serialize_total (Route_channel_end (ep_tag ep) false (optErrorToDsdlError (gw_completion_opt_error gw))))
      as (bs & Hbs & Hne); [done|].
    unfold destroy_gateway, dispose, onGatewayDisposal, mbind, M_bind, modify, gets. cbn [id w_set_heap server_world]. fold ep.
    cbn [set_heap client_id_to_map_of_gateways_]. rewrite Hm, bool_decide_true by eauto.
    fold gone. assert (isConnected ep gone = true) as ->.
    { apply isConnected_true. unfold gone; cbn. rewrite lookup_alter_eq, Hm. eauto. }
    cbn [andb]. unfold send_route, tryPerformOnSerialized. rewrite Hbs. unfold pipe_write.
    destruct (pipe_send _ _ _) as [e env]. exists bs, env. split.
    + rewrite SocketBuffer.contents_ofPayload, SocketBuffer.payload_data_span. done.
    + unfold tryDeserializePayload. rewrite <- (app_nil_r bs). by eapply deserialize_serialize.
Qed.
End Facts.

(** ** A concrete router, for the witnesses *)
Module ServerExample.
Import WireExample.

(** Handlers return a fixed result; a factory makes a channel that keeps the
    gateway; the pipe accepts everything. *)
Definition ex_handler (h : OptError) (e : GwEvent) : M (Router OptError unit unit) OptError := mret h.
Definition ex_factory (f : unit) (g : GwId) (payload : bytes) : M (Router OptError unit unit) unit := own g.
Definition ex_pipe (cl : ClientId) (b : SocketBuffer.t) (e : unit) : OptError * unit := (None, tt).

#[export] Instance ex_clients : Clients ex_handler ex_factory.
Proof.
  split; [intros h e; apply (safe_ret (fun _ => True))|].
  intros f g payload. eapply safe_weaken; [|apply own_safe].
  intros r Hl. unfold find_gw, locks_of in *; cbn in *.
  destruct (_ !! g); [eauto|lia].
Qed.

Definition ex_gw : Gateway Endpoint OptError := mkGateway (mkEndpoint 3 7) 5 None None 1 0.

(** Client 7 is connected and has one channel, under tag 3; service 9 exists. *)
Definition ex_router : Router OptError unit unit :=
  mkRouter (mkHeap {[0%nat := ex_gw]} 1 []) {[7 := {[3 := 0%nat]}]} {[9 := tt]} [] tt.

Lemma ex_router_inv : Inv ex_router.
Proof.
  split.
  - intros g gw. cbn. rewrite lookup_singleton_Some. intros [<- <-]. cbn. unfold u64_field. lia.
  - intros ep g. cbn. unfold lookup_gateway. rewrite bind_Some. intros (m & Hm & Hg). revert Hm Hg. cbn.
    rewrite lookup_singleton_Some. intros [Hcl <-].
    rewrite lookup_singleton_Some. intros [Ht <-]. exists ex_gw. split; [done|].
    destruct ep; cbn in *; by subst.
Qed.

Definition ex_msg (tag seq sid size : Z) (data : bytes) : bytes :=
  encode (Route_channel_msg tag seq sid size) ++ data.
End ServerExample.

Section witnesses.
Import WireExample ServerExample.

Lemma server_pipe_event_safe_witness :
  exists e r', handlePipeEvent 0 2 ex_pipe ex_handler ex_factory map_to_list
    (PipeMessage 7 (ex_msg 4 0 9 2 [x0a; x0b])) ex_router = Done (e, r') /\ Inv r'.
Proof.
  assert (event_fits (PipeMessage 7 (ex_msg 4 0 9 2 [x0a; x0b]))) as Hf.
  { intros tag seq sid size Hd. assert (size = 2) as -> by (vm_compute in Hd; congruence). vm_compute. discriminate. }
  pose proof (server_pipe_event_safe 0 2 ex_pipe ex_handler ex_factory map_to_list
                (PipeMessage 7 (ex_msg 4 0 9 2 [x0a; x0b])) ex_router ex_router_inv Hf) as Hw.
  apply wp_Done in Hw as (e & r' & Hrun & Hi & _). eauto.
Defined.

Lemma server_channel_msg_dispatch_witness :
  exists e r', handleRouteChannelMsg ex_pipe ex_handler ex_factory 7 3 0 9 2 (ex_msg 3 0 9 2 [x0a; x0b]) ex_router
    = Done (e, r') /\ [(0%nat, Message 0 [x0a; x0b])] `prefix_of` hp_events (sr_heap r').
Proof.
  assert (payload_tail (ex_msg 3 0 9 2 [x0a; x0b]) 2 = Done [x0a; x0b]) as Ht by reflexivity.
  pose proof (proj1 (server_channel_msg_dispatch ex_pipe ex_handler ex_factory 7 3 0 9 2 _ _
                       ex_router ex_router_inv Ht) 0%nat eq_refl) as Hw.
  apply wp_Done in Hw as (e & r' & Hrun & Hp). eauto.
Defined.

Lemma server_disconnect_notifies_all_witness :
  exists r', handlePipeDisconnected ex_pipe ex_handler map_to_list 7 ex_router = Done (None, r') /\
    client_id_to_map_of_gateways_ r' !! 7 = None.
Proof.
  pose proof (server_disconnect_notifies_all ex_pipe ex_handler ex_factory map_to_list 7 {[3 := 0%nat]}
                ex_router ex_router_inv eq_refl (reflexivity _)) as Hw.
  apply wp_Done in Hw as (e & r' & Hrun & -> & _ & Hn & _). eauto.
Defined.

Lemma server_oversized_payload_undefined_witness :
  handlePipeEvent 0 2 ex_pipe ex_handler ex_factory map_to_list
    (PipeMessage 7 (ex_msg 3 0 9 1000 [])) ex_router = Undef.
Proof.
  apply (server_oversized_payload_undefined 0 2 ex_pipe ex_handler ex_factory map_to_list 7 3 0 9 1000);
    [reflexivity|split; reflexivity].
Defined.

Lemma server_gateway_send_witness :
  exists e r', gateway_send ex_pipe 0%nat 9 (SocketBuffer.ofPayload (span [x0a])) ex_router = Done (e, r').
Proof.
  destruct (server_gateway_send ex_pipe 0%nat ex_gw 9 (SocketBuffer.ofPayload (span [x0a])) ex_router
              ex_router_inv eq_refl) as (_ & _ & Hs);
    [split; cbn; lia|split; lia|apply SocketBuffer.wf_ofPayload|reflexivity|exact Route_codec_bounded|].
  destruct Hs as (sb & Hs); [reflexivity|]. cbn in Hs. destruct Hs as (Hs & _). eauto.
Defined.

Lemma server_gateway_disposal_witness :
  exists wire env, disown (dispose ex_pipe) 0%nat ex_router =
    Done (tt, sent_after 7 wire env (erase_gateway (mkEndpoint 3 7) (set_heap (heap_free 0) ex_router))).
Proof.
  destruct (server_gateway_disposal ex_pipe 0%nat ex_gw ex_router ex_router_inv eq_refl eq_refl eq_refl)
    as (_ & _ & _ & Hs); [split; cbn; lia|split; cbn; split; reflexivity || discriminate|].
  destruct Hs as (wire & env & Hs & _); [reflexivity|]. eauto.
Defined.
End witnesses.
