(* ===== verification/ClientRouter.v ===== *)
(** * The client-side IPC router

    Models [ClientRouterImpl] of [src/common/ipc/client_router.cpp] and
    [ClientRouter::makeChannel] of [client_router.hpp]: every pipe event, the
    gateway operations offered to channels, and the life of gateways. As for
    the server, the pipe, the codec and the event handlers are parameters, and
    handlers are arbitrary computations on the router's own world. *)
From S2P Require Import Prelude Errors SocketBuffer Gateway.

Local Open Scope Z_scope.

Module Client.

Abbreviation Tag := Z.

Record Endpoint := mkEndpoint { ep_tag : Tag }.

#[export] Instance Endpoint_eq_dec : EqDecision Endpoint.
Proof. solve_decision. Defined.

(** [ClientRouterImpl]; [cr_sent] records the buffers handed to the pipe. *)
Record Router (H Env : Type) := mkRouter {
  cr_heap : Heap Endpoint H;
  next_tag_ : Tag;
  is_connected_ : bool;
  map_of_gateways_ : gmap Tag GwId;
  cr_sent : list bytes;
  cr_env : Env;
}.
Arguments mkRouter {H Env}.
Arguments cr_heap {H Env}.
Arguments next_tag_ {H Env}.
Arguments is_connected_ {H Env}.
Arguments map_of_gateways_ {H Env}.
Arguments cr_sent {H Env}.
Arguments cr_env {H Env}.

(** [ClientPipe::Event] *)
Inductive PipeEvent : Type :=
| PipeConnected
| PipeMessage (payload : bytes)
| PipeDisconnected.

Section Router.
Context {H Env : Type} `{RouteCodec : Codec Route}.
Abbreviation W := (Router H Env).
Context (VERSION_MAJOR VERSION_MINOR : Z).
Context (pipe_send : SocketBuffer.t -> Env -> OptError * Env).
Context (run_handler : H -> GwEvent -> M W OptError).
(** The iteration order of an [std::unordered_map] of gateways. *)
Context (gw_order : gmap Tag GwId -> list (Tag * GwId)).

Definition set_heap (f : Heap Endpoint H -> Heap Endpoint H) (r : W) : W :=
  mkRouter (f (cr_heap r)) (next_tag_ r) (is_connected_ r) (map_of_gateways_ r) (cr_sent r) (cr_env r).
Definition set_map (f : gmap Tag GwId -> gmap Tag GwId) (r : W) : W :=
  mkRouter (cr_heap r) (next_tag_ r) (is_connected_ r) (f (map_of_gateways_ r)) (cr_sent r) (cr_env r).
Definition set_connected (b : bool) (r : W) : W :=
  mkRouter (cr_heap r) (next_tag_ r) b (map_of_gateways_ r) (cr_sent r) (cr_env r).
Definition set_next_tag (tag : Tag) (r : W) : W :=
  mkRouter (cr_heap r) tag (is_connected_ r) (map_of_gateways_ r) (cr_sent r) (cr_env r).

(** [ClientRouterImpl::ClientRouterImpl], over its pipe. *)
Definition ClientRouterImpl_new (client_pipe : Env) : W := mkRouter (mkHeap ∅ 0 []) 0 false ∅ [] client_pipe.

(** [client_pipe_->send(sock_buff)] *)
Definition pipe_write (sock_buff : SocketBuffer.t) : M W OptError := fun r =>
  let '(e, env) := pipe_send sock_buff (cr_env r) in
  Done (e, mkRouter (cr_heap r) (next_tag_ r) (is_connected_ r) (map_of_gateways_ r)
                    (cr_sent r ++ [SocketBuffer.contents sock_buff]) env).

Definition isConnected (endpoint : Endpoint) (r : W) : bool := is_connected_ r.

Definition lookup_gateway (endpoint : Endpoint) (r : W) : option GwId :=
  map_of_gateways_ r !! ep_tag endpoint.

Definition isRegisteredGateway (endpoint : Endpoint) (r : W) : bool :=
  bool_decide (is_Some (lookup_gateway endpoint r)).

(** A router that is not connected does not become so while handlers run. *)
#[global] Instance client_world : GatewayWorld W Endpoint H := {
  w_heap := cr_heap;
  w_set_heap := set_heap;
  w_registered := lookup_gateway;
  w_later r r' := is_connected_ r = false -> is_connected_ r' = false;
}.

(** Serialise a route message and send it as a whole buffer. *)
Definition send_route (route : Route) : M W OptError :=
  tryPerformOnSerialized route SerializationBufferSizeBytes
    (fun payload => pipe_write (SocketBuffer.ofPayload payload)).

(** [map_of_gateways_.erase(tag)] *)
Definition erase_gateway (endpoint : Endpoint) (r : W) : W := set_map (delete (ep_tag endpoint)) r.

Definition onGatewayDisposal (endpoint : Endpoint) (send_ch_end : bool) (completion_opt_error : OptError)
    : M W unit :=
  was_registered ← gets (isRegisteredGateway endpoint);
  modify (erase_gateway endpoint);;
  connected ← gets (isConnected endpoint);
  if was_registered && send_ch_end && connected then
    send_route (Route_channel_end (ep_tag endpoint) false (optErrorToDsdlError completion_opt_error));;
    mret tt
  else mret tt.

Definition dispose (gw : Gateway Endpoint H) : M W unit :=
  onGatewayDisposal (gw_endpoint gw) (0 <? gw_next_sequence gw) (gw_completion_opt_error gw).

(** The pointer returned by [makeGateway] becomes the channel's. *)
Definition makeGateway : M W GwId :=
  tag ← gets next_tag_;
  modify (set_next_tag (u64 (tag + 1)));;
  gateway ← liftF (fun r => let '(g, hp) := heap_create (mkEndpoint tag) (cr_heap r) in
                            (g, set_heap (fun _ => hp) r));
  modify (set_map <[tag := gateway]>);;
  modify (set_heap (heap_update gateway (gw_set_refs 1 0)));;
  mret gateway.

Definition onGatewaySubscription (endpoint : Endpoint) : M W unit :=
  connected ← gets is_connected_;
  if (connected : bool) then
    findAndActOnRegisteredGateway dispose endpoint (fun gateway => gateway_event run_handler gateway Connected);;
    mret tt
  else mret tt.

(** ** The gateway operations *)

(** [GatewayImpl::send] *)
Definition gateway_send (g : GwId) (service_id : Z) (sock_buff : SocketBuffer.t) : M W OptError :=
  o ← gets (find_gw g);
  match o with
  | None => undef
  | Some gw =>
      let endpoint_ := gw_endpoint gw in
      connected ← gets (isConnected endpoint_);
      if negb connected then mret (Some (Err Code.NotConnected))
      else
        registered ← gets (isRegisteredGateway endpoint_);
        if negb registered then mret (Some (Err Code.Shutdown))
        else
          let sequence := gw_next_sequence gw in
          modify (set_heap (heap_update g (gw_set_sequence (u64 (sequence + 1)))));;
          tryPerformOnSerialized
            (Route_channel_msg (ep_tag endpoint_) sequence service_id (SocketBuffer.size sock_buff))
            SerializationBufferSizeBytes
            (fun prefix => pipe_write (SocketBuffer.prepend prefix sock_buff))
  end.

(** [GatewayImpl::complete] *)
Definition gateway_complete (g : GwId) (opt_error : OptError) (keep_alive : bool) : M W OptError :=
  o ← gets (find_gw g);
  match o with
  | None => undef
  | Some gw =>
      let endpoint_ := gw_endpoint gw in
      connected ← gets (isConnected endpoint_);
      if negb connected then mret (Some (Err Code.NotConnected))
      else
        registered ← gets (isRegisteredGateway endpoint_);
        if negb registered then mret None
        else
          modify (set_heap (heap_update g (gw_set_completion opt_error)));;
          if gw_next_sequence gw =? 0 then mret None
          else send_route (Route_channel_end (ep_tag endpoint_) keep_alive (optErrorToDsdlError opt_error))
  end.

(** [GatewayImpl::subscribe] *)
Definition gateway_subscribe (g : GwId) (event_handler : option H) : M W unit :=
  o ← gets (find_gw g);
  match o with
  | None => undef
  | Some gw =>
      modify (set_heap (heap_update g (gw_set_handler event_handler)));;
      onGatewaySubscription (gw_endpoint gw)
  end.

(** ** Pipe events *)

(** Collect strong pointers to the registered gateways that are still alive. *)
Fixpoint lock_all (gateways : list (Tag * GwId)) : M W (list GwId) :=
  match gateways with
  | [] => mret []
  | tag_to_gw :: gateways' =>
      ok ← lock tag_to_gw.2;
      gateway_ptrs ← lock_all gateways';
      mret (if (ok : bool) then tag_to_gw.2 :: gateway_ptrs else gateway_ptrs)
  end.

Definition forEachRegisteredGateway (action : GwId -> M W unit) : M W unit :=
  m ← gets map_of_gateways_;
  gateway_ptrs ← lock_all (gw_order m);
  mfor gateway_ptrs action;;
  mfor gateway_ptrs (fun gateway => unlock dispose gateway).

Definition handlePipeConnected : M W OptError :=
  send_route (Route_connect VERSION_MAJOR VERSION_MINOR (mkDsdlError 0 0)).

Definition handlePipeDisconnected : M W OptError :=
  connected ← gets is_connected_;
  if (connected : bool) then
    modify (set_connected false);;
    local_map_of_gateways ← gets map_of_gateways_;
    modify (set_map (fun _ => ∅));;
    mfor (gw_order local_map_of_gateways) (fun tag_to_gw => notify_completed dispose run_handler tag_to_gw.2);;
    mret None
  else mret None.

Definition handleRouteConnect : M W OptError :=
  connected ← gets is_connected_;
  if negb connected then
    modify (set_connected true);;
    forEachRegisteredGateway (fun gateway => gateway_event run_handler gateway Connected;; mret tt);;
    mret None
  else mret None.

Definition handleRouteChannelMsg (tag sequence service_id payload_size : Z) (payload : bytes) : M W OptError :=
  msg_real_payload ← ofOutcome (payload_tail payload payload_size);
  o ← gets (lookup_gateway (mkEndpoint tag));
  match o with
  | Some gateway =>
      with_locked dispose gateway
        (gateway_event run_handler gateway (Message sequence msg_real_payload)) (mret None)
  | None => mret None
  end.

Definition handleRouteChannelEnd (tag : Tag) (keep_alive : bool) (error : Error_0_1) : M W OptError :=
  let opt_error := dsdlErrorToOptError error in
  let endpoint := mkEndpoint tag in
  findAndActOnRegisteredGateway dispose endpoint (fun gateway =>
    (if keep_alive then mret tt else modify (erase_gateway endpoint));;
    gateway_event run_handler gateway (Completed opt_error keep_alive)).

Definition handlePipeMessage (payload : bytes) : M W OptError :=
  match tryDeserializePayload payload with
  | None => mret (Some (Err Code.InvalidArgument))
  | Some Route_empty => mret (Some (Err Code.InvalidArgument))
  | Some (Route_connect _ _ _) => handleRouteConnect
  | Some (Route_channel_msg tag sequence service_id payload_size) =>
      handleRouteChannelMsg tag sequence service_id payload_size payload
  | Some (Route_channel_end tag keep_alive error) => handleRouteChannelEnd tag keep_alive error
  end.

Definition handlePipeEvent (event : PipeEvent) : M W OptError :=
  match event with
  | PipeConnected => handlePipeConnected
  | PipeMessage payload => handlePipeMessage payload
  | PipeDisconnected => handlePipeDisconnected
  end.
End Router.

End Client.
