(* ===== verification/ClientRouterFacts.v ===== *)
(** * Theorems about the client-side router

    The invariant of [ClientRouterImpl] and what each pipe event and gateway
    operation does, for arbitrary handlers that respect the invariant. *)
From S2P Require Import Prelude Errors SocketBuffer Gateway GatewayFacts WireExample ClientRouter.
Import Client.

Local Open Scope Z_scope.

#[export] Instance client_world_ok {H Env} : GatewayWorldOk (Router H Env) Endpoint H.
Proof.
  split; [done|done| |by intros f r ?].
  split; [intros r; exact id|]. intros r1 r2 r3 Ha Hb Hc. by apply Hb, Ha.
Qed.

Section Facts.
Context {H Env : Type} `{RouteCodec : Codec Route}.
Abbreviation W := (Router H Env).
Context (VERSION_MAJOR VERSION_MINOR : Z).
Context (pipe_send : SocketBuffer.t -> Env -> OptError * Env).
Context (run_handler : H -> GwEvent -> M W OptError).
Context (gw_order : gmap Tag GwId -> list (Tag * GwId)).
Implicit Types (r : W) (g : GwId) (gw : Gateway Endpoint H).

Abbreviation locks r g := (locks_of (cr_heap r) g).
Abbreviation any := (fun _ : W => True).

Lemma new_client_router_inv (env : Env) : Inv (ClientRouterImpl_new (H := H) env).
Proof.
  split; [by intros g gw; cbn; rewrite lookup_empty|]. intros ep g. cbn. unfold lookup_gateway; cbn. by rewrite lookup_empty.
Qed.

(** *** Pipe traffic and unregistering are quiet *)

(** Only the pipe's side of the world moves. *)
Definition sent_more r r' : Prop :=
  cr_heap r' = cr_heap r /\ map_of_gateways_ r' = map_of_gateways_ r /\ is_connected_ r' = is_connected_ r.

Lemma client_sent_more_quiet r r' : sent_more r r' -> quiet r r'.
Proof.
  intros (Hh & Hm & Hc). split; cbn; [done| |by rewrite Hc].
  intros ep g. unfold lookup_gateway. by rewrite Hm.
Qed.

Lemma client_wp_pipe_write b (Q : OptError -> W -> Prop) r :
  (forall e r', sent_more r r' -> Q e r') -> wp (pipe_write pipe_send b) Q r.
Proof.
  intros HQ. unfold wp, pipe_write. destruct (pipe_send b (cr_env r)) as [e env]. by apply HQ.
Qed.

Lemma client_wp_send_route route (Q : OptError -> W -> Prop) r :
  (forall e r', sent_more r r' -> Q e r') -> wp (send_route pipe_send route) Q r.
Proof.
  intros HQ. unfold send_route, tryPerformOnSerialized.
  destruct (serialize _ _); [by apply client_wp_pipe_write|by apply HQ].
Qed.

Lemma client_send_route_safe route : safe any (send_route pipe_send route).
Proof. apply quiet_event_safe. intros r. apply client_wp_send_route. intros. by apply client_sent_more_quiet. Qed.

Lemma client_erase_quiet ep r : quiet r (erase_gateway ep r) /\ lookup_gateway ep (erase_gateway ep r) = None.
Proof.
  split; [split; cbn; [done| |done]|apply lookup_delete_eq].
  intros ep' g. unfold lookup_gateway; cbn. rewrite lookup_delete_Some. by intros [_ ?].
Qed.

Lemma client_erase_safe ep : safe any (modify (erase_gateway (H := H) (Env := Env) ep)).
Proof. apply quiet_event_safe. intros r. apply wp_modify. apply client_erase_quiet. Qed.

Lemma client_wp_dispose gw r (Q : unit -> W -> Prop) :
  (forall r', sent_more (erase_gateway (gw_endpoint gw) r) r' -> Q tt r') -> wp (dispose pipe_send gw) Q r.
Proof.
  intros HQ. unfold dispose, onGatewayDisposal. wp_steps.
  match goal with |- wp (if ?b then _ else _) _ _ => destruct b end.
  - apply wp_bind, client_wp_send_route. intros e r' Hs. apply wp_ret. by apply HQ.
  - by apply wp_ret, HQ.
Qed.

Lemma client_disposer : Disposer (dispose (H := H) pipe_send).
Proof.
  intros gw r. apply client_wp_dispose. intros r' (Hh & Hm & Hc).
  destruct (client_erase_quiet (gw_endpoint gw) r) as [Hq Hn]. split.
  - etrans; [done|]. by apply client_sent_more_quiet.
  - cbn in *. unfold lookup_gateway in *. by rewrite Hm.
Qed.

Lemma client_set_heap_update_safe g (f : Gateway Endpoint H -> Gateway Endpoint H) :
  (forall gw, gw_owners (f gw) = gw_owners gw /\ gw_locks (f gw) = gw_locks gw /\
              gw_endpoint (f gw) = gw_endpoint gw /\
              (u64_field (gw_next_sequence gw) -> u64_field (gw_next_sequence (f gw)))) ->
  safe any (modify (set_heap (Env := Env) (heap_update g f))).
Proof. intros Hf. exact (update_safe (W := W) (EP := Endpoint) g f Hf). Qed.

Section operations.
Context (Hhandlers : Handlers run_handler).

(** The gateway operations keep the invariant, for as long as the caller holds a strong pointer. *)
Lemma client_subscribe_safe g h : safe (fun r => is_Some (find_gw g r)) (gateway_subscribe pipe_send run_handler g h).
Proof.
  intros r Hi [gw Hg]. unfold gateway_subscribe. wp_step. wp_step. rewrite Hg.
  eapply (safe_bind any); [apply (client_set_heap_update_safe g); by intros| |done|done].
  intros []. intros r' Hi' _. unfold onGatewaySubscription. wp_step. wp_step.
  destruct (is_connected_ r'); [|by apply (safe_ret any)].
  eapply (safe_bind any); [by apply find_and_event_safe; [apply client_disposer|]| |done|done].
  intros; apply safe_ret.
Qed.

Lemma client_complete_safe g oe k : safe (fun r => is_Some (find_gw g r)) (gateway_complete pipe_send g oe k).
Proof.
  intros r Hi [gw Hg]. unfold gateway_complete. wp_step. wp_step. rewrite Hg.
  wp_step. wp_step. destruct (isConnected _ r); [|by apply (safe_ret any)].
  cbn [negb]. wp_step. wp_step. destruct (isRegisteredGateway _ r); [|by apply (safe_ret any)].
  cbn [negb]. eapply (safe_bind any); [apply (client_set_heap_update_safe g); by intros| |done|done].
  intros []. destruct (gw_next_sequence gw =? 0); [apply safe_ret|apply client_send_route_safe].
Qed.

Lemma client_send_safe g svc b : safe (fun r => is_Some (find_gw g r)) (gateway_send pipe_send g svc b).
Proof.
  intros r Hi [gw Hg]. unfold gateway_send. wp_step. wp_step. rewrite Hg.
  wp_step. wp_step. destruct (isConnected _ r); [|by apply (safe_ret any)].
  cbn [negb]. wp_step. wp_step. destruct (isRegisteredGateway _ r); [|by apply (safe_ret any)].
  cbn [negb]. eapply (safe_bind any); [| |done|done].
  - apply (client_set_heap_update_safe g). intros gw'. split; [done|]. split; [done|]. split; [done|]. intros _.
    unfold u64_field; cbn. apply wrap_bound. lia.
  - intros []. unfold tryPerformOnSerialized. destruct (serialize _ _); [|by apply (safe_ret any)].
    apply quiet_event_safe. intros r1. apply client_wp_pipe_write. intros. by apply client_sent_more_quiet.
Qed.

Lemma client_subscribe_Done g h u r r' : Inv r -> gateway_subscribe pipe_send run_handler g h r = Done (u, r') -> Inv r'.
Proof. intros Hi E. exact (safe_Done _ _ _ _ _ (client_subscribe_safe g h) Hi (Done_live _ _ _ _ _ E) E). Qed.

Lemma client_complete_Done g oe k e r r' : Inv r -> gateway_complete pipe_send g oe k r = Done (e, r') -> Inv r'.
Proof. intros Hi E. exact (safe_Done _ _ _ _ _ (client_complete_safe g oe k) Hi (Done_live _ _ _ _ _ E) E). Qed.

Lemma client_send_Done g svc b e r r' : Inv r -> gateway_send pipe_send g svc b r = Done (e, r') -> Inv r'.
Proof. intros Hi E. exact (safe_Done _ _ _ _ _ (client_send_safe g svc b) Hi (Done_live _ _ _ _ _ E) E). Qed.
End operations.

(** *** Locking all the registered gateways *)

(** How many of these pointers are to [g]. *)
Fixpoint occ g (l : list GwId) : nat :=
  match l with
  | [] => O
  | g' :: l' => (if decide (g' = g) then 1 else 0) + occ g l'
  end.

Lemma occ_pos g l : g ∈ l -> (0 < occ g l)%nat.
Proof.
  induction l as [|g' l IH]; [by intros ?%not_elem_of_nil|]. cbn.
  intros [->|Hg]%elem_of_cons; [rewrite decide_True by done; lia|]. specialize (IH Hg). lia.
Qed.

Lemma wp_lock_all l r :
  Inv r -> Forall (fun x : Tag * GwId => is_Some (find_gw x.2 r)) l ->
  wp (lock_all l) (fun ptrs r' => ptrs = l.*2 /\ Inv r' /\ grows r r' /\
       hp_events (cr_heap r') = hp_events (cr_heap r) /\
       forall g, locks r' g = (locks r g + occ g ptrs)%nat) r.
Proof.
  revert r. induction l as [|x l IH]; intros r Hi Hl.
  { apply wp_ret. split; [done|]. split; [done|]. split; [done|]. split; [done|]. cbn. lia. }
  apply Forall_cons in Hl as [[gw Hx] Hl]. cbn. apply wp_bind. unfold wp at 1. rewrite (lock_live _ _ _ Hx).
  edestruct (set_refs_inv x.2 gw (gw_owners gw) (S (gw_locks gw)) r) as (Hi1 & Hg1 & Hl1 & Hl1'); [done|lia|done|].
  set (r1 := w_set_heap _ r) in *.
  change (locks r1 x.2 = S (gw_locks gw)) in Hl1.
  change (forall g', g' <> x.2 -> locks r1 g' = locks r g') in Hl1'.
  assert (locks r x.2 = gw_locks gw) as Hl0 by exact (find_locks (W := W) x.2 gw r Hx).
  apply wp_bind. eapply wp_mono.
  { apply IH; [done|]. eapply Forall_impl; [done|]. intros y [gy Hy].
    unfold r1, find_gw in *; cbn in *. destruct (decide (x.2 = y.2)) as [->|];
      [rewrite lookup_alter_eq|rewrite lookup_alter_ne by done]; rewrite Hy; by eexists. }
  intros ptrs r2 (-> & Hi2 & Hg2 & He2 & Hl2). apply wp_ret. split; [done|]. split; [done|].
  split; [by etrans|]. split; [by rewrite He2|]. intros g. cbn. rewrite Hl2.
  case_decide as E; [subst g|].
  - rewrite Hl1, Hl0. lia.
  - rewrite Hl1' by done. done.
Qed.

Lemma wp_unlock_all l (k : GwId -> nat) r :
  Inv r -> (forall g, locks r g = (k g + occ g l)%nat) ->
  wp (mfor l (fun g => unlock (dispose pipe_send) g))
     (fun _ r' => Inv r' /\ grows r r' /\ forall g, locks r' g = k g) r.
Proof.
  revert r. induction l as [|g l IH]; intros r Hi Hk.
  { apply wp_ret. split; [done|]. split; [done|]. intros g. rewrite Hk. cbn. lia. }
  cbn. apply wp_bind.
  apply (wp_unlock _ client_disposer g (k g + occ g l)%nat); [done|change (w_heap r) with (cr_heap r); rewrite Hk; cbn; rewrite decide_True by done; lia|].
  intros r1 Hi1 Hg1 [Hl1 Hl1']. eapply wp_mono; [apply IH; [done|]|].
  - intros g'. destruct (decide (g' = g)) as [->|Hne]; [done|]. etrans; [by apply Hl1'|].
    change (w_heap r) with (cr_heap r). rewrite Hk; cbn. by rewrite decide_False.
  - intros [] r2 (? & ? & ?). split; [done|]. split; [by etrans|done].
Qed.

Section handlers.
Context (Hhandlers : Handlers run_handler).

(** Locked gateways all receive the event. *)
Lemma wp_connected_all l r :
  Inv r -> Forall (fun g => 0 < locks r g)%nat l ->
  wp (mfor l (fun gateway => gateway_event run_handler gateway Connected;; mret tt))
     (fun _ r' => Inv r' /\ grows r r' /\ same_locks r r' /\
        exists added, hp_events (cr_heap r') = hp_events (cr_heap r) ++ added /\
          forall g, g ∈ l -> (g, Connected) ∈ added) r.
Proof.
  revert r. induction l as [|g l IH]; intros r Hi Hl.
  { apply wp_ret. split; [done|]. split; [done|]. split; [done|]. exists []. rewrite app_nil_r.
    split; [done|]. by intros g ?%not_elem_of_nil. }
  apply Forall_cons in Hl as [Hlg Hl]. cbn. do 2 apply wp_bind.
  destruct (locks_pos (W := W) g r) as (gw & Hgw & _); [done|].
  eapply wp_mono; [by apply (wp_gateway_event _ Hhandlers g Connected gw)|].
  intros e r1 (Hi1 & Hg1 & Hl1 & [k1 Hk1]). apply wp_ret. eapply wp_mono.
  { apply IH; [done|]. eapply Forall_impl; [done|]. intros g' Hg'. cbn in Hg' |- *. specialize (Hl1 g'). cbn in Hl1. lia. }
  intros [] r2 (Hi2 & Hg2 & Hl2 & k2 & Hk2 & Hin). split; [done|]. split; [by etrans|].
  split; [intros g'; by rewrite Hl2, Hl1|]. cbn in Hk1. exists (((g, Connected) :: k1) ++ k2).
  split; [rewrite Hk2, Hk1, <- !app_assoc; done|].
  intros g' [->|Hg']%elem_of_cons; [set_solver|]. apply elem_of_app. right. auto.
Qed.

Lemma registered_all_live r :
  Inv r -> gw_order (map_of_gateways_ r) ≡ₚ map_to_list (map_of_gateways_ r) ->
  Forall (fun x : Tag * GwId => is_Some (find_gw x.2 r)) (gw_order (map_of_gateways_ r)).
Proof.
  intros [_ Hr] Hord. rewrite Hord. apply Forall_forall. intros [tag g] Hx. apply elem_of_map_to_list in Hx.
  destruct (Hr (mkEndpoint tag) g) as (gw & Hgw & _); [done|]. eauto.
Qed.

Lemma wp_forEach_connected r :
  Inv r -> gw_order (map_of_gateways_ r) ≡ₚ map_to_list (map_of_gateways_ r) ->
  wp (forEachRegisteredGateway pipe_send gw_order
        (fun gateway => gateway_event run_handler gateway Connected;; mret tt))
     (fun _ r' => Inv r' /\ grows r r' /\ same_locks r r' /\
        exists added, hp_events (cr_heap r') = hp_events (cr_heap r) ++ added /\
          forall tag g, map_of_gateways_ r !! tag = Some g -> (g, Connected) ∈ added) r.
Proof.
  intros Hi Hord. pose proof (registered_all_live r Hi Hord) as Hlive.
  unfold forEachRegisteredGateway. do 2 wp_step. apply wp_bind.
  eapply wp_mono; [by apply wp_lock_all|]. intros ptrs r1 (-> & Hi1 & Hg1 & He1 & Hl1).
  apply wp_bind. eapply wp_mono.
  { apply wp_connected_all; [done|]. apply Forall_forall. intros g Hg. rewrite Hl1.
    pose proof (occ_pos _ _ Hg). lia. }
  intros [] r2 (Hi2 & Hg2 & Hl2 & added & Hadd & Hin). eapply wp_mono.
  { apply (wp_unlock_all _ (fun g => locks r g)); [done|]. intros g. etrans; [by apply Hl2|]. apply Hl1. }
  intros [] r3 (Hi3 & Hg3 & Hl3). split; [done|]. split; [etrans; [done|]; by etrans|]. split; [done|].
  destruct (grows_events _ _ Hg3) as [k Hk]. cbn in Hk. exists (added ++ k).
  split; [by rewrite Hk, Hadd, He1, app_assoc|]. intros tag g Hg. apply elem_of_app. left. apply Hin.
  apply list_elem_of_fmap. exists (tag, g). split; [done|]. rewrite Hord. by apply elem_of_map_to_list.
Qed.

Lemma set_connected_inv b r : Inv r -> Inv (set_connected b r) /\ same_locks r (set_connected b r).
Proof. intros [Hw Hr]. split; [split|]; [done| |done]. intros ep g Hg. by apply Hr. Qed.

(** *** Pipe events *)

Lemma drop_all_quiet r : quiet r (set_map (fun _ => ∅) (set_connected false r)).
Proof.
  split; cbn; [done| |done]. intros ep g. unfold lookup_gateway; cbn. by rewrite lookup_empty.
Qed.

Lemma client_handleRouteChannelMsg_safe tag seq sid size payload :
  payload_tail payload size <> Undef ->
  safe any (handleRouteChannelMsg pipe_send run_handler tag seq sid size payload).
Proof.
  intros Hd r Hi _. unfold handleRouteChannelMsg. destruct (payload_tail payload size) as [data|] eqn:E; [|done].
  apply wp_bind. eapply wp_ofOutcome; [done|]. wp_step. wp_step.
  destruct (lookup_gateway _ r) as [g|]; [|by apply (safe_ret any)].
  by apply with_locked_safe; [apply client_disposer|apply event_safe|apply safe_ret| |].
Qed.

Lemma client_handleRouteChannelEnd_safe tag k e :
  safe any (handleRouteChannelEnd pipe_send run_handler tag k e).
Proof.
  intros r Hi _. unfold handleRouteChannelEnd, findAndActOnRegisteredGateway. wp_steps.
  destruct (w_registered _ _) as [g|]; [|by apply (safe_ret any)].
  apply with_locked_safe; [apply client_disposer| |apply safe_ret|done|done].
  intros r1 Hi1 Hl1. apply wp_bind.
  assert (safe any (if k then mret tt else modify (erase_gateway (H := H) (Env := Env) (mkEndpoint tag)))) as Hs
    by (destruct k; [apply safe_ret|apply client_erase_safe]).
  eapply wp_mono; [by apply Hs|]. intros _ r2 (Hi2 & Hg2 & Hl2).
  eapply wp_mono; [apply event_safe; [done|done|by rewrite Hl2]|]. intros _ r3 (Hi3 & Hg3 & Hl3).
  split; [done|]. split; [by etrans|]. intros g'. by rewrite Hl3, Hl2.
Qed.

(** A registered gateway gets the message as its next event. *)
Lemma client_channel_msg_registered tag seq sid size payload data g r :
  Inv r -> payload_tail payload size = Done data -> lookup_gateway (mkEndpoint tag) r = Some g ->
  wp (handleRouteChannelMsg pipe_send run_handler tag seq sid size payload)
     (fun _ r' => Inv r' /\ grows r r' /\ same_locks r r' /\
        hp_events (cr_heap r) ++ [(g, Message seq data)] `prefix_of` hp_events (cr_heap r')) r.
Proof.
  intros Hi Hd Hg. unfold handleRouteChannelMsg. rewrite Hd.
  destruct (proj2 Hi (mkEndpoint tag) g Hg) as (gw & Hgw & _).
  apply wp_bind, (wp_ofOutcome _ data); [done|]. wp_step. wp_step. rewrite Hg.
  by apply (wp_locked_event _ client_disposer _ Hhandlers _ _ _ gw).
Qed.

(** A message whose announced size is not larger than what was received. *)
Definition event_fits (event : PipeEvent) : Prop :=
  match event with
  | PipeMessage payload =>
      forall tag seq sid size,
        tryDeserializePayload payload = Some (Route_channel_msg tag seq sid size) ->
        payload_tail payload size <> Undef
  | _ => True
  end.

Abbreviation handle := (handlePipeEvent VERSION_MAJOR VERSION_MINOR pipe_send run_handler gw_order).

(** Every pipe event, from every state. *)
Lemma handlePipeEvent_client_total event r :
  (forall m, gw_order m ≡ₚ map_to_list m) -> Inv r -> event_fits event ->
  wp (handle event)
     (fun _ r' => Inv r' /\ same_locks r r' /\
                  hp_events (cr_heap r) `prefix_of` hp_events (cr_heap r')) r.
Proof.
  intros Hord Hi Hf.
  assert (forall m : M W OptError, safe any m -> wp m (fun _ r' => Inv r' /\ same_locks r r' /\
            hp_events (cr_heap r) `prefix_of` hp_events (cr_heap r')) r) as Hsafe.
  { intros m Hm. eapply wp_mono; [by apply Hm|]. intros ? r' (? & [] & ?). done. }
  destruct event as [|payload|]; cbn [handlePipeEvent].
  - apply Hsafe, client_send_route_safe.
  - unfold handlePipeMessage. destruct (tryDeserializePayload payload) as [route|] eqn:E;
      [|by apply Hsafe, safe_ret].
    destruct route as [|major minor e|tag seq sid size|tag k e].
    + by apply Hsafe, safe_ret.
    + unfold handleRouteConnect. do 2 wp_step. destruct (is_connected_ r); [by apply Hsafe, safe_ret|].
      cbn [negb]. do 2 wp_step. destruct (set_connected_inv true r Hi) as [Hi1 Hl1].
      apply wp_bind. eapply wp_mono; [by apply wp_forEach_connected|].
      intros [] r2 (Hi2 & [] & Hl2 & _). apply wp_ret. split; [done|]. split; [|done].
      intros g. by rewrite Hl2, Hl1.
    + apply Hsafe, client_handleRouteChannelMsg_safe. by eapply Hf.
    + by apply Hsafe, client_handleRouteChannelEnd_safe.
  - apply Hsafe. intros r1 Hi1 _. unfold handlePipeDisconnected. do 2 wp_step.
    destruct (is_connected_ r1); [|by apply (safe_ret any)]. do 6 wp_step.
    destruct (quiet_safe _ _ (drop_all_quiet r1) Hi1) as (Hi2 & Hg2 & Hl2).
    eapply wp_mono; [eapply (safe_bind any); [apply mfor_safe; intros; by apply notify_completed_safe, Hhandlers; apply client_disposer
                                             |intros; apply safe_ret|exact Hi2|done]|].
    intros e r3 (Hi3 & Hg3 & Hl3). split; [done|]. split; [by etrans|]. intros g. by rewrite Hl3, Hl2.
Qed.

(** A message that does not fit is undefined behaviour, so events that were handled have kept
    the invariant. *)
Lemma client_handled_event_inv event r e r' :
  (forall m, gw_order m ≡ₚ map_to_list m) -> Inv r -> handle event r = Done (e, r') -> Inv r'.
Proof.
  intros Hord Hi E. assert (event_fits event -> Inv r') as Hfit.
  { intros Hf. exact (proj1 (wp_result _ _ _ _ _ (handlePipeEvent_client_total event r Hord Hi Hf) E)). }
  destruct event as [|payload|]; [by apply Hfit| |by apply Hfit].
  destruct (tryDeserializePayload payload) as [[|major minor err|tag seq sid size|tag k err]|] eqn:Hd.
  all: apply Hfit; intros tag' seq' sid' size' Hd'; rewrite Hd in Hd'; try done. injection Hd' as <- <- <- <-. intros Hu.
  cbn [handlePipeEvent] in E. unfold handlePipeMessage, handleRouteChannelMsg in E. rewrite Hd, Hu in E. done.
Qed.

(** C12: whatever the server sends, a pipe event is handled by the client router
    without undefined behaviour, provided that the payload size announced by a
    channel message fits in what was received: registered gateways stay alive,
    all strong pointers taken are returned, and events are only added. *)
Theorem client_pipe_event_safe event r :
  (forall m, gw_order m ≡ₚ map_to_list m) -> Inv r -> event_fits event ->
  wp (handle event)
     (fun _ r' => Inv r' /\ same_locks r r' /\
                  hp_events (cr_heap r) `prefix_of` hp_events (cr_heap r')) r.
Proof. apply handlePipeEvent_client_total. Qed.

(** The server's answer to the connection request is announced to every
    channel that waits for it: all gateways registered at that moment receive
    [Connected], even if the handlers of others drop them meanwhile. A repeated
    answer changes nothing. *)
Theorem client_connect_notifies_all r :
  (forall m, gw_order m ≡ₚ map_to_list m) -> Inv r ->
  (is_connected_ r = true -> handleRouteConnect pipe_send run_handler gw_order r = Done (None, r)) /\
  (is_connected_ r = false ->
     wp (handleRouteConnect pipe_send run_handler gw_order)
        (fun e r' => e = None /\ Inv r' /\
           exists added, hp_events (cr_heap r') = hp_events (cr_heap r) ++ added /\
             forall tag g, map_of_gateways_ r !! tag = Some g -> (g, Connected) ∈ added) r).
Proof.
  intros Hord Hi. unfold handleRouteConnect. split; intros Hc.
  - unfold mbind, M_bind, gets. by rewrite Hc.
  - do 2 wp_step. rewrite Hc. cbn [negb]. do 2 wp_step.
    destruct (set_connected_inv true r Hi) as [Hi1 Hl1].
    apply wp_bind. eapply wp_mono; [by apply wp_forEach_connected|].
    intros [] r2 (Hi2 & _ & _ & Hadd). by apply wp_ret.
Qed.

(** When the pipe is lost the client router is not connected any more, and
    every gateway that was registered is told ([Disconnected], not to be kept
    alive) unless it was destroyed before its turn came. A second loss changes
    nothing. *)
Theorem client_disconnect_notifies_all r :
  (forall m, gw_order m ≡ₚ map_to_list m) -> Inv r ->
  (is_connected_ r = false -> handlePipeDisconnected pipe_send run_handler gw_order r = Done (None, r)) /\
  (is_connected_ r = true ->
     wp (handlePipeDisconnected pipe_send run_handler gw_order)
        (fun e r' => e = None /\ Inv r' /\ is_connected_ r' = false /\
           exists added, hp_events (cr_heap r') = hp_events (cr_heap r) ++ added /\
             forall tag g, map_of_gateways_ r !! tag = Some g ->
               find_gw g r' = None \/ (g, Completed (Some (Err Code.Disconnected)) false) ∈ added) r).
Proof.
  intros Hord Hi. unfold handlePipeDisconnected. split; intros Hc.
  { unfold mbind, M_bind, gets. by rewrite Hc. }
  do 2 wp_step. rewrite Hc. do 6 wp_step.
  destruct (quiet_safe _ _ (drop_all_quiet r) Hi) as (Hi1 & _ & _).
  apply wp_bind. eapply wp_mono.
  - apply wp_notify_all; [apply client_disposer|apply Hhandlers|done|]. cbn.
    pose proof (registered_all_live r Hi (Hord _)) as Hlive. eapply Forall_impl; [done|].
    intros x [gw Hx]. by apply (proj1 Hi) in Hx as (_ & ? & _).
  - intros [] r' (Hi' & Hg' & _ & added & Hadd & Hdone). apply wp_ret. split; [done|]. split; [done|].
    split; [by apply (grows_later _ _ Hg')|]. exists added. split; [done|].
    intros tag g Hg. apply (Hdone (tag, g)). cbn. rewrite Hord. by apply elem_of_map_to_list.
Qed.
End handlers.

(** *** Sending *)

Definition sent_after (b : bytes) env r : W :=
  mkRouter (cr_heap r) (next_tag_ r) (is_connected_ r) (map_of_gateways_ r) (cr_sent r ++ [b]) env.

(** What a successful send does. *)
Lemma client_gateway_send_wire `{!CodecOk Route Route_wf} g gw svc buf r :
  Inv r -> find_gw g r = Some gw -> is_connected_ r = true ->
  isRegisteredGateway (gw_endpoint gw) r = true ->
  u64_field (ep_tag (gw_endpoint gw)) -> u64_field svc ->
  SocketBuffer.wf buf -> Z.of_nat (length (SocketBuffer.contents buf)) < 2 ^ 63 -> serializer_bounded ->
  exists sock_buff, let wire := SocketBuffer.contents sock_buff in
    let '(e, env) := pipe_send sock_buff (cr_env r) in
    gateway_send pipe_send g svc buf r =
      Done (e, sent_after wire env
                 (set_heap (heap_update g (gw_set_sequence (u64 (gw_next_sequence gw + 1)))) r)) /\
    tryDeserializePayload wire =
      Some (Route_channel_msg (ep_tag (gw_endpoint gw)) (gw_next_sequence gw) svc (SocketBuffer.size buf)) /\
    payload_tail wire (SocketBuffer.size buf) = Done (SocketBuffer.contents buf).
Proof.
  intros [Hw _] Hg Hc Hreg Htag Hsvc Hb Hlen Hser. unfold gateway_send, mbind, M_bind, gets. rewrite Hg.
  unfold isConnected. rewrite Hc. cbn [negb]. rewrite Hreg. cbn [negb].
  destruct (channel_msg_wire (ep_tag (gw_endpoint gw)) (gw_next_sequence gw) svc buf)
    as (bs & Hbs & Hwire & Htail); [done|by apply (Hw g)|done|done|done|done|].
  unfold tryPerformOnSerialized. rewrite Hbs. exists (SocketBuffer.prepend (span bs) buf). cbv zeta.
  unfold modify, pipe_write. cbn [cr_env set_heap]. by destruct (pipe_send _ _) as [e env].
Qed.

(** *** Making and using gateways *)

Lemma makeGateway_Done g r r' : Inv r -> makeGateway r = Done (g, r') -> Inv r'.
Proof.
  intros [Hw Hr] E. unfold makeGateway, mbind, M_bind, gets, modify, liftF in E. cbn in E. injection E as <- <-.
  pose proof (heap_fresh _ Hw) as Hf. cbn in Hf. set (g := hp_next (cr_heap r)) in *.
  assert (forall g' gw, alter (gw_set_refs 1 0) g (<[g := mkGateway (mkEndpoint (next_tag_ r)) 0 None None 0 1]> (hp_gateways (cr_heap r))) !! g' = Some gw <->
            (g' = g /\ gw = mkGateway (mkEndpoint (next_tag_ r)) 0 None None 1 0) \/
            (g' <> g /\ hp_gateways (cr_heap r) !! g' = Some gw)) as Hl.
  { intros g' gw. rewrite alter_insert_eq, lookup_insert_Some. naive_solver. }
  split.
  - intros g' gw. cbn. fold g. rewrite Hl. intros [[-> ->]|[Hne Hg]]; cbn.
    + split; [lia|]. split; [lia|]. unfold u64_field; lia.
    + destruct (Hw _ _ Hg) as (? & ? & ?). cbn in *. split; [done|]. split; [unfold g in *; lia|done].
  - intros ep g'. cbn. unfold lookup_gateway, find_gw; cbn. fold g. rewrite lookup_insert_Some. setoid_rewrite Hl.
    intros [[He <-]|[_ Hg]].
    + eexists. split; [by left|]. destruct ep; cbn in *; by subst.
    + destruct (Hr ep g' Hg) as (gw & Hgw & He). exists gw. split; [|done]. right. split; [|done].
      intros ->. unfold find_gw in Hgw. cbn in Hgw. congruence.
Qed.

(** Registered tags have been given out. *)
Definition tags_below r : Prop :=
  forall tag g, map_of_gateways_ r !! tag = Some g -> tag < next_tag_ r.

(** A new channel gets a gateway of its own under a tag that no registered
    gateway has; the others are not disturbed (until 2^64 channels were made). *)
Theorem client_makeGateway_fresh r :
  Inv r -> tags_below r -> 0 <= next_tag_ r < 2 ^ 64 - 1 ->
  exists r', makeGateway r = Done (hp_next (cr_heap r), r') /\ Inv r' /\ tags_below r' /\
    lookup_gateway (mkEndpoint (next_tag_ r)) r = None /\ find_gw (hp_next (cr_heap r)) r = None /\
    find_gw (hp_next (cr_heap r)) r' = Some (mkGateway (mkEndpoint (next_tag_ r)) 0 None None 1 0) /\
    map_of_gateways_ r' = <[next_tag_ r := hp_next (cr_heap r)]> (map_of_gateways_ r) /\
    forall g, g <> hp_next (cr_heap r) -> find_gw g r' = find_gw g r.
Proof.
  intros [Hw Hr] Ht Hn. pose proof (heap_fresh _ Hw) as Hf. cbn in Hf.
  assert (lookup_gateway (mkEndpoint (next_tag_ r)) r = None) as Hfresh.
  { unfold lookup_gateway; cbn. destruct (map_of_gateways_ r !! next_tag_ r) eqn:E; [|done]. apply Ht in E. lia. }
  unfold makeGateway, mbind, M_bind, gets, modify, liftF. cbn.
  eexists. split; [reflexivity|]. unfold find_gw, set_map, set_heap, heap_update; cbn.
  rewrite wrap_id by lia. rewrite alter_insert_eq, lookup_insert_eq.
  assert (forall g, g <> hp_next (cr_heap r) ->
    <[hp_next (cr_heap r):=gw_set_refs 1 0 (mkGateway (mkEndpoint (next_tag_ r)) 0 None None 0 1)]>
      (hp_gateways (cr_heap r)) !! g = hp_gateways (cr_heap r) !! g) as Hoth
    by (intros; by rewrite lookup_insert_ne).
  split; [split|split; [|split; [exact Hfresh|split; [exact Hf|split; [reflexivity|split; [reflexivity|exact Hoth]]]]]].
  - intros g gw. cbn. rewrite lookup_insert_Some. intros [[<- <-]|[_ Hg]]; cbn.
    + split; [lia|]. split; [lia|]. unfold u64_field; lia.
    + destruct (Hw _ _ Hg) as (? & ? & ?). cbn in *. split; [done|]. split; [lia|done].
  - intros ep g. cbn. unfold lookup_gateway, find_gw; cbn. rewrite lookup_insert_Some.
    intros [[He <-]|[_ Hg]].
    + rewrite lookup_insert_eq. eexists. split; [done|]. destruct ep; cbn in *; by subst.
    + destruct (Hr ep g Hg) as (gw & Hgw & He). exists gw. split; [|done].
      rewrite Hoth; [done|]. intros ->. unfold find_gw in Hgw. cbn in Hgw. congruence.
  - intros tag g. cbn. rewrite lookup_insert_Some. intros [[<- _]|[_ Hg]]; [lia|]. apply Ht in Hg. lia.
Qed.

(** The server never hears of a gateway that was not used. As long as no
    message was sent through it, completing it and destroying it send nothing;
    destroying it unregisters it all the same. *)
Theorem client_unused_gateway_silent g gw e k r :
  find_gw g r = Some gw -> gw_next_sequence gw = 0 ->
  (exists e' r', gateway_complete pipe_send g e k r = Done (e', r') /\ cr_sent r' = cr_sent r /\
                 cr_env r' = cr_env r) /\
  (gw_owners gw = 1%nat -> gw_locks gw = O ->
     exists r', disown (dispose pipe_send) g r = Done (tt, r') /\ cr_sent r' = cr_sent r /\
                cr_env r' = cr_env r /\ find_gw g r' = None /\ lookup_gateway (gw_endpoint gw) r' = None).
Proof.
  intros Hg Hs. split.
  - unfold gateway_complete, mbind, M_bind, gets. rewrite Hg.
    destruct (isConnected _ r); cbn [negb]; [|by do 2 eexists].
    destruct (isRegisteredGateway _ r); cbn [negb]; [|by do 2 eexists].
    rewrite Hs. cbn. by do 2 eexists.
  - intros Ho Hl. unfold disown, mbind, M_bind, gets. rewrite Hg, Ho.
    unfold drop_refs. rewrite Hl. rewrite decide_True by done.
    unfold destroy_gateway, dispose, onGatewayDisposal, mbind, M_bind, modify, gets. rewrite Hs.
    change (0 <? 0) with false. rewrite andb_false_r. cbn.
    eexists. split; [reflexivity|]. cbn. split; [done|]. split; [done|].
    unfold find_gw, lookup_gateway; cbn. by rewrite !lookup_delete_eq.
Qed.
End Facts.

(** ** A concrete router, for the witnesses *)
Module ClientExample.
Import WireExample.

Definition ex_handler (h : OptError) (e : GwEvent) : M (Router OptError unit) OptError := mret h.
Definition ex_pipe (b : SocketBuffer.t) (e : unit) : OptError * unit := (None, tt).
Definition ex_order (m : gmap Tag GwId) : list (Tag * GwId) := map_to_list m.

Lemma ex_handlers : Handlers ex_handler.
Proof. intros h e. apply (safe_ret (fun _ => True)). Qed.

Lemma ex_order_ok m : ex_order m ≡ₚ map_to_list m.
Proof. done. Qed.

Definition ex_gw : Gateway Endpoint OptError := mkGateway (mkEndpoint 3) 0 (Some None) None 1 0.

(** One channel, under tag 3; the next tag is 4. *)
Definition ex_router (connected : bool) : Router OptError unit :=
  mkRouter (mkHeap {[0%nat := ex_gw]} 1 []) 4 connected {[3 := 0%nat]} [] tt.

Lemma client_ex_router_inv c : Inv (ex_router c).
Proof.
  split.
  - intros g gw. cbn. rewrite lookup_singleton_Some. intros [<- <-]. cbn. unfold u64_field. lia.
  - intros ep g. cbn. unfold lookup_gateway; cbn. rewrite lookup_singleton_Some. intros [Ht <-].
    exists ex_gw. split; [done|]. destruct ep; cbn in *; by subst.
Qed.

Definition ex_msg : bytes := encode (Route_channel_msg 3 0 9 2) ++ [x0a; x0b].
End ClientExample.

Section witnesses.
Import WireExample ClientExample.

Lemma client_pipe_event_safe_witness :
  exists e r', handlePipeEvent 0 2 ex_pipe ex_handler ex_order (PipeMessage ex_msg) (ex_router true) = Done (e, r')
    /\ Inv r'.
Proof.
  assert (event_fits (PipeMessage ex_msg)) as Hf.
  { intros tag seq sid size Hd. assert (size = 2) as -> by (vm_compute in Hd; congruence).
    vm_compute. discriminate. }
  pose proof (client_pipe_event_safe 0 2 ex_pipe ex_handler ex_order ex_handlers (PipeMessage ex_msg)
                (ex_router true) ex_order_ok (client_ex_router_inv true) Hf) as Hw.
  apply wp_Done in Hw as (e & r' & Hrun & Hi & _). eauto.
Defined.

Lemma client_connect_notifies_all_witness :
  exists r', handleRouteConnect ex_pipe ex_handler ex_order (ex_router false) = Done (None, r') /\
    (0%nat, Connected) ∈ hp_events (cr_heap r').
Proof.
  destruct (client_connect_notifies_all ex_pipe ex_handler ex_order ex_handlers (ex_router false)
              ex_order_ok (client_ex_router_inv false)) as [_ Hw].
  specialize (Hw eq_refl). apply wp_Done in Hw as (e & r' & Hrun & -> & _ & added & He & Hin).
  exists r'. split; [exact Hrun|]. rewrite He. apply elem_of_app. right. by apply (Hin 3).
Defined.

Lemma client_disconnect_notifies_all_witness :
  exists r', handlePipeDisconnected ex_pipe ex_handler ex_order (ex_router true) = Done (None, r') /\
    is_connected_ r' = false.
Proof.
  destruct (client_disconnect_notifies_all ex_pipe ex_handler ex_order ex_handlers (ex_router true)
              ex_order_ok (client_ex_router_inv true)) as [_ Hw].
  specialize (Hw eq_refl). apply wp_Done in Hw as (e & r' & Hrun & -> & _ & Hc & _). eauto.
Defined.

Lemma client_makeGateway_fresh_witness :
  exists r', makeGateway (ex_router true) = Done (1%nat, r') /\ map_of_gateways_ r' !! 4 = Some 1%nat.
Proof.
  assert (tags_below (ex_router true)) as Ht.
  { intros tag g. cbn. rewrite lookup_singleton_Some. intros [<- _]. lia. }
  destruct (client_makeGateway_fresh (ex_router true) (client_ex_router_inv true) Ht) as (r' & Hr & _ & _ & _ & _ & _ & Hm & _);
    [cbn; lia|]. exists r'. split; [exact Hr|]. rewrite Hm. reflexivity.
Defined.

Lemma client_unused_gateway_silent_witness :
  exists e' r', gateway_complete ex_pipe 0%nat (Some (Err Code.Canceled)) false (ex_router true) = Done (e', r') /\
    cr_sent r' = [].
Proof.
  destruct (client_unused_gateway_silent ex_pipe 0%nat ex_gw (Some (Err Code.Canceled)) false (ex_router true)
              eq_refl eq_refl) as [(e' & r' & Hr & Hs & _) _]. eauto.
Defined.
End witnesses.
