(* ===== verification/IpcEndToEnd.v ===== *)
(** * Both routers together

    What one router hands to its pipe is what the other router dispatches: the
    first message of a channel opens it on the server, and a message of the
    server reaches the channel of the client. *)
From S2P Require Import Prelude Errors SocketBuffer Gateway GatewayFacts WireExample.
From S2P Require Import ServerRouter ServerRouterFacts ClientRouter ClientRouterFacts.

Local Open Scope Z_scope.

Section EndToEnd.
Context {SH F SEnv CH CEnv : Type} `{RouteCodec : Codec Route} `{!CodecOk Route Route_wf}.
Context (VERSION_MAJOR VERSION_MINOR : Z).
Context (sv_send : Z -> SocketBuffer.t -> SEnv -> OptError * SEnv).
Context (sv_handler : SH -> GwEvent -> M (Server.Router SH F SEnv) OptError).
Context (sv_factory : F -> GwId -> bytes -> M (Server.Router SH F SEnv) unit).
Context (sv_order : gmap Z GwId -> list (Z * GwId)).
Context (cl_send : SocketBuffer.t -> CEnv -> OptError * CEnv).
Context (cl_handler : CH -> GwEvent -> M (Client.Router CH CEnv) OptError).
Context (cl_order : gmap Z GwId -> list (Z * GwId)).

Abbreviation server_event := (Server.handlePipeEvent VERSION_MAJOR VERSION_MINOR sv_send sv_handler sv_factory sv_order).
Abbreviation client_event := (Client.handlePipeEvent VERSION_MAJOR VERSION_MINOR cl_send cl_handler cl_order).

(** A caller's buffer. *)
Definition sendable_buffer (buf : SocketBuffer.t) : Prop :=
  SocketBuffer.wf buf /\ Z.of_nat (length (SocketBuffer.contents buf)) < 2 ^ 63.

(** Opening a channel. The first message that a connected client sends
    through a gateway produces one buffer on the pipe; when the server receives
    it from a client that is connected and does not use that tag yet, it runs
    the factory of the service on the client's bytes and on a new gateway
    registered for that client and tag. *)
Lemma first_message_opens_channel g gw svc buf f client_id
    (rc : Client.Router CH CEnv) (rs : Server.Router SH F SEnv) :
  Inv rc -> find_gw g rc = Some gw -> gw_next_sequence gw = 0 -> Client.is_connected_ rc = true ->
  Client.isRegisteredGateway (gw_endpoint gw) rc = true ->
  u64_field (Client.ep_tag (gw_endpoint gw)) -> u64_field svc -> sendable_buffer buf -> serializer_bounded ->
  let tag := Client.ep_tag (gw_endpoint gw) in
  is_Some (Server.client_id_to_map_of_gateways_ rs !! client_id) ->
  Server.lookup_gateway (Server.mkEndpoint tag client_id) rs = None ->
  Server.service_id_to_channel_factory_ rs !! svc = Some f ->
  exists wire e rc',
    Client.gateway_send cl_send g svc buf rc = Done (e, rc') /\
    Client.cr_sent rc' = Client.cr_sent rc ++ [wire] /\
    server_event (Server.PipeMessage client_id wire) rs =
      (sv_factory f (hp_next (Server.sr_heap rs)) (SocketBuffer.contents buf);;
       unlock (Server.dispose sv_send) (hp_next (Server.sr_heap rs));;
       unlock (Server.dispose sv_send) (hp_next (Server.sr_heap rs));; mret None) (opened client_id tag rs).
Proof.
  intros Hi Hg Hs Hc Hreg Htag Hsvc [Hb Hlen] Hser tag Hcl Hno Hf.
  destruct (ClientRouterFacts.client_gateway_send_wire cl_send g gw svc buf rc) as (sb & Hrun); try done.
  destruct (cl_send sb (Client.cr_env rc)) as [e env]. destruct Hrun as (Hrun & Hwire & Htail).
  exists (SocketBuffer.contents sb), e. eexists. split; [exact Hrun|]. split; [done|].
  cbn [Server.handlePipeEvent]. unfold Server.handlePipeMessage. rewrite Hwire, Hs.
  rewrite (channel_msg_opens _ _ _ _ _ _ _ _ (SocketBuffer.contents buf) f); [|done|done|done|done].
  apply open_channel_eq.
Qed.

(** Answering. A message that the server sends through the gateway of a
    channel produces one buffer for that client; when the client receives it
    and still has a gateway registered under the tag, that gateway gets the
    server's bytes as its next event, with the server's sequence number. *)
Lemma server_message_reaches_channel g gw svc buf cg
    (rc : Client.Router CH CEnv) (rs : Server.Router SH F SEnv) :
  Handlers cl_handler -> Inv rs -> find_gw g rs = Some gw ->
  Server.isRegisteredGateway (gw_endpoint gw) rs = true ->
  u64_field (Server.ep_tag (gw_endpoint gw)) -> u64_field svc -> sendable_buffer buf -> serializer_bounded ->
  Inv rc -> Client.lookup_gateway (Client.mkEndpoint (Server.ep_tag (gw_endpoint gw))) rc = Some cg ->
  exists wire e rs',
    Server.gateway_send sv_send g svc buf rs = Done (e, rs') /\
    Server.sr_sent rs' = Server.sr_sent rs ++ [(Server.ep_client_id (gw_endpoint gw), wire)] /\
    wp (client_event (Client.PipeMessage wire))
       (fun _ rc' => Inv rc' /\
          hp_events (Client.cr_heap rc) ++ [(cg, Message (gw_next_sequence gw) (SocketBuffer.contents buf))]
            `prefix_of` hp_events (Client.cr_heap rc')) rc.
Proof.
  intros Hh Hi Hg Hreg Htag Hsvc [Hb Hlen] Hser Hic Hcg.
  destruct (ServerRouterFacts.gateway_send_wire sv_send g gw svc buf rs) as (sb & Hrun); try done.
  cbv zeta in Hrun. destruct (sv_send (Server.ep_client_id (gw_endpoint gw)) sb (Server.sr_env rs)) as [e env]. destruct Hrun as (Hrun & Hwire & Htail).
  exists (SocketBuffer.contents sb), e. eexists. split; [exact Hrun|]. split; [done|].
  cbn [Client.handlePipeEvent]. unfold Client.handlePipeMessage. rewrite Hwire.
  eapply wp_mono; [by eapply ClientRouterFacts.client_channel_msg_registered|].
  by intros ? ? (? & _ & _ & ?).
Qed.
End EndToEnd.
