(* ===== verification/Channel.v ===== *)
(** * Typed channels

    Models [src/common/ipc/channel.hpp]: a channel sends values of its output
    type and passes values of its input type to a handler; and
    [ClientRouter::makeChannel]. Below a channel is the gateway interface
    ([GatewayI]), which both routers implement. The end-to-end theorems join a
    channel of a client and the service at the server. *)
From S2P Require Import Prelude Errors SocketBuffer Gateway GatewayFacts WireExample.
From S2P Require Import ServerRouter ServerRouterFacts ClientRouter ClientRouterFacts IpcEndToEnd.

Local Open Scope Z_scope.

(** [detail::ServiceDesc] *)
Record ServiceDesc := mkServiceDesc { sd_id : Z; sd_name : bytes }.

(** [AnyChannel::getServiceDesc]; [crc64] is libcyphal's checksum and
    [FullNameAndVersion] the name of the generated message type. *)
Definition getServiceDesc (crc64 : bytes -> Z) (FullNameAndVersion service_name : bytes) : ServiceDesc :=
  let srv_or_msg_name := if negb (bool_decide (service_name = [])) then service_name else FullNameAndVersion in
  mkServiceDesc (crc64 srv_or_msg_name) srv_or_msg_name.

(** [Channel::EventVar] *)
Inductive ChannelEvent (Input : Type) : Type :=
| ChConnected
| ChInput (input : Input)
| ChCompleted (opt_error : OptError) (keep_alive : bool).
Arguments ChConnected {Input}.
Arguments ChInput {Input} input.
Arguments ChCompleted {Input} opt_error keep_alive.

Record Channel := mkChannel { gateway_ : GwId; service_id_ : Z }.

(** The handler of a gateway that a channel subscribed. *)
Record Adapter (CH : Type) := mkAdapter { ch_event_handler : CH }.
Arguments mkAdapter {CH} ch_event_handler.
Arguments ch_event_handler {CH} a.

Section Channel.
Context {W CH Input Output : Type} `{InCodec : Codec Input} `{OutCodec : Codec Output}.
(** Handlers are values of [CH]; this runs one on an event and the raw payload. *)
Context (run_ch : CH -> ChannelEvent Input -> bytes -> M W unit).

Section gateway.
Context `{GatewayI W (Adapter CH)}.

(** [Channel::send(output, sock_buff)]: what follows the message is in [sock_buff]. *)
Definition channel_send_with (ch : Channel) (output : Output) (sock_buff : SocketBuffer.t) : M W OptError :=
  tryPerformOnSerialized output SerializationBufferSizeBytes
    (fun payload => gwi_send (gateway_ ch) (service_id_ ch) (SocketBuffer.prepend payload sock_buff)).

(** [Channel::send(output)] *)
Definition channel_send (ch : Channel) (output : Output) : M W OptError :=
  channel_send_with ch output SocketBuffer.empty.

(** [Channel::complete] *)
Definition channel_complete (ch : Channel) (opt_error : OptError) (keep_alive : bool) : M W OptError :=
  gwi_complete (gateway_ ch) opt_error keep_alive.

(** [Channel::subscribe] *)
Definition channel_subscribe (ch : Channel) (event_handler : option CH) : M W unit :=
  match event_handler with
  | Some event_handler => gwi_subscribe (gateway_ ch) (Some (mkAdapter event_handler))
  | None => gwi_subscribe (gateway_ ch) None
  end.
End gateway.

(** [Channel::Adapter::operator()] *)
Definition run_adapter (adapter : Adapter CH) (event : GwEvent) : M W OptError :=
  match event with
  | Connected => run_ch (ch_event_handler adapter) ChConnected [];; mret None
  | Message _ payload =>
      match tryDeserializePayload payload with
      | Some input => run_ch (ch_event_handler adapter) (ChInput input) payload;; mret None
      | None => mret (Some (Err Code.InvalidArgument))
      end
  | Completed opt_error keep_alive =>
      run_ch (ch_event_handler adapter) (ChCompleted opt_error keep_alive) [];; mret None
  end.
End Channel.

(** Both routers offer gateways. *)
#[export] Instance client_gateways {H Env} `{Codec Route} (pipe_send : SocketBuffer.t -> Env -> OptError * Env)
    (run_handler : H -> GwEvent -> M (Client.Router H Env) OptError) : GatewayI (Client.Router H Env) H := {
  gwi_send := Client.gateway_send pipe_send;
  gwi_complete := Client.gateway_complete pipe_send;
  gwi_subscribe := Client.gateway_subscribe pipe_send run_handler;
}.
#[export] Instance server_gateways {H F Env} `{Codec Route}
    (pipe_send : Z -> SocketBuffer.t -> Env -> OptError * Env)
    (run_handler : H -> GwEvent -> M (Server.Router H F Env) OptError) : GatewayI (Server.Router H F Env) H := {
  gwi_send := Server.gateway_send pipe_send;
  gwi_complete := Server.gateway_complete pipe_send;
  gwi_subscribe := Server.gateway_subscribe pipe_send run_handler;
}.

(** [ClientRouter::makeChannel] *)
Definition makeChannel {H Env} (crc64 : bytes -> Z) (FullNameAndVersion service_name : bytes)
    : M (Client.Router H Env) Channel :=
  let svc_desc := getServiceDesc crc64 FullNameAndVersion service_name in
  gateway ← Client.makeGateway;
  mret (mkChannel gateway (sd_id svc_desc)).

(** ** Facts *)

(** What a channel hands to its gateway is the message followed by the caller's
    bytes, and the reader of those bytes finds the message in front. *)
Lemma channel_send_with_eq {W CH Output} `{Codec Output} {valid : Output -> Prop} `{!CodecOk Output valid}
    `{GatewayI W (Adapter CH)} ch (output : Output) sock_buff :
  valid output -> SocketBuffer.wf sock_buff -> exists buf,
    channel_send_with (CH := CH) ch output sock_buff = gwi_send (gateway_ ch) (service_id_ ch) buf /\
    SocketBuffer.wf buf /\ tryDeserializePayload (SocketBuffer.contents buf) = Some output /\
    exists bs, serialize output SerializationBufferSizeBytes = Some bs /\
               SocketBuffer.contents buf = bs ++ SocketBuffer.contents sock_buff.
Proof.
  intros Hv Hw. destruct (serialize_total output Hv) as (bs & Hbs & _).
  exists (SocketBuffer.prepend (span bs) sock_buff). unfold channel_send_with, tryPerformOnSerialized.
  rewrite Hbs, SocketBuffer.contents_prepend, SocketBuffer.payload_data_span.
  split; [done|]. split; [by apply SocketBuffer.wf_prepend|]. split; [|eauto].
  by apply (deserialize_serialize output bs).
Qed.

(** What a handler of a channel sees of a message is the value that was sent. *)
Lemma run_adapter_message {W CH Input} `{Codec Input} (run_ch : CH -> ChannelEvent Input -> bytes -> M W unit)
    a seq payload input :
  tryDeserializePayload payload = Some input ->
  run_adapter run_ch a (Message seq payload) =
  (run_ch (ch_event_handler a) (ChInput input) payload;; mret None).
Proof. intros E. cbn. by rewrite E. Qed.

(** A message and the caller's bytes fit in the 64-bit sizes of buffers. *)
Definition sendable {T} `{Codec T} (m : T) (sock_buff : SocketBuffer.t) : Prop :=
  SocketBuffer.wf sock_buff /\ forall bs, serialize m SerializationBufferSizeBytes = Some bs ->
    Z.of_nat (length (bs ++ SocketBuffer.contents sock_buff)) < 2 ^ 63.

Section EndToEnd.
Context {SH F SEnv CH CEnv Req Res : Type} `{RouteCodec : Codec Route} `{!CodecOk Route Route_wf}.
Context `{ReqCodec : Codec Req} {valid_req : Req -> Prop} `{!CodecOk Req valid_req}.
Context `{ResCodec : Codec Res} {valid_res : Res -> Prop} `{!CodecOk Res valid_res}.
Context (Hser : serializer_bounded).
Context (VERSION_MAJOR VERSION_MINOR : Z).
Abbreviation SW := (Server.Router (Adapter SH) F SEnv).
Abbreviation CW := (Client.Router (Adapter CH) CEnv).
Context (sv_send : Z -> SocketBuffer.t -> SEnv -> OptError * SEnv).
Context (sv_handler : Adapter SH -> GwEvent -> M SW OptError).
Context (sv_factory : F -> GwId -> bytes -> M SW unit).
Context (sv_order : gmap Z GwId -> list (Z * GwId)).
Context (cl_send : SocketBuffer.t -> CEnv -> OptError * CEnv).
Context (run_ch : CH -> ChannelEvent Res -> bytes -> M CW unit).
Context (cl_order : gmap Z GwId -> list (Z * GwId)).

Abbreviation cl_handler := (run_adapter run_ch).
Abbreviation server_event := (Server.handlePipeEvent VERSION_MAJOR VERSION_MINOR sv_send sv_handler sv_factory sv_order).
Abbreviation client_event := (Client.handlePipeEvent VERSION_MAJOR VERSION_MINOR cl_send cl_handler cl_order).
#[local] Instance cl_gateways : GatewayI CW (Adapter CH) := client_gateways cl_send cl_handler.
#[local] Instance sv_gateways : GatewayI SW (Adapter SH) := server_gateways sv_send sv_handler.

(** A request reaches its service. The first message that a connected client
    sends on a channel makes one buffer on the pipe; when the server receives
    it (from a client that is connected and does not use that tag yet, for a
    service that is registered), it calls the handler of the service, once, with
    exactly the value that the client sent, and with a new channel that is
    registered for that client and tag. *)
Theorem request_reaches_service ch gw (req : Req) sock_buff f client_id
    (new_ch_handler : GwId -> Z -> Req -> M SW unit) (rc : CW) (rs : SW) :
  Inv rc -> find_gw (gateway_ ch) rc = Some gw -> gw_next_sequence gw = 0 -> Client.is_connected_ rc = true ->
  Client.isRegisteredGateway (gw_endpoint gw) rc = true ->
  let tag := Client.ep_tag (gw_endpoint gw) in
  u64_field tag -> u64_field (service_id_ ch) -> valid_req req -> sendable req sock_buff ->
  is_Some (Server.client_id_to_map_of_gateways_ rs !! client_id) ->
  Server.lookup_gateway (Server.mkEndpoint tag client_id) rs = None ->
  Server.service_id_to_channel_factory_ rs !! service_id_ ch = Some f ->
  (forall g payload, sv_factory f g payload = Server.channel_factory (service_id_ ch) new_ch_handler g payload) ->
  let g := hp_next (Server.sr_heap rs) in
  exists wire e rc',
    channel_send_with (CH := CH) ch req sock_buff rc = Done (e, rc') /\
    Client.cr_sent rc' = Client.cr_sent rc ++ [wire] /\
    server_event (Server.PipeMessage client_id wire) rs =
      ((own g;; new_ch_handler g (service_id_ ch) req);;
       unlock (Server.dispose sv_send) g;; unlock (Server.dispose sv_send) g;; mret None)
      (opened client_id tag rs).
Proof.
  intros Hi Hg Hseq Hc Hreg tag Htag Hsvc Hv [Hw Hlen] Hcl Hno Hf Hfac g.
  destruct (channel_send_with_eq (CH := CH) ch req sock_buff Hv Hw)
    as (buf & Hsend & Hwb & Hparse & bs & Hbs & Hcont).
  destruct (first_message_opens_channel VERSION_MAJOR VERSION_MINOR sv_send sv_handler sv_factory sv_order cl_send
              (gateway_ ch) gw (service_id_ ch) buf f client_id rc rs)
    as (wire & e & rc' & Hrun & Hsent & Hev); try done.
  { split; [done|]. rewrite Hcont. by apply Hlen. }
  exists wire, e, rc'. rewrite Hsend. split; [exact Hrun|]. split; [exact Hsent|].
  rewrite Hev, Hfac. unfold Server.channel_factory. by rewrite Hparse.
Qed.

(** An answer reaches the handler of its channel. A value that the server
    sends on a channel makes one buffer for that client; when the client
    receives it, and has a channel under that tag, the next event of that channel's
    gateway is a message which runs the channel's handler on exactly that
    value, whatever raw bytes follow it. *)
Theorem answer_reaches_handler ch gw (res : Res) sock_buff cg (rc : CW) (rs : SW) :
  Handlers cl_handler -> Inv rs -> find_gw (gateway_ ch) rs = Some gw ->
  Server.isRegisteredGateway (gw_endpoint gw) rs = true ->
  u64_field (Server.ep_tag (gw_endpoint gw)) -> u64_field (service_id_ ch) ->
  valid_res res -> sendable res sock_buff ->
  Inv rc -> Client.lookup_gateway (Client.mkEndpoint (Server.ep_tag (gw_endpoint gw))) rc = Some cg ->
  exists wire e rs' seq payload,
    channel_send_with (CH := SH) ch res sock_buff rs = Done (e, rs') /\
    Server.sr_sent rs' = Server.sr_sent rs ++ [(Server.ep_client_id (gw_endpoint gw), wire)] /\
    wp (client_event (Client.PipeMessage wire))
       (fun _ rc' => Inv rc' /\
          hp_events (Client.cr_heap rc) ++ [(cg, Message seq payload)] `prefix_of` hp_events (Client.cr_heap rc')) rc /\
    (exists bs, payload = bs ++ SocketBuffer.contents sock_buff) /\
    forall a, cl_handler a (Message seq payload) =
              (run_ch (ch_event_handler a) (ChInput res) payload;; mret None).
Proof.
  intros Hh Hi Hg Hreg Htag Hsvc Hv [Hw Hlen] Hic Hcg.
  destruct (channel_send_with_eq (CH := SH) ch res sock_buff Hv Hw)
    as (buf & Hsend & Hwb & Hparse & bs & Hbs & Hcont).
  destruct (server_message_reaches_channel VERSION_MAJOR VERSION_MINOR sv_send cl_send cl_handler cl_order
              (gateway_ ch) gw (service_id_ ch) buf cg rc rs)
    as (wire & e & rs' & Hrun & Hsent & Hwp); try done.
  { split; [done|]. rewrite Hcont. by apply Hlen. }
  exists wire, e, rs', (gw_next_sequence gw), (SocketBuffer.contents buf). rewrite Hsend.
  split; [exact Hrun|]. split; [exact Hsent|]. split; [exact Hwp|]. split; [by exists bs|].
  intros a. by apply run_adapter_message.
Qed.
End EndToEnd.

(** ** A concrete client and service, for the witnesses *)
Module ChannelExample.
Import WireExample.

(** Messages of 8 bytes. *)
Record Num := mkNum { num : Z }.
Definition num_valid (n : Num) : Prop := 0 <= num n < 2 ^ 64.
#[global] Instance num_codec : Codec Num := {
  serialize n _ := Some (le_bytes 8 (num n));
  deserialize bs := fst <$> (prod_map mkNum id <$> le_take 8 bs);
  SerializationBufferSizeBytes := 8;
}.
#[global] Instance num_codec_ok : CodecOk Num num_valid.
Proof.
  split; [by eexists|]. intros [n] bs rest Hv E.
  apply (inj Some) in E. subst bs. 
  pose proof (le_take_app 8 n 64 rest eq_refl Hv) as E.
  exact (f_equal (fun o => fst <$> (prod_map mkNum id <$> o)) E).
Qed.

Lemma num_sendable n b : SocketBuffer.wf b -> Z.of_nat (length (SocketBuffer.contents b)) < 2 ^ 62 -> sendable (mkNum n) b.
Proof.
  intros Hw Hl. split; [done|]. intros bs E. assert (bs = le_bytes 8 n) as -> by (by apply (inj Some) in E).
  rewrite length_app, length_le_bytes. lia.
Qed.

Abbreviation CW := (Client.Router (Adapter unit) unit).
Abbreviation SW := (Server.Router (Adapter unit) unit unit).
Definition ex_run (h : unit) (e : ChannelEvent Num) (payload : bytes) : M CW unit := mret tt.
Definition ex_server_handler (a : Adapter unit) (e : GwEvent) : M SW OptError := mret None.
Definition ex_new_channel (g : GwId) (svc : Z) (req : Num) : M SW unit := mret tt.
Definition ex_factory (f : unit) (g : GwId) (payload : bytes) : M SW unit :=
  Server.channel_factory 9 ex_new_channel g payload.

(** Channel 0 has tag 3 on both sides. *)
Definition ex_client_gw : Gateway Client.Endpoint (Adapter unit) :=
  mkGateway (Client.mkEndpoint 3) 0 (Some (mkAdapter tt)) None 1 0.
Definition ex_client : CW := Client.mkRouter (mkHeap {[0%nat := ex_client_gw]} 1 []) 4 true {[3 := 0%nat]} [] tt.
Definition ex_server_gw : Gateway Server.Endpoint (Adapter unit) := mkGateway (Server.mkEndpoint 3 7) 5 None None 1 0.
Definition ex_server : SW := Server.mkRouter (mkHeap {[0%nat := ex_server_gw]} 1 []) {[7 := {[3 := 0%nat]}]} {[9 := tt]} [] tt.
Definition ex_server_idle : SW := Server.mkRouter (mkHeap ∅ 0 []) {[7 := ∅]} {[9 := tt]} [] tt.

Lemma channel_client_inv : Inv ex_client.
Proof.
  split.
  - intros g gw. cbn. rewrite lookup_singleton_Some. intros [<- <-]. cbn. unfold u64_field. lia.
  - intros ep g. cbn. unfold Client.lookup_gateway; cbn. rewrite lookup_singleton_Some. intros [Ht <-].
    exists ex_client_gw. split; [done|]. destruct ep; cbn in *; by subst.
Qed.

Lemma channel_server_inv : Inv ex_server.
Proof.
  split.
  - intros g gw. cbn. rewrite lookup_singleton_Some. intros [<- <-]. cbn. unfold u64_field. lia.
  - intros ep g. cbn. unfold Server.lookup_gateway. rewrite bind_Some. intros (m & Hm & Hg). revert Hm Hg. cbn.
    rewrite lookup_singleton_Some. intros [Hcl <-].
    rewrite lookup_singleton_Some. intros [Ht <-]. exists ex_server_gw. split; [done|].
    destruct ep; cbn in *; by subst.
Qed.

Lemma channel_handlers : Handlers (run_adapter ex_run).
Proof.
  intros a e. unfold run_adapter. destruct e as [|seq payload|e k]; try apply (safe_ret (fun _ => True)).
  destruct (tryDeserializePayload payload); apply (safe_ret (fun _ => True)).
Qed.
End ChannelExample.

Section witnesses.
Import WireExample ChannelExample.

Lemma request_reaches_service_witness : exists wire e rc',
  channel_send_with (H := client_gateways ClientExample.ex_pipe (run_adapter ex_run))
    (mkChannel 0 9) (mkNum 42) SocketBuffer.empty ex_client = Done (e, rc') /\
  Client.cr_sent rc' = [] ++ [wire].
Proof.
  destruct (request_reaches_service Route_codec_bounded 0 2 ServerExample.ex_pipe ex_server_handler ex_factory
    map_to_list ClientExample.ex_pipe ex_run (mkChannel 0 9) ex_client_gw (mkNum 42) SocketBuffer.empty tt 7
    ex_new_channel ex_client ex_server_idle)
    as (wire & e & rc' & Hrun & Hsent & _);
    [exact channel_client_inv|reflexivity|reflexivity|reflexivity|reflexivity|split; cbn; lia|split; cbn; lia
    |split; cbn; lia|apply num_sendable; [apply SocketBuffer.wf_empty|cbn; lia]|by eexists|reflexivity|reflexivity
    |reflexivity|].
  exists wire, e, rc'. split; [exact Hrun|exact Hsent].
Defined.

Lemma answer_reaches_handler_witness : exists wire e rs',
  channel_send_with (H := server_gateways ServerExample.ex_pipe ex_server_handler)
    (mkChannel 0 9) (mkNum 42) SocketBuffer.empty ex_server = Done (e, rs') /\
  Server.sr_sent rs' = [] ++ [(7, wire)].
Proof.
  destruct (answer_reaches_handler Route_codec_bounded 0 2 ServerExample.ex_pipe ex_server_handler
    ClientExample.ex_pipe ex_run map_to_list (mkChannel 0 9) ex_server_gw (mkNum 42) SocketBuffer.empty 0%nat
    ex_client ex_server)
    as (wire & e & rs' & seq & payload & Hrun & Hsent & _);
    [exact channel_handlers|exact channel_server_inv|reflexivity|reflexivity|split; cbn; lia|split; cbn; lia
    |split; cbn; lia|apply num_sendable; [apply SocketBuffer.wf_empty|cbn; lia]
    |exact channel_client_inv|reflexivity|].
  exists wire, e, rs'. split; [exact Hrun|exact Hsent].
Defined.
End witnesses.
