(* ===== verification/PipeBase.v ===== *)
(** * What the two ends of the socket pipe share

    [SocketServer] and [SocketClient] are parts of a bigger world ([Has]): their
    event handler is an arbitrary computation on that world, so it may call back
    into [send], as the routers do. Here are the operations with which both are
    written (updates of the part, system calls, calls of [event_handler_]) and their
    rules, against the interface [PipeState]. *)
From S2P Require Import Prelude Errors Posix.

(** A world with a part of type [S]. *)
Class Has (S W : Type) := {
  get_part : W -> S;
  put_part : S -> W -> W;
}.
Class HasOk (S W : Type) `{Has S W} : Prop := {
  get_put : forall s w, get_part (put_part s w) = s;
}.

(** An end of a pipe, with events of type [Ev]: its kernel, whether
    [event_handler_] is set, the events that were passed to it, and what others
    may do to this part of the world ([keeps]: send, and no more). *)
Class PipeState (S Ev : Type) := {
  pipe_kernel : S -> Kernel;
  pipe_set_kernel : Kernel -> S -> S;
  pipe_handler_set : S -> bool;
  pipe_log : S -> list Ev;
  pipe_log_event : Ev -> S -> S;
  keeps : S -> S -> Prop;
}.
Class PipeStateOk (S Ev : Type) `{PipeState S Ev} : Prop := {
  keeps_preorder :: PreOrder keeps;
  keeps_set_kernel : forall k s, keeps s (pipe_set_kernel k s);
  keeps_pipe_log : forall s s', keeps s s' -> pipe_log s' = pipe_log s;
  pipe_log_log_event : forall ev s, pipe_log (pipe_log_event ev s) = pipe_log s ++ [ev];
}.

Section operations.
Context {S Ev W : Type} `{PipeState S Ev} `{Has S W}.
Context (event_handler : Ev -> M W OptError).

Definition upd (f : S -> S) : M W unit := modify (fun w => put_part (f (get_part w)) w).

(** A system call. *)
Definition sys {A} (f : Kernel -> A * Kernel) : M W A :=
  k ← gets (fun w => pipe_kernel (get_part w));
  upd (pipe_set_kernel (f k).2);;
  mret (f k).1.

Definition close_fd (fd : Z) : M W unit := sys (fun k => (tt, OwnedFd_drop fd k)).

(** [event_handler_(event)]: calling an empty [std::function] throws. *)
Definition emit (ev : Ev) : M W OptError :=
  s ← gets get_part;
  if pipe_handler_set s then upd (pipe_log_event ev);; event_handler ev else undef.
End operations.

(** Handlers leave this end of the pipe alone, but for what they send. *)
Class HandlerKeeps {S Ev W : Type} `{PipeState S Ev} `{Has S W} (event_handler : Ev -> M W OptError) : Prop :=
  handler_keeps : forall ev w,
    wlp (event_handler ev) (fun _ w' => keeps (get_part (S := S) w) (get_part w')) w.

(** The invariant of the world above the pipe, and the events that it takes. *)
Class HandlerTotal {S Ev W : Type} `{PipeState S Ev} `{Has S W} (event_handler : Ev -> M W OptError)
    (I : W -> Prop) (ok : Ev -> Prop) : Prop := {
  handler_total : forall ev w, I w -> ok ev -> wp (event_handler ev) (fun _ => I) w;
  put_total : forall (s : S) w, I w -> I (put_part s w);
}.

Section rules.
Context {S Ev W : Type} `{PipeStateOk S Ev} `{HasOk S W}.
Context (event_handler : Ev -> M W OptError) `{!HandlerKeeps (S := S) event_handler}.
Abbreviation get := (get_part (S := S)).

Lemma wlp_upd (f : S -> S) (Q : unit -> W -> Prop) w :
  (forall w', get w' = f (get w) -> Q tt w') -> wlp (upd f) Q w.
Proof. intros HQ. apply wlp_modify, HQ, get_put. Qed.

Lemma wlp_sys {A} (f : Kernel -> A * Kernel) (Q : A -> W -> Prop) w :
  (forall a w', keeps (get w) (get w') -> Q a w') -> wlp (sys f) Q w.
Proof.
  intros HQ. unfold sys. wp_step. wp_step. wp_step. apply wlp_upd. intros w' E.
  apply wlp_ret, HQ. rewrite E. apply keeps_set_kernel.
Qed.

(** A system call changes the kernel only. *)
Lemma wlp_sys_kernel {A} (f : Kernel -> A * Kernel) (Q : A -> W -> Prop) w :
  (forall a k w', get w' = pipe_set_kernel k (get w) -> Q a w') -> wlp (sys f) Q w.
Proof.
  intros HQ. unfold sys. do 3 wp_step. apply wlp_upd. intros w' E. apply wlp_ret. exact (HQ _ _ _ E).
Qed.

Lemma wlp_close_fd fd (Q : unit -> W -> Prop) w :
  (forall w', keeps (get w) (get w') -> Q tt w') -> wlp (close_fd fd) Q w.
Proof. intros HQ. apply wlp_sys. intros []. apply HQ. Qed.

Lemma wlp_emit ev (Q : OptError -> W -> Prop) w :
  (forall e w', pipe_handler_set (get w) = true ->
                keeps (pipe_log_event ev (get w)) (get w') -> Q e w') ->
  wlp (emit event_handler ev) Q w.
Proof.
  intros HQ. unfold emit. wp_step. wp_step. destruct (pipe_handler_set _) eqn:E; [|apply wlp_undef].
  wp_step. apply wlp_upd. intros w1 E1. eapply wlp_mono; [apply handler_keeps|].
  intros e w' Hk. rewrite E1 in Hk. by apply HQ.
Qed.

(** *** Computations that change this end of the pipe only by sending *)

Definition frames {A} (m : M W A) : Prop := forall w, wlp m (fun _ w' => keeps (get w) (get w')) w.

Lemma frames_ret {A} (a : A) : frames (mret a).
Proof. intros w. apply wlp_ret. reflexivity. Qed.

Lemma frames_undef {A} : frames (undef : M W A).
Proof. intros w. apply wlp_undef. Qed.

Lemma frames_bind {A B} (m : M W A) (f : A -> M W B) :
  frames m -> (forall a, frames (f a)) -> frames (m ≫= f).
Proof.
  intros Hm Hf w. apply wlp_bind. eapply wlp_mono; [apply Hm|]. intros a w1 K1.
  eapply wlp_mono; [apply Hf|]. intros b w2 K2. transitivity (get w1); done.
Qed.

Lemma frames_gets {A} (f : W -> A) : frames (gets f).
Proof. intros w. apply wlp_gets. reflexivity. Qed.

Lemma frames_modify (f : W -> W) : (forall w, get (f w) = get w) -> frames (modify f).
Proof. intros Hf w. apply wlp_modify. rewrite Hf. reflexivity. Qed.

Lemma frames_liftF {A} (f : W -> A * W) : (forall w, get (f w).2 = get w) -> frames (liftF f).
Proof.
  intros Hf w. unfold wlp, liftF. destruct (f w) eqn:E. specialize (Hf w). rewrite E in Hf.
  cbn in Hf. rewrite Hf. reflexivity.
Qed.

Lemma frames_ofOutcome {A} (o : outcome A) : frames (ofOutcome o).
Proof. intros w. unfold wlp, ofOutcome. destruct o; [reflexivity|done]. Qed.

Lemma frames_mfor {A} (l : list A) (body : A -> M W unit) : (forall a, frames (body a)) -> frames (mfor l body).
Proof. intros Hb. induction l; cbn; [apply frames_ret|]. by apply frames_bind. Qed.

(** *** Total correctness *)

Section total.
Context (I : W -> Prop) (ok : Ev -> Prop) `{!HandlerTotal (S := S) event_handler I ok}.

Lemma wp_upd (f : S -> S) (Q : unit -> W -> Prop) w :
  I w -> (forall w', I w' -> get w' = f (get w) -> Q tt w') -> wp (upd f) Q w.
Proof. intros Hi HQ. apply wp_modify, HQ; [by apply (put_total (event_handler := event_handler) (ok := ok))|apply get_put]. Qed.

Lemma wp_sys {A} (f : Kernel -> A * Kernel) (Q : A -> W -> Prop) w :
  I w ->
  (forall w', I w' -> get w' = pipe_set_kernel (f (pipe_kernel (get w))).2 (get w) ->
              Q (f (pipe_kernel (get w))).1 w') ->
  wp (sys f) Q w.
Proof.
  intros Hi HQ. unfold sys. do 3 wp_step. apply wp_upd; [done|]. intros w' Hi' E. apply wp_ret. by apply HQ.
Qed.

Lemma wp_emit ev (Q : OptError -> W -> Prop) w :
  I w -> ok ev -> pipe_handler_set (get w) = true ->
  (forall e w', I w' -> keeps (pipe_log_event ev (get w)) (get w') -> Q e w') ->
  wp (emit event_handler ev) Q w.
Proof.
  intros Hi Hok Hh HQ. unfold emit. do 2 wp_step. rewrite Hh. wp_step. apply wp_upd; [done|].
  intros w1 Hi1 E1. eapply wp_mono.
  { apply (wp_wlp _ (fun _ w' => keeps (get w1) (get w')) (fun _ => I));
      [by apply handler_total|apply handler_keeps]. }
  intros e w2 [Hi2 K]. rewrite E1 in K. by apply HQ.
Qed.
End total.

(** *** The world above the pipe moves only by handling its events *)

Section handled.
(** The part of the world that is not this end of the pipe. *)
Context {R : Type} (rest : W -> R) (rest_put : forall (s : S) w, rest (put_part s w) = rest w).

(** The events [evs] are handled one after the other; in between only the
    pipe moves. *)
Inductive handled : list Ev -> W -> W -> Prop :=
| handled_nil w w' : rest w' = rest w -> handled [] w w'
| handled_cons ev evs w w0 e w1 w' :
    rest w0 = rest w -> event_handler ev w0 = Done (e, w1) -> handled evs w1 w' ->
    handled (ev :: evs) w w'.

(** A computation whose effect above the pipe is to handle the events it logs. *)
Definition relays {A} (m : M W A) : Prop := forall w,
  wlp m (fun _ w' => exists evs, pipe_log (get w') = pipe_log (get w) ++ evs /\ handled evs w w') w.

Lemma handled_app evs1 evs2 w w1 w' :
  handled evs1 w w1 -> handled evs2 w1 w' -> handled (evs1 ++ evs2) w w'.
Proof.
  induction 1 as [w w1 E|ev evs w w0 e w1 w2 E He Hh IH]; intros Hh2.
  - destruct Hh2 as [w1 w' E2|ev evs w1 w0 e w2 w' E2 He Hh]; cbn.
    + apply handled_nil. congruence.
    + eapply handled_cons; [|done|done]. congruence.
  - cbn. eapply handled_cons; eauto.
Qed.

(** What the pipe does before does not matter. *)
Lemma handled_from evs w w1 w' : rest w1 = rest w -> handled evs w1 w' -> handled evs w w'.
Proof. intros E. apply (handled_app []). by apply handled_nil. Qed.

(** What handling an event keeps, and does not depend on the pipe, stays. *)
Lemma handled_invariant (J : W -> Prop) evs w w' :
  (forall w w', rest w' = rest w -> J w -> J w') ->
  (forall ev w e w', J w -> event_handler ev w = Done (e, w') -> J w') ->
  handled evs w w' -> J w -> J w'.
Proof. intros Hrest Hev. induction 1 as [w w' E|ev evs w w0 e w1 w' E He Hh IH]; intros Hj; eauto. Qed.

(** Nothing is handled. *)
Lemma relays_same w w' :
  pipe_log (get w') = pipe_log (get w) -> rest w' = rest w ->
  exists evs, pipe_log (get w') = pipe_log (get w) ++ evs /\ handled evs w w'.
Proof. intros E1 E2. exists []. rewrite app_nil_r. split; [done|by apply handled_nil]. Qed.

Lemma relays_ret {A} (a : A) : relays (mret a).
Proof. intros w. apply wlp_ret. by apply relays_same. Qed.

Lemma relays_undef {A} : relays (undef : M W A).
Proof. intros w. apply wlp_undef. Qed.

Lemma relays_gets {A} (f : W -> A) : relays (gets f).
Proof. intros w. apply wlp_gets. by apply relays_same. Qed.

Lemma relays_bind {A B} (m : M W A) (f : A -> M W B) :
  relays m -> (forall a, relays (f a)) -> relays (m ≫= f).
Proof.
  intros Hm Hf w. apply wlp_bind. eapply wlp_mono; [apply Hm|]. intros a w1 (evs1 & E1 & H1').
  eapply wlp_mono; [apply Hf|]. intros b w2 (evs2 & E2 & H2'). exists (evs1 ++ evs2).
  split; [by rewrite E2, E1, app_assoc|]. by eapply handled_app.
Qed.

Lemma relays_upd (f : S -> S) : (forall s, pipe_log (f s) = pipe_log s) -> relays (upd f).
Proof. intros Hf w. apply wlp_modify. apply relays_same; [by rewrite get_put|apply rest_put]. Qed.

Lemma relays_sys {A} (f : Kernel -> A * Kernel) : relays (sys (S := S) f).
Proof.
  apply relays_bind; [apply relays_gets|]. intros k. apply relays_bind; [|intros []; apply relays_ret].
  apply relays_upd. intros s. apply keeps_pipe_log, keeps_set_kernel.
Qed.

Lemma relays_close_fd fd : relays (close_fd (S := S) fd).
Proof. apply relays_sys. Qed.

Lemma relays_emit ev : relays (emit event_handler ev).
Proof.
  intros w. unfold emit. wp_step. wp_step. destruct (pipe_handler_set _); [|apply wlp_undef].
  wp_step. apply wlp_modify. set (w1 := put_part _ w). pose proof (handler_keeps (S := S) (event_handler := event_handler) ev w1) as K.
  unfold wlp in *. destruct (event_handler ev w1) as [[e w2]|] eqn:E; [|done]. exists [ev].
  rewrite (keeps_pipe_log _ _ K). unfold w1. rewrite get_put, pipe_log_log_event. split; [done|].
  eapply handled_cons; [apply rest_put|exact E|]. by apply handled_nil.
Qed.
End handled.
End rules.

Create HintDb relays.

(** Symbolic execution of [relays] goals: the shape of the goal selects the rule;
    calls of other operations are found in the hint database. *)
Ltac relay_steps :=
  repeat lazymatch goal with
    | |- relays _ _ (_ ≫= _) => apply relays_bind; [|intros ?]
    | |- relays _ _ (match _ with _ => _ end) => case_match
    | |- relays _ _ (mret _) => apply relays_ret
    | |- relays _ _ undef => apply relays_undef
    | |- relays _ _ (gets _) => apply relays_gets
    | |- relays _ _ (upd _) => apply relays_upd; done
    | |- relays _ _ (sys _) => apply relays_sys; first [done | exact _]
    | |- relays _ _ (close_fd _) => apply relays_close_fd; first [done | exact _]
    | |- relays _ _ (emit _ _) => apply relays_emit; first [done | exact _]
    | |- relays _ _ _ => solve [eauto with relays nocore]
    end.

Arguments frames S {Ev W _ _ A} m.
Create HintDb frames.

(** Symbolic execution of [frames] goals: the shape of the goal selects the rule;
    calls of other operations are found in the hint database. *)
Ltac frame_steps :=
  repeat lazymatch goal with
    | |- frames _ (_ ≫= _) => apply frames_bind; [|intros ?]
    | |- frames _ (match _ with _ => _ end) => case_match
    | |- frames _ (mret _) => apply frames_ret
    | |- frames _ undef => apply frames_undef
    | |- frames _ (gets _) => apply frames_gets
    | |- frames _ (ofOutcome _) => apply frames_ofOutcome
    | |- frames _ (modify _) => apply frames_modify; first [done | solve [eauto with frames nocore]]
    | |- frames _ (liftF _) => apply frames_liftF; first [done | solve [eauto with frames nocore]]
    | |- frames _ (mfor _ _) => apply frames_mfor; intros ?
    | |- frames _ _ => solve [eauto with frames nocore]
    end.
