(* ===== verification/PipeFrames.v ===== *)
(** * Gateways over a pipe

    What routers do with gateways (the operations of [Gateway]) reaches the pipe
    only through [send], when the disposal of gateways and the handlers of
    channels do. Shared by [ServerStack] and [ClientStack]. *)
From S2P Require Import Prelude Errors Gateway PipeBase.

Section gateways.
Context {S Ev W EP H : Type} `{PipeStateOk S Ev} `{HasOk S W} `{GatewayWorld W EP H}.
Context (dispose : Gateway EP H -> M W unit).
Context (run_handler : H -> GwEvent -> M W OptError).
Context (set_heap_frames : forall f w, get_part (S := S) (w_set_heap f w) = get_part w).
Context (dispose_frames : forall gw, frames S (dispose gw)).
Context (handler_frames : forall h e, frames S (run_handler h e)).

#[local] Hint Resolve dispose_frames handler_frames : frames.

Lemma frames_drop_refs g gw o l : frames S (drop_refs dispose g gw o l).
Proof. unfold drop_refs, destroy_gateway. frame_steps. Qed.
#[local] Hint Resolve frames_drop_refs : frames.

Lemma frames_lock g : frames S (lock g).
Proof. unfold lock. frame_steps. Qed.

Lemma frames_own g : frames S (own g).
Proof. unfold own. frame_steps. Qed.

Lemma frames_unlock g : frames S (unlock dispose g).
Proof. unfold unlock. frame_steps. Qed.

Lemma frames_event g e : frames S (gateway_event run_handler g e).
Proof. unfold gateway_event. frame_steps. Qed.
#[local] Hint Resolve frames_lock frames_unlock frames_event : frames.

Lemma frames_with_locked g action otherwise :
  frames S action -> frames S otherwise -> frames S (with_locked dispose g action otherwise).
Proof. intros Ha Ho. unfold with_locked. frame_steps. Qed.

Lemma frames_notify_completed g : frames S (notify_completed dispose run_handler g).
Proof.
  unfold notify_completed. frame_steps. apply frames_with_locked; [apply frames_event|apply frames_ret].
Qed.

Lemma frames_find_and_act ep action :
  (forall g, frames S (action g)) -> frames S (findAndActOnRegisteredGateway dispose ep action).
Proof.
  intros Ha. unfold findAndActOnRegisteredGateway. frame_steps.
  apply frames_with_locked; [apply Ha|apply frames_ret].
Qed.
End gateways.

(** [frame_steps], and the operations on gateways; the premises of the section
    above are found in the hint database. *)
Ltac gateway_frames :=
  let side := solve [eauto with frames nocore] in
  frame_steps;
  lazymatch goal with
  | |- frames _ (with_locked _ _ _ _) => apply frames_with_locked; first [side | gateway_frames]
  | |- frames _ (findAndActOnRegisteredGateway _ _ _) =>
      apply frames_find_and_act; first [side | intros ?; gateway_frames]
  | |- frames _ (notify_completed _ _ _) => apply frames_notify_completed; side
  | |- frames _ (gateway_event _ _ _) => apply frames_event; side
  | |- frames _ (lock _) => apply frames_lock; side
  | |- frames _ (own _) => apply frames_own; side
  | |- frames _ (unlock _ _) => apply frames_unlock; side
  end.
