(* ===== verification/SocketServer.v ===== *)
(** * The server's end of the socket pipe

    Models [src/common/ipc/pipe/socket_server.cpp] and [client_context.hpp]:
    listening, accepting clients, receiving their messages and sending to
    them. The server is part of a bigger world (see [PipeBase]): the event
    handler may call back into [send], as the router does. The two ends of a descriptor's stream are the
    scripts of [SocketBase]; what arrives when is up to the environment
    (relation [step]). *)
From S2P Require Import Prelude Errors SocketBuffer Posix SocketAddress SocketOps SocketBase PipeBase ServerRouter.
Import Server.

Local Open Scope Z_scope.

Definition MaxConnections : Z := 32.

(** [ClientContext], with the kernel's side of its connection: what is to be
    received, how writes will be answered, and what was written. *)
Record ClientContext := mkClientContext {
  id_ : ClientId;
  ctx_fd : Z;
  io_state_ : IoState;
  (** [fd_callback_]: the descriptor whose readability runs [handleClientRequest] *)
  fd_callback_ : option Z;
  ctx_rx : list RxEvent;
  ctx_tx : list TxEvent;
  ctx_out : bytes;
}.

Record SocketServer := mkSocketServer {
  server_fd_ : Z;
  socket_address_ : SocketAddress;
  unique_client_id_counter_ : ClientId;
  (** is [event_handler_] set? *)
  event_handler_set : bool;
  accept_callback_ : option Z;
  client_id_to_context_ : gmap ClientId ClientContext;
  kernel : Kernel;
  (** every event passed to [event_handler_], in order *)
  event_log : list PipeEvent;
}.

(** [SocketServer::SocketServer] *)
Definition SocketServer_new (address : SocketAddress) (k : Kernel) : SocketServer :=
  mkSocketServer (-1) address 0 false None ∅ k [].

Definition set_server_fd (fd : Z) (s : SocketServer) : SocketServer :=
  mkSocketServer fd (socket_address_ s) (unique_client_id_counter_ s) (event_handler_set s)
    (accept_callback_ s) (client_id_to_context_ s) (kernel s) (event_log s).
Definition set_counter (c : ClientId) (s : SocketServer) : SocketServer :=
  mkSocketServer (server_fd_ s) (socket_address_ s) c (event_handler_set s)
    (accept_callback_ s) (client_id_to_context_ s) (kernel s) (event_log s).
Definition set_event_handler (s : SocketServer) : SocketServer :=
  mkSocketServer (server_fd_ s) (socket_address_ s) (unique_client_id_counter_ s) true
    (accept_callback_ s) (client_id_to_context_ s) (kernel s) (event_log s).
Definition set_accept_callback (cb : option Z) (s : SocketServer) : SocketServer :=
  mkSocketServer (server_fd_ s) (socket_address_ s) (unique_client_id_counter_ s) (event_handler_set s)
    cb (client_id_to_context_ s) (kernel s) (event_log s).
Definition set_contexts (f : gmap ClientId ClientContext -> gmap ClientId ClientContext)
    (s : SocketServer) : SocketServer :=
  mkSocketServer (server_fd_ s) (socket_address_ s) (unique_client_id_counter_ s) (event_handler_set s)
    (accept_callback_ s) (f (client_id_to_context_ s)) (kernel s) (event_log s).
Definition set_kernel (k : Kernel) (s : SocketServer) : SocketServer :=
  mkSocketServer (server_fd_ s) (socket_address_ s) (unique_client_id_counter_ s) (event_handler_set s)
    (accept_callback_ s) (client_id_to_context_ s) k (event_log s).
Definition log_event (ev : PipeEvent) (s : SocketServer) : SocketServer :=
  mkSocketServer (server_fd_ s) (socket_address_ s) (unique_client_id_counter_ s) (event_handler_set s)
    (accept_callback_ s) (client_id_to_context_ s) (kernel s) (event_log s ++ [ev]).

(** [tryFindClientContext] *)
Definition tryFindClientContext (client_id : ClientId) (s : SocketServer) : option ClientContext :=
  client_id_to_context_ s !! client_id.

(** What a receive and a send do to a context. *)
Definition ctx_received (r : Received) (ctx : ClientContext) : ClientContext :=
  mkClientContext (id_ ctx) (ctx_fd ctx) (rcv_state r) (fd_callback_ ctx) (rcv_rx r) (ctx_tx ctx) (ctx_out ctx).
Definition ctx_written (out : bytes) (tx : list TxEvent) (ctx : ClientContext) : ClientContext :=
  mkClientContext (id_ ctx) (ctx_fd ctx) (io_state_ ctx) (fd_callback_ ctx) (ctx_rx ctx) tx (ctx_out ctx ++ out).
(** The network brings more. *)
Definition ctx_arrive (evs : list RxEvent) (ctx : ClientContext) : ClientContext :=
  mkClientContext (id_ ctx) (ctx_fd ctx) (io_state_ ctx) (fd_callback_ ctx) (ctx_rx ctx ++ evs) (ctx_tx ctx) (ctx_out ctx).

(** [SocketServer::send] *)
Definition server_send (client_id : ClientId) (sock_buff : SocketBuffer.t) (s : SocketServer)
    : OptError * SocketServer :=
  match tryFindClientContext client_id s with
  | Some client_context =>
      let '(e, out, _, tx) := SocketBase.send sock_buff (ctx_tx client_context) in
      (e, set_contexts (alter (ctx_written out tx) client_id) s)
  | None => (Some (Err Code.InvalidArgument), s)
  end.

(** What a handler, or anything else, may do to the server: send. *)
Definition ctx_core (ctx : ClientContext) : ClientId * Z * IoState * option Z * list RxEvent :=
  (id_ ctx, ctx_fd ctx, io_state_ ctx, fd_callback_ ctx, ctx_rx ctx).

Record server_keeps (s s' : SocketServer) : Prop := {
  keeps_counter : unique_client_id_counter_ s' = unique_client_id_counter_ s;
  keeps_handler : event_handler_set s' = event_handler_set s;
  keeps_accept : accept_callback_ s' = accept_callback_ s;
  keeps_log : event_log s' = event_log s;
  keeps_contexts : ctx_core <$> client_id_to_context_ s' = ctx_core <$> client_id_to_context_ s;
}.

#[export] Instance server_pipe : PipeState SocketServer PipeEvent := {
  pipe_kernel := kernel;
  pipe_set_kernel := set_kernel;
  pipe_handler_set := event_handler_set;
  pipe_log := event_log;
  pipe_log_event := log_event;
  keeps := server_keeps;
}.
#[export] Instance server_pipe_ok : PipeStateOk SocketServer PipeEvent.
Proof.
  split.
  - split; [by split|]. intros s1 s2 s3 [] []. split; congruence.
  - by split.
  - by intros s s' [].
  - done.
Qed.

Section operations.
Context {W : Type} `{Has SocketServer W}.
Context (event_handler : PipeEvent -> M W OptError).

(** [SocketServer::makeSocketHandle] *)
Definition makeSocketHandle : M W OptError :=
  s ← gets (get_part (S := SocketServer));
  maybe_socket ← sys (SocketOps.socket (socket_address_ s) SOCK_STREAM);
  match maybe_socket with
  | inr failure => mret (Some failure)
  | inl socket_fd =>
      reuse ← sys (posixSyscallError (SysSetReuseAddr socket_fd));
      match reuse with
      | Fail err => close_fd socket_fd;; mret (Some (errnoToError err))
      | Ret _ =>
          opt_error ← sys (SocketOps.bind (socket_address_ s) socket_fd);
          match opt_error with
          | Some e => close_fd socket_fd;; mret (Some e)
          | None => close_fd (server_fd_ s);; upd (set_server_fd socket_fd);; mret None
          end
      end
  end.

(** [SocketServer::start] *)
Definition start : M W OptError :=
  upd set_event_handler;;
  opt_error ← makeSocketHandle;
  match opt_error with
  | Some e => mret (Some e)
  | None =>
      s ← gets (get_part (S := SocketServer));
      listened ← sys (posixSyscallError (SysListen (server_fd_ s) MaxConnections));
      match listened with
      | Fail err => mret (Some (errnoToError err))
      | Ret _ => upd (set_accept_callback (Some (server_fd_ s)));; mret None
      end
  end.

(** [client_id_to_context_.emplace(...)]: when the key is taken the new context
    is destroyed, and its descriptor closed. *)
Definition emplace_context (ctx : ClientContext) : M W unit :=
  s ← gets (get_part (S := SocketServer));
  match tryFindClientContext (id_ ctx) s with
  | Some _ => close_fd (ctx_fd ctx)
  | None => upd (set_contexts <[id_ ctx := ctx]>)
  end.

(** [client_id_to_context_.erase(client_id)] *)
Definition erase_context (client_id : ClientId) : M W unit :=
  s ← gets (get_part (S := SocketServer));
  match tryFindClientContext client_id s with
  | Some ctx => upd (set_contexts (delete client_id));; close_fd (ctx_fd ctx)
  | None => mret tt
  end.

(** [SocketServer::handleAccept]; [peer] is the address that the kernel reports. *)
Definition handleAccept (peer : SocketAddress) : M W unit :=
  s ← gets (get_part (S := SocketServer));
  client_fd ← sys (SocketOps.accept peer (server_fd_ s));
  match client_fd with
  | None => mret tt
  | Some raw_fd =>
      let new_client_id := u64 (unique_client_id_counter_ s + 1) in
      upd (set_counter new_client_id);;
      emplace_context (mkClientContext new_client_id raw_fd IoState_init (Some raw_fd) [] [] []);;
      emit event_handler (PipeConnected new_client_id);;
      mret tt
  end.

(** [SocketServer::handleClientRequest]. The message handler runs after
    [receiveData] has reset its state, and its result is ignored. *)
Definition handleClientRequest (client_id : ClientId) : M W unit :=
  s ← gets (get_part (S := SocketServer));
  match tryFindClientContext client_id s with
  | None => undef
  | Some client_context =>
      let r := receiveData (io_state_ client_context) (ctx_rx client_context) in
      upd (set_contexts (alter (ctx_received r) client_id));;
      match rcv_msg r with
      | Some payload => emit event_handler (PipeMessage client_id payload);; mret tt
      | None => mret tt
      end;;
      match rcv_error r with
      | Some _ => erase_context client_id;; emit event_handler (PipeDisconnected client_id);; mret tt
      | None => mret tt
      end
  end.

(** ** The world around the server *)

Inductive label : Type :=
| LStart (err : OptError)
| LAccept (peer : SocketAddress)
| LReadable (client_id : ClientId)
| LArrive (client_id : ClientId) (evs : list RxEvent)
| LOther.

(** One turn of the executor, or of the environment: a callback is run when it
    is registered; data arrives; others use the pipe and the kernel. The
    number of connections over the life of the server is below 2^64. *)
Inductive step : label -> W -> W -> Prop :=
| step_start w e w' :
    event_handler_set (get_part w) = false -> start w = Done (e, w') -> step (LStart e) w w'
| step_accept peer fd w w' :
    accept_callback_ (get_part w) = Some fd ->
    unique_client_id_counter_ (get_part w) < 2 ^ 64 - 1 ->
    handleAccept peer w = Done (tt, w') -> step (LAccept peer) w w'
| step_readable client_id ctx fd w w' :
    client_id_to_context_ (get_part w) !! client_id = Some ctx -> fd_callback_ ctx = Some fd ->
    handleClientRequest client_id w = Done (tt, w') -> step (LReadable client_id) w w'
| step_arrive client_id evs w :
    step (LArrive client_id evs) w
      (put_part (set_contexts (alter (ctx_arrive evs) client_id) (get_part w)) w)
| step_other w w' : keeps (get_part w) (get_part w') -> step LOther w w'.

Inductive steps : list label -> W -> W -> Prop :=
| steps_nil w : steps [] w w
| steps_cons l ls w w' w'' : step l w w' -> steps ls w' w'' -> steps (l :: ls) w w''.
End operations.

(** ** The contract of the pipe *)

(** The session of one client, as an acceptor of events. *)
Inductive Session : Type := Absent | Opened | Closed.

Definition session_next (client_id : ClientId) (st : option Session) (ev : PipeEvent) : option Session :=
  match ev with
  | PipeConnected cl =>
      if cl =? client_id then match st with Some Absent => Some Opened | _ => None end else st
  | PipeMessage cl _ =>
      if cl =? client_id then match st with Some Opened => Some Opened | _ => None end else st
  | PipeDisconnected cl =>
      if cl =? client_id then match st with Some Opened => Some Closed | _ => None end else st
  end.

Definition session (client_id : ClientId) (log : list PipeEvent) : option Session :=
  foldl (session_next client_id) (Some Absent) log.

(** The messages of one client. *)
Definition messages (client_id : ClientId) (log : list PipeEvent) : list bytes :=
  omap (fun ev => match ev with
                  | PipeMessage cl m => if cl =? client_id then Some m else None
                  | _ => None
                  end) log.

(** What arrives for one client along a run. *)
Definition arrivals (client_id : ClientId) (ls : list label) : list RxEvent :=
  concat ((fun l => match l with
                    | LArrive cl evs => if cl =? client_id then evs else []
                    | _ => []
                    end) <$> ls).

Arguments session : simpl never.
Arguments messages : simpl never.

(** ** Lemmas *)

Lemma keeps_log_event ev s s' : keeps s s' -> keeps (log_event ev s) (log_event ev s').
Proof. intros []. split; cbn; congruence. Qed.

Lemma keeps_delete client_id s s' :
  keeps s s' -> keeps (set_contexts (delete client_id) s) (set_contexts (delete client_id) s').
Proof. intros []. split; cbn; [congruence..|]. rewrite !fmap_delete. congruence. Qed.

Lemma keeps_lookup s s' client_id : keeps s s' ->
  ctx_core <$> (client_id_to_context_ s' !! client_id) = ctx_core <$> (client_id_to_context_ s !! client_id).
Proof. intros [_ _ _ _ Hc]. by rewrite <- !lookup_fmap, Hc. Qed.

Lemma keeps_found s s' client_id ctx :
  keeps s s' -> client_id_to_context_ s !! client_id = Some ctx ->
  exists ctx', client_id_to_context_ s' !! client_id = Some ctx' /\ ctx_core ctx' = ctx_core ctx.
Proof.
  intros Hk E. apply (keeps_lookup _ _ client_id) in Hk. rewrite E in Hk.
  apply fmap_Some in Hk as (ctx' & ? & ?). eauto.
Qed.

Lemma keeps_found_inv s s' client_id ctx' :
  keeps s s' -> client_id_to_context_ s' !! client_id = Some ctx' ->
  exists ctx, client_id_to_context_ s !! client_id = Some ctx /\ ctx_core ctx' = ctx_core ctx.
Proof.
  intros Hk E. apply (keeps_lookup _ _ client_id) in Hk. rewrite E in Hk. symmetry in Hk.
  apply fmap_Some in Hk as (ctx & ? & ?). eauto.
Qed.

(** [send] is what [keeps] allows. *)
Lemma server_send_keeps client_id sock_buff s : keeps s (server_send client_id sock_buff s).2.
Proof.
  unfold server_send. destruct (tryFindClientContext client_id s) as [ctx|] eqn:E; [|done].
  destruct (SocketBase.send _ _) as [[[e out] b] tx]. split; try done. cbn.
  apply map_eq. intros id. rewrite !lookup_fmap. destruct (decide (id = client_id)) as [->|Hne].
  - rewrite lookup_alter_eq. unfold tryFindClientContext in E. by rewrite E.
  - by rewrite lookup_alter_ne.
Qed.

(** *** What the operations do, up to [keeps] *)

(** A new client was accepted. *)
Definition accepted (raw_fd : Z) (s : SocketServer) : SocketServer :=
  let new_client_id := unique_client_id_counter_ s + 1 in
  log_event (PipeConnected new_client_id)
    (set_contexts <[new_client_id := mkClientContext new_client_id raw_fd IoState_init (Some raw_fd) [] [] []]>
      (set_counter new_client_id s)).

(** A client's descriptor was readable. *)
Definition requested (client_id : ClientId) (ctx : ClientContext) (s : SocketServer) : SocketServer :=
  let r := receiveData (io_state_ ctx) (ctx_rx ctx) in
  let s1 := set_contexts (alter (ctx_received r) client_id) s in
  let s2 := match rcv_msg r with Some m => log_event (PipeMessage client_id m) s1 | None => s1 end in
  match rcv_error r with
  | Some _ => log_event (PipeDisconnected client_id) (set_contexts (delete client_id) s2)
  | None => s2
  end.

Section facts.
Context {W : Type} `{HasOk SocketServer W}.
Context (event_handler : PipeEvent -> M W OptError).

Context `{!HandlerKeeps (S := SocketServer) event_handler}.

Lemma wlp_erase_context client_id (Q : unit -> W -> Prop) w :
  (forall w', keeps (set_contexts (delete client_id) (get_part w)) (get_part w') -> Q tt w') ->
  wlp (erase_context client_id) Q w.
Proof.
  intros HQ. unfold erase_context. wp_step. wp_step.
  unfold tryFindClientContext. destruct (_ !! client_id) eqn:E.
  - wp_step. apply wlp_upd. intros w1 E1. apply wlp_close_fd. intros w2 Hk. apply HQ. by rewrite <- E1.
  - apply wlp_ret, HQ. split; try done. cbn. by rewrite delete_id.
Qed.

Lemma wlp_handleAccept peer w (Q : unit -> W -> Prop) :
  let s := get_part w in
  0 <= unique_client_id_counter_ s < 2 ^ 64 - 1 ->
  client_id_to_context_ s !! (unique_client_id_counter_ s + 1) = None ->
  (forall w', keeps s (get_part w') -> Q tt w') ->
  (forall raw_fd w', event_handler_set s = true -> keeps (accepted raw_fd s) (get_part w') -> Q tt w') ->
  wlp (handleAccept event_handler peer) Q w.
Proof.
  intros s Hc Hf Hno Hyes. unfold handleAccept. wp_step. wp_step. fold s. wp_step. apply wlp_sys.
  intros [raw_fd|] w1 Hk1; [|by apply wlp_ret, Hno].
  rewrite (wrap_id 64) by lia. wp_step. apply wlp_upd. intros w2 E2. wp_step.
  unfold emplace_context, tryFindClientContext; cbn [id_]. wp_step. wp_step. rewrite E2; cbn.
  destruct (client_id_to_context_ (get_part w1) !! _) as [c|] eqn:E.
  { apply (keeps_found_inv _ _ _ _ Hk1) in E as (c' & E & _). fold s in E. congruence. }
  apply wlp_upd. intros w3 E3. wp_step. apply (wlp_emit event_handler). intros e w' Hh Hk. apply wlp_ret.
  rewrite E3, E2 in *. destruct Hk1 as [K1 K2 K3 K4 K5]. fold s in K1, K2, K3, K4, K5.
  apply (Hyes raw_fd); [by rewrite <- K2|]. etrans; [|exact Hk].
  split; cbn; try done; [by rewrite K4|]. rewrite !fmap_insert. by rewrite K5.
Qed.

Lemma wlp_handleClientRequest client_id ctx w (Q : unit -> W -> Prop) :
  let s := get_part w in
  client_id_to_context_ s !! client_id = Some ctx ->
  (forall w', keeps (requested client_id ctx s) (get_part w') -> Q tt w') ->
  wlp (handleClientRequest event_handler client_id) Q w.
Proof.
  intros s E HQ. unfold handleClientRequest. wp_step. wp_step. fold s.
  unfold tryFindClientContext. rewrite E. unfold requested in HQ.
  set (r := receiveData _ _) in *. wp_step. apply wlp_upd. intros w1 E1. wp_step.
  fold s in E1.
  assert (forall w2, keeps (match rcv_msg r with Some m => log_event (PipeMessage client_id m) (get_part w1)
                            | None => get_part w1 end) (get_part w2) ->
    wlp (match rcv_error r with
         | Some _ => erase_context client_id;; emit event_handler (PipeDisconnected client_id);; mret tt
         | None => mret tt
         end) Q w2) as Hrest.
  { intros w2 Hk2. rewrite E1 in Hk2.
    destruct (rcv_error r) as [err|] in HQ |- *;
      [|apply wlp_ret, HQ; exact Hk2].
    wp_step. apply wlp_erase_context. intros w3 Hk3. wp_step. apply (wlp_emit event_handler). intros e w4 _ Hk4.
    apply wlp_ret, HQ. etrans; [|exact Hk4]. apply keeps_log_event. etrans; [|exact Hk3].
    by apply keeps_delete. }
  destruct (rcv_msg r) as [m|].
  - wp_step. apply (wlp_emit event_handler). intros e w2 _ Hk. apply wlp_ret. by apply Hrest.
  - apply wlp_ret. by apply Hrest.
Qed.
End facts.

(** ** The invariant, and the session of each client *)

Lemma session_snoc client_id log ev :
  session client_id (log ++ [ev]) = session_next client_id (session client_id log) ev.
Proof. unfold session. by rewrite foldl_app. Qed.

Lemma messages_app client_id l1 l2 :
  messages client_id (l1 ++ l2) = messages client_id l1 ++ messages client_id l2.
Proof. unfold messages. apply omap_app. Qed.

(** Where the session of a client is, from the state of the server. *)
Definition status (client_id : ClientId) (s : SocketServer) : Session :=
  match client_id_to_context_ s !! client_id with
  | Some _ => Opened
  | None => if (0 <? client_id) && (client_id <=? unique_client_id_counter_ s) then Closed else Absent
  end.

Definition context_wf (client_id : ClientId) (counter : Z) (core : ClientId * Z * IoState * option Z * list RxEvent) : Prop :=
  let '(id, fd, io, cb, _) := core in
  0 < client_id <= counter /\ id = client_id /\ IoState_wf io /\ cb = Some fd.

Record PipeInv (s : SocketServer) : Prop := {
  inv_counter : 0 <= unique_client_id_counter_ s < 2 ^ 64;
  inv_context : forall client_id ctx, client_id_to_context_ s !! client_id = Some ctx ->
    context_wf client_id (unique_client_id_counter_ s) (ctx_core ctx);
  inv_session : forall client_id, session client_id (event_log s) = Some (status client_id s);
  inv_handler : event_handler_set s = false ->
    accept_callback_ s = None /\ client_id_to_context_ s = ∅;
}.

Lemma keeps_status s s' client_id : keeps s s' -> status client_id s' = status client_id s.
Proof.
  intros Hk. unfold status. rewrite (keeps_counter _ _ Hk).
  pose proof (keeps_lookup _ _ client_id Hk) as Hl.
  destruct (_ !! client_id), (_ !! client_id); done.
Qed.

Lemma keeps_inv s s' : keeps s s' -> PipeInv s -> PipeInv s'.
Proof.
  intros Hk [Hc Hx Hs Hh]. split.
  - by rewrite (keeps_counter _ _ Hk).
  - intros id ctx' E. apply (keeps_found_inv _ _ _ _ Hk) in E as (ctx & E & ->).
    rewrite (keeps_counter _ _ Hk). by apply Hx.
  - intros id. rewrite (keeps_log _ _ Hk), (keeps_status _ _ id Hk). apply Hs.
  - rewrite (keeps_accept _ _ Hk), (keeps_handler _ _ Hk). intros [-> E]%Hh. split; [done|].
    apply (fmap_empty_inv ctx_core). by rewrite (keeps_contexts _ _ Hk), E, fmap_empty.
Qed.

Lemma new_inv address k : PipeInv (SocketServer_new address k).
Proof.
  split; cbn; [lia| |intros id|done].
  - intros id ctx. by rewrite lookup_empty.
  - unfold status; cbn. rewrite lookup_empty.
    by destruct (Z.ltb_spec 0 id), (Z.leb_spec id 0); try lia.
Qed.

(** The next identifier is fresh. *)
Lemma fresh_id s : PipeInv s -> client_id_to_context_ s !! (unique_client_id_counter_ s + 1) = None.
Proof.
  intros Hi. destruct (_ !! _) as [ctx|] eqn:E; [|done]. apply (inv_context _ Hi) in E.
  unfold context_wf in E. cbn in E. lia.
Qed.

Lemma accepted_inv raw_fd s :
  PipeInv s -> unique_client_id_counter_ s < 2 ^ 64 - 1 -> event_handler_set s = true ->
  PipeInv (accepted raw_fd s).
Proof.
  intros Hi Hb Hh. pose proof (fresh_id _ Hi) as Hf. destruct Hi as [Hc Hx Hs Ha].
  set (new := unique_client_id_counter_ s + 1) in *. split; cbn; fold new; [lia| | |congruence].
  - intros id ctx. rewrite lookup_insert_Some. intros [[<- <-]|[_ E]].
    + cbn. split; [lia|]. split; [done|]. split; [apply IoState_init_wf|done].
    + apply Hx in E. cbn in *. split; [unfold new; lia|]. apply E.
  - intros id. rewrite session_snoc, Hs. unfold status; cbn. fold new.
    destruct (Z.eqb_spec new id) as [<-|Hne].
    + rewrite lookup_insert_eq, Hf.
      by destruct (Z.ltb_spec 0 new), (Z.leb_spec new (unique_client_id_counter_ s)); try lia.
    + rewrite lookup_insert_ne by done. destruct (_ !! id); [done|]. do 2 f_equal.
      destruct (Z.ltb_spec 0 id), (Z.leb_spec id (unique_client_id_counter_ s)), (Z.leb_spec id new);
        try done; lia.
Qed.

(** A context that stays, after one receive. *)
Lemma received_inv client_id ctx s :
  PipeInv s -> client_id_to_context_ s !! client_id = Some ctx ->
  let r := receiveData (io_state_ ctx) (ctx_rx ctx) in
  IoState_wf (rcv_state r) -> PipeInv (set_contexts (alter (ctx_received r) client_id) s).
Proof.
  intros [Hc Hx Hs Ha] E r Hwf. split; cbn; [done| | |intros [_ E']%Ha; by rewrite E', lookup_empty in E].
  - intros id ctx'. destruct (decide (id = client_id)) as [->|Hne].
    + rewrite lookup_alter_eq, E. cbn. intros [= <-]. apply Hx in E. cbn in *. naive_solver.
    + rewrite lookup_alter_ne by done. apply Hx.
  - intros id. rewrite Hs. unfold status; cbn. destruct (decide (id = client_id)) as [->|Hne].
    + by rewrite lookup_alter_eq, E.
    + by rewrite lookup_alter_ne.
Qed.

Lemma log_message_inv client_id m s :
  PipeInv s -> is_Some (client_id_to_context_ s !! client_id) -> PipeInv (log_event (PipeMessage client_id m) s).
Proof.
  intros [Hc Hx Hs Ha] [ctx E]. split; try done. intros id. cbn. rewrite session_snoc, Hs.
  unfold status; cbn. destruct (Z.eqb_spec client_id id) as [<-|]; [by rewrite E|done].
Qed.

Lemma disconnected_inv client_id ctx s :
  PipeInv s -> client_id_to_context_ s !! client_id = Some ctx ->
  PipeInv (log_event (PipeDisconnected client_id) (set_contexts (delete client_id) s)).
Proof.
  intros [Hc Hx Hs Ha] E. pose proof (Hx _ _ E) as Hb. cbn in Hb. split; cbn; [done| | |intros [_ E']%Ha; by rewrite E', lookup_empty in E].
  - intros id ctx'. rewrite lookup_delete_Some. intros [_ ?]. by apply Hx.
  - intros id. rewrite session_snoc, Hs. unfold status; cbn.
    destruct (Z.eqb_spec client_id id) as [<-|Hne].
    + rewrite E, lookup_delete_eq.
      by destruct (Z.ltb_spec 0 client_id), (Z.leb_spec client_id (unique_client_id_counter_ s)); try lia.
    + by rewrite lookup_delete_ne.
Qed.

(** No call of [receiveData] both delivers a message and fails. *)
Lemma receivePayload_one_result io_state rx :
  rcv_error (receivePayload io_state rx) = None \/ rcv_msg (receivePayload io_state rx) = None.
Proof.
  unfold receivePayload. destruct (rx_msg_part io_state) as [raw|size buffer]; [by left|].
  repeat case_match; auto.
Qed.

Lemma receiveData_one_result io_state rx :
  rcv_error (receiveData io_state rx) = None \/ rcv_msg (receiveData io_state rx) = None.
Proof.
  unfold receiveData, startPayload. repeat case_match; auto using receivePayload_one_result.
Qed.

Lemma requested_inv client_id ctx s :
  PipeInv s -> client_id_to_context_ s !! client_id = Some ctx -> PipeInv (requested client_id ctx s).
Proof.
  intros Hi E. pose proof (inv_context _ Hi _ _ E) as (_ & _ & Hwf & _).
  pose proof (receiveData_safe (io_state_ ctx) (ctx_rx ctx) Hwf) as [Hr _].
  unfold requested. destruct (receiveData_one_result (io_state_ ctx) (ctx_rx ctx)) as [He|Hm].
  - rewrite He. pose proof (received_inv _ _ _ Hi E (Hr He)) as Hi1.
    destruct (rcv_msg _); [|done]. apply log_message_inv; [done|].
    cbn. rewrite lookup_alter_eq, E. eauto.
  - rewrite Hm. destruct (rcv_error _) eqn:He; [|by apply received_inv; auto].
    replace (set_contexts _ (set_contexts _ s)) with (set_contexts (delete client_id) s);
      [by eapply disconnected_inv|].
    unfold set_contexts; cbn. f_equal. by rewrite delete_alter_eq.
Qed.

Lemma set_event_handler_inv s : PipeInv s -> PipeInv (set_event_handler s).
Proof. intros []. by split. Qed.

Lemma set_accept_callback_inv cb s :
  event_handler_set s = true -> PipeInv s -> PipeInv (set_accept_callback cb s).
Proof. intros Hh [Hc Hx Hs Ha]. split; try done. cbn. congruence. Qed.

Lemma arrive_inv evs client_id s : PipeInv s -> PipeInv (set_contexts (alter (ctx_arrive evs) client_id) s).
Proof.
  intros Hi. destruct (client_id_to_context_ s !! client_id) as [ctx|] eqn:E.
  2:{ apply (keeps_inv s); [|done]. split; try done. cbn.
      by rewrite alter_id by (intros ? ?; congruence). }
  destruct Hi as [Hc Hx Hs Ha]. split; cbn; [done| | |intros [_ E']%Ha; by rewrite E', lookup_empty in E].
  - intros id ctx'. destruct (decide (id = client_id)) as [->|Hne].
    + rewrite lookup_alter_eq, E. cbn. intros [= <-]. by apply Hx in E.
    + rewrite lookup_alter_ne by done. apply Hx.
  - intros id. rewrite Hs. unfold status; cbn. destruct (decide (id = client_id)) as [->|Hne].
    + by rewrite lookup_alter_eq, E.
    + by rewrite lookup_alter_ne.
Qed.

Section runs.
Context {W : Type} `{HasOk SocketServer W}.
Context (event_handler : PipeEvent -> M W OptError) `{!HandlerKeeps (S := SocketServer) event_handler}.

Lemma wlp_makeSocketHandle (Q : OptError -> W -> Prop) w :
  (forall e w', keeps (get_part w) (get_part w') -> Q e w') -> wlp makeSocketHandle Q w.
Proof.
  intros HQ. unfold makeSocketHandle. wp_step. wp_step. wp_step. apply wlp_sys. intros [fd|e] w1 K1.
  2:{ by apply wlp_ret, HQ. }
  wp_step. apply wlp_sys. intros [v|err] w2 K2.
  2:{ wp_step. apply wlp_close_fd. intros w3 K3. apply wlp_ret, HQ. by do 2 (etrans; [done|]). }
  wp_step. apply wlp_sys. intros [e|] w3 K3.
  { wp_step. apply wlp_close_fd. intros w4 K4. apply wlp_ret, HQ. by do 3 (etrans; [done|]). }
  wp_step. apply wlp_close_fd. intros w4 K4. wp_step. apply wlp_upd. intros w5 E5. apply wlp_ret, HQ.
  rewrite E5. do 4 (etrans; [done|]). by split.
Qed.

Lemma wlp_start w :
  PipeInv (get_part w) -> wlp start (fun _ w' => PipeInv (get_part w')) w.
Proof.
  intros Hi. unfold start. wp_step. apply wlp_upd. intros w1 E1. wp_step.
  apply set_event_handler_inv in Hi. rewrite <- E1 in Hi.
  assert (event_handler_set (get_part w1) = true) as Hh by (by rewrite E1).
  apply wlp_makeSocketHandle. intros [e|] w2 K2; pose proof (keeps_inv _ _ K2 Hi) as Hi2;
    [by apply wlp_ret|].
  wp_step. wp_step. wp_step. apply wlp_sys. intros [v|err] w3 K3; pose proof (keeps_inv _ _ K3 Hi2);
    [|by apply wlp_ret].
  wp_step. apply wlp_upd. intros w4 E4. apply wlp_ret. rewrite E4. apply set_accept_callback_inv; [|done].
  by rewrite (keeps_handler _ _ K3), (keeps_handler _ _ K2).
Qed.

Lemma step_inv l w w' :
  step event_handler l w w' -> PipeInv (get_part w) -> PipeInv (get_part w').
Proof.
  intros Hs Hi. destruct Hs as [w e w' Hf Hr|peer fd w w' Ha Hb Hr|id ctx fd w w' E Hcb Hr|id evs w|w w' K].
  - exact (wlp_Done _ _ _ _ _ (wlp_start w Hi) Hr).
  - refine (wlp_Done _ (fun _ w' => PipeInv (get_part w')) _ _ _ _ Hr).
    apply wlp_handleAccept; [done|pose proof (inv_counter _ Hi); lia|by apply fresh_id| |].
    + intros w1 K. by eapply keeps_inv.
    + intros raw_fd w1 Hh K. eapply keeps_inv; [done|]. by apply accepted_inv.
  - refine (wlp_Done _ (fun _ w' => PipeInv (get_part w')) _ _ _ _ Hr).
    eapply wlp_handleClientRequest; [done|done|]. intros w1 K. eapply keeps_inv; [done|].
    by apply requested_inv.
  - rewrite get_put. by apply arrive_inv.
  - by eapply keeps_inv.
Qed.

Lemma steps_inv ls w w' :
  steps event_handler ls w w' -> PipeInv (get_part w) -> PipeInv (get_part w').
Proof. induction 1; eauto using step_inv. Qed.

(** The server's events are sessions. Whatever clients and handlers do, in
    every run of a new server and for every client: first it is connected,
    once; then its messages come; then it may be disconnected, once, and
    nothing follows. It is connected and not disconnected exactly as long as the
    server holds its context, and an identifier is never used again. *)
Theorem server_sessions address k ls w w' client_id :
  get_part w = SocketServer_new address k -> steps event_handler ls w w' ->
  session client_id (event_log (get_part w')) = Some (status client_id (get_part w')) /\
  (forall ctx, client_id_to_context_ (get_part w') !! client_id = Some ctx ->
     fd_callback_ ctx = Some (ctx_fd ctx) /\ id_ ctx = client_id /\ IoState_wf (io_state_ ctx)).
Proof.
  intros E Hs. assert (PipeInv (get_part w')) as Hi.
  { eapply steps_inv; [done|]. rewrite E. apply new_inv. }
  split; [apply (inv_session _ Hi)|]. intros ctx Hc. apply (inv_context _ Hi) in Hc. cbn in Hc. naive_solver.
Qed.
End runs.

(** ** Delivery *)

(** The stream of a client: what is buffered, what is in the socket and what
    is still to come are the frames of the messages [ms]. *)
Definition streams (client_id : ClientId) (future : bytes) (ms : list bytes) (s : SocketServer) : Prop :=
  exists ctx, client_id_to_context_ s !! client_id = Some ctx /\
    Forall benign (ctx_rx ctx) /\
    pending (io_state_ ctx) ++ rx_data (ctx_rx ctx) ++ future = concat (frame <$> ms).

Lemma rx_data_app l1 l2 : rx_data (l1 ++ l2) = rx_data l1 ++ rx_data l2.
Proof. unfold rx_data. by rewrite fmap_app, concat_app. Qed.

Lemma keeps_streams client_id future ms s s' :
  keeps s s' -> streams client_id future ms s -> streams client_id future ms s'.
Proof.
  intros K (ctx & E & Hb & Hs). destruct (keeps_found _ _ _ _ K E) as (ctx' & E' & Hc).
  injection Hc as _ _ Hio _ Hrx. exists ctx'. by rewrite Hio, Hrx.
Qed.

(** One request of the client itself: at most one message leaves the stream, and
    the socket has less to read. *)
Lemma requested_streams client_id ctx future ms s :
  PipeInv s -> Forall valid_msg ms -> streams client_id future ms s ->
  client_id_to_context_ s !! client_id = Some ctx ->
  exists delivered rest ctx',
    ms = delivered ++ rest /\
    messages client_id (event_log (requested client_id ctx s)) =
      messages client_id (event_log s) ++ delivered /\
    streams client_id future rest (requested client_id ctx s) /\
    client_id_to_context_ (requested client_id ctx s) !! client_id = Some ctx' /\
    (rx_measure (ctx_rx ctx') <= rx_measure (ctx_rx ctx) - 1)%nat /\
    event_log (requested client_id ctx s) = event_log s ++ (PipeMessage client_id <$> delivered).
Proof.
  intros Hi Hv (ctx0 & E0 & Hb & Hs) E. assert (ctx0 = ctx) as -> by congruence.
  pose proof (inv_context _ Hi _ _ E) as (_ & _ & Hwf & _).
  destruct (receiveData_step _ _ _ _ Hwf Hb Hv Hs) as (He & Hwf' & Hb' & Hm & rest & Hms & Hs').
  unfold requested. rewrite He. set (r := receiveData _ _) in *.
  exists (match rcv_msg r with Some m => [m] | None => [] end), rest, (ctx_received r ctx).
  assert (client_id_to_context_ (set_contexts (alter (ctx_received r) client_id) s) !! client_id
            = Some (ctx_received r ctx)) as E' by (cbn; by rewrite lookup_alter_eq, E).
  split; [done|]. split; [|split; [|split; [|split; [done|]]]].
  - destruct (rcv_msg r); cbn; [|by rewrite app_nil_r]. rewrite messages_app. unfold messages at 2. cbn.
    by rewrite Z.eqb_refl.
  - exists (ctx_received r ctx). split; [by destruct (rcv_msg r)|]. by split.
  - by destruct (rcv_msg r).
  - destruct (rcv_msg r); cbn; [done|by rewrite app_nil_r].
Qed.

(** Another client's request does not touch this one. *)
Lemma requested_other client_id other ctx s :
  other <> client_id ->
  client_id_to_context_ (requested other ctx s) !! client_id = client_id_to_context_ s !! client_id /\
  messages client_id (event_log (requested other ctx s)) = messages client_id (event_log s).
Proof.
  intros Hne. unfold requested. set (r := receiveData _ _).
  destruct (rcv_msg r), (rcv_error r); cbn; rewrite ?lookup_delete_ne, ?lookup_alter_ne by done;
    (split; [done|]); rewrite ?messages_app; unfold messages; cbn;
    rewrite ?(proj2 (Z.eqb_neq _ _) Hne), ?app_nil_r; done.
Qed.

Section delivery.
Context {W : Type} `{HasOk SocketServer W}.
Context (event_handler : PipeEvent -> M W OptError) `{!HandlerKeeps (S := SocketServer) event_handler}.

(** One step of anybody. *)
Lemma step_streams client_id future ms l w w' :
  step event_handler l w w' -> PipeInv (get_part w) -> Forall valid_msg ms ->
  Forall benign (arrivals client_id [l]) ->
  streams client_id (rx_data (arrivals client_id [l]) ++ future) ms (get_part w) ->
  exists delivered rest, ms = delivered ++ rest /\
    messages client_id (event_log (get_part w')) = messages client_id (event_log (get_part w)) ++ delivered /\
    streams client_id future rest (get_part w').
Proof.
  intros Hs Hi Hv Hb Hst.
  assert (forall s', messages client_id (event_log s') = messages client_id (event_log (get_part w)) ->
            streams client_id future ms s' ->
            exists delivered rest, ms = delivered ++ rest /\
              messages client_id (event_log s') = messages client_id (event_log (get_part w)) ++ delivered /\
              streams client_id future rest s') as Hquiet.
  { intros s' Hm Hs'. exists [], ms. by rewrite app_nil_r. }
  destruct Hs as [w e w' Hf Hr|peer fd w w' Ha Hbd Hr|id ctx fd w w' E Hcb Hr|id evs w|w w' K].
  - destruct Hst as (ctx & E & _). destruct (inv_handler _ Hi Hf) as [_ E'].
    by rewrite E', lookup_empty in E.
  - refine (wlp_Done _ (fun _ w' => _) _ _ _ _ Hr).
    pose proof (fresh_id _ Hi) as Hfr.
    apply wlp_handleAccept; [done|pose proof (inv_counter _ Hi); lia|done| |].
    + intros w1 K. apply Hquiet; [by rewrite (keeps_log _ _ K)|by eapply keeps_streams].
    + intros raw_fd w1 Hh K. apply Hquiet.
      * rewrite (keeps_log _ _ K). unfold accepted; cbn. rewrite messages_app. by rewrite app_nil_r.
      * eapply keeps_streams; [done|]. destruct Hst as (ctx & E & Hst). exists ctx. split; [|done].
        unfold accepted; cbn. rewrite lookup_insert_ne; [done|]. congruence.
  - refine (wlp_Done _ (fun _ w' => _) _ _ _ _ Hr).
    eapply wlp_handleClientRequest; [done|done|]. intros w1 K.
    destruct (decide (id = client_id)) as [->|Hne].
    + destruct (requested_streams _ _ _ _ _ Hi Hv Hst E) as (dl & rest & ctx' & Hms & Hm & Hs' & _).
      exists dl, rest. rewrite (keeps_log _ _ K). split; [done|]. split; [done|]. by eapply keeps_streams.
    + destruct (requested_other client_id id ctx (get_part w) Hne) as [Hc Hm].
      apply Hquiet; [by rewrite (keeps_log _ _ K)|]. eapply keeps_streams; [done|].
      destruct Hst as (ctx' & E' & Hst). exists ctx'. by rewrite Hc.
  - rewrite get_put. apply Hquiet; [done|]. destruct Hst as (ctx & E & Hb' & Hst).
    unfold arrivals in *; cbn in Hb, Hst |- *. rewrite app_nil_r in *.
    destruct (Z.eqb_spec id client_id) as [->|Hne].
    + exists (ctx_arrive evs ctx). cbn. rewrite lookup_alter_eq, E. split; [done|].
      split; [by apply Forall_app|]. by rewrite rx_data_app, <- app_assoc.
    + exists ctx. cbn. by rewrite lookup_alter_ne.
  - apply Hquiet; [by rewrite (keeps_log _ _ K)|by eapply keeps_streams].
Qed.

Lemma steps_streams client_id future ms ls w w' :
  steps event_handler ls w w' -> PipeInv (get_part w) -> Forall valid_msg ms ->
  Forall benign (arrivals client_id ls) ->
  streams client_id (rx_data (arrivals client_id ls) ++ future) ms (get_part w) ->
  exists delivered rest, ms = delivered ++ rest /\
    messages client_id (event_log (get_part w')) = messages client_id (event_log (get_part w)) ++ delivered /\
    streams client_id future rest (get_part w').
Proof.
  intros Hs. revert ms. induction Hs as [w|l ls w w1 w2 Hl Hs IH]; intros ms Hi Hv Hb Hst.
  { exists [], ms. by rewrite app_nil_r. }
  assert (arrivals client_id (l :: ls) = arrivals client_id [l] ++ arrivals client_id ls) as Ea.
  { unfold arrivals. cbn. by rewrite app_nil_r. }
  rewrite Ea, rx_data_app, <- app_assoc in *. apply Forall_app in Hb as [Hb1 Hb2].
  destruct (step_streams client_id _ ms _ _ _ Hl Hi Hv Hb1 Hst) as (d1 & r1 & -> & Hm1 & Hs1).
  apply Forall_app in Hv as [_ Hv].
  destruct (IH r1 ltac:(by eapply step_inv) Hv Hb2 Hs1) as (d2 & r2 & -> & Hm2 & Hs2).
  exists (d1 ++ d2), r2. rewrite Hm2, Hm1, !app_assoc. done.
Qed.

(** Messages of a healthy client arrive. From the moment a client was accepted,
    let the data that arrives for it be the frames of [ms] and the beginning
    of one more, cut and interrupted in any way. Then, whatever the other
    clients send and whenever callbacks run, the client stays connected; the
    messages passed to the handler are a prefix of [ms], in order and
    unchanged; and they are all of [ms] once the socket was read empty. *)
Theorem server_delivers client_id ctx ms m part future ls w w' :
  PipeInv (get_part w) -> client_id_to_context_ (get_part w) !! client_id = Some ctx ->
  io_state_ ctx = IoState_init -> ctx_rx ctx = [] ->
  Forall valid_msg ms -> valid_msg m -> part ++ future = frame m -> future <> [] ->
  Forall benign (arrivals client_id ls) ->
  rx_data (arrivals client_id ls) = concat (frame <$> ms) ++ part ->
  steps event_handler ls w w' ->
  exists ctx' delivered,
    client_id_to_context_ (get_part w') !! client_id = Some ctx' /\
    messages client_id (event_log (get_part w')) = messages client_id (event_log (get_part w)) ++ delivered /\
    delivered `prefix_of` ms /\ (ctx_rx ctx' = [] -> delivered = ms).
Proof.
  intros Hi E Hio Hrx Hv Hm Ef Hne Hb Hd Hs.
  destruct (steps_streams client_id future (ms ++ [m]) ls w w' Hs Hi) as (dl & rest & Hms & Hlog & Hst).
  { apply Forall_app. split; [done|by apply Forall_singleton]. }
  { done. }
  { exists ctx. rewrite Hio, Hrx. split; [done|]. split; [done|].
    rewrite pending_init, Hd, fmap_app, concat_app. cbn. by rewrite app_nil_r, <- app_assoc, Ef. }
  destruct Hst as (ctx' & E' & Hb' & Hp). exists ctx', dl. split; [done|]. split; [done|].
  assert (PipeInv (get_part w')) as Hi' by (by eapply steps_inv).
  pose proof (inv_context _ Hi' _ _ E') as (_ & _ & Hwf & _).
  destruct (unfinished_frame _ _ _ _ _ _ _ _ Hv Hwf Hms Ef Hne Hp) as [Hpre Hall].
  split; [done|]. by intros [-> _]%Hall.
Qed.
End delivery.

(** ** Callbacks return, and the socket is read empty *)

(** While a message is unfinished, only one of the finished ones is delivered. *)
Lemma stream_next client_id ctx x ms m delivered rest part future s :
  PipeInv s -> Forall valid_msg ms -> valid_msg m -> client_id_to_context_ s !! client_id = Some ctx ->
  ms ++ [m] = delivered ++ rest -> part ++ future = frame m -> future <> [] ->
  streams client_id future rest s ->
  rcv_msg (receiveData (io_state_ ctx) (ctx_rx ctx)) = Some x -> x ∈ ms.
Proof.
  intros Hi Hv Hm E Hms Ef Hne Hst Hx.
  assert (Forall valid_msg (delivered ++ rest)) as Hall
    by (rewrite <- Hms; apply Forall_app; split; [done|by apply Forall_singleton]).
  pose proof Hall as [_ Hvr]%Forall_app.
  destruct (requested_streams _ _ _ _ _ Hi Hvr Hst E) as (d & r & ctx' & -> & Hd & (ctx2 & E2 & _ & Hp) & _).
  pose proof (inv_context _ (requested_inv _ _ _ Hi E) _ _ E2) as (_ & _ & Hwf & _).
  rewrite app_assoc in Hms.
  destruct (unfinished_frame _ _ _ _ _ _ _ _ Hv Hwf Hms Ef Hne Hp) as [Hpre _].
  assert (d = [x]) as ->.
  { unfold requested in Hd. rewrite Hx in Hd. apply (app_inv_head (messages client_id (event_log s))).
    rewrite <- Hd. destruct (rcv_error _) eqn:Er; cbn; rewrite !messages_app; unfold messages at 2; cbn;
      rewrite Z.eqb_refl; [|done].
    unfold messages at 2. cbn. by rewrite app_nil_r. }
  eapply elem_of_prefix; [|exact Hpre]. set_solver.
Qed.

Section total.
Context {W : Type} `{HasOk SocketServer W}.
Context (event_handler : PipeEvent -> M W OptError) `{!HandlerKeeps (S := SocketServer) event_handler}.
Context (I : W -> Prop) (ok : PipeEvent -> Prop) `{!HandlerTotal (S := SocketServer) event_handler I ok}.

Lemma wp_erase_context client_id (Q : unit -> W -> Prop) w :
  I w ->
  (forall w', I w' -> keeps (set_contexts (delete client_id) (get_part w)) (get_part w') -> Q tt w') ->
  wp (erase_context client_id) Q w.
Proof.
  intros Hi HQ. eapply wp_mono.
  { apply (wp_wlp _ (fun _ w' => keeps (set_contexts (delete client_id) (get_part w)) (get_part w')) (fun _ => I));
      [|by apply wlp_erase_context].
    unfold erase_context. do 2 wp_step. destruct (tryFindClientContext _ _); [|by apply wp_ret].
    wp_step. apply (wp_upd event_handler I ok); [done|]. intros w1 Hi1 _. by apply (wp_sys event_handler I ok). }
  intros [] w' [Hi' K]. by apply HQ.
Qed.

(** The events of one request are among the ones the world takes. *)
Definition request_ok (client_id : ClientId) (ctx : ClientContext) : Prop :=
  ok (PipeDisconnected client_id) /\
  forall m, rcv_msg (receiveData (io_state_ ctx) (ctx_rx ctx)) = Some m -> ok (PipeMessage client_id m).

Lemma wp_handleClientRequest client_id ctx w :
  I w -> PipeInv (get_part w) -> client_id_to_context_ (get_part w) !! client_id = Some ctx ->
  request_ok client_id ctx ->
  wp (handleClientRequest event_handler client_id)
     (fun _ w' => I w' /\ keeps (requested client_id ctx (get_part w)) (get_part w')) w.
Proof.
  intros Hi Hinv E [Hd Hm].
  assert (event_handler_set (get_part w) = true) as Hh.
  { destruct (event_handler_set _) eqn:Eh; [done|]. apply (inv_handler _ Hinv) in Eh as [_ Eh].
    by rewrite Eh, lookup_empty in E. }
  apply (wp_wlp _ (fun _ w' => keeps (requested client_id ctx (get_part w)) (get_part w')) (fun _ => I));
    [|by eapply wlp_handleClientRequest].
  unfold handleClientRequest, tryFindClientContext. do 2 wp_step. rewrite E.
  set (r := receiveData _ _) in *. wp_step. apply (wp_upd event_handler I ok); [done|]. intros w1 Hi1 E1. wp_step.
  assert (forall w2, I w2 -> event_handler_set (get_part w2) = true ->
    wp (match rcv_error r with
        | Some _ => erase_context client_id;; emit event_handler (PipeDisconnected client_id);; mret tt
        | None => mret tt
        end) (fun _ => I) w2) as Hrest.
  { intros w2 Hi2 Hh2. destruct (rcv_error r); [|by apply wp_ret]. wp_step.
    apply wp_erase_context; [done|]. intros w3 Hi3 K3. wp_step.
    apply (wp_emit event_handler I ok); [done|done|cbn; by rewrite (keeps_handler _ _ K3)|]. intros ? w4 Hi4 _. by apply wp_ret. }
  destruct (rcv_msg r) as [m|].
  - wp_step. apply (wp_emit event_handler I ok); [done|by apply Hm|by rewrite E1|]. intros e w2 Hi2 K. apply wp_ret.
    apply Hrest; [done|]. by rewrite (keeps_handler _ _ K), E1.
  - apply wp_ret. apply Hrest; [done|]. by rewrite E1.
Qed.

(** The server's callbacks never fail: no call of an empty handler, and no
    use of a context that is not there. A registered [accept] or client callback
    returns, with the invariants of the server and of the world above it. *)
Theorem server_callbacks_return w :
  I w -> PipeInv (get_part w) ->
  (forall peer fd, accept_callback_ (get_part w) = Some fd ->
     unique_client_id_counter_ (get_part w) < 2 ^ 64 - 1 ->
     ok (PipeConnected (unique_client_id_counter_ (get_part w) + 1)) ->
     wp (handleAccept event_handler peer) (fun _ w' => I w' /\ PipeInv (get_part w')) w) /\
  (forall client_id ctx, client_id_to_context_ (get_part w) !! client_id = Some ctx ->
     request_ok client_id ctx ->
     wp (handleClientRequest event_handler client_id) (fun _ w' => I w' /\ PipeInv (get_part w')) w).
Proof.
  intros Hi Hinv. split.
  - intros peer fd Ha Hb Hok.
    assert (event_handler_set (get_part w) = true) as Hh.
    { destruct (event_handler_set _) eqn:Eh; [done|]. apply (inv_handler _ Hinv) in Eh as [Eh _]. congruence. }
    apply (wp_wlp _ (fun _ w' => PipeInv (get_part w')) (fun _ => I)).
    + unfold handleAccept. do 3 wp_step. apply (wp_sys event_handler I ok); [done|]. intros w1 Hi1 E1.
      destruct (SocketOps.accept _ _ _).1 as [raw_fd|]; [|by apply wp_ret].
      pose proof (inv_counter _ Hinv). rewrite (wrap_id 64) by lia.
      wp_step. apply (wp_upd event_handler I ok); [done|]. intros w2 Hi2 E2. wp_step.
      unfold emplace_context. do 2 wp_step. unfold tryFindClientContext; cbn [id_].
      rewrite E2, E1. cbn. rewrite (fresh_id _ Hinv). apply (wp_upd event_handler I ok); [done|]. intros w3 Hi3 E3. wp_step.
      apply (wp_emit event_handler I ok); [done|done|by rewrite E3, E2, E1|]. intros e w4 Hi4 _. by apply wp_ret.
    + apply wlp_handleAccept; [done|pose proof (inv_counter _ Hinv); lia|by apply fresh_id| |].
      * intros w1 K. by eapply keeps_inv.
      * intros raw_fd w1 _ K. eapply keeps_inv; [done|]. by apply accepted_inv.
  - intros client_id ctx E Hok. eapply wp_mono; [by apply wp_handleClientRequest|].
    intros _ w' [Hi' K]. split; [done|]. eapply keeps_inv; [done|]. by apply requested_inv.
Qed.

(** A client that is connected is served. When its socket holds the frames of
    [ms] and the beginning of one more (all that is left of its stream so far),
    as many callbacks as there are bytes and events pass all of [ms] on. *)
Theorem server_serves client_id ctx ms m part future n w :
  I w -> PipeInv (get_part w) -> client_id_to_context_ (get_part w) !! client_id = Some ctx ->
  ok (PipeDisconnected client_id) -> (forall m, m ∈ ms -> ok (PipeMessage client_id m)) ->
  Forall valid_msg ms -> valid_msg m -> part ++ future = frame m -> future <> [] ->
  Forall benign (ctx_rx ctx) ->
  pending (io_state_ ctx) ++ rx_data (ctx_rx ctx) = concat (frame <$> ms) ++ part ->
  (rx_measure (ctx_rx ctx) <= n)%nat ->
  wp (mfor (seq 0 n) (fun _ => handleClientRequest event_handler client_id))
     (fun _ w' => I w' /\ PipeInv (get_part w') /\
        is_Some (client_id_to_context_ (get_part w') !! client_id) /\
        messages client_id (event_log (get_part w')) =
        messages client_id (event_log (get_part w)) ++ ms) w.
Proof.
  intros Hi Hinv E Hd Hok Hv Hm Ef Hne Hb Hst Hn.
  set (log := messages client_id (event_log (get_part w))).
  set (J := fun (l : list nat) (w' : W) => I w' /\ PipeInv (get_part w') /\ exists ctx' dl rest,
    client_id_to_context_ (get_part w') !! client_id = Some ctx' /\
    ms ++ [m] = dl ++ rest /\ messages client_id (event_log (get_part w')) = log ++ dl /\
    streams client_id future rest (get_part w') /\ (rx_measure (ctx_rx ctx') <= length l)%nat).
  eapply wp_mono; [apply (wp_mfor J)|].
  - intros a l w1 (Hi1 & Hinv1 & ctx1 & dl & rest & E1 & Hms & Hlog & Hs1 & Hl).
    assert (Forall valid_msg rest) as Hvr.
    { assert (Forall valid_msg (dl ++ rest)) as Hall
        by (rewrite <- Hms; apply Forall_app; split; [done|by apply Forall_singleton]).
      by apply Forall_app in Hall as [_ ?]. }
    assert (request_ok client_id ctx1) as Hreq.
    { split; [done|]. intros x Hx. apply Hok. by eapply stream_next. }
    destruct (requested_streams _ _ _ _ _ Hinv1 Hvr Hs1 E1) as (d2 & r2 & ctx2 & -> & Hm2 & Hs2 & E2 & Hl2 & _).
    eapply wp_mono; [by apply wp_handleClientRequest|]. intros [] w2 [Hi2 K].
    destruct (keeps_found _ _ _ _ K E2) as (ctx3 & E3 & [= _ _ _ _ Hrx]).
    split; [done|]. split; [eapply keeps_inv; [done|]; by apply requested_inv|].
    exists ctx3, (dl ++ d2), r2. rewrite <- app_assoc. split; [done|]. split; [done|].
    split; [by rewrite (keeps_log _ _ K), Hm2, Hlog, <- app_assoc|].
    split; [by eapply keeps_streams|]. rewrite Hrx. cbn [length] in Hl. lia.
  - split; [done|]. split; [done|]. exists ctx, [], (ms ++ [m]).
    split; [done|]. split; [done|]. split; [by rewrite app_nil_r|]. split; [|by rewrite length_seq].
    exists ctx. split; [done|]. split; [done|].
    by rewrite app_assoc, Hst, <- app_assoc, Ef, fmap_app, concat_app; cbn; rewrite app_nil_r.
  - intros [] w' (Hi' & Hinv' & ctx' & dl & rest & E' & Hms & Hlog & (ctx'' & E'' & _ & Hp) & Hl).
    split; [done|]. split; [done|]. split; [eauto|].
    rewrite Hlog. f_equal. rewrite E' in E''. injection E'' as <-.
    pose proof (inv_context _ Hinv' _ _ E') as (_ & _ & Hwf & _).
    destruct (unfinished_frame _ _ _ _ _ _ _ _ Hv Hwf Hms Ef Hne Hp) as [_ Hall].
    apply Hall. destruct (ctx_rx ctx') as [|e rx]; [done|]. rewrite rx_measure_cons in Hl.
    destruct e; cbn in Hl; lia.
Qed.
End total.

(** ** The world above the server moves only by handling its events *)

Section handled.
Context {W : Type} `{HasOk SocketServer W}.
Context (event_handler : PipeEvent -> M W OptError) `{!HandlerKeeps (S := SocketServer) event_handler}.
(** The part of the world that is not the server. *)
Context {R : Type} (rest : W -> R).

Context (rest_put : forall (s : SocketServer) w, rest (put_part s w) = rest w).

Lemma relays_start : relays event_handler rest start.
Proof. unfold start, makeSocketHandle. relay_steps. Qed.

Lemma relays_handleAccept peer : relays event_handler rest (handleAccept event_handler peer).
Proof. unfold handleAccept, emplace_context. relay_steps. Qed.

Lemma relays_erase_context client_id : relays event_handler rest (erase_context client_id).
Proof. unfold erase_context. relay_steps. Qed.
#[local] Hint Resolve relays_erase_context : relays.

Lemma relays_handleClientRequest client_id : relays event_handler rest (handleClientRequest event_handler client_id).
Proof. unfold handleClientRequest. relay_steps. Qed.

(** In a run of the executor's callbacks, with data arriving at any time, the
    world above the server does exactly this: it handles, one after the other
    and each once, the events that were logged. *)
Lemma server_events_handled ls w w' :
  Forall (fun l => l <> LOther) ls -> steps event_handler ls w w' ->
  exists evs, event_log (get_part w') = event_log (get_part w) ++ evs /\ handled event_handler rest evs w w'.
Proof.
  intros Hl Hs. induction Hs as [w|l ls w w1 w2 Hst Hs IH].
  { exists []. rewrite app_nil_r. split; [done|]. by apply handled_nil. }
  apply Forall_cons in Hl as [Hne Hl]. destruct (IH Hl) as (evs2 & E2 & H2).
  enough (exists evs, event_log (get_part w1) = event_log (get_part w) ++ evs /\ handled event_handler rest evs w w1)
    as (evs1 & E1 & H1).
  { exists (evs1 ++ evs2). split; [by rewrite E2, E1, app_assoc|]. by eapply handled_app. }
  destruct Hst as [w e w' Hf Hr|peer fd w w' Ha Hb Hr|id ctx fd w w' E Hcb Hr|id evs w|w w' K]; [..|done].
  - exact (wlp_Done _ _ _ _ _ (relays_start w) Hr).
  - exact (wlp_Done _ _ _ _ _ (relays_handleAccept peer w) Hr).
  - exact (wlp_Done _ _ _ _ _ (relays_handleClientRequest id w) Hr).
  - exists []. rewrite get_put, app_nil_r. split; [done|]. apply handled_nil, rest_put.
Qed.
End handled.

(** ** A concrete server, for the witnesses *)
Module SocketServerExample.

#[global] Instance self_has_server : Has SocketServer SocketServer := {
  get_part s := s;
  put_part s _ := s;
}.
#[global] Instance self_has_server_ok : HasOk SocketServer SocketServer.
Proof. by split. Qed.

(** A handler that answers every message. *)
Definition ex_echo (ev : PipeEvent) : M SocketServer OptError :=
  match ev with
  | PipeMessage cl m => liftF (server_send cl (SocketBuffer.ofPayload (span m)))
  | _ => mret None
  end.

#[global] Instance ex_echo_keeps : HandlerKeeps ex_echo.
Proof.
  intros [cl|cl m|cl] w; cbn [ex_echo]; try (apply wlp_ret; reflexivity).
  unfold wlp, liftF. pose proof (server_send_keeps cl (SocketBuffer.ofPayload (span m)) w) as K.
  by destruct (server_send _ _ w).
Qed.

(** Socket 3, two clients on 7 and 8; the first sends "hi" and "you", in pieces,
    and the second rubbish. *)
Definition ex_kernel : Kernel :=
  mkKernel [Ret 3; Ret 0; Ret 0; Ret 0; Ret 0; Ret 7; Ret 0; Ret 8; Ret 0] [].
Definition ex_address : SocketAddress := mkSA false 0 (AddrUnix []).
Definition ex_new : SocketServer := SocketServer_new ex_address ex_kernel.
Definition ex_arrivals : list RxEvent :=
  [RxData (frame (str "hi") ++ take 3 (frame (str "you"))); RxErr Errno.EAGAIN].

Definition done_with {A} (o : outcome (A * SocketServer)) : SocketServer :=
  match o with Done (_, s) => s | Undef => ex_new end.
Definition ex_started : SocketServer := done_with (start ex_new).
Definition ex_two : SocketServer :=
  done_with (handleAccept ex_echo ex_address (done_with (handleAccept ex_echo ex_address ex_started))).
Definition ex_arrive (client_id : ClientId) (evs : list RxEvent) (s : SocketServer) : SocketServer :=
  set_contexts (alter (ctx_arrive evs) client_id) s.
Definition ex_end : SocketServer :=
  let run cl s := done_with (handleClientRequest ex_echo cl s) in
  run 1 (run 2 (run 1 (ex_arrive 2 [RxData (str "rubbish!")] (ex_arrive 1 ex_arrivals ex_two)))).
Definition ex_labels : list label :=
  [LArrive 1 ex_arrivals; LArrive 2 [RxData (str "rubbish!")]; LReadable 1; LReadable 2; LReadable 1].

Lemma ex_steps_up : steps ex_echo [LStart None; LAccept ex_address; LAccept ex_address] ex_new ex_two.
Proof.
  eapply steps_cons; [apply (step_start _ _ _ ex_started); by vm_compute|].
  eapply steps_cons; [apply (step_accept _ _ 3 _ (done_with (handleAccept ex_echo ex_address ex_started))); by vm_compute|].
  eapply steps_cons; [apply (step_accept _ _ 3 _ ex_two); by vm_compute|]. apply steps_nil.
Qed.

Lemma ex_steps : steps ex_echo ex_labels ex_two ex_end.
Proof.
  eapply steps_cons; [apply step_arrive|]. eapply steps_cons; [apply step_arrive|].
  eapply steps_cons; [eapply (step_readable _ 1); by vm_compute|].
  eapply steps_cons; [eapply (step_readable _ 2); by vm_compute|].
  eapply steps_cons; [eapply (step_readable _ 1); by vm_compute|]. apply steps_nil.
Qed.
End SocketServerExample.

Section witnesses.
Import SocketServerExample.

Lemma server_sessions_witness : forall client_id,
  session client_id (event_log (get_part ex_two)) = Some (status client_id (get_part ex_two)).
Proof.
  intros client_id. exact (proj1 (server_sessions ex_echo ex_address ex_kernel [LStart None; LAccept ex_address; LAccept ex_address]
                        ex_new ex_two client_id eq_refl ex_steps_up)).
Defined.

Lemma server_delivers_witness : exists ctx delivered,
  client_id_to_context_ (get_part ex_end) !! 1 = Some ctx /\
  messages 1 (event_log (get_part ex_end)) = messages 1 (event_log (get_part ex_two)) ++ delivered /\
  delivered `prefix_of` [str "hi"] /\ (ctx_rx ctx = [] -> delivered = [str "hi"]).
Proof.
  pose proof (steps_inv ex_echo _ ex_new ex_two ex_steps_up (new_inv ex_address ex_kernel)) as Hi.
  apply (server_delivers ex_echo 1 (mkClientContext 1 7 IoState_init (Some 7) [] [] []) [str "hi"]
           (str "you") (take 3 (frame (str "you"))) (drop 3 (frame (str "you"))) ex_labels ex_two ex_end Hi).
  - by vm_compute.
  - done.
  - done.
  - repeat constructor; by vm_compute.
  - split; by vm_compute.
  - by vm_compute.
  - by vm_compute.
  - unfold ex_labels, arrivals; cbn. unfold ex_arrivals. repeat constructor; by vm_compute.
  - by vm_compute.
  - exact ex_steps.
Defined.
End witnesses.
