(* ===== verification/ServerStack.v ===== *)
(** * The daemon's IPC side as a whole: socket server and router

    [ServerRouter] handles the events of [SocketServer], and sends through it:
    the world is a router whose environment is the server, and the event handler
    of the server is [ServerRouterImpl::handlePipeEvent]. *)
From S2P Require Import Prelude Errors SocketBuffer Posix SocketAddress SocketOps SocketBase PipeBase PipeFrames.
From S2P Require Import Gateway GatewayFacts WireExample ServerRouter ServerRouterFacts Channel SocketServer.
Import Server.

Local Open Scope Z_scope.

#[export] Instance router_has_server {H F} : Has SocketServer (Router H F SocketServer) := {
  get_part := sr_env;
  put_part s r := mkRouter (sr_heap r) (client_id_to_map_of_gateways_ r)
                             (service_id_to_channel_factory_ r) (sr_sent r) s;
}.
#[export] Instance router_has_server_ok {H F} : HasOk SocketServer (Router H F SocketServer).
Proof. by split. Qed.

(** The router does not look at its environment. *)
Lemma put_part_inv {H F} s (r : Router H F SocketServer) : Inv r -> Inv (put_part s r).
Proof. intros [Hw Hr]. by split. Qed.

(** A part of the daemon's world of type [S] that changes only with what is handed to
    the pipe: the server itself, or a view of its streams. What is handed to the pipe is [fine]. *)
Class ServerPart (fine : bytes -> Prop) (S H F : Type) `{PipeState S PipeEvent} `{Has S (Router H F SocketServer)} : Prop := {
  server_same_part : forall r r' : Router H F SocketServer,
    sr_env r' = sr_env r -> sr_sent r' = sr_sent r -> get_part (S := S) r' = get_part r;
  server_write_frames : forall cl b,
    SocketBuffer.wf b -> fine (SocketBuffer.contents b) -> frames S (pipe_write (H := H) (F := F) server_send cl b);
}.

(** Users of channels reach the pipe only through their gateways. *)
Class FramedClients (S : Type) {H F : Type} `{PipeState S PipeEvent} `{Has S (Router H F SocketServer)}
    (run_handler : H -> GwEvent -> M (Router H F SocketServer) OptError)
    (run_factory : F -> GwId -> bytes -> M (Router H F SocketServer) unit) : Prop := {
  handler_frames : forall h e, frames S (run_handler h e);
  factory_frames : forall f g payload, frames S (run_factory f g payload);
}.

#[export] Instance server_is_part {H F} : ServerPart (fun _ => True) SocketServer H F.
Proof.
  split; [by intros r r' E _|]. intros cl b _ _ w. unfold wlp, pipe_write.
  pose proof (server_send_keeps cl b (sr_env w)) as K. by destruct (server_send cl b (sr_env w)).
Qed.

Section frame.
Context {S H F : Type} `{RouteCodec : Codec Route} {fine : bytes -> Prop} `{!WireFine fine}.
Abbreviation W := (Router H F SocketServer).
Context `{PipeStateOk S PipeEvent} `{HasS : Has S W} `{!HasOk S W} `{!ServerPart fine S H F}.
Context (VERSION_MAJOR VERSION_MINOR : Z).
Context (run_handler : H -> GwEvent -> M W OptError).
Context (run_factory : F -> GwId -> bytes -> M W unit).
Context (gw_order : gmap Tag GwId -> list (Tag * GwId)).
Context `{!FramedClients S run_handler run_factory}.
Abbreviation frames := (frames S).

#[local] Hint Extern 1 (get_part _ = get_part _) => (apply server_same_part; reflexivity) : frames.
Hint Resolve factory_frames handler_frames : frames.

Lemma frames_send_route cl route :
  is_channel_msg route = false -> frames (send_route (H := H) (F := F) server_send cl route).
Proof.
  intros Hr. unfold send_route, tryPerformOnSerialized. destruct (serialize _ _) as [bs|] eqn:E; [|frame_steps].
  apply (server_write_frames (fine := fine)); [apply SocketBuffer.wf_ofPayload|].
  rewrite SocketBuffer.contents_ofPayload, SocketBuffer.payload_data_span. by eapply fine_route.
Qed.
#[local] Hint Extern 0 (is_channel_msg _ = false) => reflexivity : frames.
Hint Resolve frames_send_route : frames.

Lemma frames_dispose gw : frames (dispose (H := H) (F := F) server_send gw).
Proof. unfold dispose, onGatewayDisposal. frame_steps. Qed.

Lemma set_heap_frames f (w : W) : get_part (S := S) (w_set_heap f w) = get_part w.
Proof. by apply server_same_part. Qed.
Hint Resolve frames_dispose set_heap_frames : frames.

Lemma frames_handlePipeEvent ev :
  frames (handlePipeEvent VERSION_MAJOR VERSION_MINOR server_send run_handler run_factory gw_order ev).
Proof.
  destruct ev as [cl|cl payload|cl]; cbn [handlePipeEvent].
  - frame_steps.
  - unfold handlePipeMessage, handleRouteConnect, handleRouteChannelMsg, handleRouteChannelEnd, open_channel.
    gateway_frames.
  - unfold handlePipeDisconnected. gateway_frames.
Qed.

(** What users of channels do, at any time. *)
Lemma frames_gateway_send g service_id b :
  SocketBuffer.wf b -> frames (gateway_send (H := H) (F := F) server_send g service_id b).
Proof.
  intros Hwf. unfold gateway_send, tryPerformOnSerialized. frame_steps. match goal with E : serialize _ _ = Some _ |- _ => rename E into Hs end.
  apply (server_write_frames (fine := fine)); [by apply SocketBuffer.wf_prepend|].
  rewrite SocketBuffer.contents_prepend, SocketBuffer.payload_data_span. by eapply fine_channel_msg.
Qed.

Lemma frames_gateway_complete g opt_error keep_alive :
  frames (gateway_complete (H := H) (F := F) server_send g opt_error keep_alive).
Proof. unfold gateway_complete. frame_steps. Qed.

Lemma frames_gateway_subscribe g h : frames (gateway_subscribe (F := F) server_send run_handler g h).
Proof. unfold gateway_subscribe, onGatewaySubscription. gateway_frames. Qed.

Lemma frames_disown g : frames (disown (dispose (H := H) (F := F) server_send) g).
Proof. unfold disown. frame_steps. apply frames_drop_refs; eauto with frames nocore. Qed.

Lemma frames_acquire g : frames (own (W := W) g).
Proof. unfold own. frame_steps. Qed.

Abbreviation handle_event :=
  (handlePipeEvent VERSION_MAJOR VERSION_MINOR server_send run_handler run_factory gw_order).

#[export] Instance router_keeps : HandlerKeeps (S := S) handle_event.
Proof. intros ev w. apply frames_handlePipeEvent. Qed.
End frame.

Section total.
Context {H F : Type} `{RouteCodec : Codec Route}.
Abbreviation W := (Router H F SocketServer).
Context (VERSION_MAJOR VERSION_MINOR : Z).
Context (run_handler : H -> GwEvent -> M W OptError).
Context (run_factory : F -> GwId -> bytes -> M W unit).
Context (gw_order : gmap Tag GwId -> list (Tag * GwId)).
Abbreviation handle_event :=
  (handlePipeEvent VERSION_MAJOR VERSION_MINOR server_send run_handler run_factory gw_order).
Context `{Hclients : !Clients (Env := SocketServer) run_handler run_factory}.

(** The router never fails on a message whose announced size fits. *)
#[export] Instance router_total : HandlerTotal (S := SocketServer) handle_event Inv event_fits.
Proof.
  split.
  - intros ev r Hi Hok. eapply wp_mono; [by apply handlePipeEvent_total|]. by intros ? r' (? & _).
  - intros s r. apply put_part_inv.
Qed.
End total.

(** ** The whole *)

(** What the router has besides the pipe. *)
Definition router_part {H F Env} (r : Router H F Env) :=
  (sr_heap r, client_id_to_map_of_gateways_ r, service_id_to_channel_factory_ r, sr_sent r).

Lemma router_part_put {H F} s (r : Router H F SocketServer) : router_part (put_part s r) = router_part r.
Proof. reflexivity. Qed.

Section stack.
Context {H F : Type} `{RouteCodec : Codec Route}.
Abbreviation W := (Router H F SocketServer).
Context (VERSION_MAJOR VERSION_MINOR : Z).
Context (run_handler : H -> GwEvent -> M W OptError).
Context (run_factory : F -> GwId -> bytes -> M W unit).
Context (gw_order : gmap Tag GwId -> list (Tag * GwId)).
Context `{!FramedClients SocketServer run_handler run_factory}.
Abbreviation handle_event :=
  (handlePipeEvent VERSION_MAJOR VERSION_MINOR server_send run_handler run_factory gw_order).

(** C3: the daemon refines its router. Start a new server, and let the executor
    run its callbacks in any order while anything arrives from any clients. Then
    the router did exactly this: it handled a list of pipe events, one after the
    other; and for every client that list is a session (connected once,
    messages, disconnected once), open as long as the server has its socket. *)
Theorem daemon_refines_router address k ls r r' :
  sr_env r = SocketServer_new address k ->
  Forall (fun l => l <> LOther) ls -> steps handle_event ls r r' ->
  exists evs, handled handle_event router_part evs r r' /\
    forall client_id, session client_id evs = Some (status client_id (sr_env r')).
Proof.
  intros E Hl Hs.
  destruct (server_events_handled handle_event router_part router_part_put ls r r' Hl Hs) as (evs & Elog & Hh).
  exists evs. split; [done|]. intros client_id.
  assert (PipeInv (sr_env r')) as Hi by (apply (steps_inv handle_event ls r r' Hs); cbn; rewrite E; apply new_inv).
  cbn in Elog. rewrite E in Elog. cbn in Elog. rewrite <- Elog. apply (inv_session _ Hi).
Qed.

Context `{Hclients : !Clients (Env := SocketServer) run_handler run_factory}.

(** The daemon serves a client through the socket and the router. When the
    socket of a connected client holds the frames of [ms] (cut and interrupted in
    any way) and the beginning of one more, and the messages are well-formed
    for the router, then as many callbacks as there are bytes and events pass
    all of [ms] to the router, in order; nothing goes wrong in either
    of them, and the client stays connected. *)
Theorem daemon_serves_client client_id ctx ms m part future n r :
  Inv r -> PipeInv (sr_env r) -> client_id_to_context_ (sr_env r) !! client_id = Some ctx ->
  (forall m, m ∈ ms -> event_fits (PipeMessage client_id m)) ->
  Forall valid_msg ms -> valid_msg m -> part ++ future = frame m -> future <> [] ->
  Forall benign (ctx_rx ctx) ->
  pending (io_state_ ctx) ++ rx_data (ctx_rx ctx) = concat (frame <$> ms) ++ part ->
  (rx_measure (ctx_rx ctx) <= n)%nat ->
  wp (mfor (seq 0 n) (fun _ => handleClientRequest handle_event client_id))
     (fun _ r' => Inv r' /\ PipeInv (sr_env r') /\
        is_Some (client_id_to_context_ (sr_env r') !! client_id) /\
        messages client_id (event_log (sr_env r')) =
        messages client_id (event_log (sr_env r)) ++ ms) r.
Proof.
  intros Hi Hp E Hfit Hv Hm Ef Hne Hb Hst Hn.
  eapply wp_mono.
  - by apply (server_serves handle_event Inv event_fits client_id ctx ms m part future n r).
  - by intros [] r'.
Qed.
End stack.

(** ** A concrete daemon, for the witnesses *)
Module StackExample.
Import WireExample ChannelExample.

(** A service of typed channels, whose handlers do nothing. *)
Abbreviation W := (Router (Adapter unit) unit SocketServer).
Definition ex_handler (h : Adapter unit) (e : GwEvent) : M W OptError := mret None.
Definition ex_new_channel (g : GwId) (svc : Z) (req : Num) : M W unit := mret tt.
Definition ex_factory (f : unit) (g : GwId) (payload : bytes) : M W unit := channel_factory 9 ex_new_channel g payload.

#[global] Instance stack_clients : Clients ex_handler ex_factory.
Proof.
  split; [intros h e; apply (safe_ret (fun _ => True))|].
  intros f g payload. unfold ex_factory, channel_factory. destruct (tryDeserializePayload payload); [|apply safe_ret].
  apply safe_bind; [|intros []; apply safe_ret]. eapply safe_weaken; [|apply own_safe].
  intros r Hl. unfold find_gw, locks_of in *; cbn in *.
  destruct (_ !! g); [eauto|lia].
Qed.

#[global] Instance stack_framed : FramedClients SocketServer ex_handler ex_factory.
Proof.
  split; [intros h e; apply frames_ret|]. intros f g payload. unfold ex_factory, channel_factory.
  destruct (tryDeserializePayload payload); [|apply frames_ret]. apply frames_bind; [|intros ?; apply frames_ret]. by apply frames_own.
Qed.

(** One client, connected on descriptor 7, whose socket holds a connection
    request, cut after 5 bytes, and one more byte. *)
Definition ex_hello : bytes := encode (Route_connect 0 2 (optErrorToDsdlError None)).
Definition ex_rx : list RxEvent :=
  [RxData (take 5 (frame ex_hello)); RxErr Errno.EAGAIN; RxData (drop 5 (frame ex_hello) ++ take 1 (frame ex_hello))].
Definition ex_ctx : ClientContext := mkClientContext 1 7 IoState_init (Some 7) ex_rx [] [].
Definition ex_pipe_server : SocketServer :=
  mkSocketServer 3 (mkSA false 0 (AddrUnix [])) 1 true (Some 3) {[1 := ex_ctx]} (mkKernel [] []) [PipeConnected 1].
Definition ex_daemon (s : SocketServer) : W := mkRouter (mkHeap ∅ 0 []) ∅ {[9 := tt]} [] s.

Lemma ex_daemon_inv s : Inv (ex_daemon s).
Proof.
  split; [by intros g gw|]. intros ep g. cbn. unfold lookup_gateway; cbn. by rewrite lookup_empty.
Qed.

Lemma ex_pipe_server_inv : PipeInv ex_pipe_server.
Proof.
  split; cbn; [lia| | |done].
  - intros id ctx. rewrite lookup_singleton_Some. intros [<- <-]. cbn. split; [lia|].
    split; [done|]. split; [apply IoState_init_wf|done].
  - intros id. change (session id [PipeConnected 1]) with (if 1 =? id then Some Opened else Some Absent).
    unfold status. cbn [client_id_to_context_ unique_client_id_counter_ ex_pipe_server].
    destruct (Z.eqb_spec 1 id) as [<-|Hne]; [by rewrite lookup_singleton_eq|].
    rewrite lookup_singleton_ne by done.
    destruct (Z.ltb_spec 0 id), (Z.leb_spec id 1); try done; lia.
Qed.
(** Starting a new daemon and accepting one client. *)
Definition ex_done {A} (o : outcome (A * W)) : W :=
  match o with Done (_, r) => r | Undef => ex_daemon SocketServerExample.ex_new end.
Definition ex_handle := handlePipeEvent 0 2 server_send ex_handler ex_factory map_to_list.
Definition ex_cold : W := ex_daemon SocketServerExample.ex_new.
Definition ex_listening : W := ex_done (start ex_cold).
Definition ex_connected : W := ex_done (handleAccept ex_handle SocketServerExample.ex_address ex_listening).
Definition ex_boot : list label := [LStart None; LAccept SocketServerExample.ex_address].

Lemma ex_boot_steps : steps ex_handle ex_boot ex_cold ex_connected.
Proof.
  eapply steps_cons; [apply (step_start _ _ None ex_listening); by vm_compute|].
  eapply steps_cons; [apply (step_accept _ _ 3 _ ex_connected); by vm_compute|]. apply steps_nil.
Qed.
End StackExample.

Section witnesses.
Import WireExample StackExample.

Lemma daemon_serves_client_witness : exists r',
  mfor (seq 0 60) (fun _ => handleClientRequest
    (handlePipeEvent 0 2 server_send ex_handler ex_factory map_to_list) 1) (ex_daemon ex_pipe_server) = Done (tt, r') /\
  messages 1 (event_log (sr_env r')) =
    messages 1 (event_log (sr_env (ex_daemon ex_pipe_server))) ++ [ex_hello].
Proof.
  assert (forall m, m ∈ [ex_hello] -> event_fits (PipeMessage 1 m)) as Hfit.
  { intros m Hm. apply list_elem_of_singleton in Hm as ->. intros tag seq sid size Hd. by vm_compute in Hd. }
  assert (valid_msg ex_hello) as Hv by (split; by vm_compute).
  assert (Forall benign (ctx_rx ex_ctx)) as Hb.
  { repeat apply Forall_cons_2; [by vm_compute|by right|by vm_compute|apply Forall_nil_2]. }
  assert (take 1 (frame ex_hello) ++ drop 1 (frame ex_hello) = frame ex_hello) as Hf by apply take_drop.
  assert (drop 1 (frame ex_hello) <> []) as Hne by (by vm_compute).
  assert (pending (io_state_ ex_ctx) ++ rx_data (ctx_rx ex_ctx) =
          concat (frame <$> [ex_hello]) ++ take 1 (frame ex_hello)) as Hs by (by vm_compute).
  assert (rx_measure (ctx_rx ex_ctx) <= 60)%nat as Hn by (apply Nat.leb_le; by vm_compute).
  pose proof (daemon_serves_client 0 2 ex_handler ex_factory map_to_list 1 ex_ctx [ex_hello] ex_hello
    (take 1 (frame ex_hello)) (drop 1 (frame ex_hello)) 60 (ex_daemon ex_pipe_server)
    (ex_daemon_inv _) ex_pipe_server_inv eq_refl Hfit (Forall_cons_2 _ _ _ Hv (Forall_nil_2 _)) Hv Hf Hne Hb Hs Hn) as Hw.
  pose proof (proj1 (wp_Done _ _ _) Hw) as ([] & r' & Hr & _ & _ & _ & Hm).
  exists r'. split; [exact Hr|exact Hm].
Defined.

Lemma daemon_refines_router_witness : exists evs,
  handled ex_handle router_part evs ex_cold ex_connected /\
  forall client_id, session client_id evs = Some (status client_id (sr_env ex_connected)).
Proof.
  exact (daemon_refines_router 0 2 ex_handler ex_factory map_to_list SocketServerExample.ex_address
    SocketServerExample.ex_kernel ex_boot ex_cold ex_connected eq_refl ltac:(by repeat constructor) ex_boot_steps).
Defined.
End witnesses.
