(* ===== verification/SocketClient.v ===== *)
(** * The client's end of the socket pipe

    Models [src/common/ipc/pipe/socket_client.cpp]: connecting, receiving from the
    server and sending to it, and what happens when the connection ends. Like
    [SocketServer], the client is part of a bigger world (see [PipeBase]), and
    what arrives when is up to the environment (relation [step]). *)
From S2P Require Import Prelude Errors SocketBuffer Posix SocketAddress SocketOps SocketBase PipeBase ClientRouter.
Import Client.

Local Open Scope Z_scope.

(** [IPosixExecutorExtension::Trigger] *)
Inductive Trigger : Type :=
| Readable (fd : Z)
| Writable (fd : Z).

(** What is observed of a client: successful calls of [start], and the events
    passed to [event_handler_]. *)
Inductive Observed : Type :=
| Started
| Event (ev : PipeEvent).

(** [SocketClient], with the kernel's side of its connection: what is to be
    received, how writes will be answered, and what was written. *)
Record SocketClient := mkSocketClient {
  cl_address : SocketAddress;
  cl_fd : Z;
  cl_io_state : IoState;
  socket_callback_ : option Trigger;
  cl_handler_set : bool;
  cl_rx : list RxEvent;
  cl_tx : list TxEvent;
  cl_out : bytes;
  cl_kernel : Kernel;
  cl_log : list Observed;
}.

(** [SocketClient::SocketClient] *)
Definition SocketClient_new (address : SocketAddress) (k : Kernel) : SocketClient :=
  mkSocketClient address (-1) IoState_init None false [] [] [] k [].

Definition set_callback (cb : option Trigger) (s : SocketClient) : SocketClient :=
  mkSocketClient (cl_address s) (cl_fd s) (cl_io_state s) cb (cl_handler_set s)
    (cl_rx s) (cl_tx s) (cl_out s) (cl_kernel s) (cl_log s).
Definition set_cl_handler (s : SocketClient) : SocketClient :=
  mkSocketClient (cl_address s) (cl_fd s) (cl_io_state s) (socket_callback_ s) true
    (cl_rx s) (cl_tx s) (cl_out s) (cl_kernel s) (cl_log s).
Definition set_cl_kernel (k : Kernel) (s : SocketClient) : SocketClient :=
  mkSocketClient (cl_address s) (cl_fd s) (cl_io_state s) (socket_callback_ s) (cl_handler_set s)
    (cl_rx s) (cl_tx s) (cl_out s) k (cl_log s).
Definition log_observed (o : Observed) (s : SocketClient) : SocketClient :=
  mkSocketClient (cl_address s) (cl_fd s) (cl_io_state s) (socket_callback_ s) (cl_handler_set s)
    (cl_rx s) (cl_tx s) (cl_out s) (cl_kernel s) (cl_log s ++ [o]).
(** A new connection on [fd]: nothing was received or sent yet. *)
Definition set_connection (fd : Z) (s : SocketClient) : SocketClient :=
  mkSocketClient (cl_address s) fd (cl_io_state s) (socket_callback_ s) (cl_handler_set s)
    [] (cl_tx s) [] (cl_kernel s) (cl_log s).
(** [io_state_.fd.reset(); io_state_.rx_partial_size = 0;
    io_state_.rx_msg_part.emplace<IoState::MsgHeader>();] *)
Definition reset_io (s : SocketClient) : SocketClient :=
  mkSocketClient (cl_address s) (-1) IoState_init (socket_callback_ s) (cl_handler_set s)
    (cl_rx s) (cl_tx s) (cl_out s) (cl_kernel s) (cl_log s).
Definition cl_received (r : Received) (s : SocketClient) : SocketClient :=
  mkSocketClient (cl_address s) (cl_fd s) (rcv_state r) (socket_callback_ s) (cl_handler_set s)
    (rcv_rx r) (cl_tx s) (cl_out s) (cl_kernel s) (cl_log s).
Definition cl_written (out : bytes) (tx : list TxEvent) (s : SocketClient) : SocketClient :=
  mkSocketClient (cl_address s) (cl_fd s) (cl_io_state s) (socket_callback_ s) (cl_handler_set s)
    (cl_rx s) tx (cl_out s ++ out) (cl_kernel s) (cl_log s).
(** The network brings more. *)
Definition cl_arrive (evs : list RxEvent) (s : SocketClient) : SocketClient :=
  mkSocketClient (cl_address s) (cl_fd s) (cl_io_state s) (socket_callback_ s) (cl_handler_set s)
    (cl_rx s ++ evs) (cl_tx s) (cl_out s) (cl_kernel s) (cl_log s).

(** [SocketClient::send]; without a connection the kernel refuses the descriptor. *)
Definition client_send (sock_buff : SocketBuffer.t) (s : SocketClient) : OptError * SocketClient :=
  if cl_fd s <? 0 then
    let '(e, _, _, _) := SocketBase.send sock_buff [TxErr Errno.EBADF] in (e, s)
  else
    let '(e, out, _, tx) := SocketBase.send sock_buff (cl_tx s) in (e, cl_written out tx s).

(** What a handler, or anything else, may do to the client: send. *)
Record client_keeps (s s' : SocketClient) : Prop := {
  keeps_fd : cl_fd s' = cl_fd s;
  keeps_io : cl_io_state s' = cl_io_state s;
  keeps_callback : socket_callback_ s' = socket_callback_ s;
  keeps_handler_set : cl_handler_set s' = cl_handler_set s;
  keeps_rx : cl_rx s' = cl_rx s;
  keeps_observed : cl_log s' = cl_log s;
}.

Definition events_of (log : list Observed) : list PipeEvent :=
  omap (fun o => match o with Event ev => Some ev | Started => None end) log.

#[export] Instance client_pipe : PipeState SocketClient PipeEvent := {
  pipe_kernel := cl_kernel;
  pipe_set_kernel := set_cl_kernel;
  pipe_handler_set := cl_handler_set;
  pipe_log s := events_of (cl_log s);
  pipe_log_event ev := log_observed (Event ev);
  keeps := client_keeps;
}.
#[export] Instance client_pipe_ok : PipeStateOk SocketClient PipeEvent.
Proof.
  split.
  - split; [by split|]. intros s1 s2 s3 [] []. split; congruence.
  - by split.
  - intros s s' []. cbn. congruence.
  - intros ev s. cbn. unfold events_of. by rewrite omap_app.
Qed.

Section operations.
Context {W : Type} `{Has SocketClient W}.
Context (event_handler : PipeEvent -> M W OptError).

(** [SocketClient::makeSocketHandle] *)
Definition makeSocketHandle : M W OptError :=
  s ← gets (get_part (S := SocketClient));
  maybe_socket ← sys (SocketOps.socket (cl_address s) SOCK_STREAM);
  match maybe_socket with
  | inr failure => mret (Some failure)
  | inl socket_fd =>
      opt_error ← sys (SocketOps.connect socket_fd);
      let connected :=
        close_fd (cl_fd s);; upd (set_connection socket_fd);; mret None in
      match opt_error with
      | Some e =>
          if negb (Code.OperationInProgress =? getCode e)
          then close_fd socket_fd;; mret (Some e)
          else connected
      | None => connected
      end
  end.

(** [SocketClient::start] *)
Definition start : M W OptError :=
  upd set_cl_handler;;
  opt_error ← makeSocketHandle;
  match opt_error with
  | Some e => mret (Some e)
  | None =>
      s ← gets (get_part (S := SocketClient));
      upd (set_callback (Some (Writable (cl_fd s))));;
      upd (log_observed Started);;
      mret None
  end.

(** [SocketClient::handleDisconnect] *)
Definition handleDisconnect : M W unit :=
  upd (set_callback None);;
  s ← gets (get_part (S := SocketClient));
  close_fd (cl_fd s);;
  upd reset_io;;
  emit event_handler PipeDisconnected;;
  mret tt.

(** [SocketClient::handleConnect]: the answer of [getsockopt(SO_ERROR)] is the
    error of the connection, 0 for none. *)
Definition handleConnect : M W unit :=
  upd (set_callback None);;
  s ← gets (get_part (S := SocketClient));
  answer ← sys (posixSyscallError (SysGetSockError (cl_fd s)));
  let so_error := match answer with Fail err => err | Ret so_error => so_error end in
  if negb (so_error =? 0) then handleDisconnect
  else
    upd (set_callback (Some (Readable (cl_fd s))));;
    emit event_handler PipeConnected;;
    mret tt.

(** [SocketClient::handleReceive]. The message handler runs after [receiveData]
    has reset its state, and its result is ignored. *)
Definition handleReceive : M W unit :=
  s ← gets (get_part (S := SocketClient));
  let r := receiveData (cl_io_state s) (cl_rx s) in
  upd (cl_received r);;
  match rcv_msg r with
  | Some payload => emit event_handler (PipeMessage payload);; mret tt
  | None => mret tt
  end;;
  match rcv_error r with
  | Some _ => handleDisconnect
  | None => mret tt
  end.

(** ** The world around the client *)

(** One turn of the executor: the registered callback is run, [start] is called
    when there is no connection (its debug assertion), or data arrives. *)
Inductive turn : W -> W -> Prop :=
| turn_start w e w' :
    cl_fd (get_part w) = -1 -> socket_callback_ (get_part w) = None -> start w = Done (e, w') -> turn w w'
| turn_connect fd w w' :
    socket_callback_ (get_part w) = Some (Writable fd) ->
    handleConnect w = Done (tt, w') -> turn w w'
| turn_receive fd w w' :
    socket_callback_ (get_part w) = Some (Readable fd) ->
    handleReceive w = Done (tt, w') -> turn w w'
| turn_arrive evs w : turn w (put_part (cl_arrive evs (get_part w)) w).

(** In between, others use the pipe and the kernel. *)
Inductive step (w w' : W) : Prop :=
| step_turn : turn w w' -> step w w'
| step_other : keeps (get_part (S := SocketClient) w) (get_part w') -> step w w'.
End operations.

(** ** The contract of the pipe *)

(** The life of a client, as an acceptor of what is observed. *)
Inductive Life : Type := Idle | Connecting | Up.

Definition life_next (st : option Life) (o : Observed) : option Life :=
  match o, st with
  | Started, Some Idle => Some Connecting
  | Event PipeConnected, Some Connecting => Some Up
  | Event (PipeMessage _), Some Up => Some Up
  | Event PipeDisconnected, Some Connecting => Some Idle
  | Event PipeDisconnected, Some Up => Some Idle
  | _, _ => None
  end.

Definition life (log : list Observed) : option Life := foldl life_next (Some Idle) log.

Arguments life : simpl never.

(** Where the life is, from the callback that is registered. *)
Definition current (s : SocketClient) : Life :=
  match socket_callback_ s with
  | None => Idle
  | Some (Writable _) => Connecting
  | Some (Readable _) => Up
  end.

(** The invariant: the callback waits for the descriptor that is open; without
    a connection no descriptor is open, and nothing is left of the last stream. *)
Record ClientInv (s : SocketClient) : Prop := {
  client_life : life (cl_log s) = Some (current s);
  client_io : IoState_wf (cl_io_state s);
  client_fd : match socket_callback_ s with
              | None => cl_fd s = -1 /\ cl_io_state s = IoState_init
              | Some (Writable fd) => cl_fd s = fd /\ cl_io_state s = IoState_init
              | Some (Readable fd) => cl_fd s = fd
              end;
  client_handler : is_Some (socket_callback_ s) -> cl_handler_set s = true;
}.

(** ** Lemmas *)

Lemma life_snoc log o : life (log ++ [o]) = life_next (life log) o.
Proof. unfold life. by rewrite foldl_app. Qed.

Lemma client_send_keeps sock_buff s : keeps s (client_send sock_buff s).2.
Proof.
  unfold client_send. destruct (cl_fd s <? 0); destruct (SocketBase.send _ _) as [[[e out] b] tx]; [reflexivity|by split].
Qed.

Lemma new_client_inv address k : ClientInv (SocketClient_new address k).
Proof. split; cbn; [done|apply IoState_init_wf|done|by intros []]. Qed.

Lemma client_keeps_inv s s' : keeps s s' -> ClientInv s -> ClientInv s'.
Proof.
  intros [Kf Ki Kc Kh Kr Kl] [Hl Hi Hf Hh]. unfold current in *.
  split; unfold current; rewrite ?Kc, ?Kl, ?Ki, ?Kf, ?Kh; done.
Qed.

Section facts.
Context {W : Type} `{HasOk SocketClient W}.
Context (event_handler : PipeEvent -> M W OptError) `{!HandlerKeeps (S := SocketClient) event_handler}.
Abbreviation get := (get_part (S := SocketClient)).

(** The end of a life: whatever it was, the client is idle again. *)
Lemma wlp_handleDisconnect w (Q : unit -> W -> Prop) :
  (forall w', keeps (log_observed (Event PipeDisconnected) (reset_io (set_callback None (get w)))) (get w') -> Q tt w') ->
  wlp (handleDisconnect event_handler) Q w.
Proof.
  intros HQ. unfold handleDisconnect. wp_step. apply wlp_upd. intros w1 E1. wp_step. wp_step. wp_step.
  apply wlp_close_fd. intros w2 K2. wp_step. apply wlp_upd. intros w3 E3. wp_step.
  apply (wlp_emit event_handler). intros e w4 _ K4. apply wlp_ret, HQ. etrans; [|exact K4].
  rewrite E3. rewrite E1 in K2. destruct K2 as [Kf Ki Kc Kh Kr Kl]. split; cbn in *; congruence.
Qed.

Lemma disconnected_client_inv s :
  ClientInv s -> socket_callback_ s <> None ->
  ClientInv (log_observed (Event PipeDisconnected) (reset_io (set_callback None s))).
Proof.
  intros [Hl Hi Hf Hh] Hn. split; cbn; [|apply IoState_init_wf|done|by intros []].
  rewrite life_snoc, Hl. unfold current. by destruct (socket_callback_ s) as [[]|].
Qed.

(** A new connection, or nothing. *)
Lemma wlp_makeSocketHandle_client w (Q : OptError -> W -> Prop) :
  (forall e w', keeps (get w) (get w') -> Q (Some e) w') ->
  (forall fd w', keeps (set_connection fd (get w)) (get w') -> Q None w') ->
  wlp makeSocketHandle Q w.
Proof.
  intros Hno Hyes. unfold makeSocketHandle. do 3 wp_step. apply wlp_sys. intros [fd|e] w2 K2.
  2:{ by apply wlp_ret, Hno. }
  wp_step. apply wlp_sys. intros oe w3 K3. assert (keeps (get w) (get w3)) as K by (by etrans).
  assert (wlp (close_fd (cl_fd (get w));; upd (set_connection fd);; mret None) Q w3) as Hconn.
  { wp_step. apply wlp_close_fd. intros w4 K4. wp_step. apply wlp_upd. intros w5 E5. apply wlp_ret, (Hyes fd).
    rewrite E5. pose proof (transitivity K K4) as [Kf Ki Kc Kh Kr Kl]. by split. }
  destruct oe as [e|]; [|exact Hconn]. destruct (negb _); [|exact Hconn].
  wp_step. apply wlp_close_fd. intros w4 K4. apply wlp_ret, Hno. by etrans.
Qed.

Lemma client_start_inv w : ClientInv (get w) -> socket_callback_ (get w) = None ->
  wlp start (fun _ w' => ClientInv (get w')) w.
Proof.
  intros [Hl Hi Hf Hh] Hc. rewrite Hc in Hf. destruct Hf as [Hfd Hio].
  unfold current in Hl. rewrite Hc in Hl.
  unfold start. wp_step. apply wlp_upd. intros w1 E1. wp_step. apply wlp_makeSocketHandle_client.
  - intros e w2 K2. apply wlp_ret. eapply client_keeps_inv; [exact K2|]. rewrite E1.
    split; unfold current; cbn; rewrite ?Hc; auto.
  - intros fd w2 K2. do 3 wp_step. apply wlp_upd. intros w3 E3. wp_step. apply wlp_upd. intros w4 E4.
    apply wlp_ret. rewrite E1 in K2. destruct K2 as [Kf Ki Kc Kh Kr Kl]. rewrite E4, E3. cbn in *.
    split; cbn; [by rewrite life_snoc, Kl, Hl|by rewrite Ki|by rewrite Ki, Hio|done].
Qed.

Lemma client_connect_inv fd w : ClientInv (get w) -> socket_callback_ (get w) = Some (Writable fd) ->
  wlp (handleConnect event_handler) (fun _ w' => ClientInv (get w')) w.
Proof.
  intros Hinv Hc. unfold handleConnect. wp_step. apply wlp_upd. intros w1 E1. wp_step. wp_step. wp_step.
  apply wlp_sys. intros answer w2 K2. rewrite E1 in K2.
  destruct (negb _).
  - apply wlp_handleDisconnect. intros w3 K3. eapply client_keeps_inv; [exact K3|].
    eapply client_keeps_inv; [|apply (disconnected_client_inv (get w)); [done|by rewrite Hc]].
    destruct K2 as [Kf Ki Kc Kh Kr Kl]. split; cbn in *; congruence.
  - wp_step. apply wlp_upd. intros w3 E3. wp_step. apply (wlp_emit event_handler). intros e w4 Hh K4. apply wlp_ret.
    eapply client_keeps_inv; [exact K4|]. destruct Hinv as [Hl Hi Hf Hset]. unfold current in Hl.
    rewrite Hc in Hl, Hf. destruct Hf as [Hfd Hio].
    destruct K2 as [Kf Ki Kc Kh Kr Kl]. rewrite E3, E1 in *. cbn in *.
    split; cbn; [by rewrite life_snoc, Kl, Hl|by rewrite Ki|done|done].
Qed.

Lemma client_receive_inv fd w : ClientInv (get w) -> socket_callback_ (get w) = Some (Readable fd) ->
  wlp (handleReceive event_handler) (fun _ w' => ClientInv (get w')) w.
Proof.
  intros [Hl Hi Hf Hset] Hc. unfold current in Hl. rewrite Hc in Hl, Hf.
  pose proof (receiveData_safe (cl_io_state (get w)) (cl_rx (get w)) Hi) as [Hwf _].
  unfold handleReceive. wp_step. wp_step. set (r := receiveData _ _) in *.
  wp_step. apply wlp_upd. intros w1 E1. wp_step.
  (* up, but for the state of the stream when the receive failed *)
  set (up := fun s => life (cl_log s) = Some Up /\ socket_callback_ s = Some (Readable fd) /\ cl_fd s = fd /\
                      cl_io_state s = rcv_state r /\ cl_handler_set s = true).
  assert (forall w2, up (get w2) ->
    wlp (match rcv_error r with Some _ => handleDisconnect event_handler | None => mret tt end)
      (fun _ w' => ClientInv (get w')) w2) as Hrest.
  { intros w2 (A & B & C & D & E). destruct (rcv_error r).
    - apply wlp_handleDisconnect. intros w3 K3. eapply client_keeps_inv; [exact K3|].
      split; cbn; [by rewrite life_snoc, A|apply IoState_init_wf|done|by intros []].
    - apply wlp_ret. split; unfold current; rewrite ?B, ?D, ?A; auto. }
  destruct (rcv_msg r) as [m|].
  - wp_step. apply (wlp_emit event_handler). intros e w2 Hh K2. apply wlp_ret, Hrest.
    rewrite E1 in K2. destruct K2 as [Kf Ki Kc Kh Kr Kl]. cbn in *.
    unfold up. rewrite Kl, Kc, Kf, Ki, Kh, life_snoc, Hl. repeat split; [done..|]. apply Hset. by rewrite Hc.
  - apply wlp_ret, Hrest. unfold up. rewrite E1. cbn. repeat split; [done..|]. apply Hset. by rewrite Hc.
Qed.

Lemma client_step_inv w w' : step event_handler w w' -> ClientInv (get w) -> ClientInv (get w').
Proof.
  intros [Hs|K] Hi; [|by eapply client_keeps_inv].
  destruct Hs as [w e w' Hf Hc Hr|fd w w' Hc Hr|fd w w' Hc Hr|evs w].
  - exact (wlp_Done _ _ _ _ _ (client_start_inv w Hi Hc) Hr).
  - exact (wlp_Done _ _ _ _ _ (client_connect_inv fd w Hi Hc) Hr).
  - exact (wlp_Done _ _ _ _ _ (client_receive_inv fd w Hi Hc) Hr).
  - rewrite get_put. destruct Hi as [Hl Hi Hf Hh]. by split.
Qed.

Lemma client_steps_inv w w' : rtc (step event_handler) w w' -> ClientInv (get w) -> ClientInv (get w').
Proof.
  intros Hs Hi. revert Hs. apply (rtc_invariant (step event_handler) (fun w => ClientInv (get w))); [|done].
  intros w1 w2 Hw1 Hst. by eapply client_step_inv.
Qed.

(** The client's life is a cycle. Whatever the server, the network and the
    handlers do, in every run of a new client: a start is followed by either a
    disconnection (connecting failed) or one connection, its messages and a
    disconnection, and nothing else. Where it is in the cycle is what the
    registered callback says; and when it is idle again, no descriptor is open
    and nothing of the last stream is left for the next. *)
Theorem client_life_cycle address k w w' :
  get w = SocketClient_new address k -> rtc (step event_handler) w w' ->
  life (cl_log (get w')) = Some (current (get w')) /\ IoState_wf (cl_io_state (get w')) /\
  (current (get w') = Idle -> cl_fd (get w') = -1 /\ cl_io_state (get w') = IoState_init).
Proof.
  intros E Hs. assert (ClientInv (get w')) as [Hl Hi Hf Hh].
  { eapply client_steps_inv; [done|]. rewrite E. apply new_client_inv. }
  split; [done|]. split; [done|]. unfold current. by destruct (socket_callback_ _) as [[]|].
Qed.

(** *** Callbacks return *)

Section total.
Context (I : W -> Prop) (ok : PipeEvent -> Prop) `{!HandlerTotal (S := SocketClient) event_handler I ok}.
Context (ok_connected : ok PipeConnected) (ok_disconnected : ok PipeDisconnected).

Lemma wp_handleDisconnect w : I w -> cl_handler_set (get w) = true ->
  wp (handleDisconnect event_handler) (fun _ => I) w.
Proof.
  intros Hi Hh. unfold handleDisconnect, close_fd. wp_step. apply (wp_upd event_handler I ok); [done|].
  intros w1 Hi1 E1. do 3 wp_step. apply (wp_sys event_handler I ok); [done|]. intros w2 Hi2 E2.
  wp_step. apply (wp_upd event_handler I ok); [done|]. intros w3 Hi3 E3. wp_step.
  apply (wp_emit event_handler I ok); [done|done|by rewrite E3, E2, E1|]. intros e w4 Hi4 _. by apply wp_ret.
Qed.

(** The client's callbacks never fail: a registered callback returns, with the
    invariants of the client and of the world above it. *)
Theorem client_callbacks_return w :
  I w -> ClientInv (get w) ->
  (forall fd, socket_callback_ (get w) = Some (Writable fd) ->
     wp (handleConnect event_handler) (fun _ w' => I w' /\ ClientInv (get w')) w) /\
  (forall fd, socket_callback_ (get w) = Some (Readable fd) ->
     (forall m, rcv_msg (receiveData (cl_io_state (get w)) (cl_rx (get w))) = Some m -> ok (PipeMessage m)) ->
     wp (handleReceive event_handler) (fun _ w' => I w' /\ ClientInv (get w')) w).
Proof.
  intros Hi Hinv. split.
  - intros fd Hc. pose proof (client_handler _ Hinv ltac:(by rewrite Hc)) as Hh.
    apply (wp_wlp _ (fun _ w' => ClientInv (get w')) (fun _ => I)); [|by eapply client_connect_inv].
    unfold handleConnect. wp_step. apply (wp_upd event_handler I ok); [done|]. intros w1 Hi1 E1. do 3 wp_step.
    apply (wp_sys event_handler I ok); [done|]. intros w2 Hi2 E2.
    assert (cl_handler_set (get w2) = true) as Hh2 by (by rewrite E2, E1).
    destruct (negb _); [by apply wp_handleDisconnect|]. wp_step. apply (wp_upd event_handler I ok); [done|].
    intros w3 Hi3 E3. wp_step. apply (wp_emit event_handler I ok); [done|done|by rewrite E3|].
    intros e w4 Hi4 _. by apply wp_ret.
  - intros fd Hc Hok. pose proof (client_handler _ Hinv ltac:(by rewrite Hc)) as Hh.
    apply (wp_wlp _ (fun _ w' => ClientInv (get w')) (fun _ => I)); [|by eapply client_receive_inv].
    unfold handleReceive. do 2 wp_step. set (r := receiveData _ _) in *. wp_step.
    apply (wp_upd event_handler I ok); [done|]. intros w1 Hi1 E1. wp_step.
    assert (forall w2, I w2 -> cl_handler_set (get w2) = true ->
      wp (match rcv_error r with Some _ => handleDisconnect event_handler | None => mret tt end) (fun _ => I) w2)
      as Hrest by (intros w2 Hi2 Hh2; destruct (rcv_error r); [by apply wp_handleDisconnect|by apply wp_ret]).
    destruct (rcv_msg r) as [m|]; [|apply wp_ret, Hrest; [done|by rewrite E1]].
    wp_step. apply (wp_emit event_handler I ok); [done|by apply Hok|by rewrite E1|]. intros e w2 Hi2 K2.
    apply wp_ret, Hrest; [done|]. by rewrite (keeps_handler_set _ _ K2), E1.
Qed.
End total.

(** *** The world above the client moves only by handling its events *)

Section handled.
Context {R : Type} (rest : W -> R) (rest_put : forall (s : SocketClient) w, rest (put_part s w) = rest w).

Lemma relays_upd_quiet (f : SocketClient -> SocketClient) :
  (forall s, events_of (cl_log (f s)) = events_of (cl_log s)) -> relays event_handler rest (upd f).
Proof. intros Hf. apply relays_upd; [exact rest_put|exact Hf]. Qed.

Lemma relays_client_start : relays event_handler rest start.
Proof.
  unfold start, makeSocketHandle. relay_steps; apply relays_upd_quiet; intros s; cbn; try done.
  unfold events_of. rewrite omap_app. by rewrite app_nil_r.
Qed.

Lemma relays_handleDisconnect : relays event_handler rest (handleDisconnect event_handler).
Proof. unfold handleDisconnect. relay_steps. Qed.
#[local] Hint Resolve relays_handleDisconnect : relays.

Lemma relays_handleConnect : relays event_handler rest (handleConnect event_handler).
Proof. unfold handleConnect. relay_steps. Qed.

Lemma relays_handleReceive : relays event_handler rest (handleReceive event_handler).
Proof. unfold handleReceive. relay_steps. Qed.

Lemma client_events_handled w w' :
  rtc (turn event_handler) w w' ->
  exists evs, events_of (cl_log (get w')) = events_of (cl_log (get w)) ++ evs /\
              handled event_handler rest evs w w'.
Proof.
  induction 1 as [w|w w1 w2 Ht _ (evs2 & E2 & H2')].
  { exists []. rewrite app_nil_r. split; [done|]. by apply handled_nil. }
  enough (exists evs, events_of (cl_log (get w1)) = events_of (cl_log (get w)) ++ evs /\
                      handled event_handler rest evs w w1) as (evs1 & E1 & H1').
  { exists (evs1 ++ evs2). split; [by rewrite E2, E1, app_assoc|]. by eapply handled_app. }
  destruct Ht as [w e w1 Hf Hc Hr|fd w w1 Hc Hr|fd w w1 Hc Hr|evs w].
  - exact (wlp_Done _ _ _ _ _ (relays_client_start w) Hr).
  - exact (wlp_Done _ _ _ _ _ (relays_handleConnect w) Hr).
  - exact (wlp_Done _ _ _ _ _ (relays_handleReceive w) Hr).
  - exists []. rewrite get_put, app_nil_r. split; [done|]. apply handled_nil, rest_put.
Qed.
End handled.
End facts.
