(* ===== verification/ClientStack.v ===== *)
(** * The SDK's IPC side as a whole: socket client and router

    [ClientRouter] handles the events of [SocketClient], and sends through it: the
    world is a router whose environment is the socket client, and the event
    handler of the socket client is [ClientRouterImpl::handlePipeEvent]. *)
From S2P Require Import Prelude Errors SocketBuffer Posix SocketAddress SocketOps SocketBase PipeBase PipeFrames.
From S2P Require Import Gateway GatewayFacts WireExample ClientRouter ClientRouterFacts Channel SocketClient.
Import Client.

Local Open Scope Z_scope.

#[export] Instance router_has_client {H} : Has SocketClient (Router H SocketClient) := {
  get_part := cr_env;
  put_part s r := mkRouter (cr_heap r) (next_tag_ r) (is_connected_ r) (map_of_gateways_ r) (cr_sent r) s;
}.
#[export] Instance router_has_client_ok {H} : HasOk SocketClient (Router H SocketClient).
Proof. by split. Qed.

(** What the router has besides the pipe. *)
Definition client_router_part {H Env} (r : Router H Env) :=
  (cr_heap r, next_tag_ r, is_connected_ r, map_of_gateways_ r, cr_sent r).

Lemma client_router_part_put {H} (s : SocketClient) (r : Router H SocketClient) :
  client_router_part (put_part s r) = client_router_part r.
Proof. reflexivity. Qed.

(** A part of the SDK's world of type [S] that changes only with what is handed to
    the pipe: the socket itself, or a view of its streams. What is handed to the pipe is [fine]. *)
Class ClientPart (fine : bytes -> Prop) (S H : Type) `{PipeState S PipeEvent} `{Has S (Router H SocketClient)} : Prop := {
  client_same_part : forall r r' : Router H SocketClient,
    cr_env r' = cr_env r -> cr_sent r' = cr_sent r -> get_part (S := S) r' = get_part r;
  client_write_frames : forall b, SocketBuffer.wf b -> fine (SocketBuffer.contents b) -> frames S (pipe_write (H := H) client_send b);
}.

#[export] Instance client_is_part {H} : ClientPart (fun _ => True) SocketClient H.
Proof.
  split; [by intros r r' E _|]. intros b _ _ w. unfold wlp, pipe_write.
  pose proof (client_send_keeps b (cr_env w)) as K. by destruct (client_send b (cr_env w)).
Qed.

Section frame.
Context {S H : Type} `{RouteCodec : Codec Route} {fine : bytes -> Prop} `{!WireFine fine}.
Abbreviation W := (Router H SocketClient).
Context `{PipeStateOk S PipeEvent} `{HasS : Has S W} `{!HasOk S W} `{!ClientPart fine S H}.
Context (VERSION_MAJOR VERSION_MINOR : Z).
Context (run_handler : H -> GwEvent -> M W OptError).
Context (gw_order : gmap Tag GwId -> list (Tag * GwId)).
Abbreviation frames := (frames S).

(** Users of channels reach the pipe only through their gateways. *)
Context (handler_frames : forall h e, frames (run_handler h e)).

#[local] Hint Extern 1 (get_part _ = get_part _) => (apply client_same_part; reflexivity) : frames.
#[local] Hint Resolve handler_frames : frames.

Lemma client_send_route_frames route :
  is_channel_msg route = false -> frames (send_route (H := H) client_send route).
Proof.
  intros Hr. unfold send_route, tryPerformOnSerialized. destruct (serialize _ _) as [bs|] eqn:E; [|frame_steps].
  apply (client_write_frames (fine := fine)); [apply SocketBuffer.wf_ofPayload|].
  rewrite SocketBuffer.contents_ofPayload, SocketBuffer.payload_data_span. by eapply fine_route.
Qed.
#[local] Hint Extern 0 (is_channel_msg _ = false) => reflexivity : frames.
#[local] Hint Resolve client_send_route_frames : frames.

Lemma client_dispose_frames gw : frames (dispose (H := H) client_send gw).
Proof. unfold dispose, onGatewayDisposal. frame_steps. Qed.

Lemma client_set_heap_frames f (w : W) : get_part (S := S) (w_set_heap f w) = get_part w.
Proof. by apply client_same_part. Qed.
#[local] Hint Resolve client_dispose_frames client_set_heap_frames : frames.

Lemma lock_all_frames gateways : frames (lock_all (H := H) gateways).
Proof. induction gateways as [|[t g] l IH]; cbn [lock_all]; gateway_frames. Qed.
#[local] Hint Resolve lock_all_frames : frames.

Lemma client_handlePipeEvent_frames ev :
  frames (handlePipeEvent VERSION_MAJOR VERSION_MINOR client_send run_handler gw_order ev).
Proof.
  destruct ev as [|payload|]; cbn [handlePipeEvent].
  - unfold handlePipeConnected. frame_steps.
  - unfold handlePipeMessage, handleRouteConnect, forEachRegisteredGateway, handleRouteChannelMsg, handleRouteChannelEnd.
    gateway_frames.
  - unfold handlePipeDisconnected. gateway_frames.
Qed.

(** What users of channels do, at any time. *)
Lemma client_gateway_send_frames g service_id b :
  SocketBuffer.wf b -> frames (gateway_send (H := H) client_send g service_id b).
Proof.
  intros Hwf. unfold gateway_send, tryPerformOnSerialized. frame_steps. match goal with E : serialize _ _ = Some _ |- _ => rename E into Hs end.
  apply (client_write_frames (fine := fine)); [by apply SocketBuffer.wf_prepend|].
  rewrite SocketBuffer.contents_prepend, SocketBuffer.payload_data_span. by eapply fine_channel_msg.
Qed.

Lemma client_gateway_complete_frames g opt_error keep_alive :
  frames (gateway_complete (H := H) client_send g opt_error keep_alive).
Proof. unfold gateway_complete. frame_steps. Qed.

Lemma client_makeGateway_frames : frames (makeGateway (H := H)).
Proof. unfold makeGateway. frame_steps. Qed.

Lemma client_gateway_subscribe_frames g h : frames (gateway_subscribe client_send run_handler g h).
Proof. unfold gateway_subscribe, onGatewaySubscription. gateway_frames. Qed.

Lemma client_disown_frames g : frames (disown (dispose (H := H) client_send) g).
Proof. unfold disown. frame_steps. apply frames_drop_refs; eauto with frames nocore. Qed.

Lemma client_own_frames g : frames (own (W := W) g).
Proof. unfold own. frame_steps. Qed.
End frame.

Section stack.
Context {H : Type} `{RouteCodec : Codec Route}.
Abbreviation W := (Router H SocketClient).
Context (VERSION_MAJOR VERSION_MINOR : Z).
Context (run_handler : H -> GwEvent -> M W OptError).
Context (gw_order : gmap Tag GwId -> list (Tag * GwId)).
Context (handler_frames : forall h e, frames SocketClient (run_handler h e)).
Abbreviation handle_event :=
  (handlePipeEvent VERSION_MAJOR VERSION_MINOR client_send run_handler gw_order).

#[local] Instance client_router_keeps : HandlerKeeps (S := SocketClient) handle_event.
Proof. intros ev w. by apply client_handlePipeEvent_frames. Qed.

(** C10: the SDK refines its router. Start a new client, and let the executor run
    its callbacks while anything arrives. Then the router did exactly this: it
    handled a list of pipe events, one after the other, that are those of
    the client's life: every connection is followed by its messages and one
    disconnection before the next. *)
Theorem sdk_refines_router address k r r' :
  cr_env r = SocketClient_new address k -> rtc (turn handle_event) r r' ->
  exists evs, handled handle_event client_router_part evs r r' /\
    evs = events_of (cl_log (cr_env r')) /\
    life (cl_log (cr_env r')) = Some (current (cr_env r')).
Proof.
  intros E Hs.
  destruct (client_events_handled handle_event client_router_part client_router_part_put r r' Hs) as (evs & Elog & Hh).
  exists evs. split; [done|]. cbn in Elog. rewrite E in Elog. cbn in Elog. split; [done|].
  assert (ClientInv (get_part (S := SocketClient) r')) as [Hl _ _ _]; [|exact Hl].
  apply (client_steps_inv handle_event r r').
  - eapply rtc_subrel; [|done]. intros w w' Ht. by apply step_turn.
  - change (ClientInv (cr_env r)). rewrite E. apply new_client_inv.
Qed.

Context (Hhandlers : Handlers run_handler) (Hord : forall m, gw_order m ≡ₚ map_to_list m).

#[local] Instance client_router_total : HandlerTotal (S := SocketClient) handle_event Inv event_fits.
Proof.
  split; [|by intros s r [Hw Hr]; split].
  intros ev r Hi Hok. eapply wp_mono; [by apply handlePipeEvent_client_total|]. by intros ? r' (? & _).
Qed.

(** No callback of the SDK's side fails, when the messages are well-formed for
    the router: connecting, receiving and losing the connection return, with
    the invariants of the socket client and of the router. *)
Theorem sdk_callbacks_safe r :
  Inv r -> ClientInv (cr_env r) ->
  (forall fd, socket_callback_ (cr_env r) = Some (Writable fd) ->
     wp (handleConnect handle_event) (fun _ r' => Inv r' /\ ClientInv (cr_env r')) r) /\
  (forall fd, socket_callback_ (cr_env r) = Some (Readable fd) ->
     (forall m, rcv_msg (receiveData (cl_io_state (cr_env r)) (cl_rx (cr_env r))) = Some m ->
                event_fits (PipeMessage m)) ->
     wp (handleReceive handle_event) (fun _ r' => Inv r' /\ ClientInv (cr_env r')) r).
Proof.
  intros Hi Hc.
  exact (client_callbacks_return handle_event Inv event_fits Logic.I Logic.I r Hi Hc).
Qed.
End stack.

(** ** A concrete SDK, for the witnesses *)
Module SdkExample.
Import WireExample ChannelExample.

(** Users of typed channels, whose handlers do nothing. *)
Abbreviation W := (Router (Adapter unit) SocketClient).
Definition ex_run (h : unit) (e : ChannelEvent Num) (payload : bytes) : M W unit := mret tt.
Definition ex_handler : Adapter unit -> GwEvent -> M W OptError := run_adapter ex_run.
Definition ex_order (m : gmap Tag GwId) : list (Tag * GwId) := map_to_list m.

Lemma sdk_handler_frames h e : frames SocketClient (ex_handler h e).
Proof. unfold ex_handler, run_adapter, ex_run. frame_steps. Qed.

Lemma sdk_handlers : Handlers ex_handler.
Proof.
  intros h e. unfold ex_handler, run_adapter. destruct e as [|seq payload|e k]; try apply (safe_ret (fun _ => True)).
  destruct (tryDeserializePayload payload); apply (safe_ret (fun _ => True)).
Qed.

(** A socket on descriptor 5, connecting. *)
Definition ex_address : SocketAddress := mkSA false 0 (AddrUnix []).
Definition ex_kernel : Kernel := mkKernel [Ret 5; Ret 0; Fail Errno.EINPROGRESS; Ret 0] [].
Definition ex_cold : W := mkRouter (mkHeap ∅ 0 []) 0 false ∅ [] (SocketClient_new ex_address ex_kernel).
Definition ex_handle := handlePipeEvent 0 2 client_send ex_handler ex_order.
Definition ex_done {A} (o : outcome (A * W)) : W := match o with Done (_, r) => r | Undef => ex_cold end.
Definition ex_started : W := ex_done (start ex_cold).
Definition ex_up : W := ex_done (handleConnect ex_handle ex_started).

#[global] Instance sdk_keeps : HandlerKeeps (S := SocketClient) ex_handle.
Proof. exact (client_router_keeps 0 2 ex_handler ex_order sdk_handler_frames). Qed.

Lemma ex_turns : rtc (turn ex_handle) ex_cold ex_up.
Proof.
  eapply rtc_l; [eapply (turn_start _ _ None ex_started); by vm_compute|].
  eapply rtc_l; [eapply (turn_connect _ 5 ex_started ex_up); by vm_compute|]. reflexivity.
Qed.

Lemma ex_started_inv : Inv ex_started /\ ClientInv (cr_env ex_started).
Proof.
  split.
  - assert (cr_heap ex_started = mkHeap ∅ 0 [] /\ map_of_gateways_ ex_started = ∅) as [Eh Em] by by vm_compute.
    split; [intros g gw; cbn; rewrite Eh; cbn; by rewrite lookup_empty|].
    intros ep g. cbn. unfold lookup_gateway. rewrite Em. by rewrite lookup_empty.
  - pose proof (turn_start ex_handle ex_cold None ex_started ltac:(by vm_compute) ltac:(by vm_compute)
      ltac:(by vm_compute)) as Ht.
    exact (client_steps_inv ex_handle ex_cold ex_started (rtc_once _ _ (step_turn _ _ _ Ht))
      (new_client_inv ex_address ex_kernel)).
Qed.
End SdkExample.

Section witnesses.
Import WireExample SdkExample.

Lemma sdk_refines_router_witness : exists evs,
  handled ex_handle client_router_part evs ex_cold ex_up /\
  evs = events_of (cl_log (cr_env ex_up)) /\
  life (cl_log (cr_env ex_up)) = Some (current (cr_env ex_up)).
Proof.
  exact (sdk_refines_router 0 2 ex_handler ex_order sdk_handler_frames ex_address ex_kernel
           ex_cold ex_up eq_refl ex_turns).
Defined.

Lemma sdk_callbacks_safe_witness : exists r', handleConnect ex_handle ex_started = Done (tt, r') /\ Inv r'.
Proof.
  pose proof (proj1 (sdk_callbacks_safe 0 2 ex_handler ex_order sdk_handler_frames sdk_handlers
    (fun m => reflexivity _) ex_started (proj1 ex_started_inv) (proj2 ex_started_inv)) 5 eq_refl) as Hw.
  pose proof (proj1 (wp_Done _ _ _) Hw) as ([] & r' & Hr & Hi & _). exists r'. split; [exact Hr|exact Hi].
Defined.
End witnesses.
