(* ===== verification/Streams.v ===== *)
(** * What the streams of the two ends of the pipe have in common

    A message that is sent leaves its frame on the stream when the kernel takes what it is
    given; the frames on a stream are the messages that wait to be received. *)
From S2P Require Import Prelude Errors SocketBuffer Posix SocketBase.

Local Open Scope Z_scope.

(** ** Sending *)

(** The largest frame of a message. *)
Definition max_frame : nat := Z.to_nat (Z.of_nat header_size + MsgPayloadMaxSize).

(** The kernel takes whole what it is given, perhaps after interruptions. *)
Definition healthy_tx (tx : list TxEvent) : Prop := Forall (takes_whole max_frame) tx.

Lemma send_fragment_suffix payload tx : (send_fragment payload tx).2 `suffix_of` tx.
Proof.
  induction tx as [|[e|k] tx IH]; cbn; [done| |by exists [TxSent k]].
  destruct (e =? Errno.EINTR); cbn; [by apply suffix_cons_r|by exists [TxErr e]].
Qed.

Lemma send_fragments_suffix fs tx : (send_fragments fs tx).2 `suffix_of` tx.
Proof.
  revert tx. induction fs as [|p fs IH]; intros tx; cbn; [done|].
  pose proof (send_fragment_suffix (pl_bytes p) tx) as Hs. destruct (send_fragment (pl_bytes p) tx) as [[[e|] out] tx1]; [done|].
  specialize (IH tx1). destruct (send_fragments fs tx1) as [[e out'] tx2]. cbn in *. by etrans.
Qed.

Lemma valid_frame_max m : valid_msg m -> (length (frame m) <= max_frame)%nat.
Proof. intros [_ Hm]. unfold max_frame. rewrite length_frame. lia. Qed.

Lemma takes_whole_mono n n' e : (n <= n')%nat -> takes_whole n' e -> takes_whole n e.
Proof. destruct e; cbn; [done|lia]. Qed.

(** A healthy kernel stays so, and what is written is the frame of the message. *)
Lemma send_healthy b tx e out b' tx' :
  SocketBuffer.wf b -> healthy_tx tx -> SocketBase.send b tx = (e, out, b', tx') ->
  healthy_tx tx' /\ (valid_msg (SocketBuffer.contents b) -> out = frame (SocketBuffer.contents b)).
Proof.
  intros Hwf Htx Hs. split.
  - unfold SocketBase.send in Hs.
    pose proof (send_fragments_suffix (SocketBuffer.listFragments (SocketBuffer.prepend (span (headerBytes (SocketBuffer.size b))) b)) tx) as [pre Hpre].
    destruct (send_fragments _ _) as [[e1 out1] tx1]. injection Hs as <- <- <- <-. cbn in Hpre.
    unfold healthy_tx in Htx. rewrite Hpre in Htx. by apply Forall_app in Htx as [_ Htx].
  - intros Hv. destruct (send_whole b tx Hwf) as (b2 & tx2 & Hw).
    + destruct Hv as [_ Hv]. rewrite MsgPayloadMaxSize_val in Hv. lia.
    + eapply Forall_impl; [exact Htx|]. intros ev. apply takes_whole_mono. by apply valid_frame_max.
    + rewrite Hs in Hw. by injection Hw as -> -> -> ->.
Qed.

(** ** A stream with messages on it *)

Definition frames_of (ms : list bytes) : bytes := concat (frame <$> ms).

Lemma frames_of_app ms1 ms2 : frames_of (ms1 ++ ms2) = frames_of ms1 ++ frames_of ms2.
Proof. unfold frames_of. by rewrite fmap_app, concat_app. Qed.

(** Of the messages [sent], whose frames were written, those of [done] were passed on; [read]
    bytes of the stream have reached the receiver, which holds the others ([holds future rest]: with
    the bytes of [future] to come, it has the frames of [rest]). *)
Record wire (holds : bytes -> list bytes -> Prop) (out : bytes) (read : nat) (sent done : list bytes) : Prop := {
  wire_out : out = frames_of sent;
  wire_read : (read <= length out)%nat;
  wire_holds : exists rest, sent = done ++ rest /\ holds (drop read out) rest;
}.

Lemma wire_sends (holds : bytes -> list bytes -> Prop) out read sent done after :
  (forall future rest, holds future rest -> holds (future ++ frames_of after) (rest ++ after)) ->
  wire holds out read sent done -> wire holds (out ++ frames_of after) read (sent ++ after) done.
Proof.
  intros Hmore [Ho Hr (rest & Hs & Hh)]. split.
  - by rewrite Ho, frames_of_app.
  - rewrite length_app. lia.
  - exists (rest ++ after). rewrite Hs, app_assoc. split; [done|]. rewrite drop_app_le by lia. by apply Hmore.
Qed.

(** Bytes on their way reach the receiver. *)
Lemma wire_arrives (holds holds' : bytes -> list bytes -> Prop) out read bs sent done :
  bs `prefix_of` drop read out -> (forall future rest, holds (bs ++ future) rest -> holds' future rest) ->
  wire holds out read sent done -> wire holds' out (read + length bs) sent done.
Proof.
  intros [future E] Hh [Ho Hr (rest & Hs & Hw)]. split; [done| |].
  - apply (f_equal length) in E. rewrite length_drop, length_app in E. lia.
  - assert (drop (read + length bs) out = future) as Ef by by rewrite <- drop_drop, E, drop_app_length.
    exists rest. split; [done|]. apply Hh. by rewrite Ef, <- E.
Qed.

(** A receiver that has read all there is keeps no complete frame. *)
Lemma all_passed io_state done rest :
  IoState_wf io_state -> Forall valid_msg (done ++ rest) -> pending io_state = frames_of rest -> done = done ++ rest.
Proof.
  intros Hwf Hv E. destruct rest as [|m rest]; [by rewrite app_nil_r|]. exfalso.
  apply Forall_app in Hv as [_ [Hm _]%Forall_cons]. exact (pending_short _ _ _ Hwf Hm E).
Qed.

(** What a receiver passes on is the next message that it holds. *)
Lemma received_in io_state rx future ms :
  IoState_wf io_state -> Forall benign rx -> Forall valid_msg ms -> pending io_state ++ rx_data rx ++ future = frames_of ms ->
  forall m, rcv_msg (receiveData io_state rx) = Some m -> m ∈ ms.
Proof.
  intros Hwf Hb Hv Hst m Hm. destruct (receiveData_step _ _ _ _ Hwf Hb Hv Hst) as (_ & _ & _ & _ & rest & -> & _).
  rewrite Hm. set_solver.
Qed.
