(* ===== verification/SdkStream.v ===== *)
(** * The SDK's streams

    What [ClientRouter] hands to its pipe is what [SocketClient] writes, and what arrives is
    passed to the router: every step of the SDK (callbacks of the socket, users of
    channels), seen as messages on two streams. *)
From S2P Require Import Prelude Errors SocketBuffer Posix SocketAddress SocketOps SocketBase PipeBase PipeFrames.
From S2P Require Import Gateway GatewayFacts ClientRouter SocketClient ClientStack Streams.
Import Client.

Local Open Scope Z_scope.

(** ** What is written is what is sent *)

(** A connected client with a healthy kernel. *)
Definition healthy (s : SocketClient) : Prop := 0 <= cl_fd s /\ healthy_tx (cl_tx s).

(** The socket and what was sent through it, as a part of the world. *)
Record Out (fine : bytes -> Prop) := mkOut { out_socket : SocketClient; out_sent : list bytes }.
Arguments mkOut {fine}.
Arguments out_socket {fine}.
Arguments out_sent {fine}.

(** The connection is the same, and the stream has grown by the frames of the new messages,
    which are [fine]. *)
Definition grows {fine} (o o' : Out fine) : Prop :=
  exists after, out_sent o' = out_sent o ++ after /\ Forall fine after /\
    (healthy (out_socket o) -> healthy (out_socket o') /\
      (Forall valid_msg after -> cl_out (out_socket o') = cl_out (out_socket o) ++ frames_of after)).

#[export] Instance grows_preorder fine : PreOrder (grows (fine := fine)).
Proof.
  split.
  - intros [s sent]. exists []. cbn. rewrite !app_nil_r. split; [done|]. by split.
  - intros o1 o2 o3 (a1 & E1 & F1 & H1) (a2 & E2 & F2 & H2). exists (a1 ++ a2). rewrite E2, E1, <- app_assoc. split; [done|].
    split; [by apply Forall_app|]. intros Hh. destruct (H1 Hh) as [Hh1 Hout1]. destruct (H2 Hh1) as [Hh2 Hout2]. split; [done|].
    intros [Hv1 Hv2]%Forall_app. by rewrite Hout2, Hout1, frames_of_app, <- app_assoc.
Qed.

Lemma client_send_grows (fine : bytes -> Prop) b s sent :
  SocketBuffer.wf b -> fine (SocketBuffer.contents b) ->
  grows (fine := fine) (mkOut s sent) (mkOut (client_send b s).2 (sent ++ [SocketBuffer.contents b])).
Proof.
  intros Hwf Hf. exists [SocketBuffer.contents b]. split; [done|]. split; [by apply Forall_singleton|].
  intros [Hfd Htx]. cbn [out_socket out_sent] in *.
  unfold client_send. destruct (Z.ltb_spec (cl_fd s) 0); [lia|].
  destruct (SocketBase.send b (cl_tx s)) as [[[e out] b'] tx] eqn:Hs. cbn.
  destruct (send_healthy _ _ _ _ _ _ Hwf Htx Hs) as [Htx' Hout]. split; [by split|].
  intros Hv. apply (proj1 (Forall_singleton _ _)) in Hv. unfold frames_of. cbn. by rewrite app_nil_r, Hout.
Qed.

#[export] Instance out_pipe fine : PipeState (Out fine) PipeEvent := {
  pipe_kernel o := cl_kernel (out_socket o);
  pipe_set_kernel k o := mkOut (set_cl_kernel k (out_socket o)) (out_sent o);
  pipe_handler_set o := cl_handler_set (out_socket o);
  pipe_log o := events_of (cl_log (out_socket o));
  pipe_log_event ev o := mkOut (log_observed (Event ev) (out_socket o)) (out_sent o);
  keeps o o' := grows o o' /\ client_keeps (out_socket o) (out_socket o');
}.

Lemma same_out_grows fine (s s' : SocketClient) sent :
  cl_fd s' = cl_fd s -> cl_tx s' = cl_tx s -> cl_out s' = cl_out s -> grows (fine := fine) (mkOut s sent) (mkOut s' sent).
Proof.
  intros Hf Ht Ho. exists []. rewrite !app_nil_r. split; [done|]. split; [done|]. unfold healthy. cbn. by rewrite Hf, Ht, Ho.
Qed.

#[export] Instance client_keeps_preorder : PreOrder client_keeps := keeps_preorder (S := SocketClient) (Ev := PipeEvent).

#[export] Instance out_pipe_ok fine : PipeStateOk (Out fine) PipeEvent.
Proof.
  split.
  - split; [done|]. intros o1 o2 o3 [G1 K1] [G2 K2]. split; by etrans.
  - intros k [s sent]. split; [by apply same_out_grows|by split].
  - intros o o' [_ K]. cbn. by rewrite (keeps_observed _ _ K).
  - intros ev o. cbn. unfold events_of. by rewrite omap_app.
Qed.

#[export] Instance router_has_out {H} fine : Has (Out fine) (Router H SocketClient) := {
  get_part r := mkOut (cr_env r) (cr_sent r);
  put_part o r := mkRouter (cr_heap r) (next_tag_ r) (is_connected_ r) (map_of_gateways_ r) (out_sent o) (out_socket o);
}.
#[export] Instance router_has_out_ok {H} fine : HasOk (Out fine) (Router H SocketClient).
Proof. split. by intros []. Qed.

#[export] Instance out_is_part {H} fine : ClientPart fine (Out fine) H.
Proof.
  split; [by intros r r'; cbn; intros -> ->|]. intros b Hwf Hf w. unfold wlp, pipe_write.
  pose proof (client_send_grows fine b (cr_env w) (cr_sent w) Hwf Hf) as Hg.
  pose proof (client_send_keeps b (cr_env w)) as K. destruct (client_send b (cr_env w)). by split.
Qed.

(** ** What is received *)

(** The messages that the socket passed to the router. *)
Definition inbox (log : list Observed) : list bytes :=
  omap (fun o => match o with Event (PipeMessage m) => Some m | _ => None end) log.

(** What is buffered, what is in the socket and what is still to come are the frames of
    these messages. *)
Definition incoming (s : SocketClient) (future : bytes) (ms : list bytes) : Prop :=
  Forall benign (cl_rx s) /\ pending (cl_io_state s) ++ rx_data (cl_rx s) ++ future = frames_of ms.

(** Some of the messages are passed on. *)
Definition takes (future : bytes) (ms : list bytes) (s s' : SocketClient) : Prop :=
  exists delivered rest, ms = delivered ++ rest /\ inbox (cl_log s') = inbox (cl_log s) ++ delivered /\ incoming s' future rest.

(** The same, when the socket logs nothing else. *)
Definition receives (future : bytes) (ms : list bytes) (s s' : SocketClient) : Prop :=
  exists delivered rest, ms = delivered ++ rest /\
    cl_log s' = cl_log s ++ ((fun m => Event (PipeMessage m)) <$> delivered) /\ incoming s' future rest.

Lemma inbox_app l1 l2 : inbox (l1 ++ l2) = inbox l1 ++ inbox l2.
Proof. apply omap_app. Qed.

Lemma inbox_messages ms : inbox ((fun m => Event (PipeMessage m)) <$> ms) = ms.
Proof. induction ms as [|m ms IH]; [done|]. unfold inbox in *. cbn. by rewrite IH. Qed.

Lemma events_of_app l1 l2 : events_of (l1 ++ l2) = events_of l1 ++ events_of l2.
Proof. apply omap_app. Qed.

Lemma events_of_messages ms : events_of ((fun m => Event (PipeMessage m)) <$> ms) = PipeMessage <$> ms.
Proof. induction ms as [|m ms IH]; [done|]. unfold events_of in *. cbn. by rewrite IH. Qed.

Lemma receives_takes future ms s s' : receives future ms s s' -> takes future ms s s'.
Proof.
  intros (delivered & rest & Hms & Hlog & Hin). exists delivered, rest. split; [done|]. split; [|done].
  by rewrite Hlog, inbox_app, inbox_messages.
Qed.

Lemma keeps_incoming future ms s s' : client_keeps s s' -> incoming s future ms -> incoming s' future ms.
Proof. intros [_ Hio _ _ Hrx _]. unfold incoming. by rewrite Hio, Hrx. Qed.

Lemma takes_quiet future ms s s' : inbox (cl_log s') = inbox (cl_log s) -> incoming s' future ms -> takes future ms s s'.
Proof. intros Hl Hi. exists [], ms. by rewrite app_nil_r. Qed.

Lemma takes_keeps future ms s s' : client_keeps s s' -> incoming s future ms -> takes future ms s s'.
Proof. intros K Hi. apply takes_quiet; [by rewrite (keeps_observed _ _ K)|by eapply keeps_incoming]. Qed.

Lemma incoming_more s future ms more : incoming s future ms -> incoming s (future ++ frames_of more) (ms ++ more).
Proof. intros [Hb E]. split; [done|]. by rewrite frames_of_app, <- E, !app_assoc. Qed.

(** Bytes of the future arrive. *)
Lemma arrive_incoming evs s future ms :
  Forall benign evs -> incoming s (rx_data evs ++ future) ms -> incoming (cl_arrive evs s) future ms.
Proof.
  intros He [Hb E]. split; cbn; [by apply Forall_app|]. unfold rx_data in *.
  by rewrite fmap_app, concat_app, <- app_assoc.
Qed.

(** ** Steps of the SDK *)

Section Sdk.
Context {H : Type} `{RouteCodec : Codec Route} {fine : bytes -> Prop} `{!WireFine fine}.
Abbreviation W := (Router H SocketClient).
Context (VERSION_MAJOR VERSION_MINOR : Z).
Context (run_handler : H -> GwEvent -> M W OptError).
Context (gw_order : gmap Tag GwId -> list (Tag * GwId)).
Abbreviation frames := (frames (Out fine)).
Context (handler_frames : forall h e, frames (run_handler h e)).
Abbreviation handle_event := (handlePipeEvent VERSION_MAJOR VERSION_MINOR client_send run_handler gw_order).
Abbreviation out_of := (get_part (S := Out fine) (W := W)).

(** Users make channels, send, complete, subscribe, copy and destroy them; the callback of the socket
    finds the connection established, or receives. *)
Inductive sdk_step : W -> W -> Prop :=
| sdk_makes g w w' : makeGateway w = Done (g, w') -> sdk_step w w'
| sdk_sends g service_id b e w w' :
    SocketBuffer.wf b -> gateway_send client_send g service_id b w = Done (e, w') -> sdk_step w w'
| sdk_completes g opt_error keep_alive e w w' :
    gateway_complete client_send g opt_error keep_alive w = Done (e, w') -> sdk_step w w'
| sdk_subscribes g h w w' : gateway_subscribe client_send run_handler g h w = Done (tt, w') -> sdk_step w w'
| sdk_owns g w w' : own g w = Done (tt, w') -> sdk_step w w'
| sdk_disowns g w w' : disown (dispose client_send) g w = Done (tt, w') -> sdk_step w w'
| sdk_connects fd w w' :
    socket_callback_ (cr_env w) = Some (Writable fd) ->
    (posixSyscallError (SysGetSockError (cl_fd (cr_env w))) (cl_kernel (cr_env w))).1 = Ret 0 ->
    handleConnect handle_event w = Done (tt, w') -> sdk_step w w'
| sdk_receives fd w w' :
    socket_callback_ (cr_env w) = Some (Readable fd) ->
    handleReceive handle_event w = Done (tt, w') -> sdk_step w w'.

#[local] Instance sdk_keeps_out : HandlerKeeps (S := Out fine) handle_event.
Proof. intros ev w. by apply client_handlePipeEvent_frames. Qed.
#[local] Instance sdk_keeps_socket : HandlerKeeps (S := SocketClient) handle_event.
Proof. intros ev w. eapply wlp_mono; [by apply client_handlePipeEvent_frames|]. by intros a w' [_ K]. Qed.

(** What a step does to both streams. *)
Definition moves (future : bytes) (ms : list bytes) (w w' : W) : Prop :=
  grows (out_of w) (out_of w') /\ ClientInv (cr_env w') /\ takes future ms (cr_env w) (cr_env w').

Lemma frames_moves {A} (m : M W A) future ms a w w' :
  frames m -> m w = Done (a, w') -> ClientInv (cr_env w) -> incoming (cr_env w) future ms -> moves future ms w w'.
Proof.
  intros Hm Hr Hi Hin. destruct (wlp_Done _ _ _ _ _ (Hm w) Hr) as [Hg K].
  split; [done|]. split; [by eapply client_keeps_inv|by apply takes_keeps].
Qed.

(** The router handles an event: the stream grows by what it sends, and nothing else changes. *)
Lemma wlp_emit_out ev (Q : OptError -> W -> Prop) w :
  (forall e w', grows (out_of w) (out_of w') -> client_keeps (log_observed (Event ev) (cr_env w)) (cr_env w') -> Q e w') ->
  wlp (emit (S := SocketClient) handle_event ev) Q w.
Proof.
  intros HQ. unfold emit. do 2 wp_step. destruct (pipe_handler_set _); [|apply wlp_undef]. wp_step. apply wlp_modify.
  eapply wlp_mono; [apply sdk_keeps_out|]. cbn beta. intros e w' [Hg K]. apply HQ; [|exact K].
  etrans; [|exact Hg]. by apply same_out_grows.
Qed.

Lemma handleReceive_moves future ms w w' :
  ClientInv (cr_env w) -> Forall valid_msg ms -> incoming (cr_env w) future ms ->
  handleReceive handle_event w = Done (tt, w') ->
  (grows (out_of w) (out_of w') /\ receives future ms (cr_env w) (cr_env w')) /\
  socket_callback_ (cr_env w') = socket_callback_ (cr_env w) /\
  (rx_measure (cl_rx (cr_env w')) <= rx_measure (cl_rx (cr_env w)) - 1)%nat.
Proof.
  intros Hi Hv [Hb Hst] Hr.
  destruct (receiveData_step _ _ _ _ (client_io _ Hi) Hb Hv Hst) as (He & _ & Hb' & Hmeas & rest & Hms & Hst').
  revert Hr. apply (wlp_Done _ (fun _ w' => (grows (out_of w) (out_of w') /\ receives future ms (cr_env w) (cr_env w')) /\
    socket_callback_ (cr_env w') = socket_callback_ (cr_env w) /\
    (rx_measure (cl_rx (cr_env w')) <= rx_measure (cl_rx (cr_env w)) - 1)%nat)).
  unfold handleReceive. do 3 wp_step. change (get_part (S := SocketClient) w) with (cr_env w). set (r := receiveData _ _) in *. rewrite He.
  apply wlp_modify. wp_step. set (w1 := put_part (cl_received r (cr_env w)) w).
  assert (grows (out_of w) (out_of w1)) as G1 by by apply same_out_grows.
  assert (incoming (cr_env w1) future rest) as Hin1 by done.
  destruct (rcv_msg r) as [payload|].
  - wp_step. apply wlp_emit_out. intros e w2 G2 K. apply wlp_ret, wlp_ret.
    split; [|by rewrite (keeps_callback _ _ K), (keeps_rx _ _ K)]. split; [by etrans|].
    exists [payload], rest. split; [done|]. split; [by rewrite (keeps_observed _ _ K)|].
    exact (keeps_incoming _ _ _ _ K Hin1).
  - apply wlp_ret, wlp_ret. split; [|done]. split; [done|]. exists [], rest. by rewrite app_nil_r.
Qed.

Lemma handleConnect_moves future ms w w' :
  incoming (cr_env w) future ms ->
  (posixSyscallError (SysGetSockError (cl_fd (cr_env w))) (cl_kernel (cr_env w))).1 = Ret 0 ->
  handleConnect handle_event w = Done (tt, w') -> grows (out_of w) (out_of w') /\ takes future ms (cr_env w) (cr_env w').
Proof.
  intros Hin Ha. apply (wlp_Done _ (fun _ w' => grows (out_of w) (out_of w') /\ takes future ms (cr_env w) (cr_env w'))).
  unfold handleConnect, sys. wp_step. apply wlp_modify. do 6 wp_step. apply wlp_modify. wp_step.
  cbn [get_part put_part router_has_client cr_env pipe_kernel client_pipe cl_kernel cl_fd set_callback]. rewrite Ha. cbn [Z.eqb negb].
  wp_step. apply wlp_modify. wp_step. apply wlp_emit_out. intros e w2 G K. apply wlp_ret. split.
  - etrans; [|exact G]. by apply same_out_grows.
  - apply takes_quiet; [rewrite (keeps_observed _ _ K); cbn; by rewrite inbox_app, app_nil_r|].
    by apply (keeps_incoming _ _ _ _ K).
Qed.

Lemma sdk_step_moves future ms w w' :
  sdk_step w w' -> ClientInv (cr_env w) -> Forall valid_msg ms -> incoming (cr_env w) future ms -> moves future ms w w'.
Proof.
  assert (forall w w', turn handle_event w w' -> ClientInv (cr_env w) -> ClientInv (cr_env w')) as Hturn.
  { intros v v' Ht Hi. exact (client_step_inv handle_event v v' (step_turn _ _ _ Ht) Hi). }
  intros [g v v' Hr|g service_id b e v v' Hwf Hr|g oe ka e v v' Hr|g h v v' Hr|g v v' Hr|g v v' Hr|fd v v' Hc Ha Hr|fd v v' Hc Hr] Hi Hv Hin.
  - eapply frames_moves; [apply client_makeGateway_frames|exact Hr|done..].
  - eapply frames_moves; [by apply client_gateway_send_frames|exact Hr|done..].
  - eapply frames_moves; [apply client_gateway_complete_frames|exact Hr|done..].
  - eapply frames_moves; [by apply client_gateway_subscribe_frames|exact Hr|done..].
  - eapply frames_moves; [apply client_own_frames|exact Hr|done..].
  - eapply frames_moves; [apply client_disown_frames|exact Hr|done..].
  - destruct (handleConnect_moves _ _ _ _ Hin Ha Hr). split; [done|]. split; [|done].
    exact (Hturn _ _ (turn_connect _ fd _ _ Hc Hr) Hi).
  - destruct (handleReceive_moves _ _ _ _ Hi Hv Hin Hr) as [[? Ht%receives_takes]]. split; [done|]. split; [|done].
    exact (Hturn _ _ (turn_receive _ fd _ _ Hc Hr) Hi).
Qed.
End Sdk.
