(* ===== verification/DaemonStream.v ===== *)
(** * The daemon's streams

    What [ServerRouter] hands to its pipe for one client is what [SocketServer] writes to that
    client's socket, whatever happens to the other clients: every step of the daemon
    (callbacks of the server, services' use of channels), seen as messages on the client's
    two streams. *)
From S2P Require Import Prelude Errors SocketBuffer Posix SocketAddress SocketOps SocketBase PipeBase PipeFrames.
From S2P Require Import Gateway GatewayFacts ServerRouter SocketServer ServerStack Streams.
Import Server.

Local Open Scope Z_scope.

(** ** What is written is what is sent *)

(** The messages to one client. *)
Definition sent_to (client_id : ClientId) (sent : list (ClientId * bytes)) : list bytes :=
  omap (fun p => if p.1 =? client_id then Some p.2 else None) sent.

Arguments sent_to : simpl never.

(** A client's side of the server: how its writes will be answered, and what was written. *)
Definition ctx_stream (client_id : ClientId) (s : SocketServer) : option (list TxEvent * bytes) :=
  (fun ctx => (ctx_tx ctx, ctx_out ctx)) <$> client_id_to_context_ s !! client_id.

(** The server and what was sent through it, as a part of the world: the view of one client. *)
Record OutTo (fine : bytes -> Prop) (client_id : ClientId) :=
  mkOutTo { ot_server : SocketServer; ot_sent : list (ClientId * bytes) }.
Arguments mkOutTo {fine client_id}.
Arguments ot_server {fine client_id}.
Arguments ot_sent {fine client_id}.

(** A stream after some messages were sent to it: gone, or longer by their frames. A client
    that is not connected stays so. *)
Definition extended (after : list bytes) (o o' : option (list TxEvent * bytes)) : Prop :=
  match o, o' with
  | _, None => True
  | None, Some _ => False
  | Some (tx, out), Some (tx', out') =>
      healthy_tx tx -> healthy_tx tx' /\ (Forall valid_msg after -> out' = out ++ frames_of after)
  end.

(** Identifiers of clients that were given out are not given out again; what is sent is [fine]. *)
Definition grows_to {fine client_id} (o o' : OutTo fine client_id) : Prop :=
  client_id <= unique_client_id_counter_ (ot_server o) ->
  client_id <= unique_client_id_counter_ (ot_server o') /\
  exists after, sent_to client_id (ot_sent o') = sent_to client_id (ot_sent o) ++ after /\ Forall fine after /\
    extended after (ctx_stream client_id (ot_server o)) (ctx_stream client_id (ot_server o')).

Lemma sent_to_app client_id l1 l2 : sent_to client_id (l1 ++ l2) = sent_to client_id l1 ++ sent_to client_id l2.
Proof. apply omap_app. Qed.

Lemma extended_refl o : extended [] o o.
Proof. destruct o as [[tx out]|]; cbn; [|done]. by rewrite app_nil_r. Qed.

Lemma extended_trans a1 a2 o1 o2 o3 : extended a1 o1 o2 -> extended a2 o2 o3 -> extended (a1 ++ a2) o1 o3.
Proof.
  destruct o1 as [[tx1 out1]|], o2 as [[tx2 out2]|], o3 as [[tx3 out3]|]; cbn; try done.
  intros H1 H2 Hh. destruct (H1 Hh) as [Hh1 E1]. destruct (H2 Hh1) as [Hh2 E2]. split; [done|].
  intros [Hv1 Hv2]%Forall_app. by rewrite E2, E1, frames_of_app, <- app_assoc.
Qed.

#[export] Instance grows_to_preorder fine client_id : PreOrder (grows_to (fine := fine) (client_id := client_id)).
Proof.
  split.
  - intros o Hc. split; [done|]. exists []. rewrite app_nil_r. split; [done|]. split; [done|apply extended_refl].
  - intros o1 o2 o3 H1 H2 Hc1. destruct (H1 Hc1) as (Hc2 & a1 & E1 & F1 & X1). destruct (H2 Hc2) as (Hc3 & a2 & E2 & F2 & X2).
    split; [done|]. exists (a1 ++ a2). rewrite E2, E1, <- app_assoc. split; [done|].
    split; [by apply Forall_app|]. by eapply extended_trans.
Qed.

(** Nothing is sent, and the client's stream stays as it is, or goes. *)
Lemma same_grows_to fine client_id (s s' : SocketServer) sent :
  unique_client_id_counter_ s <= unique_client_id_counter_ s' ->
  ctx_stream client_id s' = ctx_stream client_id s \/ ctx_stream client_id s' = None ->
  grows_to (fine := fine) (client_id := client_id) (mkOutTo s sent) (mkOutTo s' sent).
Proof.
  intros Hle Hc Hid. cbn in *. split; [lia|]. exists []. rewrite app_nil_r. split; [done|]. split; [done|].
  destruct Hc as [->| ->]; [apply extended_refl|by destruct (ctx_stream client_id s) as [[]|]].
Qed.

Lemma ctx_stream_alter f client_id other s :
  (forall ctx, (ctx_tx (f ctx), ctx_out (f ctx)) = (ctx_tx ctx, ctx_out ctx)) \/ other <> client_id ->
  ctx_stream client_id (set_contexts (alter f other) s) = ctx_stream client_id s.
Proof.
  intros Hf. unfold ctx_stream; cbn. destruct (decide (other = client_id)) as [->|Hne].
  - destruct Hf as [Hf|]; [|done]. rewrite lookup_alter_eq. destruct (_ !! client_id); cbn; [by rewrite Hf|done].
  - by rewrite lookup_alter_ne.
Qed.

Lemma server_send_grows (fine : bytes -> Prop) client_id cl b s sent :
  SocketBuffer.wf b -> fine (SocketBuffer.contents b) ->
  grows_to (fine := fine) (client_id := client_id) (mkOutTo s sent) (mkOutTo (server_send cl b s).2 (sent ++ [(cl, SocketBuffer.contents b)])).
Proof.
  intros Hwf Hf Hid. cbn in *. split; [by rewrite (keeps_counter _ _ (server_send_keeps cl b s))|].
  rewrite sent_to_app. unfold sent_to at 2. cbn. unfold server_send, tryFindClientContext.
  destruct (Z.eqb_spec cl client_id) as [->|Hne]; cbn.
  - exists [SocketBuffer.contents b]. split; [done|]. split; [by apply Forall_singleton|]. unfold ctx_stream at 1.
    destruct (client_id_to_context_ s !! client_id) as [ctx|] eqn:E; cbn.
    + destruct (SocketBase.send b (ctx_tx ctx)) as [[[e out] b'] tx] eqn:Hs. unfold ctx_stream. cbn.
      rewrite lookup_alter_eq, E. cbn. intros Htx. destruct (send_healthy _ _ _ _ _ _ Hwf Htx Hs) as [Htx' Hout].
      split; [done|]. intros Hv. apply (proj1 (Forall_singleton _ _)) in Hv.
      unfold frames_of; cbn. by rewrite app_nil_r, Hout.
    + unfold ctx_stream. by rewrite E.
  - exists []. rewrite app_nil_r. split; [done|]. split; [done|]. destruct (client_id_to_context_ s !! cl) as [ctx|]; [|apply extended_refl].
    destruct (SocketBase.send b (ctx_tx ctx)) as [[[e out] b'] tx]. cbn. rewrite ctx_stream_alter by (by right). apply extended_refl.
Qed.

#[export] Instance out_to_pipe fine client_id : PipeState (OutTo fine client_id) PipeEvent := {
  pipe_kernel o := kernel (ot_server o);
  pipe_set_kernel k o := mkOutTo (set_kernel k (ot_server o)) (ot_sent o);
  pipe_handler_set o := event_handler_set (ot_server o);
  pipe_log o := event_log (ot_server o);
  pipe_log_event ev o := mkOutTo (log_event ev (ot_server o)) (ot_sent o);
  keeps o o' := grows_to o o' /\ server_keeps (ot_server o) (ot_server o');
}.

#[export] Instance server_keeps_preorder : PreOrder server_keeps := keeps_preorder (S := SocketServer) (Ev := PipeEvent).

#[export] Instance out_to_pipe_ok fine client_id : PipeStateOk (OutTo fine client_id) PipeEvent.
Proof.
  split.
  - split; [done|]. intros o1 o2 o3 [G1 K1] [G2 K2]. split; by etrans.
  - intros k [s sent]. split; [|by split]. apply same_grows_to; [done|by left].
  - intros o o' [_ K]. exact (keeps_log _ _ K).
  - done.
Qed.

#[export] Instance router_has_out_to {H F} fine client_id : Has (OutTo fine client_id) (Router H F SocketServer) := {
  get_part r := mkOutTo (sr_env r) (sr_sent r);
  put_part o r := mkRouter (sr_heap r) (client_id_to_map_of_gateways_ r)
                    (service_id_to_channel_factory_ r) (ot_sent o) (ot_server o);
}.
#[export] Instance router_has_out_to_ok {H F} fine client_id : HasOk (OutTo fine client_id) (Router H F SocketServer).
Proof. split. by intros []. Qed.

#[export] Instance out_to_is_part {H F} fine client_id : ServerPart fine (OutTo fine client_id) H F.
Proof.
  split; [by intros r r'; cbn; intros -> ->|]. intros cl b Hwf Hf w. unfold wlp, pipe_write.
  pose proof (server_send_grows fine client_id cl b (sr_env w) (sr_sent w) Hwf Hf) as Hg.
  pose proof (server_send_keeps cl b (sr_env w)) as K. destruct (server_send cl b (sr_env w)). by split.
Qed.

(** ** Steps of the daemon *)

Section Daemon.
Context {H F : Type} `{RouteCodec : Codec Route} {fine : bytes -> Prop} `{!WireFine fine}.
Abbreviation W := (Router H F SocketServer).
Context (VERSION_MAJOR VERSION_MINOR : Z).
Context (run_handler : H -> GwEvent -> M W OptError).
Context (run_factory : F -> GwId -> bytes -> M W unit).
Context (gw_order : gmap Tag GwId -> list (Tag * GwId)).
Context (client_id : ClientId) `{Hframed : !FramedClients (OutTo fine client_id) run_handler run_factory}.
Abbreviation handle_event :=
  (handlePipeEvent VERSION_MAJOR VERSION_MINOR server_send run_handler run_factory gw_order).
Abbreviation out_to := (get_part (S := OutTo fine client_id) (W := W)).

(** The executor runs a callback of the server, data arrives for another client, or a service uses a
    channel that it has. *)
Inductive daemon_step : W -> W -> Prop :=
| daemon_runs l w w' :
    l <> LOther -> (forall evs, l <> LArrive client_id evs) -> step handle_event l w w' -> daemon_step w w'
| daemon_sends g service_id b e w w' :
    SocketBuffer.wf b -> gateway_send server_send g service_id b w = Done (e, w') -> daemon_step w w'
| daemon_completes g opt_error keep_alive e w w' :
    gateway_complete server_send g opt_error keep_alive w = Done (e, w') -> daemon_step w w'
| daemon_subscribes g h w w' : gateway_subscribe server_send run_handler g h w = Done (tt, w') -> daemon_step w w'
| daemon_owns g w w' : own g w = Done (tt, w') -> daemon_step w w'
| daemon_disowns g w w' : disown (dispose server_send) g w = Done (tt, w') -> daemon_step w w'.

#[local] Instance daemon_keeps_out : HandlerKeeps (S := OutTo fine client_id) handle_event := router_keeps _ _ _ _ _.

#[local] Instance daemon_keeps_server : HandlerKeeps (S := SocketServer) handle_event.
Proof. intros ev w. eapply wlp_mono; [by apply (frames_handlePipeEvent (S := OutTo fine client_id))|]. by intros a w' [_ K]. Qed.

(** Computations along which the client's stream grows by what is sent. *)
Definition along {A} (m : M W A) : Prop := forall w, wlp m (fun _ w' => grows_to (out_to w) (out_to w')) w.

Lemma along_ret {A} (a : A) : along (mret a).
Proof. intros w. apply wlp_ret. reflexivity. Qed.

Lemma along_undef {A} : along (undef : M W A).
Proof. intros w. apply wlp_undef. Qed.

Lemma along_gets {A} (f : W -> A) : along (gets f).
Proof. intros w. apply wlp_gets. reflexivity. Qed.

Lemma along_bind {A B} (m : M W A) (f : A -> M W B) : along m -> (forall a, along (f a)) -> along (m ≫= f).
Proof.
  intros Hm Hf w. apply wlp_bind. eapply wlp_mono; [apply Hm|]. intros a w1 G1.
  eapply wlp_mono; [apply Hf|]. intros b w2 G2. exact (transitivity G1 G2).
Qed.

Lemma along_upd (f : SocketServer -> SocketServer) :
  (forall s, unique_client_id_counter_ (f s) = unique_client_id_counter_ s) ->
  (forall s, ctx_stream client_id (f s) = ctx_stream client_id s \/ ctx_stream client_id (f s) = None) ->
  along (upd f).
Proof. intros Hc Hs w. apply wlp_modify, same_grows_to; [|apply Hs]. cbn. rewrite Hc. reflexivity. Qed.

Lemma along_sys {A} (f : Kernel -> A * Kernel) : along (sys (S := SocketServer) f).
Proof.
  apply along_bind; [apply along_gets|]. intros k. apply along_bind; [|intros _; apply along_ret].
  apply along_upd; [done|by left].
Qed.

Lemma along_emit ev : along (emit (S := SocketServer) handle_event ev).
Proof.
  apply along_bind; [apply along_gets|]. intros s. destruct (pipe_handler_set s); [|apply along_undef].
  apply along_bind; [apply along_upd; [done|by left]|]. intros _ w.
  eapply wlp_mono; [apply daemon_keeps_out|]. by intros e w' [G _].
Qed.

(** A new client is another one. *)
Lemma handleAccept_grows peer w w' :
  0 <= client_id <= unique_client_id_counter_ (sr_env w) -> unique_client_id_counter_ (sr_env w) < 2 ^ 64 - 1 ->
  handleAccept handle_event peer w = Done (tt, w') -> grows_to (out_to w) (out_to w').
Proof.
  intros Hid Hb. apply (wlp_Done _ (fun _ w' => grows_to (out_to w) (out_to w'))). unfold handleAccept.
  do 3 wp_step. eapply wlp_mono; [apply along_sys|]. intros [raw_fd|] w1 G1; [|by apply wlp_ret, G1].
  change (get_part (S := SocketServer) w) with (sr_env w). rewrite (wrap_id 64) by lia.
  set (new := unique_client_id_counter_ (sr_env w) + 1).
  enough (along (upd (set_counter new);; emplace_context (mkClientContext new raw_fd IoState_init (Some raw_fd) [] [] []);;
                 emit (S := SocketServer) handle_event (PipeConnected new);; mret tt)) as Ha.
  { eapply wlp_mono; [apply Ha|]. intros [] w2 G2. exact (transitivity G1 G2). }
  apply along_bind.
  { intros v. apply wlp_modify. intros _. split; [cbn; lia|]. exists []. rewrite app_nil_r. split; [done|]. split; [done|apply extended_refl]. }
  intros _. apply along_bind; [|intros _; apply along_bind; [apply along_emit|intros ?; apply along_ret]].
  unfold emplace_context. apply along_bind; [apply along_gets|]. intros s.
  destruct (tryFindClientContext _ s); [apply along_sys|]. apply along_upd; [done|]. intros s'. left.
  unfold ctx_stream; cbn. rewrite lookup_insert_ne; [done|lia].
Qed.

Lemma along_handleClientRequest cl : along (handleClientRequest handle_event cl).
Proof.
  unfold handleClientRequest. apply along_bind; [apply along_gets|]. intros s.
  destruct (tryFindClientContext cl s) as [ctx|]; [|apply along_undef]. apply along_bind.
  { apply along_upd; [done|]. intros s'. left. apply ctx_stream_alter. by left. }
  intros _. apply along_bind.
  { destruct (rcv_msg _); [|apply along_ret]. apply along_bind; [apply along_emit|intros ?; apply along_ret]. }
  intros _. destruct (rcv_error _); [|apply along_ret].
  apply along_bind; [|intros _; apply along_bind; [apply along_emit|intros ?; apply along_ret]].
  unfold erase_context. apply along_bind; [apply along_gets|]. intros s'.
  destruct (tryFindClientContext cl s'); [|apply along_ret]. apply along_bind; [|intros _; apply along_sys].
  apply along_upd; [done|]. intros s2. unfold ctx_stream; cbn. destruct (decide (cl = client_id)) as [->|Hne].
  - right. by rewrite lookup_delete_eq.
  - left. by rewrite lookup_delete_ne.
Qed.

(** Services reach the server only by sending. *)
Lemma frames_serves {A} (m : M W A) a w w' :
  frames (OutTo fine client_id) m -> m w = Done (a, w') ->
  grows_to (out_to w) (out_to w') /\ step handle_event LOther w w'.
Proof.
  intros Hm Hr. destruct (wlp_Done _ _ _ _ _ (Hm w) Hr) as [G K]. split; [exact G|]. by apply step_other.
Qed.

(** Every step is one of the server, in which nothing arrives for the client. *)
Lemma daemon_step_serves w w' :
  daemon_step w w' -> PipeInv (sr_env w) -> is_Some (client_id_to_context_ (sr_env w) !! client_id) ->
  grows_to (out_to w) (out_to w') /\ exists l, (forall evs, l <> LArrive client_id evs) /\ step handle_event l w w'.
Proof.
  intros Hd Hi [ctx E]. pose proof (inv_context _ Hi _ _ E) as ([Hpos Hle] & _).
  assert (forall (v : W) A (m : M W A) a, frames (OutTo fine client_id) m -> m w = Done (a, v) ->
            grows_to (out_to w) (out_to v) /\ exists l, (forall evs, l <> LArrive client_id evs) /\ step handle_event l w v) as Huse.
  { intros v A m a Hm Hr. destruct (frames_serves _ _ _ _ Hm Hr). split; [done|]. by exists LOther. }
  destruct Hd as [l v v' Hl Ha Hs|g service_id b e v v' Hwf Hr|g oe ka e v v' Hr|g h v v' Hr|g v v' Hr|g v v' Hr].
  - split; [|by exists l]. destruct Hs as [v e v' Hf _|peer fd v v' _ Hb Hr|cl ctx' fd v v' _ _ Hr|cl evs v|]; [| | | |done].
    + destruct (inv_handler _ Hi Hf) as [_ E']. by rewrite E', lookup_empty in E.
    + eapply handleAccept_grows; [|exact Hb|exact Hr]. lia.
    + exact (wlp_Done _ _ _ _ _ (along_handleClientRequest cl v) Hr).
    + apply same_grows_to; [done|]. left. apply ctx_stream_alter. right. intros ->. by apply (Ha evs).
  - eapply Huse; [|exact Hr]. by apply frames_gateway_send.
  - eapply Huse; [|exact Hr]. apply frames_gateway_complete.
  - eapply Huse; [|exact Hr]. by apply (frames_gateway_subscribe (F := F) run_handler run_factory).
  - eapply Huse; [|exact Hr]. apply frames_acquire.
  - eapply Huse; [|exact Hr]. apply frames_disown.
Qed.

(** What a step does to both streams of the client. *)
Lemma daemon_step_moves future ms w w' :
  daemon_step w w' -> PipeInv (sr_env w) -> Forall valid_msg ms -> streams client_id future ms (sr_env w) ->
  grows_to (out_to w) (out_to w') /\ PipeInv (sr_env w') /\
  exists delivered rest, ms = delivered ++ rest /\
    messages client_id (event_log (sr_env w')) = messages client_id (event_log (sr_env w)) ++ delivered /\
    streams client_id future rest (sr_env w').
Proof.
  intros Hd Hi Hv Hst. assert (is_Some (client_id_to_context_ (sr_env w) !! client_id)) as Hc by (destruct Hst as (ctx & E & _); eauto).
  destruct (daemon_step_serves _ _ Hd Hi Hc) as (Hg & l & Ha & Hs). split; [done|].
  split; [exact (step_inv handle_event l w w' Hs Hi)|].
  assert (arrivals client_id [l] = []) as Earr.
  { unfold arrivals; cbn. destruct l as [|  | |cl evs|]; try done. destruct (Z.eqb_spec cl client_id) as [->|]; [|done].
    by destruct (Ha evs). }
  apply (step_streams handle_event client_id future ms l w w' Hs Hi Hv); rewrite Earr; [constructor|exact Hst].
Qed.
End Daemon.

(** More is sent, or arrives. *)
Lemma streams_more client_id s future ms more :
  streams client_id future ms s -> streams client_id (future ++ frames_of more) (ms ++ more) s.
Proof.
  intros (ctx & E & Hb & Hst). exists ctx. split; [done|]. split; [done|].
  change (concat (frame <$> (ms ++ more))) with (frames_of (ms ++ more)). rewrite frames_of_app.
  change (frames_of ms) with (concat (frame <$> ms)). by rewrite <- Hst, !app_assoc.
Qed.

Lemma arrive_streams client_id evs s future ms :
  Forall benign evs -> streams client_id (rx_data evs ++ future) ms s ->
  streams client_id future ms (set_contexts (alter (ctx_arrive evs) client_id) s).
Proof.
  intros He (ctx & E & Hb & Hst). exists (ctx_arrive evs ctx). cbn. rewrite lookup_alter_eq, E. split; [done|].
  split; [by apply Forall_app|]. by rewrite rx_data_app, <- app_assoc.
Qed.
