(* ===== verification/IpcLink.v ===== *)
(** * The SDK and the daemon, with the streams between them

    The two stacks side by side: [ClientRouter] on [SocketClient] ([SdkStream]), [ServerRouter] on
    [SocketServer] ([DaemonStream]), and between them a connection that brings what each
    writes to the other, cut and delayed as it likes. Users of channels act at both ends, other clients
    come and go, and the executors run callbacks in any order. *)
From S2P Require Import Prelude Errors SocketBuffer Posix SocketAddress SocketOps SocketBase PipeBase PipeFrames.
From S2P Require Import Gateway GatewayFacts WireExample ClientRouter ServerRouter Channel SocketClient SocketServer ClientStack ServerStack.
From S2P Require Import Streams SdkStream DaemonStream.

Local Open Scope Z_scope.

(** ** The whole *)

(** What the server wrote to a client. *)
Definition written_to (client_id : ClientId) (s : SocketServer) : bytes :=
  match ctx_stream client_id s with Some (_, out) => out | None => [] end.

(** Both ends, and how much of what each wrote has arrived at the other. *)
Record Link (CH SH F : Type) := mkLink {
  lk_sdk : Client.Router CH SocketClient;
  lk_daemon : Server.Router SH F SocketServer;
  up_read : nat;
  down_read : nat;
}.
Arguments mkLink {CH SH F}.
Arguments lk_sdk {CH SH F}.
Arguments lk_daemon {CH SH F}.
Arguments up_read {CH SH F}.
Arguments down_read {CH SH F}.

Section Link.
Context {CH SH F : Type} `{RouteCodec : Codec Route} {fine : bytes -> Prop} `{!WireFine fine}.
Context (VERSION_MAJOR VERSION_MINOR : Z).
Abbreviation Sdk := (Client.Router CH SocketClient).
Abbreviation Daemon := (Server.Router SH F SocketServer).
Abbreviation L := (Link CH SH F).
Context (sdk_handler : CH -> GwEvent -> M Sdk OptError).
Context (sdk_order : gmap Z GwId -> list (Z * GwId)).
Context (run_handler : SH -> GwEvent -> M Daemon OptError).
Context (run_factory : F -> GwId -> bytes -> M Daemon unit).
Context (gw_order : gmap Z GwId -> list (Z * GwId)).
Context (client_id : ClientId).
Context (sdk_framed : forall h e, frames (Out fine) (sdk_handler h e)).
Context `{Hframed : !FramedClients (OutTo fine client_id) run_handler run_factory}.

Abbreviation socket l := (Client.cr_env (lk_sdk l)).
Abbreviation server l := (Server.sr_env (lk_daemon l)).

(** What is on its way. *)
Definition in_flight_up (l : L) : bytes := drop (up_read l) (cl_out (socket l)).
Definition in_flight_down (l : L) : bytes := drop (down_read l) (written_to client_id (server l)).

Inductive link_step : L -> L -> Prop :=
| link_sdk r w n m r' :
    sdk_step VERSION_MAJOR VERSION_MINOR sdk_handler sdk_order r r' -> link_step (mkLink r w n m) (mkLink r' w n m)
| link_daemon r w n m w' :
    daemon_step VERSION_MAJOR VERSION_MINOR run_handler run_factory gw_order client_id w w' ->
    link_step (mkLink r w n m) (mkLink r w' n m)
| link_up evs r w n m :
    Forall benign evs -> rx_data evs `prefix_of` in_flight_up (mkLink r w n m) ->
    link_step (mkLink r w n m)
      (mkLink r (put_part (set_contexts (alter (ctx_arrive evs) client_id) (Server.sr_env w)) w) (n + length (rx_data evs)) m)
| link_down evs r w n m :
    Forall benign evs -> rx_data evs `prefix_of` in_flight_down (mkLink r w n m) ->
    link_step (mkLink r w n m) (mkLink (put_part (cl_arrive evs (Client.cr_env r)) r) w n (m + length (rx_data evs))).

(** The messages that were sent have a size that the pipe can carry. *)
Definition fits (l : L) : Prop :=
  Forall valid_msg (Client.cr_sent (lk_sdk l)) /\ Forall valid_msg (sent_to client_id (Server.sr_sent (lk_daemon l))).

(** A connection that begins: the SDK's socket is connecting, or connected; the
    daemon has accepted it; nothing was written or received yet. *)
Record begins (l : L) : Prop := {
  begins_sdk : ClientInv (socket l);
  begins_io : cl_io_state (socket l) = IoState_init;
  begins_rx : cl_rx (socket l) = [];
  begins_healthy : healthy (socket l);
  begins_out : cl_out (socket l) = [];
  begins_daemon : PipeInv (server l);
  begins_ctx : exists ctx, client_id_to_context_ (server l) !! client_id = Some ctx /\
    io_state_ ctx = IoState_init /\ ctx_rx ctx = [] /\ ctx_out ctx = [] /\ healthy_tx (ctx_tx ctx);
  begins_read : up_read l = 0%nat /\ down_read l = 0%nat;
}.

(** ** The invariant *)

(** Since [l0] the SDK has sent [up], of which [up_done] was passed on by the daemon's server, and the
    daemon has sent [down], of which [down_done] was passed on by the SDK's client. *)
Record linked (l0 l : L) (up up_done down down_done : list bytes) : Prop := {
  linked_up_sent : Client.cr_sent (lk_sdk l) = Client.cr_sent (lk_sdk l0) ++ up;
  linked_up_done : messages client_id (event_log (server l)) = messages client_id (event_log (server l0)) ++ up_done;
  linked_down_sent : sent_to client_id (Server.sr_sent (lk_daemon l)) = sent_to client_id (Server.sr_sent (lk_daemon l0)) ++ down;
  linked_down_done : inbox (cl_log (socket l)) = inbox (cl_log (socket l0)) ++ down_done;
  linked_up : wire (fun future ms => streams client_id future ms (server l)) (cl_out (socket l)) (up_read l) up up_done;
  linked_down : wire (incoming (socket l)) (written_to client_id (server l)) (down_read l) down down_done;
  linked_fine : Forall fine up /\ Forall fine down;
  linked_sdk : ClientInv (socket l);
  linked_healthy : healthy (socket l);
  linked_daemon : PipeInv (server l);
  linked_ctx : exists tx out, ctx_stream client_id (server l) = Some (tx, out) /\ healthy_tx tx;
}.

Lemma begins_linked l : begins l -> linked l l [] [] [] [].
Proof.
  intros [Hs Hio Hrx Hh Hout Hd (ctx & E & Hcio & Hcrx & Hcout & Htx) [Hu Hdn]]. split; rewrite ?app_nil_r; try done.
  - rewrite Hu, Hout. split; [done|done|]. exists []. split; [done|]. exists ctx. rewrite Hcio, Hcrx. by split.
  - assert (written_to client_id (server l) = []) as -> by (unfold written_to, ctx_stream; by rewrite E).
    rewrite Hdn. split; [done|done|]. exists []. split; [done|]. split; [by rewrite Hrx|]. by rewrite Hio, Hrx.
  - exists (ctx_tx ctx), (ctx_out ctx). split; [|done]. unfold ctx_stream. by rewrite E.
Qed.

(** *** Every step keeps it *)

Lemma sdk_step_linked l0 r r' w n m up up_done down down_done :
  sdk_step VERSION_MAJOR VERSION_MINOR sdk_handler sdk_order r r' ->
  fits (mkLink r' w n m) -> linked l0 (mkLink r w n m) up up_done down down_done ->
  exists up' down_done', linked l0 (mkLink r' w n m) up' up_done down down_done'.
Proof.
  intros Hs [Hv1 Hv2] [Hus Hud Hds Hdd Hup Hdown [Hfu Hfw] Hi Hh Hp Hc]. cbn in *.
  destruct Hdown as [Ho Hr (rest & Hms & Hin)].
  assert (Forall valid_msg rest) as Hvr by (rewrite Hds, Hms, !Forall_app in Hv2; apply Hv2).
  destruct (sdk_step_moves _ _ _ _ sdk_framed _ _ _ _ Hs Hi Hvr Hin) as ((after & Hsent & Hfine & Hg) & Hi' & dl & rest' & -> & Hlog & Hin').
  cbn in Hsent, Hg. destruct (Hg Hh) as [Hh' Hout].
  rewrite Hsent in Hv1. apply Forall_app in Hv1 as [_ Hva]. specialize (Hout Hva).
  exists (up ++ after), (down_done ++ dl). split; cbn; try done.
  - by rewrite Hsent, Hus, app_assoc.
  - by rewrite Hlog, Hdd, app_assoc.
  - rewrite Hout. eapply wire_sends; [|exact Hup]. intros future ms. apply streams_more.
  - split; [done|done|]. exists rest'. by rewrite Hms, app_assoc.
  - split; [by apply Forall_app|done].
Qed.

Lemma daemon_step_linked l0 r w w' n m up up_done down down_done :
  daemon_step VERSION_MAJOR VERSION_MINOR run_handler run_factory gw_order client_id w w' ->
  fits (mkLink r w' n m) -> linked l0 (mkLink r w n m) up up_done down down_done ->
  exists up_done' down', linked l0 (mkLink r w' n m) up up_done' down' down_done.
Proof.
  intros Hs [Hv1 Hv2] [Hus Hud Hds Hdd Hup Hdown [Hfu Hfw] Hi Hh Hp (tx & out & Hc & Htx)]. cbn in *.
  destruct Hup as [Ho Hr (rest & Hms & Hst)].
  assert (Forall valid_msg rest) as Hvr by (rewrite Hus, Hms, !Forall_app in Hv1; apply Hv1).
  destruct (daemon_step_moves _ _ _ _ _ _ _ _ _ _ Hs Hp Hvr Hst) as (Hg & Hp' & dl & rest' & -> & Hlog & Hst').
  assert (client_id <= unique_client_id_counter_ (Server.sr_env w)) as Hle.
  { destruct Hst as (ctx & E & _). apply (inv_context _ Hp) in E. cbn in E. lia. }
  destruct (Hg Hle) as (_ & after & Hsent & Hfine & Hext). cbn in Hsent, Hext. rewrite Hc in Hext.
  destruct (ctx_stream client_id (Server.sr_env w')) as [[tx' out']|] eqn:Hc'.
  2:{ destruct Hst' as (ctx' & E' & _). unfold ctx_stream in Hc'. by rewrite E' in Hc'. }
  destruct (Hext Htx) as [Htx' Hout]. rewrite Hsent in Hv2. apply Forall_app in Hv2 as [_ Hva]. specialize (Hout Hva).
  exists (up_done ++ dl), (down ++ after). split; cbn; try done.
  - by rewrite Hlog, Hud, app_assoc.
  - by rewrite Hsent, Hds, app_assoc.
  - split; [done|done|]. exists rest'. by rewrite Hms, app_assoc.
  - unfold written_to in *. rewrite Hc' . rewrite Hc in Hdown. rewrite Hout.
    eapply wire_sends; [|exact Hdown]. intros future ms. apply incoming_more.
  - split; [done|by apply Forall_app].
  - exists tx', out'. by rewrite Hc'.
Qed.

Lemma link_step_linked l0 l l' up up_done down down_done :
  link_step l l' -> fits l' -> linked l0 l up up_done down down_done ->
  exists up' up_done' down' down_done', linked l0 l' up' up_done' down' down_done'.
Proof.
  intros [r w n m r' Hs|r w n m w' Hs|evs r w n m Hb Hpre|evs r w n m Hb Hpre] Hf Hl.
  - destruct (sdk_step_linked _ _ _ _ _ _ _ _ _ _ Hs Hf Hl) as (up' & dd' & Hl'). eauto.
  - destruct (daemon_step_linked _ _ _ _ _ _ _ _ _ _ Hs Hf Hl) as (ud' & down' & Hl'). eauto.
  - exists up, up_done, down, down_done. destruct Hl as [Hus Hud Hds Hdd Hup Hdown [Hfu Hfw] Hi Hh Hp Hc]. cbn in *.
    assert (ctx_stream client_id (set_contexts (alter (ctx_arrive evs) client_id) (Server.sr_env w)) =
            ctx_stream client_id (Server.sr_env w)) as Hcs by (apply ctx_stream_alter; by left).
    split; cbn; try done.
    + eapply wire_arrives; [exact Hpre| |exact Hup]. intros future rest. by apply arrive_streams.
    + unfold written_to in *. by rewrite Hcs.
    + by apply arrive_inv.
    + by rewrite Hcs.
  - exists up, up_done, down, down_done. destruct Hl as [Hus Hud Hds Hdd Hup Hdown [Hfu Hfw] Hi Hh Hp Hc]. cbn in *.
    split; cbn; try done.
    + eapply wire_arrives; [exact Hpre| |exact Hdown]. intros future rest. by apply arrive_incoming.
    + destruct Hi as [Hl Hio Hfd Hset]. by split.
Qed.

Definition run : relation L := rtc (fun l l' => link_step l l' /\ fits l').

Lemma run_linked l0 l :
  begins l0 -> run l0 l -> exists up up_done down down_done,
    linked l0 l up up_done down down_done /\ Forall valid_msg up /\ Forall valid_msg down.
Proof.
  intros Hb. revert l. apply rtc_ind_r.
  - exists [], [], [], []. split; [by apply begins_linked|by split].
  - intros l1 l2 _ [Hs Hf] (up & ud & down & dd & Hl & _).
    destruct (link_step_linked _ _ _ _ _ _ _ Hs Hf Hl) as (up' & ud' & down' & dd' & Hl').
    exists up', ud', down', dd'. split; [done|]. destruct Hf as [Hv1 Hv2].
    rewrite (linked_up_sent _ _ _ _ _ _ Hl') in Hv1. rewrite (linked_down_sent _ _ _ _ _ _ Hl') in Hv2.
    apply Forall_app in Hv1 as [_ Hv1], Hv2 as [_ Hv2]. by split.
Qed.

(** C4: over a network that does not fail, the pipe carries the routers' messages. From the
    beginning of a connection on, let users of channels at both ends, the executors, the
    network and the other clients act in any order, with these restrictions on this
    connection: the network cuts the stream as it likes and may interrupt a read or have
    nothing to read ([EINTR], [EAGAIN]), but does not fail and does not end the stream; the
    kernels write each fragment whole or are interrupted (a short write would lose the
    framing: [send_short_write]); and every message that is sent has 1 byte to 1 MB. Then
    at any time the two ends are still connected; the messages of this client that the
    daemon's server passed to its router are the first of those that the SDK's router has sent,
    unchanged and in order, and vice versa; and they are all of them when nothing is on its way
    and the receiver's socket is read empty. *)
Theorem link_delivers l0 l :
  begins l0 -> run l0 l ->
  exists up up_done down down_done ctx,
    Client.cr_sent (lk_sdk l) = Client.cr_sent (lk_sdk l0) ++ up /\
    messages client_id (event_log (server l)) = messages client_id (event_log (server l0)) ++ up_done /\
    up_done `prefix_of` up /\
    sent_to client_id (Server.sr_sent (lk_daemon l)) = sent_to client_id (Server.sr_sent (lk_daemon l0)) ++ down /\
    inbox (cl_log (socket l)) = inbox (cl_log (socket l0)) ++ down_done /\
    down_done `prefix_of` down /\
    socket_callback_ (socket l) <> None /\ client_id_to_context_ (server l) !! client_id = Some ctx /\
    (in_flight_up l = [] -> ctx_rx ctx = [] -> up_done = up) /\
    (in_flight_down l = [] -> cl_rx (socket l) = [] -> down_done = down).
Proof.
  intros Hb Hr. destruct (run_linked l0 l Hb Hr) as (up & ud & down & dd & [Hus Hud Hds Hdd Hup Hdown [Hfu Hfw] Hi Hh Hp _] & Hvu & Hvd).
  destruct Hup as [_ _ (rest & Hu & ctx & E & _ & Hst)]. destruct Hdown as [_ _ (rest' & Hd & _ & Hst')].
  exists up, ud, down, dd, ctx. split; [done|]. split; [done|]. split; [by exists rest|].
  split; [done|]. split; [done|]. split; [by exists rest'|]. split; [|split; [done|split]].
  - intros Hc. pose proof (client_fd _ Hi) as Hfd. rewrite Hc in Hfd. destruct Hh, Hfd. lia.
  - intros Hf Hrx. fold (in_flight_up l) in Hst. rewrite Hrx, Hf in Hst. cbn in Hst. rewrite app_nil_r in Hst.
    destruct (inv_context _ Hp _ _ E) as (_ & _ & Hwf & _). rewrite Hu in Hvu. rewrite Hu.
    by apply (all_passed (io_state_ ctx)).
  - intros Hf Hrx. fold (in_flight_down l) in Hst'. rewrite Hrx, Hf in Hst'. cbn in Hst'. rewrite app_nil_r in Hst'.
    rewrite Hd in Hvd. rewrite Hd. by apply (all_passed (cl_io_state (socket l))); [apply client_io| |].
Qed.
End Link.

(** ** An example *)
Module IpcLinkExample.
Import WireExample.

Lemma sdk_framed fine h e : frames (Out fine) (SdkExample.ex_handler h e).
Proof. unfold SdkExample.ex_handler, run_adapter, SdkExample.ex_run. frame_steps. Qed.

#[global] Instance link_framed fine : FramedClients (OutTo fine 1) StackExample.ex_handler StackExample.ex_factory.
Proof.
  split; [intros h e; apply frames_ret|]. intros f g payload. unfold StackExample.ex_factory, Server.channel_factory.
  destruct (tryDeserializePayload payload); [|apply frames_ret]. apply frames_bind; [|intros ?; apply frames_ret]. by apply frames_own.
Qed.

Abbreviation step := (link_step 0 2 SdkExample.ex_handler SdkExample.ex_order StackExample.ex_handler
  StackExample.ex_factory map_to_list 1).
Abbreviation ex_run := (run 0 2 SdkExample.ex_handler SdkExample.ex_order StackExample.ex_handler
  StackExample.ex_factory map_to_list 1).
Abbreviation fits := (fits (CH := Adapter unit) (SH := Adapter unit) (F := unit) 1).

(** The SDK connects and says hello; the daemon, which gets that in two pieces, answers; the SDK
    receives the answer. *)
Definition sdk0 : SdkExample.W := SdkExample.ex_started.
Definition daemon0 : StackExample.W := StackExample.ex_connected.
Definition sdk1 : SdkExample.W := SdkExample.ex_up.
Definition hello : bytes := cl_out (Client.cr_env sdk1).
Definition hello_rx : list RxEvent := [RxData (take 3 hello); RxErr Errno.EAGAIN; RxData (drop 3 hello)].
Definition daemon1 : StackExample.W :=
  put_part (set_contexts (alter (ctx_arrive hello_rx) 1) (Server.sr_env daemon0)) daemon0.
Definition request (w : StackExample.W) : StackExample.W := StackExample.ex_done (handleClientRequest StackExample.ex_handle 1 w).
Definition daemon2 : StackExample.W := request (request (request (request daemon1))).
Definition answer : bytes := written_to 1 (Server.sr_env daemon2).
Definition answer_rx : list RxEvent := [RxData answer].
Definition sdk2 : SdkExample.W := put_part (cl_arrive answer_rx (Client.cr_env sdk1)) sdk1.
Definition receive (r : SdkExample.W) : SdkExample.W := SdkExample.ex_done (handleReceive SdkExample.ex_handle r).
Definition sdk3 : SdkExample.W := receive (receive (receive sdk2)).

Definition start : Link (Adapter unit) (Adapter unit) unit := mkLink sdk0 daemon0 0 0.
Definition finish : Link (Adapter unit) (Adapter unit) unit := mkLink sdk3 daemon2 (length hello) (length answer).

(** Everything arrived. *)
Example all_arrived :
  messages 1 (event_log (Server.sr_env daemon2)) = Client.cr_sent sdk3 /\
  inbox (cl_log (Client.cr_env sdk3)) = sent_to 1 (Server.sr_sent daemon2) /\
  length (Client.cr_sent sdk3) = 1%nat /\ length (sent_to 1 (Server.sr_sent daemon2)) = 1%nat.
Proof. by vm_compute. Qed.

Lemma request_step w w' n m :
  (fd_callback_ <$> client_id_to_context_ (Server.sr_env w) !! 1) = Some (Some 7) ->
  handleClientRequest StackExample.ex_handle 1 w = Done (tt, w') ->
  forall r, step (mkLink r w n m) (mkLink r w' n m).
Proof.
  intros Hc Hr r. apply fmap_Some in Hc as (ctx & E & Hcb). apply link_daemon, (daemon_runs _ _ _ _ _ _ (LReadable 1)); [done|done|].
  by eapply step_readable.
Qed.

Lemma receive_step r r' :
  socket_callback_ (Client.cr_env r) = Some (Readable 5) -> handleReceive SdkExample.ex_handle r = Done (tt, r') ->
  forall w n m, step (mkLink r w n m) (mkLink r' w n m).
Proof. intros Hc Hr w n m. by apply link_sdk, (sdk_receives _ _ _ _ 5). Qed.

Definition fitsb (l : Link (Adapter unit) (Adapter unit) unit) : bool :=
  bool_decide (Forall valid_msg (Client.cr_sent (lk_sdk l))) &&
  bool_decide (Forall valid_msg (sent_to 1 (Server.sr_sent (lk_daemon l)))).

Lemma run_step l l1 l' : step l l1 -> fitsb l1 = true -> ex_run l1 l' -> ex_run l l'.
Proof.
  intros Hs [H1%bool_decide_eq_true_1 H2%bool_decide_eq_true_1]%andb_true_iff Hr. eapply rtc_l; [|exact Hr]. by split.
Qed.

Lemma run_then l l1 l' : ex_run l l1 -> step l1 l' -> fitsb l' = true -> ex_run l l'.
Proof.
  intros Hr Hs [H1%bool_decide_eq_true_1 H2%bool_decide_eq_true_1]%andb_true_iff. eapply rtc_r; [exact Hr|]. by split.
Qed.

Lemma run_example : ex_run start finish.
Proof.
  assert (step start (mkLink sdk1 daemon0 0 0)) as S1.
  { apply link_sdk. apply (sdk_connects 0 2 SdkExample.ex_handler SdkExample.ex_order 5); by vm_compute. }
  assert (step (mkLink sdk1 daemon0 0 0) (mkLink sdk1 daemon1 (length hello) 0)) as S2.
  { assert (length hello = (0 + length (rx_data hello_rx))%nat) as -> by by vm_compute.
    apply link_up; [repeat constructor; by vm_compute|]. exists []. by vm_compute. }
  apply (run_step _ _ _ S1); [vm_compute; reflexivity|].
  apply (run_step _ _ _ S2); [vm_compute; reflexivity|]. clear S1 S2.
  pose (d1 := request daemon1). pose (d2 := request d1). pose (d3 := request d2).
  assert (step (mkLink sdk1 daemon1 (length hello) 0) (mkLink sdk1 d1 (length hello) 0)) as S1 by by apply request_step; vm_compute.
  assert (step (mkLink sdk1 d1 (length hello) 0) (mkLink sdk1 d2 (length hello) 0)) as S2 by by apply request_step; vm_compute.
  assert (step (mkLink sdk1 d2 (length hello) 0) (mkLink sdk1 d3 (length hello) 0)) as S3 by by apply request_step; vm_compute.
  assert (step (mkLink sdk1 d3 (length hello) 0) (mkLink sdk1 daemon2 (length hello) 0)) as S4 by by apply request_step; vm_compute.
  apply (run_step _ _ _ S1); [vm_compute; reflexivity|].
  apply (run_step _ _ _ S2); [vm_compute; reflexivity|].
  apply (run_step _ _ _ S3); [vm_compute; reflexivity|].
  apply (run_step _ _ _ S4); [vm_compute; reflexivity|]. clear S1 S2 S3 S4.
  assert (step (mkLink sdk1 daemon2 (length hello) 0) (mkLink sdk2 daemon2 (length hello) (length answer))) as S1.
  { assert (length answer = (0 + length (rx_data answer_rx))%nat) as -> by by vm_compute.
    apply link_down; [repeat constructor; by vm_compute|]. exists []. by vm_compute. }
  apply (run_step _ _ _ S1); [vm_compute; reflexivity|]. clear S1.
  pose (r1 := receive sdk2). pose (r2 := receive r1).
  assert (step (mkLink sdk2 daemon2 (length hello) (length answer)) (mkLink r1 daemon2 (length hello) (length answer))) as S1
    by by apply receive_step; vm_compute.
  assert (step (mkLink r1 daemon2 (length hello) (length answer)) (mkLink r2 daemon2 (length hello) (length answer))) as S2
    by by apply receive_step; vm_compute.
  assert (step (mkLink r2 daemon2 (length hello) (length answer)) finish) as S3 by by apply receive_step; vm_compute.
  apply (run_step _ _ _ S1); [vm_compute; reflexivity|].
  apply (run_step _ _ _ S2); [vm_compute; reflexivity|].
  apply (run_step _ _ _ S3); [vm_compute; reflexivity|]. constructor.
Qed.

Lemma daemon0_inv : PipeInv (Server.sr_env daemon0).
Proof.
  assert (forall d : StackExample.W, PipeInv (get_part (S := SocketServer) d) -> PipeInv (Server.sr_env d)) as Hget by done.
  apply Hget. refine (steps_inv StackExample.ex_handle StackExample.ex_boot StackExample.ex_cold daemon0 StackExample.ex_boot_steps _).
  apply new_inv.
Qed.

Definition ctx0 : ClientContext := mkClientContext 1 7 IoState_init (Some 7) [] [] [].

Lemma start_begins : begins 1 start.
Proof.
  split; [exact (proj2 SdkExample.ex_started_inv)|by vm_compute|by vm_compute|split; [by vm_compute|constructor]|by vm_compute|exact daemon0_inv| |done].
  exists ctx0. split; [by vm_compute|]. by repeat constructor.
Qed.

Lemma link_delivers_witness : exists up up_done down down_done ctx,
  Client.cr_sent (lk_sdk finish) = Client.cr_sent (lk_sdk start) ++ up /\
  messages 1 (event_log (Server.sr_env (lk_daemon finish))) = messages 1 (event_log (Server.sr_env (lk_daemon start))) ++ up_done /\
  up_done `prefix_of` up /\
  sent_to 1 (Server.sr_sent (lk_daemon finish)) = sent_to 1 (Server.sr_sent (lk_daemon start)) ++ down /\
  inbox (cl_log (Client.cr_env (lk_sdk finish))) = inbox (cl_log (Client.cr_env (lk_sdk start))) ++ down_done /\
  down_done `prefix_of` down /\
  socket_callback_ (Client.cr_env (lk_sdk finish)) <> None /\ client_id_to_context_ (Server.sr_env (lk_daemon finish)) !! 1 = Some ctx /\
  (in_flight_up finish = [] -> ctx_rx ctx = [] -> up_done = up) /\
  (in_flight_down 1 finish = [] -> cl_rx (Client.cr_env (lk_sdk finish)) = [] -> down_done = down).
Proof.
  exact (link_delivers (fine := fun _ => True) 0 2 SdkExample.ex_handler SdkExample.ex_order StackExample.ex_handler StackExample.ex_factory
    map_to_list 1 (sdk_framed _) start finish start_begins run_example).
Defined.
End IpcLinkExample.
