(* ===== verification/IpcSafety.v ===== *)
(** * Both ends of the pipe with their routers: nothing fails, and everything arrives

    Over [IpcLink]: what a router sends never announces more payload than it has ([announced]), so
    that what arrives at the other end can be handled. The invariants of both routers
    ([Inv]) are kept by everything that happens, no callback fails in what can be reached,
    and what was sent is handled as soon as it arrives and the callbacks run. *)
From S2P Require Import Prelude Errors SocketBuffer Posix SocketAddress SocketOps SocketBase PipeBase PipeFrames.
From S2P Require Import Gateway GatewayFacts WireExample ClientRouter ClientRouterFacts ServerRouter ServerRouterFacts Channel.
From S2P Require Import SocketClient SocketServer ClientStack ServerStack Streams SdkStream DaemonStream IpcLink.

Local Open Scope Z_scope.

(** A message that the pipe can carry and that announces what it has is one that the routers can handle. *)
Lemma announced_fits `{Codec Route} m : valid_msg m -> announced m ->
  (forall client_id, ServerRouterFacts.event_fits (Server.PipeMessage client_id m)) /\
  ClientRouterFacts.event_fits (Client.PipeMessage m).
Proof.
  intros [_ Hm] Ha. rewrite MsgPayloadMaxSize_val in Hm. split; [intros client_id|]; cbn; apply Ha; lia.
Qed.

Lemma rx_measure_0 rx : rx_measure rx = 0%nat -> rx = [].
Proof. destruct rx as [|[] rx]; rewrite ?rx_measure_cons; [done|lia..]. Qed.

(** The invariant of a router does not look at its pipe. *)
Lemma client_part_inv {H} (r r' : Client.Router H SocketClient) :
  client_router_part r' = client_router_part r -> Inv r -> Inv r'.
Proof.
  intros E [Hw Hr]. unfold client_router_part in E. injection E as Eh _ Ec Em _. split; cbn; [by rewrite Eh|].
  intros ep g Hg. unfold find_gw; cbn. rewrite Eh. apply Hr. revert Hg. cbn. unfold Client.lookup_gateway. by rewrite Em.
Qed.

Lemma server_part_inv {H F} (w w' : Server.Router H F SocketServer) : router_part w' = router_part w -> Inv w -> Inv w'.
Proof.
  intros E [Hw Hr]. unfold router_part in E. injection E as Eh Em _ _. split; cbn; [by rewrite Eh|].
  intros ep g Hg. unfold find_gw; cbn. rewrite Eh. apply Hr. revert Hg. cbn. unfold Server.lookup_gateway. by rewrite Em.
Qed.

Section Safety.
Context {CH SH F : Type} `{RouteOk : CodecOk Route Route_wf} `{!CodecTyped Route Route_wf}.
Context (VERSION_MAJOR VERSION_MINOR : Z).
Abbreviation Sdk := (Client.Router CH SocketClient).
Abbreviation Daemon := (Server.Router SH F SocketServer).
Abbreviation L := (Link CH SH F).
Context (sdk_handler : CH -> GwEvent -> M Sdk OptError).
Context (sdk_order : gmap Z GwId -> list (Z * GwId)).
Context (run_handler : SH -> GwEvent -> M Daemon OptError).
Context (run_factory : F -> GwId -> bytes -> M Daemon unit).
Context (gw_order : gmap Z GwId -> list (Z * GwId)).
Context (client_id : ClientId).
Context (sdk_framed : forall h e, frames (Out announced) (sdk_handler h e)).
Context (sdk_handlers : Handlers sdk_handler) (sdk_order_ok : forall m, sdk_order m ≡ₚ map_to_list m).
Context `{Hframed : !FramedClients (OutTo announced client_id) run_handler run_factory}.
Context `{Hclients : !Clients run_handler run_factory}.

Abbreviation socket l := (Client.cr_env (lk_sdk l)).
Abbreviation server l := (Server.sr_env (lk_daemon l)).
Abbreviation sdk_event := (Client.handlePipeEvent VERSION_MAJOR VERSION_MINOR client_send sdk_handler sdk_order).
Abbreviation daemon_event :=
  (Server.handlePipeEvent VERSION_MAJOR VERSION_MINOR server_send run_handler run_factory gw_order).
Abbreviation link_run := (run VERSION_MAJOR VERSION_MINOR sdk_handler sdk_order run_handler run_factory gw_order client_id).
Abbreviation link_steps :=
  (link_step VERSION_MAJOR VERSION_MINOR sdk_handler sdk_order run_handler run_factory gw_order client_id).

#[local] Instance safe_keeps_socket : HandlerKeeps (S := SocketClient) sdk_event :=
  sdk_keeps_socket VERSION_MAJOR VERSION_MINOR sdk_handler sdk_order sdk_framed.
#[local] Instance safe_keeps_server : HandlerKeeps (S := SocketServer) daemon_event :=
  daemon_keeps_server VERSION_MAJOR VERSION_MINOR run_handler run_factory gw_order client_id.
#[local] Instance safe_total_socket : HandlerTotal (S := SocketClient) sdk_event Inv ClientRouterFacts.event_fits :=
  client_router_total VERSION_MAJOR VERSION_MINOR sdk_handler sdk_order sdk_handlers sdk_order_ok.

(** ** The routers' invariants *)

Lemma sdk_turn_router (r r' : Sdk) : turn sdk_event r r' -> Inv r -> Inv r'.
Proof.
  intros Ht.
  destruct (client_events_handled sdk_event client_router_part client_router_part_put r r' (rtc_once _ _ Ht)) as (evs & _ & Hh).
  apply (handled_invariant sdk_event client_router_part Inv evs r r'); [exact client_part_inv| |exact Hh].
  intros ev w e w'. by apply client_handled_event_inv.
Qed.

Lemma sdk_step_router (r r' : Sdk) :
  sdk_step VERSION_MAJOR VERSION_MINOR sdk_handler sdk_order r r' -> Inv r -> Inv r'.
Proof.
  intros [g w w' Hr|g service_id b e w w' _ Hr|g oe ka e w w' Hr|g h w w' Hr|g w w' Hr|g w w' Hr|fd w w' Hc _ Hr|fd w w' Hc Hr] Hi.
  - by eapply makeGateway_Done.
  - by eapply client_send_Done.
  - by eapply client_complete_Done.
  - by eapply client_subscribe_Done.
  - by eapply own_Done.
  - eapply disown_Done; [apply client_disposer|exact Hi|exact Hr].
  - eapply sdk_turn_router; [by eapply turn_connect|done].
  - eapply sdk_turn_router; [by eapply turn_receive|done].
Qed.

Lemma daemon_callback_router l (w w' : Daemon) : l <> LOther -> SocketServer.step daemon_event l w w' -> Inv w -> Inv w'.
Proof.
  intros Hl Hs.
  destruct (server_events_handled daemon_event router_part router_part_put [l] w w') as (evs & _ & Hh);
    [by apply Forall_singleton|eapply steps_cons; [exact Hs|apply steps_nil]|].
  apply (handled_invariant daemon_event router_part Inv evs w w'); [exact server_part_inv| |exact Hh].
  intros ev v e v'. by apply handled_event_inv.
Qed.

Lemma daemon_step_router (w w' : Daemon) :
  daemon_step VERSION_MAJOR VERSION_MINOR run_handler run_factory gw_order client_id w w' -> Inv w -> Inv w'.
Proof.
  intros [l v v' Hl _ Hs|g service_id b e v v' _ Hr|g oe ka e v v' Hr|g h v v' Hr|g v v' Hr|g v v' Hr] Hi.
  - by eapply daemon_callback_router.
  - by eapply (gateway_send_Done (F := F)).
  - by eapply (gateway_complete_Done (F := F)).
  - by eapply gateway_subscribe_Done.
  - by eapply own_Done.
  - eapply disown_Done; [apply server_disposer|exact Hi|exact Hr].
Qed.

(** The invariants of both routers. *)
Definition routers (l : L) : Prop := Inv (lk_sdk l) /\ Inv (lk_daemon l).

Lemma link_step_routers l l' : link_steps l l' -> routers l -> routers l'.
Proof.
  intros [r w n m r' Hs|r w n m w' Hs|evs r w n m _ _|evs r w n m _ _] [Hr Hw]; split; cbn in *; try done.
  - by eapply sdk_step_router.
  - by eapply daemon_step_router.
Qed.

Lemma run_routers l0 l : link_run l0 l -> routers l0 -> routers l.
Proof. induction 1 as [l|l0 l1 l2 [Hs _] _ IH]; [done|]. intros Hl. by eapply IH, link_step_routers. Qed.

(** ** What waits to be received *)

(** Messages that the pipe can carry and the routers can handle. *)
Definition handled_well (ms : list bytes) : Prop := Forall valid_msg ms /\ Forall announced ms.

(** [up_rest] and [down_rest] are sent and not yet passed on. *)
Record waits (l0 l : L) (up up_rest down down_rest : list bytes) : Prop := {
  waits_linked : exists up_done down_done, linked (fine := announced) client_id l0 l up up_done down down_done /\
    up = up_done ++ up_rest /\ down = down_done ++ down_rest;
  waits_up : streams client_id (in_flight_up l) up_rest (server l);
  waits_down : incoming (socket l) (in_flight_down client_id l) down_rest;
  waits_up_well : handled_well up_rest;
  waits_down_well : handled_well down_rest;
}.

Lemma run_waits l0 l :
  begins client_id l0 -> link_run l0 l -> exists up up_rest down down_rest, waits l0 l up up_rest down down_rest.
Proof.
  intros Hb Hr. destruct (run_linked VERSION_MAJOR VERSION_MINOR sdk_handler sdk_order run_handler run_factory gw_order client_id sdk_framed l0 l Hb Hr)
    as (up & ud & down & dd & Hl & Hvu & Hvd).
  destruct (wire_holds _ _ _ _ _ (linked_up _ _ _ _ _ _ _ Hl)) as (ur & Eu & Hu).
  destruct (wire_holds _ _ _ _ _ (linked_down _ _ _ _ _ _ _ Hl)) as (dr & Ed & Hd).
  destruct (linked_fine _ _ _ _ _ _ _ Hl) as [Hfu Hfd]. exists up, ur, down, dr.
  split; [by exists ud, dd|exact Hu|exact Hd| |].
  - rewrite Eu in Hvu, Hfu. apply Forall_app in Hvu as [_ ?], Hfu as [_ ?]. by split.
  - rewrite Ed in Hvd, Hfd. apply Forall_app in Hvd as [_ ?], Hfd as [_ ?]. by split.
Qed.

Lemma well_in ms m : handled_well ms -> m ∈ ms -> valid_msg m /\ announced m.
Proof. intros [Hv Ha] Hm. rewrite Forall_forall in Hv, Ha. auto. Qed.

(** *** The callbacks return *)

Lemma receives_safely (r : Sdk) fd future ms :
  Inv r -> ClientInv (Client.cr_env r) -> socket_callback_ (Client.cr_env r) = Some (Readable fd) ->
  handled_well ms -> incoming (Client.cr_env r) future ms ->
  wp (handleReceive sdk_event) (fun _ r' => (Inv r' /\ ClientInv (Client.cr_env r')) /\
    (exists delivered rest, ms = delivered ++ rest /\
       handled sdk_event client_router_part (Client.PipeMessage <$> delivered) r r' /\
       inbox (cl_log (Client.cr_env r')) = inbox (cl_log (Client.cr_env r)) ++ delivered /\
       incoming (Client.cr_env r') future rest) /\
    socket_callback_ (Client.cr_env r') = socket_callback_ (Client.cr_env r) /\
    (rx_measure (cl_rx (Client.cr_env r')) <= rx_measure (cl_rx (Client.cr_env r)) - 1)%nat) r.
Proof.
  intros Hi Hc Hcb Hw [Hb Hst]. apply wp_wlp.
  - apply (proj2 (client_callbacks_return (H := router_has_client) sdk_event Inv ClientRouterFacts.event_fits Logic.I Logic.I r Hi Hc) fd Hcb).
    intros m Hm. apply announced_fits; eapply (well_in ms); try done.
    all: eapply received_in; [by apply client_io|exact Hb|apply Hw|exact Hst|exact Hm].
  - unfold wlp. destruct (handleReceive sdk_event r) as [[[] r']|] eqn:E; [|done].
    destruct (handleReceive_moves VERSION_MAJOR VERSION_MINOR sdk_handler sdk_order sdk_framed future ms r r' Hc
      (proj1 Hw) (conj Hb Hst) E) as ([_ (dl & rest & Hms & Hlog & Hin)] & Hcb' & Hm).
    split; [|done]. exists dl, rest. split; [done|]. split; [|split; [by rewrite Hlog, inbox_app, inbox_messages|done]].
    assert (turn sdk_event r r') as Ht by by eapply turn_receive.
    destruct (client_events_handled sdk_event client_router_part client_router_part_put r r' (rtc_once _ _ Ht)) as (evs & Elog & Hh).
    change (get_part (S := SocketClient) r) with (Client.cr_env r) in Elog.
    change (get_part (S := SocketClient) r') with (Client.cr_env r') in Elog.
    rewrite Hlog, events_of_app, events_of_messages in Elog. apply app_inv_head in Elog as <-. exact Hh.
Qed.

Lemma requests_safely (w : Daemon) future ms ctx :
  Inv w -> PipeInv (Server.sr_env w) -> handled_well ms -> streams client_id future ms (Server.sr_env w) ->
  client_id_to_context_ (Server.sr_env w) !! client_id = Some ctx ->
  wp (handleClientRequest daemon_event client_id) (fun _ w' => (Inv w' /\ PipeInv (Server.sr_env w')) /\
    exists delivered rest ctx', ms = delivered ++ rest /\
      handled daemon_event router_part (Server.PipeMessage client_id <$> delivered) w w' /\
      messages client_id (event_log (Server.sr_env w')) = messages client_id (event_log (Server.sr_env w)) ++ delivered /\
      streams client_id future rest (Server.sr_env w') /\
      client_id_to_context_ (Server.sr_env w') !! client_id = Some ctx' /\
      (rx_measure (ctx_rx ctx') <= rx_measure (ctx_rx ctx) - 1)%nat) w.
Proof.
  intros Hi Hp Hw Hs E. pose proof Hs as (ctx0 & E0 & Hb & Hst). rewrite E in E0. injection E0 as <-.
  destruct (requested_streams _ _ _ _ _ Hp (proj1 Hw) Hs E) as (dl & rest & ctx' & Hms & Hm & Hs' & E' & Hrx & Hlog).
  assert (request_ok ServerRouterFacts.event_fits client_id ctx) as Hok.
  { split; [done|]. intros m Hin. apply announced_fits; eapply (well_in ms); try done.
    all: eapply received_in; [by apply (inv_context _ Hp _ _ E)|exact Hb|apply Hw|exact Hst|exact Hin]. }
  pose proof (wp_handleClientRequest (H := router_has_server) daemon_event Inv ServerRouterFacts.event_fits client_id ctx w Hi Hp E Hok) as Hwp.
  unfold wp in *. destruct (handleClientRequest daemon_event client_id w) as [[[] w']|] eqn:Er; [|done].
  destruct Hwp as [Hi' K]. change (get_part (S := SocketServer) w) with (Server.sr_env w) in K.
  change (get_part (S := SocketServer) w') with (Server.sr_env w') in K.
  destruct (keeps_found _ _ _ _ K E') as (ctx2 & E2 & [= _ _ _ _ Hrx2]).
  split; [split; [done|]; eapply keeps_inv; [exact K|]; by apply requested_inv|].
  exists dl, rest, ctx2. split; [done|]. split; [|split; [by rewrite (keeps_log _ _ K)|]].
  - destruct (server_events_handled daemon_event router_part router_part_put [LReadable client_id] w w') as (evs & Elog & Hh).
    + by apply Forall_singleton.
    + destruct (inv_context _ Hp _ _ E) as (_ & _ & _ & Hcb).
      eapply steps_cons; [by eapply step_readable|apply steps_nil].
    + change (get_part (S := SocketServer) w) with (Server.sr_env w) in Elog.
      change (get_part (S := SocketServer) w') with (Server.sr_env w') in Elog.
      rewrite (keeps_log _ _ K), Hlog in Elog. apply app_inv_head in Elog as <-. exact Hh.
  - split; [by eapply keeps_streams|]. split; [done|]. by rewrite Hrx2.
Qed.

(** C5: over a network that does not fail, nothing fails. From the beginning of a connection on,
    users, executors, the network and other clients act in any order, with the restrictions
    of C4 on this connection: the network delivers pieces of the stream, [EINTR] or [EAGAIN], no other
    error and no end of the stream; the kernels write each fragment whole or are interrupted;
    messages have 1 byte to 1 MB; and the codec of the routes reads back what it wrote. Then
    no operation on this connection runs into undefined behaviour: at both ends
    sending through a channel that someone holds returns, and the callbacks of the sockets
    return; the daemon stays connected to the client, and the SDK to the daemon; and the
    invariants of both routers hold. *)
Theorem link_never_fails l0 l :
  begins client_id l0 -> routers l0 -> link_run l0 l ->
  routers l /\
  (forall g service_id b, is_Some (find_gw g (lk_sdk l)) ->
     wp (Client.gateway_send client_send g service_id b) (fun _ => Inv) (lk_sdk l)) /\
  (forall g service_id b, is_Some (find_gw g (lk_daemon l)) ->
     wp (Server.gateway_send server_send g service_id b) (fun _ => Inv) (lk_daemon l)) /\
  (forall fd, socket_callback_ (socket l) = Some (Writable fd) ->
     wp (handleConnect sdk_event) (fun _ => Inv) (lk_sdk l)) /\
  (forall fd, socket_callback_ (socket l) = Some (Readable fd) ->
     wp (handleReceive sdk_event)
        (fun _ r' => Inv r' /\ socket_callback_ (Client.cr_env r') = Some (Readable fd)) (lk_sdk l)) /\
  wp (handleClientRequest daemon_event client_id)
     (fun _ w' => Inv w' /\ is_Some (client_id_to_context_ (Server.sr_env w') !! client_id)) (lk_daemon l).
Proof.
  intros Hb Hl0 Hr. destruct (run_routers _ _ Hr Hl0) as [Hi Hw].
  destruct (run_waits _ _ Hb Hr) as (up & ur & down & dr & [(ud & dd & Hl & _) Hu Hd Hwu Hwd]).
  pose proof (linked_sdk _ _ _ _ _ _ _ Hl) as Hc. split; [by split|]. split; [|split; [|split; [|split]]].
  - intros g service_id b Hg. eapply wp_mono; [by apply client_send_safe|]. by intros e r' [? _].
  - intros g service_id b Hg. eapply wp_mono; [by apply gateway_send_safe|]. by intros e w' [? _].
  - intros fd Hcb. eapply wp_mono.
    { exact (proj1 (client_callbacks_return (H := router_has_client) sdk_event Inv ClientRouterFacts.event_fits
        Logic.I Logic.I _ Hi Hc) fd Hcb). }
    by intros e r' [? _].
  - intros fd Hcb. eapply wp_mono; [by eapply receives_safely|]. intros [] r' ([? _] & _ & -> & _). by split.
  - pose proof Hu as (ctx & E & _).
    eapply wp_mono; [by eapply requests_safely; [|exact (linked_daemon _ _ _ _ _ _ _ Hl)|exact Hwu|exact Hu|]|].
    intros [] w' ([? _] & _ & _ & ctx' & _ & _ & _ & _ & E' & _). split; [done|]. by exists ctx'.
Qed.

(** ** Everything arrives *)

(** Of what waits the receiver has nothing left: it has passed on all of it. *)
Lemma nothing_waits io_state rx ms :
  IoState_wf io_state -> handled_well ms -> (rx_measure rx <= 0)%nat -> pending io_state ++ rx_data rx ++ [] = frames_of ms -> ms = [].
Proof.
  intros Hwf Hw Hm Hst. rewrite (rx_measure_0 rx) in Hst by lia. cbn in Hst. rewrite app_nil_r in Hst.
  symmetry. by apply (all_passed io_state [] ms Hwf (proj1 Hw)).
Qed.

Lemma well_app ms1 ms2 : handled_well (ms1 ++ ms2) -> handled_well ms2.
Proof. intros [[_ ?]%Forall_app [_ ?]%Forall_app]. by split. Qed.

(** A socket that is read often enough is read empty, and its router handles the messages. *)
Lemma sdk_serves n fd ms (r : Sdk) :
  Inv r -> ClientInv (Client.cr_env r) -> socket_callback_ (Client.cr_env r) = Some (Readable fd) ->
  handled_well ms -> incoming (Client.cr_env r) [] ms -> (rx_measure (cl_rx (Client.cr_env r)) <= n)%nat ->
  wp (mfor (seq 0 n) (fun _ => handleReceive sdk_event)) (fun _ r' => Inv r' /\
    socket_callback_ (Client.cr_env r') = Some (Readable fd) /\
    handled sdk_event client_router_part (Client.PipeMessage <$> ms) r r' /\
    inbox (cl_log (Client.cr_env r')) = inbox (cl_log (Client.cr_env r)) ++ ms) r.
Proof.
  intros Hi Hc Hcb Hw Hin Hn.
  eapply wp_mono; [apply (wp_mfor (fun l r' => (Inv r' /\ ClientInv (Client.cr_env r')) /\
    socket_callback_ (Client.cr_env r') = Some (Readable fd) /\ (rx_measure (cl_rx (Client.cr_env r')) <= length l)%nat /\
    exists delivered rest, ms = delivered ++ rest /\
      handled sdk_event client_router_part (Client.PipeMessage <$> delivered) r r' /\
      inbox (cl_log (Client.cr_env r')) = inbox (cl_log (Client.cr_env r)) ++ delivered /\
      incoming (Client.cr_env r') [] rest))|..].
  - intros a l r1 ([Hi1 Hc1] & Hcb1 & Hm1 & d1 & rest1 & -> & Hh1 & Hlog1 & Hin1). apply well_app in Hw.
    eapply wp_mono; [by eapply receives_safely|]. intros [] r2 (? & (d2 & rest2 & -> & Hh2 & Hlog2 & Hin2) & Hcb2 & Hm2).
    split; [done|]. split; [by rewrite Hcb2|]. split; [cbn [length] in Hm1; lia|].
    exists (d1 ++ d2), rest2. rewrite Hlog2, Hlog1, !app_assoc, fmap_app. split; [done|]. split; [by eapply handled_app|done].
  - split; [done|]. split; [done|]. split; [by rewrite length_seq|]. exists [], ms. rewrite app_nil_r. split; [done|].
    split; [by apply handled_nil|done].
  - intros [] r' ([? Hc'] & ? & Hm' & d & rest & -> & Hh & Hlog & _ & Hst). apply well_app in Hw.
    rewrite (nothing_waits _ _ _ (client_io _ Hc') Hw Hm' Hst), app_nil_r. done.
Qed.

Lemma daemon_serves n ms (w : Daemon) ctx :
  Inv w -> PipeInv (Server.sr_env w) -> client_id_to_context_ (Server.sr_env w) !! client_id = Some ctx ->
  handled_well ms -> streams client_id [] ms (Server.sr_env w) -> (rx_measure (ctx_rx ctx) <= n)%nat ->
  wp (mfor (seq 0 n) (fun _ => handleClientRequest daemon_event client_id)) (fun _ w' => Inv w' /\
    is_Some (client_id_to_context_ (Server.sr_env w') !! client_id) /\
    handled daemon_event router_part (Server.PipeMessage client_id <$> ms) w w' /\
    messages client_id (event_log (Server.sr_env w')) = messages client_id (event_log (Server.sr_env w)) ++ ms) w.
Proof.
  intros Hi Hp E Hw Hs Hn.
  eapply wp_mono; [apply (wp_mfor (fun l w' => (Inv w' /\ PipeInv (Server.sr_env w')) /\ exists delivered rest ctx',
    ms = delivered ++ rest /\ handled daemon_event router_part (Server.PipeMessage client_id <$> delivered) w w' /\
    messages client_id (event_log (Server.sr_env w')) = messages client_id (event_log (Server.sr_env w)) ++ delivered /\
    streams client_id [] rest (Server.sr_env w') /\
    client_id_to_context_ (Server.sr_env w') !! client_id = Some ctx' /\ (rx_measure (ctx_rx ctx') <= length l)%nat))|..].
  - intros a l w1 ([Hi1 Hp1] & d1 & rest1 & ctx1 & -> & Hh1 & Hlog1 & Hs1 & E1 & Hm1). apply well_app in Hw.
    eapply wp_mono; [by eapply requests_safely|]. intros [] w2 (? & d2 & rest2 & ctx2 & -> & Hh2 & Hlog2 & Hs2 & E2 & Hm2).
    split; [done|]. exists (d1 ++ d2), rest2, ctx2. rewrite Hlog2, Hlog1, !app_assoc, fmap_app.
    split; [done|]. split; [by eapply handled_app|]. split; [done|]. split; [done|]. split; [done|]. cbn [length] in Hm1. lia.
  - split; [done|]. exists [], ms, ctx. rewrite app_nil_r, length_seq. split; [done|]. split; [by apply handled_nil|done].
  - intros [] w' ([? Hp'] & d & rest & ctx' & -> & Hh & Hlog & (ctx2 & E2 & _ & Hst) & E' & Hm'). apply well_app in Hw.
    rewrite E' in E2. injection E2 as <-. destruct (inv_context _ Hp' _ _ E') as (_ & _ & Hwf & _).
    rewrite (nothing_waits _ _ _ Hwf Hw Hm' Hst), app_nil_r. split; [done|]. by split; [eexists|].
Qed.

(** All that is on its way arrives, and is handled. *)
Lemma daemon_arrives (l : L) ctx ms evs n :
  Inv (lk_daemon l) -> PipeInv (server l) -> client_id_to_context_ (server l) !! client_id = Some ctx ->
  handled_well ms -> streams client_id (in_flight_up l) ms (server l) ->
  Forall benign evs -> rx_data evs = in_flight_up l -> (rx_measure (ctx_rx ctx ++ evs) <= n)%nat ->
  wp (mfor (seq 0 n) (fun _ => handleClientRequest daemon_event client_id))
     (fun _ w' => Inv w' /\ is_Some (client_id_to_context_ (Server.sr_env w') !! client_id) /\
        handled daemon_event router_part (Server.PipeMessage client_id <$> ms) (lk_daemon l) w')
     (put_part (set_contexts (alter (ctx_arrive evs) client_id) (server l)) (lk_daemon l)).
Proof.
  intros Hi Hp E Hw Hs He Hf Hn. set (s := set_contexts (alter (ctx_arrive evs) client_id) (server l)).
  assert (streams client_id [] ms s) as Hs' by (apply arrive_streams; [done|]; by rewrite app_nil_r, Hf).
  assert (client_id_to_context_ s !! client_id = Some (ctx_arrive evs ctx)) as E' by (cbn; by rewrite lookup_alter_eq, E).
  eapply wp_mono; [apply (daemon_serves n ms (put_part s (lk_daemon l)) (ctx_arrive evs ctx))|].
  - by apply put_part_inv.
  - by apply arrive_inv.
  - exact E'.
  - done.
  - exact Hs'.
  - exact Hn.
  - intros [] w' (? & ? & Hh & _). split; [done|]. split; [done|]. exact (handled_from daemon_event router_part _ _ _ _ (router_part_put s (lk_daemon l)) Hh).
Qed.

Lemma sdk_arrives (l : L) fd ms evs n :
  Inv (lk_sdk l) -> ClientInv (socket l) -> socket_callback_ (socket l) = Some (Readable fd) ->
  handled_well ms -> incoming (socket l) (in_flight_down client_id l) ms ->
  Forall benign evs -> rx_data evs = in_flight_down client_id l -> (rx_measure (cl_rx (socket l) ++ evs) <= n)%nat ->
  wp (mfor (seq 0 n) (fun _ => handleReceive sdk_event))
     (fun _ r' => Inv r' /\ socket_callback_ (Client.cr_env r') = Some (Readable fd) /\
        handled sdk_event client_router_part (Client.PipeMessage <$> ms) (lk_sdk l) r')
     (put_part (cl_arrive evs (socket l)) (lk_sdk l)).
Proof.
  intros Hi [Hl Hio Hfd Hset] Hcb Hw Hin He Hf Hn.
  eapply wp_mono; [apply (sdk_serves n fd ms (put_part (cl_arrive evs (socket l)) (lk_sdk l)))|].
  - exact (put_total (event_handler := sdk_event) (ok := ClientRouterFacts.event_fits) (cl_arrive evs (socket l)) (lk_sdk l) Hi).
  - by split.
  - exact Hcb.
  - done.
  - apply arrive_incoming; [done|]. by rewrite app_nil_r, Hf.
  - exact Hn.
  - intros [] r' (? & ? & Hh & _). split; [done|]. split; [done|]. exact (handled_from sdk_event client_router_part _ _ _ _ (client_router_part_put _ (lk_sdk l)) Hh).
Qed.

(** C6: everything arrives. From the beginning of a connection on, whatever has happened: of what the
    SDK's router has sent, the daemon's router was given a first part ([up_done]); when all that
    is on its way reaches the daemon's socket (cut and interrupted in any way) and its callback runs
    often enough, the daemon's router handles exactly the other messages ([up_rest]), one after the
    other, unchanged and in order, without failing, and the client stays connected; and
    vice versa. *)
Theorem link_drains l0 l :
  begins client_id l0 -> routers l0 -> link_run l0 l ->
  exists up_done up_rest down_done down_rest,
    Client.cr_sent (lk_sdk l) = Client.cr_sent (lk_sdk l0) ++ up_done ++ up_rest /\
    messages client_id (event_log (server l)) = messages client_id (event_log (server l0)) ++ up_done /\
    sent_to client_id (Server.sr_sent (lk_daemon l)) =
      sent_to client_id (Server.sr_sent (lk_daemon l0)) ++ down_done ++ down_rest /\
    inbox (cl_log (socket l)) = inbox (cl_log (socket l0)) ++ down_done /\
    (exists ctx, client_id_to_context_ (server l) !! client_id = Some ctx /\
      forall evs n, Forall benign evs -> rx_data evs = in_flight_up l -> (rx_measure (ctx_rx ctx ++ evs) <= n)%nat ->
      wp (mfor (seq 0 n) (fun _ => handleClientRequest daemon_event client_id))
         (fun _ w' => Inv w' /\ is_Some (client_id_to_context_ (Server.sr_env w') !! client_id) /\
            handled daemon_event router_part (Server.PipeMessage client_id <$> up_rest) (lk_daemon l) w')
         (put_part (set_contexts (alter (ctx_arrive evs) client_id) (server l)) (lk_daemon l))) /\
    (forall fd, socket_callback_ (socket l) = Some (Readable fd) ->
      forall evs n, Forall benign evs -> rx_data evs = in_flight_down client_id l -> (rx_measure (cl_rx (socket l) ++ evs) <= n)%nat ->
      wp (mfor (seq 0 n) (fun _ => handleReceive sdk_event))
         (fun _ r' => Inv r' /\ socket_callback_ (Client.cr_env r') = Some (Readable fd) /\
            handled sdk_event client_router_part (Client.PipeMessage <$> down_rest) (lk_sdk l) r')
         (put_part (cl_arrive evs (socket l)) (lk_sdk l))).
Proof.
  intros Hb Hl0 Hr. destruct (run_routers _ _ Hr Hl0) as [Hi Hw].
  destruct (run_waits _ _ Hb Hr) as (up & ur & down & dr & [(ud & dd & [Hus Hud Hds Hdd _ _ _ Hc _ Hp _] & -> & ->) Hu Hd Hwu Hwd]).
  exists ud, ur, dd, dr. do 4 (split; [done|]). split.
  - pose proof Hu as (ctx & E & _). exists ctx. split; [done|]. intros evs n He Hf Hn. by eapply daemon_arrives.
  - intros fd Hcb evs n He Hf Hn. by eapply sdk_arrives.
Qed.

(** *** The next message *)

(** The daemon has received all that the SDK has sent, and vice versa. *)
Definition up_empty (l : L) : Prop :=
  in_flight_up l = [] /\ exists ctx, client_id_to_context_ (server l) !! client_id = Some ctx /\ ctx_rx ctx = [].
Definition down_empty (l : L) : Prop := in_flight_down client_id l = [] /\ cl_rx (socket l) = [].

(** Then what is sent next is what is handled next. *)
Lemma next_up l0 l g service_id b e (r' : Sdk) wire evs n :
  begins client_id l0 -> routers l0 -> link_run l0 l -> up_empty l ->
  SocketBuffer.wf b -> Client.gateway_send client_send g service_id b (lk_sdk l) = Done (e, r') ->
  Client.cr_sent r' = Client.cr_sent (lk_sdk l) ++ [wire] ->
  let l' := mkLink r' (lk_daemon l) (up_read l) (down_read l) in
  fits client_id l' -> Forall benign evs -> rx_data evs = in_flight_up l' -> (rx_measure evs <= n)%nat ->
  wp (mfor (seq 0 n) (fun _ => handleClientRequest daemon_event client_id))
     (fun _ w' => Inv w' /\ is_Some (client_id_to_context_ (Server.sr_env w') !! client_id) /\
        handled daemon_event router_part [Server.PipeMessage client_id wire] (lk_daemon l) w')
     (put_part (set_contexts (alter (ctx_arrive evs) client_id) (server l)) (lk_daemon l)).
Proof.
  intros Hb Hl0 Hr (Hfl & ctx & E & Hrx) Hwf Hs Hw l' Hfit He Hf Hn.
  assert (link_run l0 l') as Hr'.
  { eapply rtc_r; [exact Hr|]. split; [|exact Hfit]. destruct l as [r w i j]. by eapply link_sdk, sdk_sends. }
  destruct (run_waits _ _ Hb Hr) as (up & ur & down & dr & [(ud & dd & Hl & -> & _) (ctx1 & E1 & _ & Hst) _ Hwell _]).
  destruct (run_waits _ _ Hb Hr') as (up' & ur' & down' & dr' & [(ud' & dd' & Hl' & -> & _) Hu' _ Hwell' _]).
  assert (ctx1 = ctx) as -> by congruence.
  destruct (inv_context _ (linked_daemon _ _ _ _ _ _ _ Hl) _ _ E) as (_ & _ & Hio & _).
  rewrite Hfl in Hst. assert (ur = []) as -> by (apply (nothing_waits (io_state_ ctx) (ctx_rx ctx)); rewrite ?Hrx in *; done).
  pose proof (linked_up_done _ _ _ _ _ _ _ Hl) as Hd. pose proof (linked_up_done _ _ _ _ _ _ _ Hl') as Hd'.
  cbn [lk_daemon l'] in Hd'. rewrite Hd in Hd'. apply app_inv_head in Hd' as <-.
  pose proof (linked_up_sent _ _ _ _ _ _ _ Hl) as Hsent. pose proof (linked_up_sent _ _ _ _ _ _ _ Hl') as Hsent'.
  cbn [lk_sdk l'] in Hsent'. rewrite Hw, Hsent, app_nil_r, <- app_assoc in Hsent'. apply app_inv_head, app_inv_head in Hsent' as <-.
  destruct (run_routers _ _ Hr' Hl0) as [_ Hi'].
  apply (daemon_arrives l' ctx [wire] evs n); try done.
  - exact (linked_daemon _ _ _ _ _ _ _ Hl').
  - by rewrite Hrx.
Qed.

Lemma next_down l0 l g service_id b e (w' : Daemon) wire fd evs n :
  begins client_id l0 -> routers l0 -> link_run l0 l -> down_empty l -> socket_callback_ (socket l) = Some (Readable fd) ->
  SocketBuffer.wf b -> Server.gateway_send server_send g service_id b (lk_daemon l) = Done (e, w') ->
  Server.sr_sent w' = Server.sr_sent (lk_daemon l) ++ [(client_id, wire)] ->
  let l' := mkLink (lk_sdk l) w' (up_read l) (down_read l) in
  fits client_id l' -> Forall benign evs -> rx_data evs = in_flight_down client_id l' -> (rx_measure evs <= n)%nat ->
  wp (mfor (seq 0 n) (fun _ => handleReceive sdk_event))
     (fun _ r' => Inv r' /\ socket_callback_ (Client.cr_env r') = Some (Readable fd) /\
        handled sdk_event client_router_part [Client.PipeMessage wire] (lk_sdk l) r')
     (put_part (cl_arrive evs (socket l)) (lk_sdk l)).
Proof.
  intros Hb Hl0 Hr (Hfl & Hrx) Hcb Hwf Hs Hw l' Hfit He Hf Hn.
  assert (link_run l0 l') as Hr'.
  { eapply rtc_r; [exact Hr|]. split; [|exact Hfit]. destruct l as [r w i j]. by eapply link_daemon, daemon_sends. }
  destruct (run_waits _ _ Hb Hr) as (up & ur & down & dr & [(ud & dd & Hl & _ & ->) _ (_ & Hst) _ Hwell]).
  destruct (run_waits _ _ Hb Hr') as (up' & ur' & down' & dr' & [(ud' & dd' & Hl' & _ & ->) _ Hd' _ Hwell']).
  pose proof (linked_sdk _ _ _ _ _ _ _ Hl) as Hc.
  rewrite Hfl in Hst. assert (dr = []) as -> by (apply (nothing_waits (cl_io_state (socket l)) (cl_rx (socket l)));
    [by apply client_io|done|by rewrite Hrx|done]).
  pose proof (linked_down_done _ _ _ _ _ _ _ Hl) as Hin. pose proof (linked_down_done _ _ _ _ _ _ _ Hl') as Hin'.
  cbn [lk_sdk l'] in Hin'. rewrite Hin in Hin'. apply app_inv_head in Hin' as <-.
  pose proof (linked_down_sent _ _ _ _ _ _ _ Hl) as Hsent. pose proof (linked_down_sent _ _ _ _ _ _ _ Hl') as Hsent'.
  cbn [lk_daemon l'] in Hsent'. rewrite Hw, sent_to_app, Hsent, app_nil_r, <- app_assoc in Hsent'.
  apply app_inv_head, app_inv_head in Hsent'. unfold sent_to in Hsent'. cbn in Hsent'. rewrite Z.eqb_refl in Hsent'. subst dr'.
  destruct (run_routers _ _ Hr' Hl0) as [Hi' _].
  apply (sdk_arrives l' fd [wire] evs n); try done. cbn [lk_sdk l']. by rewrite Hrx.
Qed.

(** ** Connections begin *)

(** The SDK starts to connect: nothing is left of what was before. *)
Lemma start_fresh (r r' : Sdk) :
  cl_io_state (Client.cr_env r) = IoState_init -> SocketClient.start r = Done (None, r') ->
  cl_io_state (Client.cr_env r') = IoState_init /\ cl_rx (Client.cr_env r') = [] /\ cl_out (Client.cr_env r') = [] /\
  cl_tx (Client.cr_env r') = cl_tx (Client.cr_env r).
Proof.
  intros Hio Hr.
  set (fresh := fun (s : SocketClient) => cl_io_state s = IoState_init /\ cl_rx s = [] /\ cl_out s = [] /\ cl_tx s = cl_tx (Client.cr_env r)).
  set (Q := fun (e : OptError) (r' : Sdk) => e = None -> fresh (Client.cr_env r')).
  refine (wlp_Done _ Q _ _ _ _ Hr eq_refl). clear Hr. unfold SocketClient.start. wp_step. apply wlp_upd. intros r1 E1.
  assert (wlp SocketClient.makeSocketHandle Q r1) as Hm.
  { assert (forall fd (r2 : Sdk) k, Client.cr_env r2 = set_cl_kernel k (Client.cr_env r1) ->
      wlp (close_fd (S := SocketClient) (cl_fd (Client.cr_env r1));; upd (set_connection fd);; mret None) Q r2) as Hconn.
    { intros fd r2 k E2. wp_step. apply wlp_sys_kernel. intros [] k' r3 E3. wp_step. apply wlp_upd. intros r4 E4.
      apply wlp_ret. intros _. cbn in *. rewrite E4, E3, E2, E1. by split. }
    unfold SocketClient.makeSocketHandle. do 3 wp_step. apply wlp_sys_kernel. intros [fd|e] k r2 E2; [|by apply wlp_ret].
    wp_step. apply wlp_sys_kernel. intros oe k' r3 E3. cbn in E2, E3. rewrite E2 in E3.
    destruct oe as [e|]; [|by eapply Hconn]. destruct (negb _); [|by eapply Hconn].
    wp_step. apply wlp_sys_kernel. intros [] k'' r4 E4. by apply wlp_ret. }
  wp_step. eapply wlp_mono; [exact Hm|]. intros [e|] r2 H2; [by apply wlp_ret|]. specialize (H2 eq_refl).
  do 3 wp_step. apply wlp_upd. intros r3 E3. wp_step. apply wlp_upd. intros r4 E4. apply wlp_ret. intros _.
  cbn in *. by rewrite E4, E3.
Qed.

(** The daemon accepts a client: its context is new. *)
Lemma accept_fresh peer (w w' : Daemon) ctx :
  PipeInv (Server.sr_env w) -> unique_client_id_counter_ (Server.sr_env w) < 2 ^ 64 - 1 ->
  handleAccept daemon_event peer w = Done (tt, w') ->
  client_id_to_context_ (Server.sr_env w') !! (unique_client_id_counter_ (Server.sr_env w) + 1) = Some ctx ->
  io_state_ ctx = IoState_init /\ ctx_rx ctx = [] /\ ctx_out ctx = [] /\ ctx_tx ctx = [].
Proof.
  intros Hp Hb Hr E. set (new := unique_client_id_counter_ (Server.sr_env w) + 1) in *.
  assert (client_id_to_context_ (Server.sr_env w) !! new = None) as Hno by by apply fresh_id.
  set (Q := fun (_ : unit) (w' : Daemon) => forall ctx, client_id_to_context_ (Server.sr_env w') !! new = Some ctx ->
    io_state_ ctx = IoState_init /\ ctx_rx ctx = [] /\ ctx_out ctx = [] /\ ctx_tx ctx = []).
  refine (wlp_Done _ Q _ _ _ _ Hr ctx E). clear Hr E ctx. unfold handleAccept. do 3 wp_step. apply wlp_sys_kernel.
  intros [raw_fd|] k w1 E1; cbn in E1; [|by apply wlp_ret; intros ctx; rewrite E1; cbn; rewrite Hno].
  change (get_part (S := SocketServer) w) with (Server.sr_env w). rewrite (wrap_id 64) by (pose proof (inv_counter _ Hp); lia). fold new.
  wp_step. apply wlp_upd. intros w2 E2. wp_step. unfold emplace_context, tryFindClientContext; cbn [id_]. do 2 wp_step. cbn in E2.
  change (get_part (S := SocketServer) w2) with (Server.sr_env w2). rewrite E2, E1. cbn. rewrite Hno.
  apply wlp_upd. intros w3 E3. wp_step. unfold emit. do 2 wp_step. destruct (pipe_handler_set _); [|apply wlp_undef].
  wp_step. apply wlp_upd. intros w4 E4. cbn [Server.handlePipeEvent]. do 2 apply wlp_ret. intros ctx. cbn in *.
  rewrite E4, E3. cbn. rewrite lookup_insert_eq. intros [= <-]. done.
Qed.

(** Every connection begins so: the SDK's idle socket is started, and the daemon accepts it. The
    theorems above are about what follows, for each connection of the life of either side. *)
Theorem connection_begins peer fd accept_fd (r r' : Sdk) (w w' : Daemon) :
  Inv r -> ClientInv (Client.cr_env r) -> socket_callback_ (Client.cr_env r) = None -> healthy_tx (cl_tx (Client.cr_env r)) ->
  SocketClient.start r = Done (None, r') -> socket_callback_ (Client.cr_env r') = Some (Writable fd) -> 0 <= fd ->
  Inv w -> PipeInv (Server.sr_env w) -> accept_callback_ (Server.sr_env w) = Some accept_fd ->
  client_id = unique_client_id_counter_ (Server.sr_env w) + 1 -> client_id < 2 ^ 64 ->
  handleAccept daemon_event peer w = Done (tt, w') -> is_Some (client_id_to_context_ (Server.sr_env w') !! client_id) ->
  begins client_id (mkLink r' w' 0 0) /\ routers (mkLink r' w' 0 0).
Proof.
  intros Hi Hc Hcb Htx Hs Hcb' Hfd Hw Hp Ha Hid Hlt Hr [ctx E].
  pose proof (client_fd _ Hc) as Hidle. rewrite Hcb in Hidle. destruct Hidle as [Hfd0 Hio0].
  assert (turn sdk_event r r') as Ht by by eapply turn_start.
  assert (unique_client_id_counter_ (Server.sr_env w) < 2 ^ 64 - 1) as Hb by lia.
  assert (SocketServer.step daemon_event (LAccept peer) w w') as Hst by (eapply step_accept; [exact Ha|exact Hb|exact Hr]).
  destruct (start_fresh _ _ Hio0 Hs) as (Hio & Hrx & Hout & Etx).
  rewrite Hid in E. destruct (accept_fresh peer w w' ctx Hp Hb Hr E) as (Hcio & Hcrx & Hcout & Hctx). rewrite <- Hid in E.
  assert (ClientInv (Client.cr_env r')) as Hc' by exact (client_step_inv sdk_event r r' (step_turn _ _ _ Ht) Hc).
  split; [split|split]; cbn; try done.
  - split; [|by rewrite Etx]. pose proof (client_fd _ Hc') as H'. rewrite Hcb' in H'. destruct H' as [-> _]. done.
  - exact (step_inv daemon_event _ w w' Hst Hp).
  - exists ctx. do 4 (split; [done|]). rewrite Hctx. constructor.
  - by eapply sdk_turn_router.
  - by apply (daemon_callback_router (LAccept peer) w w').
Qed.
End Safety.

(** ** The example of [IpcLink], for the witnesses *)
Module IpcSafetyExample.
Import WireExample IpcLinkExample.

Lemma daemon0_router_inv : Inv daemon0.
Proof.
  assert (Server.sr_heap daemon0 = mkHeap ∅ 0 [] /\ Server.client_id_to_map_of_gateways_ daemon0 = ∅) as [Eh Em]
    by by vm_compute.
  split; [intros g gw; cbn; rewrite Eh; cbn; by rewrite lookup_empty|].
  intros ep g. cbn. unfold Server.lookup_gateway. by rewrite Em, lookup_empty.
Qed.

Lemma start_routers : routers start.
Proof. split; [exact (proj1 SdkExample.ex_started_inv)|exact daemon0_router_inv]. Qed.

(** The SDK has sent its hello, and nothing has arrived. *)
Definition greeting : Link (Adapter unit) (Adapter unit) unit := mkLink sdk1 daemon0 0 0.

Lemma run_greeting : ex_run start greeting.
Proof.
  assert (step start greeting) as S1.
  { apply link_sdk. apply (sdk_connects 0 2 SdkExample.ex_handler SdkExample.ex_order 5); by vm_compute. }
  apply (run_step _ _ _ S1); [vm_compute; reflexivity|constructor].
Qed.

Lemma link_never_fails_witness : routers finish /\
  exists w', handleClientRequest
    (Server.handlePipeEvent 0 2 server_send StackExample.ex_handler StackExample.ex_factory map_to_list) 1 (lk_daemon finish) = Done (tt, w') /\ Inv w'.
Proof.
  destruct (link_never_fails 0 2 SdkExample.ex_handler SdkExample.ex_order StackExample.ex_handler StackExample.ex_factory
    map_to_list 1 (sdk_framed _) SdkExample.sdk_handlers (fun m => reflexivity _) start finish start_begins start_routers run_example)
    as (Hr & _ & _ & _ & _ & Hw).
  split; [exact Hr|]. pose proof (proj1 (wp_Done _ _ _) Hw) as ([] & w' & E & Hi & _). exists w'. split; [exact E|exact Hi].
Defined.

Lemma link_drains_witness : exists up_rest w',
  Client.cr_sent (lk_sdk greeting) = Client.cr_sent (lk_sdk start) ++ up_rest /\
  mfor (seq 0 100) (fun _ => handleClientRequest
    (Server.handlePipeEvent 0 2 server_send StackExample.ex_handler StackExample.ex_factory map_to_list) 1)
    (put_part (set_contexts (alter (ctx_arrive hello_rx) 1) (Server.sr_env (lk_daemon greeting))) (lk_daemon greeting)) =
    Done (tt, w') /\
  handled (Server.handlePipeEvent 0 2 server_send StackExample.ex_handler StackExample.ex_factory map_to_list)
    router_part (Server.PipeMessage 1 <$> up_rest) (lk_daemon greeting) w'.
Proof.
  destruct (link_drains 0 2 SdkExample.ex_handler SdkExample.ex_order StackExample.ex_handler StackExample.ex_factory
    map_to_list 1 (sdk_framed _) SdkExample.sdk_handlers (fun m => reflexivity _) start greeting start_begins start_routers run_greeting)
    as (up_done & up_rest & down_done & down_rest & Hu & Hm & _ & _ & (ctx & E & Hd) & _).
  assert (client_id_to_context_ (Server.sr_env (lk_daemon greeting)) !! 1 = Some ctx0) as E0 by by vm_compute.
  rewrite E0 in E. injection E as <-.
  assert (messages 1 (event_log (Server.sr_env (lk_daemon greeting))) = messages 1 (event_log (Server.sr_env (lk_daemon start)))) as Em
    by by vm_compute.
  rewrite Em in Hm. assert (up_done = []) as ->.
  { apply (f_equal length) in Hm. rewrite length_app in Hm. destruct up_done; [done|cbn [length] in Hm; lia]. }
  assert (Forall benign hello_rx) as Hb by (repeat constructor; by vm_compute).
  assert (rx_data hello_rx = in_flight_up greeting) as Hf by by vm_compute.
  assert (rx_measure (ctx_rx ctx0 ++ hello_rx) <= 100)%nat as Hn by (apply Nat.leb_le; by vm_compute).
  pose proof (proj1 (wp_Done _ _ _) (Hd hello_rx 100%nat Hb Hf Hn)) as ([] & w' & Hrun & _ & _ & Hh).
  exists up_rest, w'. split; [exact Hu|]. split; [exact Hrun|exact Hh].
Defined.
End IpcSafetyExample.
