(* ===== verification/ChannelLink.v ===== *)
(** * Typed channels over the pipe

    The end-to-end theorems of [Channel], with the sockets and the stream of [IpcSafety] between the
    two routers: a value that a user sends on a channel is what a service is called with, and its
    answer is what the user's handler is called with, after the bytes have gone through both
    sockets, cut and interrupted in any way. *)
From S2P Require Import Prelude Errors SocketBuffer Posix SocketAddress SocketOps SocketBase PipeBase PipeFrames.
From S2P Require Import Gateway GatewayFacts WireExample ClientRouter ClientRouterFacts ServerRouter ServerRouterFacts IpcEndToEnd Channel.
From S2P Require Import SocketClient SocketServer ClientStack ServerStack Streams SdkStream DaemonStream IpcLink IpcSafety.

Local Open Scope Z_scope.

Section ChannelLink.
Context {CH SH F Req Res : Type} `{RouteOk : CodecOk Route Route_wf} `{!CodecTyped Route Route_wf}.
Context `{ReqCodec : Codec Req} {valid_req : Req -> Prop} `{!CodecOk Req valid_req}.
Context `{ResCodec : Codec Res} {valid_res : Res -> Prop} `{!CodecOk Res valid_res}.
Context (Hser : serializer_bounded).
Context (VERSION_MAJOR VERSION_MINOR : Z).
Abbreviation Sdk := (Client.Router (Adapter CH) SocketClient).
Abbreviation Daemon := (Server.Router (Adapter SH) F SocketServer).
Abbreviation L := (Link (Adapter CH) (Adapter SH) F).
Context (run_ch : CH -> ChannelEvent Res -> bytes -> M Sdk unit).
Context (sdk_order : gmap Z GwId -> list (Z * GwId)).
Context (run_handler : Adapter SH -> GwEvent -> M Daemon OptError).
Context (run_factory : F -> GwId -> bytes -> M Daemon unit).
Context (gw_order : gmap Z GwId -> list (Z * GwId)).
Context (client_id : ClientId).
Abbreviation sdk_handler := (run_adapter run_ch).
Context (sdk_framed : forall h e, frames (Out announced) (sdk_handler h e)).
Context (sdk_handlers : Handlers sdk_handler) (sdk_order_ok : forall m, sdk_order m ≡ₚ map_to_list m).
Context `{Hframed : !FramedClients (OutTo announced client_id) run_handler run_factory}.
Context `{Hclients : !Clients run_handler run_factory}.

Abbreviation socket l := (Client.cr_env (lk_sdk l)).
Abbreviation server l := (Server.sr_env (lk_daemon l)).
Abbreviation sdk_event := (Client.handlePipeEvent VERSION_MAJOR VERSION_MINOR client_send sdk_handler sdk_order).
Abbreviation daemon_event :=
  (Server.handlePipeEvent VERSION_MAJOR VERSION_MINOR server_send run_handler run_factory gw_order).
Abbreviation link_run := (run VERSION_MAJOR VERSION_MINOR sdk_handler sdk_order run_handler run_factory gw_order client_id).
#[local] Instance sdk_gateways : GatewayI Sdk (Adapter CH) := client_gateways client_send sdk_handler.
#[local] Instance daemon_gateways : GatewayI Daemon (Adapter SH) := server_gateways server_send run_handler.

(** One event was handled, from the same router. *)
Lemma handled_one {Ev W R} (event_handler : Ev -> M W OptError) (rest : W -> R) ev w w' :
  handled event_handler rest [ev] w w' ->
  exists w0 e w1, rest w0 = rest w /\ event_handler ev w0 = Done (e, w1) /\ rest w' = rest w1.
Proof.
  inversion 1 as [|ev' evs v w0 e w1 v' E0 He Hh]; subst. inversion Hh as [v v' E|]; subst. by exists w0, e, w1.
Qed.

(** C1: a request reaches its service through the pipe. At any time of a connection when the daemon has
    received all that was sent, let a user of the SDK send a first message on a new channel.
    When its bytes reach the daemon's socket, in any pieces, and the socket's callback runs often
    enough, then the daemon's router does exactly this: it calls the handler of the service, once,
    with the value that the user sent, and with a new channel that is registered for
    this client. Nothing goes wrong, and the client stays connected. *)
Theorem request_over_the_pipe l0 l ch gw (req : Req) sock_buff f
    (new_ch_handler : GwId -> Z -> Req -> M Daemon unit) e (r' : Sdk) evs n :
  begins client_id l0 -> routers l0 -> link_run l0 l -> up_empty client_id l ->
  find_gw (gateway_ ch) (lk_sdk l) = Some gw -> gw_next_sequence gw = 0 -> Client.is_connected_ (lk_sdk l) = true ->
  Client.isRegisteredGateway (gw_endpoint gw) (lk_sdk l) = true ->
  let tag := Client.ep_tag (gw_endpoint gw) in
  u64_field tag -> u64_field (service_id_ ch) -> valid_req req -> sendable req sock_buff ->
  is_Some (Server.client_id_to_map_of_gateways_ (lk_daemon l) !! client_id) ->
  Server.lookup_gateway (Server.mkEndpoint tag client_id) (lk_daemon l) = None ->
  Server.service_id_to_channel_factory_ (lk_daemon l) !! service_id_ ch = Some f ->
  (forall g payload, run_factory f g payload = Server.channel_factory (service_id_ ch) new_ch_handler g payload) ->
  channel_send_with (CH := CH) ch req sock_buff (lk_sdk l) = Done (e, r') ->
  let l' := mkLink r' (lk_daemon l) (up_read l) (down_read l) in
  fits client_id l' -> Forall benign evs -> rx_data evs = in_flight_up l' -> (rx_measure evs <= n)%nat ->
  let g := hp_next (Server.sr_heap (lk_daemon l)) in
  wp (mfor (seq 0 n) (fun _ => handleClientRequest daemon_event client_id))
     (fun _ w' => Inv w' /\ is_Some (client_id_to_context_ (Server.sr_env w') !! client_id) /\
        exists w0 (e1 : OptError) w1, router_part w0 = router_part (lk_daemon l) /\
          ((own g;; new_ch_handler g (service_id_ ch) req);;
           unlock (Server.dispose server_send) g;; unlock (Server.dispose server_send) g;; mret None)
            (opened client_id tag w0) = Done (e1, w1) /\
          router_part w' = router_part w1)
     (put_part (set_contexts (alter (ctx_arrive evs) client_id) (server l)) (lk_daemon l)).
Proof.
  intros Hb Hl0 Hr Hq Hg Hseq Hcon Hreg tag Htag Hsvc Hv Hsend Hcl Hno Hf Hfac Hs l' Hfit He Hrx Hn g.
  destruct (run_routers VERSION_MAJOR VERSION_MINOR sdk_handler sdk_order run_handler run_factory gw_order client_id
    sdk_framed sdk_handlers sdk_order_ok _ _ Hr Hl0) as [Hi _].
  assert (forall w0 : Daemon, router_part w0 = router_part (lk_daemon l) -> exists wire,
    Client.cr_sent r' = Client.cr_sent (lk_sdk l) ++ [wire] /\
    daemon_event (Server.PipeMessage client_id wire) w0 =
      ((own g;; new_ch_handler g (service_id_ ch) req);;
       unlock (Server.dispose server_send) g;; unlock (Server.dispose server_send) g;; mret None) (opened client_id tag w0)) as Hev.
  { intros w0 E0. unfold router_part in E0. injection E0 as Eh Em Ef _. 
    assert (is_Some (Server.client_id_to_map_of_gateways_ w0 !! client_id)) as Hcl0 by by rewrite Em.
    assert (Server.lookup_gateway (Server.mkEndpoint tag client_id) w0 = None) as Hno0 by (unfold Server.lookup_gateway in *; by rewrite Em).
    assert (Server.service_id_to_channel_factory_ w0 !! service_id_ ch = Some f) as Hf0 by by rewrite Ef.
    destruct (request_reaches_service Hser VERSION_MAJOR VERSION_MINOR server_send run_handler run_factory gw_order client_send run_ch
      ch gw req sock_buff f client_id new_ch_handler (lk_sdk l) w0 Hi Hg Hseq Hcon Hreg Htag Hsvc Hv Hsend Hcl0 Hno0 Hf0 Hfac)
      as (wire & e' & rc' & Hrun & Hsent & Hh).
    assert (Done (e, r') = Done (e', rc')) as [= <- <-] by (rewrite <- Hs; exact Hrun).
    exists wire. split; [done|]. rewrite Hh. unfold g. by rewrite Eh. }
  destruct (Hev (lk_daemon l) eq_refl) as (wire & Hsent & _).
  destruct (channel_send_with_eq (CH := CH) ch req sock_buff Hv (proj1 Hsend)) as (b & Hsb & Hwb & _). rewrite Hsb in Hs.
  eapply wp_mono.
  { by apply (next_up VERSION_MAJOR VERSION_MINOR sdk_handler sdk_order run_handler run_factory gw_order client_id
      sdk_framed sdk_handlers sdk_order_ok l0 l (gateway_ ch) (service_id_ ch) b e r' wire evs n). }
  intros [] w' (Hi' & Hctx & Hh). split; [done|]. split; [done|].
  destruct (handled_one _ _ _ _ _ Hh) as (w0 & e1 & w1 & E0 & Hrun & E1).
  destruct (Hev w0 E0) as (wire' & Hsent' & Hw0). rewrite Hsent in Hsent'. apply app_inv_head in Hsent'. injection Hsent' as <-.
  exists w0, e1, w1. split; [done|]. split; [by rewrite <- Hw0|done].
Qed.

(** C2: an answer reaches its handler through the pipe. At any time of a connection when the SDK has
    received all that was sent, let a service send a value on one of this client's channels.
    When its bytes reach the SDK's socket, in any pieces, and the socket's callback runs often
    enough, then the next event of the SDK's channel with that tag is a message, which runs the
    handler of the channel on the value that the service sent. *)
Theorem answer_over_the_pipe l0 l ch gw (res : Res) sock_buff cg e (w' : Daemon) fd evs n :
  begins client_id l0 -> routers l0 -> link_run l0 l -> down_empty client_id l -> socket_callback_ (socket l) = Some (Readable fd) ->
  find_gw (gateway_ ch) (lk_daemon l) = Some gw -> Server.isRegisteredGateway (gw_endpoint gw) (lk_daemon l) = true ->
  Server.ep_client_id (gw_endpoint gw) = client_id ->
  u64_field (Server.ep_tag (gw_endpoint gw)) -> u64_field (service_id_ ch) -> valid_res res -> sendable res sock_buff ->
  Client.lookup_gateway (Client.mkEndpoint (Server.ep_tag (gw_endpoint gw))) (lk_sdk l) = Some cg ->
  channel_send_with (CH := SH) ch res sock_buff (lk_daemon l) = Done (e, w') ->
  let l' := mkLink (lk_sdk l) w' (up_read l) (down_read l) in
  fits client_id l' -> Forall benign evs -> rx_data evs = in_flight_down client_id l' -> (rx_measure evs <= n)%nat ->
  wp (mfor (seq 0 n) (fun _ => handleReceive sdk_event))
     (fun _ r' => Inv r' /\ socket_callback_ (Client.cr_env r') = Some (Readable fd) /\
        exists seq payload,
          hp_events (Client.cr_heap (lk_sdk l)) ++ [(cg, Message seq payload)] `prefix_of` hp_events (Client.cr_heap r') /\
          (exists bs, payload = bs ++ SocketBuffer.contents sock_buff) /\
          forall a, sdk_handler a (Message seq payload) = (run_ch (ch_event_handler a) (ChInput res) payload;; mret None))
     (put_part (cl_arrive evs (socket l)) (lk_sdk l)).
Proof.
  intros Hb Hl0 Hr Hq Hcb Hg Hreg Hid Htag Hsvc Hv Hsend Hcg Hs l' Hfit He Hrx Hn.
  destruct (run_routers VERSION_MAJOR VERSION_MINOR sdk_handler sdk_order run_handler run_factory gw_order client_id
    sdk_framed sdk_handlers sdk_order_ok _ _ Hr Hl0) as [Hi Hw].
  assert (forall r0 : Sdk, client_router_part r0 = client_router_part (lk_sdk l) -> exists wire seq payload,
    Server.sr_sent w' = Server.sr_sent (lk_daemon l) ++ [(client_id, wire)] /\
    wp (sdk_event (Client.PipeMessage wire)) (fun _ r1 =>
      hp_events (Client.cr_heap (lk_sdk l)) ++ [(cg, Message seq payload)] `prefix_of` hp_events (Client.cr_heap r1)) r0 /\
    (exists bs, payload = bs ++ SocketBuffer.contents sock_buff) /\
    forall a, sdk_handler a (Message seq payload) = (run_ch (ch_event_handler a) (ChInput res) payload;; mret None)) as Hev.
  { intros r0 E0. pose proof (client_part_inv _ _ E0 Hi) as Hi0. unfold client_router_part in E0. injection E0 as Eh _ _ Em _.
    assert (Client.lookup_gateway (Client.mkEndpoint (Server.ep_tag (gw_endpoint gw))) r0 = Some cg) as Hcg0
      by (unfold Client.lookup_gateway in *; by rewrite Em).
    destruct (answer_reaches_handler Hser VERSION_MAJOR VERSION_MINOR server_send run_handler client_send run_ch sdk_order
      ch gw res sock_buff cg r0 (lk_daemon l) sdk_handlers Hw Hg Hreg Htag Hsvc Hv Hsend Hi0 Hcg0)
      as (wire & e' & rs' & seq & payload & Hrun & Hsent & Hwp & Hpay & Hh).
    assert (Done (e, w') = Done (e', rs')) as [= <- <-] by (rewrite <- Hs; exact Hrun).
    rewrite Hid in Hsent. exists wire, seq, payload. split; [done|]. split; [|done].
    eapply wp_mono; [exact Hwp|]. rewrite Eh. by intros ? r1 [_ ?]. }
  destruct (Hev (lk_sdk l) eq_refl) as (wire & _ & _ & Hsent & _).
  destruct (channel_send_with_eq (CH := SH) ch res sock_buff Hv (proj1 Hsend)) as (b & Hsb & Hwb & _). rewrite Hsb in Hs.
  eapply wp_mono.
  { by apply (next_down VERSION_MAJOR VERSION_MINOR sdk_handler sdk_order run_handler run_factory gw_order client_id
      sdk_framed sdk_handlers sdk_order_ok l0 l (gateway_ ch) (service_id_ ch) b e w' wire fd evs n). }
  intros [] r' (Hi' & Hcb' & Hh). split; [done|]. split; [done|].
  destruct (handled_one _ _ _ _ _ Hh) as (r0 & e1 & r1 & E0 & Hrun & E1).
  destruct (Hev r0 E0) as (wire' & seq & payload & Hsent' & Hwp & Hpay & Hrest).
  rewrite Hsent in Hsent'. apply app_inv_head in Hsent'. injection Hsent' as <-.
  exists seq, payload. split; [|done]. unfold client_router_part in E1. injection E1 as -> _ _ _ _. exact (wp_result _ _ _ _ _ Hwp Hrun).
Qed.
End ChannelLink.

(** ** An example: a request and its answer, after the connection of [IpcLinkExample] *)
Module ChannelLinkExample.
Import WireExample ChannelExample IpcLinkExample IpcSafetyExample.

#[global] Instance sdk_channels : GatewayI SdkExample.W (Adapter unit) := client_gateways client_send SdkExample.ex_handler.
#[global] Instance daemon_channels : GatewayI StackExample.W (Adapter unit) := server_gateways server_send StackExample.ex_handler.

(** The SDK makes a channel of service 9, and sends 42 on it. *)
Definition ch : Channel := mkChannel 0 9.
Definition sdk4 : SdkExample.W := SdkExample.ex_done (Client.makeGateway sdk3).
Definition opened_link : Link (Adapter unit) (Adapter unit) unit := mkLink sdk4 daemon2 (length hello) (length answer).
Definition sdk5 : SdkExample.W := SdkExample.ex_done (channel_send_with (CH := unit) ch (mkNum 42) SocketBuffer.empty sdk4).
Definition asked_link : Link (Adapter unit) (Adapter unit) unit := mkLink sdk5 daemon2 (length hello) (length answer).
Definition asked : bytes := in_flight_up asked_link.
Definition asked_rx : list RxEvent := [RxData (take 11 asked); RxErr Errno.EINTR; RxData (drop 11 asked)].

Definition ch_gw : Gateway Client.Endpoint (Adapter unit) := mkGateway (Client.mkEndpoint 0) 0 None None 1 0.

Lemma run_opened : ex_run start opened_link.
Proof.
  assert (step finish opened_link) as S1.
  { assert (exists g, Client.makeGateway sdk3 = Done (g, sdk4)) as [g Hg] by (eexists; by vm_compute). by eapply link_sdk, sdk_makes. }
  apply (run_then _ _ _ run_example S1). vm_compute. reflexivity.
Qed.

Lemma up_received : up_empty 1 opened_link.
Proof. split; [by vm_compute|]. eexists. split; [by vm_compute|by vm_compute]. Qed.
Lemma asked_fits : IpcLink.fits 1 asked_link.
Proof. split; [apply (bool_decide_unpack _)|apply (bool_decide_unpack _)]; by vm_compute. Qed.

Lemma request_over_the_pipe_witness : exists w', Inv w' /\
  mfor (seq 0 100) (fun _ => handleClientRequest
    (Server.handlePipeEvent 0 2 server_send StackExample.ex_handler StackExample.ex_factory map_to_list) 1)
    (put_part (set_contexts (alter (ctx_arrive asked_rx) 1) (Server.sr_env (lk_daemon opened_link))) (lk_daemon opened_link)) = Done (tt, w') /\
  exists w0 (e1 : OptError) w1, router_part w0 = router_part (lk_daemon opened_link) /\
    ((own 0%nat;; StackExample.ex_new_channel 0 9 (mkNum 42));;
     unlock (Server.dispose server_send) 0%nat;; unlock (Server.dispose server_send) 0%nat;; mret None)
      (opened 1 0 w0) = Done (e1, w1) /\ router_part w' = router_part w1.
Proof.
  assert (find_gw (gateway_ ch) (lk_sdk opened_link) = Some ch_gw) as Hg by by vm_compute.
  assert (Client.is_connected_ (lk_sdk opened_link) = true) as Hc by by vm_compute.
  assert (Client.isRegisteredGateway (gw_endpoint ch_gw) (lk_sdk opened_link) = true) as Hreg by by vm_compute.
  assert (is_Some (Server.client_id_to_map_of_gateways_ (lk_daemon opened_link) !! 1)) as Hcl by (eexists; by vm_compute).
  assert (Server.lookup_gateway (Server.mkEndpoint (Client.ep_tag (gw_endpoint ch_gw)) 1) (lk_daemon opened_link) = None) as Hno by by vm_compute.
  assert (Server.service_id_to_channel_factory_ (lk_daemon opened_link) !! service_id_ ch = Some tt) as Hf by by vm_compute.
  assert (exists e, channel_send_with (CH := unit) ch (mkNum 42) SocketBuffer.empty (lk_sdk opened_link) = Done (e, sdk5)) as [e Hs]
    by (eexists; by vm_compute).
  assert (sendable (mkNum 42) SocketBuffer.empty) as Hsend by (apply num_sendable; [apply SocketBuffer.wf_empty|cbn; lia]).
  assert (Forall benign asked_rx) as Hb by (repeat constructor; by vm_compute).
  assert (rx_data asked_rx = in_flight_up asked_link) as Hrx by by vm_compute.
  assert (rx_measure asked_rx <= 100)%nat as Hn by (apply Nat.leb_le; by vm_compute).
  assert (hp_next (Server.sr_heap (lk_daemon opened_link)) = 0%nat) as Hnext by by vm_compute.
  pose proof (request_over_the_pipe Route_codec_bounded 0 2 SdkExample.ex_run SdkExample.ex_order StackExample.ex_handler
    StackExample.ex_factory map_to_list 1 (sdk_framed _) SdkExample.sdk_handlers (fun m => reflexivity _)
    start opened_link ch ch_gw (mkNum 42) SocketBuffer.empty tt StackExample.ex_new_channel e sdk5 asked_rx 100%nat
    start_begins start_routers run_opened up_received Hg eq_refl Hc Hreg ltac:(split; cbn; lia) ltac:(split; cbn; lia)
    ltac:(split; cbn; lia) Hsend Hcl Hno Hf (fun g payload => eq_refl) Hs asked_fits Hb Hrx Hn) as Hw.
  rewrite Hnext in Hw.
  pose proof (proj1 (wp_Done _ _ _) Hw) as ([] & w' & Hrun & Hi & _ & w0 & e1 & w1 & E0 & Hh & E1).
  exists w'. split; [exact Hi|]. split; [exact Hrun|]. exists w0, e1, w1. split; [exact E0|]. split; [exact Hh|exact E1].
Defined.

(** The request arrives, and the service answers 43. *)
Definition daemon3 : StackExample.W := put_part (set_contexts (alter (ctx_arrive asked_rx) 1) (Server.sr_env daemon2)) daemon2.
Definition daemon4 : StackExample.W := request (request (request (request daemon3))).
Definition served_link : Link (Adapter unit) (Adapter unit) unit := mkLink sdk5 daemon4 (length hello + length asked) (length answer).
Definition daemon5 : StackExample.W :=
  StackExample.ex_done (channel_send_with (CH := unit) ch (mkNum 43) SocketBuffer.empty daemon4).
Definition answered_link : Link (Adapter unit) (Adapter unit) unit :=
  mkLink sdk5 daemon5 (length hello + length asked) (length answer).
Definition answered : bytes := in_flight_down 1 answered_link.
Definition answered_rx : list RxEvent := [RxData (take 1 answered); RxErr Errno.EAGAIN; RxData (drop 1 answered)].

Definition served_gw : Gateway Server.Endpoint (Adapter unit) := mkGateway (Server.mkEndpoint 0 1) 0 None None 1 0.

Lemma sdk_channels_send g service_id b : gwi_send g service_id b = Client.gateway_send client_send g service_id b.
Proof. reflexivity. Qed.

Lemma step_asked : step opened_link asked_link.
Proof.
  destruct (channel_send_with_eq (W := SdkExample.W) (CH := unit) ch (mkNum 42) SocketBuffer.empty) as (b & Hsb & Hwb & _);
    [split; cbn; lia|apply SocketBuffer.wf_empty|].
  assert (exists e, channel_send_with (CH := unit) ch (mkNum 42) SocketBuffer.empty sdk4 = Done (e, sdk5)) as [e Hs]
    by (eexists; by vm_compute).
  rewrite Hsb, sdk_channels_send in Hs.
  unfold opened_link, asked_link. apply link_sdk. exact (sdk_sends _ _ _ _ _ _ _ _ _ _ Hwb Hs).
Qed.

Lemma run_served : ex_run start served_link.
Proof.
  assert (step asked_link (mkLink sdk5 daemon3 (length hello + length asked) (length answer))) as S2.
  { assert (length asked = length (rx_data asked_rx)) as -> by by vm_compute.
    apply link_up; [repeat constructor; by vm_compute|]. exists []. by vm_compute. }
  pose proof (run_then _ _ _ run_opened step_asked ltac:(vm_compute; reflexivity)) as R1.
  pose proof (run_then _ _ _ R1 S2 ltac:(vm_compute; reflexivity)) as R2. clear R1 S2.
  pose (d1 := request daemon3). pose (d2 := request d1). pose (d3 := request d2).
  assert (forall w w', (fd_callback_ <$> client_id_to_context_ (Server.sr_env w) !! 1) = Some (Some 7) ->
    handleClientRequest StackExample.ex_handle 1 w = Done (tt, w') ->
    fitsb (mkLink sdk5 w' (length hello + length asked) (length answer)) = true ->
    ex_run start (mkLink sdk5 w (length hello + length asked) (length answer)) ->
    ex_run start (mkLink sdk5 w' (length hello + length asked) (length answer))) as Hstep.
  { intros w w' Hc Hq Hf Hr. apply (run_then _ _ _ Hr); [by apply request_step|exact Hf]. }
  apply (Hstep d3 daemon4); [by vm_compute|by vm_compute|by vm_compute|].
  apply (Hstep d2 d3); [by vm_compute|by vm_compute|by vm_compute|].
  apply (Hstep d1 d2); [by vm_compute|by vm_compute|by vm_compute|].
  apply (Hstep daemon3 d1); [by vm_compute|by vm_compute|by vm_compute|]. exact R2.
Qed.

Lemma answered_fits : IpcLink.fits 1 answered_link.
Proof. split; [apply (bool_decide_unpack _)|apply (bool_decide_unpack _)]; by vm_compute. Qed.

Lemma answer_over_the_pipe_witness : exists r' sequence payload,
  mfor (seq 0 100) (fun _ => handleReceive
    (Client.handlePipeEvent 0 2 client_send (run_adapter SdkExample.ex_run) SdkExample.ex_order))
    (put_part (cl_arrive answered_rx (Client.cr_env (lk_sdk served_link))) (lk_sdk served_link)) = Done (tt, r') /\
  hp_events (Client.cr_heap (lk_sdk served_link)) ++ [(0%nat, Message sequence payload)] `prefix_of` hp_events (Client.cr_heap r').
Proof.
  assert (down_empty 1 served_link) as Hq by (split; by vm_compute).
  assert (socket_callback_ (Client.cr_env (lk_sdk served_link)) = Some (Readable 5)) as Hcb by by vm_compute.
  assert (find_gw (gateway_ ch) (lk_daemon served_link) = Some served_gw) as Hg by by vm_compute.
  assert (Server.isRegisteredGateway (gw_endpoint served_gw) (lk_daemon served_link) = true) as Hreg by by vm_compute.
  assert (sendable (mkNum 43) SocketBuffer.empty) as Hsend by (apply num_sendable; [apply SocketBuffer.wf_empty|cbn; lia]).
  assert (Client.lookup_gateway (Client.mkEndpoint (Server.ep_tag (gw_endpoint served_gw))) (lk_sdk served_link) = Some 0%nat) as Hcg by by vm_compute.
  assert (exists e, channel_send_with (CH := unit) ch (mkNum 43) SocketBuffer.empty (lk_daemon served_link) = Done (e, daemon5)) as [e Hs]
    by (eexists; by vm_compute).
  assert (Forall benign answered_rx) as Hb.
  { apply Forall_cons_2; [by vm_compute|]. apply Forall_cons_2; [by vm_compute; tauto|]. apply Forall_cons_2; [by vm_compute|apply Forall_nil_2]. }
  assert (rx_data answered_rx = in_flight_down 1 answered_link) as Hrx by by vm_compute.
  assert (rx_measure answered_rx <= 100)%nat as Hn by (apply Nat.leb_le; by vm_compute).
  pose proof (answer_over_the_pipe Route_codec_bounded 0 2 SdkExample.ex_run SdkExample.ex_order StackExample.ex_handler
    StackExample.ex_factory map_to_list 1 (sdk_framed _) SdkExample.sdk_handlers (fun m => reflexivity _)
    start served_link ch served_gw (mkNum 43) SocketBuffer.empty 0%nat e daemon5 5 answered_rx 100%nat
    start_begins start_routers run_served Hq Hcb Hg Hreg eq_refl ltac:(split; cbn; lia) ltac:(split; cbn; lia)
    ltac:(split; cbn; lia) Hsend Hcg Hs answered_fits Hb Hrx Hn) as Hw.
  pose proof (proj1 (wp_Done _ _ _) Hw) as ([] & r' & Hrun & _ & _ & sequence & payload & Hp & _).
  exists r', sequence, payload. split; [exact Hrun|exact Hp].
Defined.
End ChannelLinkExample.
