(* ===== verification/ServiceState.v ===== *)
(** * The machines of a service

    Every service of the daemon that works asynchronously keeps one machine per
    IPC channel in a map by a 64-bit identifier, hands responses to the channel,
    and finally completes the channel and erases the machine - while methods of
    that machine run. So every member access of the model goes through the map
    and is undefined if the machine is gone. This file holds that part, which is
    the same in [src/daemon/engine/svc/node/] and [src/daemon/engine/svc/relay/], and its
    theory: each channel is completed exactly once, when its machine is erased.

    What is outside (the Cyphal presentation layer, the clock, the channel) is
    reached through functions on an environment; what is handed to the channels
    is recorded. *)
From S2P Require Import Prelude Errors.

Local Open Scope Z_scope.

#[local] Set Default Proof Using "Type".

Abbreviation FsmId := Z.

Section State.
Context {F Resp Env : Type}.

(** A service with machines [F], and the world around it. *)
Record SvcState := mkService {
  id_to_fsm_ : gmap FsmId F;
  next_fsm_id_ : FsmId;
  sv_sent : list (FsmId * Resp);
  sv_completed : list (FsmId * OptError);
  sv_env : Env;
}.
Abbreviation W := SvcState.

Definition set_fsms (f : gmap FsmId F -> gmap FsmId F) (w : W) : W :=
  mkService (f (id_to_fsm_ w)) (next_fsm_id_ w) (sv_sent w) (sv_completed w) (sv_env w).

(** A member access: the machine must still exist. *)
Definition get_fsm (id : FsmId) : M W F :=
  w ← gets id_to_fsm_;
  match w !! id with Some m => mret m | None => undef end.

(** Writing a member. *)
Definition put_fsm (id : FsmId) (m : F) : M W unit :=
  get_fsm id;;
  modify (set_fsms <[id := m]>).

(** A call on the environment. *)
Definition call {A} (f : Env -> A * Env) : M W A := liftF (fun w =>
  let '(a, e) := f (sv_env w) in
  (a, mkService (id_to_fsm_ w) (next_fsm_id_ w) (sv_sent w) (sv_completed w) e)).

(** [channel_.send]; [ch_send] tells its result. *)
Definition send_ipc (ch_send : FsmId -> Resp -> Env -> OptError * Env) (id : FsmId) (ipc_response : Resp) : M W OptError :=
  get_fsm id;;
  modify (fun w => mkService (id_to_fsm_ w) (next_fsm_id_ w) (sv_sent w ++ [(id, ipc_response)])
                             (sv_completed w) (sv_env w));;
  call (ch_send id ipc_response).

Definition releaseFsmBy (id : FsmId) : M W unit := modify (set_fsms (delete id)).

(** [channel_.complete], whose failure is only logged, then [releaseFsmBy]. *)
Definition complete_ipc (ch_complete : FsmId -> OptError -> Env -> OptError * Env) (id : FsmId) (e : OptError) : M W unit :=
  get_fsm id;;
  modify (fun w => mkService (id_to_fsm_ w) (next_fsm_id_ w) (sv_sent w)
                             (sv_completed w ++ [(id, e)]) (sv_env w));;
  call (ch_complete id e);;
  releaseFsmBy id.

(** [operator()]: a machine for a new channel, which is then started. *)
Definition newChannel (m : F) (start : FsmId -> M W unit) : M W unit :=
  fsm_id ← gets next_fsm_id_;
  modify (fun w => mkService (<[fsm_id := m]> (id_to_fsm_ w)) (u64 (fsm_id + 1))
                             (sv_sent w) (sv_completed w) (sv_env w));;
  start fsm_id.

(** ** Symbolic execution *)
Implicit Types (w : W) (id : FsmId).

Lemma wp_get_fsm id m (Q : F -> W -> Prop) w : id_to_fsm_ w !! id = Some m -> Q m w -> wp (get_fsm id) Q w.
Proof. intros Hm HQ. unfold get_fsm. wp_steps. by rewrite Hm. Qed.

Lemma put_fsm_run id m m' w : id_to_fsm_ w !! id = Some m -> put_fsm id m' w = Done (tt, set_fsms <[id := m']> w).
Proof. intros Hm. unfold put_fsm, get_fsm, gets, mbind, M_bind. by rewrite Hm. Qed.

Lemma wp_put_fsm id m m' (Q : unit -> W -> Prop) w :
  id_to_fsm_ w !! id = Some m -> Q tt (set_fsms <[id := m']> w) -> wp (put_fsm id m') Q w.
Proof. intros Hm HQ. unfold put_fsm. apply wp_bind, (wp_get_fsm id m); [done|]. by apply wp_modify. Qed.

(** Only the environment moves. *)
Definition env_only w w' : Prop :=
  id_to_fsm_ w' = id_to_fsm_ w /\ next_fsm_id_ w' = next_fsm_id_ w /\
  sv_sent w' = sv_sent w /\ sv_completed w' = sv_completed w.

Lemma wp_call {A} (f : Env -> A * Env) (Q : A -> W -> Prop) w :
  (forall a w', env_only w w' -> Q a w') -> wp (call f) Q w.
Proof. intros HQ. unfold call. apply wp_liftF. destruct (f (sv_env w)) as [a e]. by apply HQ. Qed.

(** The same, and where the value is from. *)
Lemma wp_call_from {A} (f : Env -> A * Env) (Q : A -> W -> Prop) w :
  (forall a w', (f (sv_env w)).1 = a -> env_only w w' -> Q a w') -> wp (call f) Q w.
Proof. intros HQ. unfold call. apply wp_liftF. destruct (f (sv_env w)) as [a e] eqn:E. by apply HQ. Qed.

Lemma wp_call_value {A} (f : Env -> A * Env) a (Q : A -> W -> Prop) w :
  (f (sv_env w)).1 = a -> (forall w', env_only w w' -> Q a w') -> wp (call f) Q w.
Proof. intros <- HQ. unfold call. apply wp_liftF. destruct (f (sv_env w)) as [a e]. by apply HQ. Qed.

Lemma wp_send_ipc ch_send id m r (Q : OptError -> W -> Prop) w :
  id_to_fsm_ w !! id = Some m ->
  (forall e w', id_to_fsm_ w' = id_to_fsm_ w -> next_fsm_id_ w' = next_fsm_id_ w ->
     sv_sent w' = sv_sent w ++ [(id, r)] -> sv_completed w' = sv_completed w -> Q e w') ->
  wp (send_ipc ch_send id r) Q w.
Proof.
  intros Hm HQ. unfold send_ipc. apply wp_bind, (wp_get_fsm id m); [done|]. wp_steps.
  apply wp_call. intros e w' (Hf & Hn & Hs & Hc). apply HQ; by rewrite ?Hf, ?Hn, ?Hs, ?Hc.
Qed.

Lemma wp_complete_ipc ch_complete id m e (Q : unit -> W -> Prop) w :
  id_to_fsm_ w !! id = Some m ->
  (forall w', next_fsm_id_ w' = next_fsm_id_ w -> id_to_fsm_ w' = delete id (id_to_fsm_ w) ->
     sv_sent w' = sv_sent w -> sv_completed w' = sv_completed w ++ [(id, e)] -> Q tt w') ->
  wp (complete_ipc ch_complete id e) Q w.
Proof.
  intros Hm HQ. unfold complete_ipc. apply wp_bind, (wp_get_fsm id m); [done|]. wp_steps.
  apply wp_call. intros e' w' (Hf & Hn & Hs & Hc). unfold releaseFsmBy. wp_steps.
  apply HQ; cbn; by rewrite ?Hf, ?Hn, ?Hs, ?Hc.
Qed.

(** What was done by machine [id]: the machine that is left, what was sent, how
    the channel was completed, and the environment. *)
Record moved id w w' (left : option F) (sent : list Resp) (done : list OptError) (env : Env) : Prop := {
  mov_next : next_fsm_id_ w' = next_fsm_id_ w;
  mov_others : forall id', id' <> id -> id_to_fsm_ w' !! id' = id_to_fsm_ w !! id';
  mov_machine : id_to_fsm_ w' !! id = left;
  mov_sent : sv_sent w' = sv_sent w ++ (pair id <$> sent);
  mov_completed : sv_completed w' = sv_completed w ++ (pair id <$> done);
  mov_env : sv_env w' = env;
}.

Lemma moved_refl id m w : id_to_fsm_ w !! id = Some m -> moved id w w (Some m) [] [] (sv_env w).
Proof. intros Hm. by split; rewrite ?app_nil_r. Qed.

(** Steps of one machine, in any world [w0] that its earlier steps led to. *)
Section steps.
Context (id : FsmId) (m : F) (w0 w : W) (sent : list Resp) (done : list OptError) (env : Env).
Context (Hw : moved id w0 w (Some m) sent done env).

Lemma wp_get_moved (Q : F -> W -> Prop) : Q m w -> wp (get_fsm id) Q w.
Proof using Hw. apply wp_get_fsm, Hw. Qed.

Lemma wp_put_moved m' (Q : unit -> W -> Prop) :
  (forall w', moved id w0 w' (Some m') sent done env -> Q tt w') -> wp (put_fsm id m') Q w.
Proof using Hw.
  intros HQ. apply (wp_put_fsm id m), HQ; [apply Hw|]. destruct Hw as [Hn Ho Hm Hs Hc He]. split; cbn; try done.
  - intros id' Hne. rewrite lookup_insert_ne by done. by apply Ho.
  - apply lookup_insert_eq.
Qed.

Lemma wp_call_moved {A} (f : Env -> A * Env) (Q : A -> W -> Prop) :
  (forall w', moved id w0 w' (Some m) sent done (f env).2 -> Q (f env).1 w') -> wp (call f) Q w.
Proof using Hw.
  intros HQ. apply wp_liftF. destruct Hw as [Hn Ho Hm Hs Hc He]. rewrite He. destruct (f env) as [a e]. cbn in *.
  apply HQ. by split.
Qed.

Lemma wp_send_moved ch_send r (Q : OptError -> W -> Prop) :
  (forall w', moved id w0 w' (Some m) (sent ++ [r]) done (ch_send id r env).2 -> Q (ch_send id r env).1 w') ->
  wp (send_ipc ch_send id r) Q w.
Proof using Hw.
  intros HQ. unfold send_ipc. apply wp_bind, wp_get_moved. apply wp_bind, wp_modify. apply wp_liftF.
  destruct Hw as [Hn Ho Hm Hs Hc He]. cbn [sv_env]. rewrite He. destruct (ch_send id r env) as [a e]. cbn in *.
  apply HQ. split; cbn; try done. by rewrite Hs, fmap_app, app_assoc.
Qed.

Lemma wp_complete_moved ch_complete e (Q : unit -> W -> Prop) :
  (forall w', moved id w0 w' None sent (done ++ [e]) (ch_complete id e env).2 -> Q tt w') ->
  wp (complete_ipc ch_complete id e) Q w.
Proof using Hw.
  intros HQ. unfold complete_ipc. apply wp_bind, wp_get_moved. apply wp_bind, wp_modify. apply wp_bind, wp_liftF.
  destruct Hw as [Hn Ho Hm Hs Hc He]. cbn [sv_env]. rewrite He. destruct (ch_complete id e env) as [a e']. cbn in *.
  apply wp_modify, HQ. split; cbn; try done.
  - intros id' Hne. rewrite lookup_delete_ne by done. by apply Ho.
  - apply lookup_delete_eq.
  - by rewrite Hc, fmap_app, app_assoc.
Qed.
End steps.

(** ** Each channel is completed exactly once *)
Context (machine_ok : F -> Prop).

Definition completions id w : nat := length (filter (fun x => x.1 = id) (sv_completed w)).

(** A channel was completed exactly once if its machine is gone, and not yet if
    it exists. *)
Definition slot_ok id w : Prop :=
  match id_to_fsm_ w !! id with
  | Some m => 0 <= id < next_fsm_id_ w /\ machine_ok m /\ completions id w = 0%nat
  | None => completions id w = if decide (0 <= id < next_fsm_id_ w) then 1%nat else 0%nat
  end.

Definition Service_ok w : Prop := 0 <= next_fsm_id_ w /\ forall id, slot_ok id w.

Lemma Service_machine_ok id m w : Service_ok w -> id_to_fsm_ w !! id = Some m -> machine_ok m.
Proof. intros [_ Hok] Hm. specialize (Hok id). unfold slot_ok in Hok. rewrite Hm in Hok. apply Hok. Qed.

Lemma completions_other id id' e w w' :
  sv_completed w' = sv_completed w ++ [(id, e)] -> id' <> id -> completions id' w' = completions id' w.
Proof.
  intros Hc Hne. unfold completions. rewrite Hc, filter_app, filter_cons_False; [by rewrite app_nil_r|].
  intros E. by apply Hne.
Qed.

Lemma completions_self id e w w' :
  sv_completed w' = sv_completed w ++ [(id, e)] -> completions id w' = S (completions id w).
Proof.
  intros Hc. unfold completions. rewrite Hc, filter_app, filter_cons_True by done. rewrite length_app. cbn. lia.
Qed.

Lemma slot_other id id' w w' :
  next_fsm_id_ w' = next_fsm_id_ w -> id_to_fsm_ w' !! id' = id_to_fsm_ w !! id' ->
  (sv_completed w' = sv_completed w \/ exists e, sv_completed w' = sv_completed w ++ [(id, e)]) ->
  id' <> id -> slot_ok id' w -> slot_ok id' w'.
Proof.
  intros Hn Hf Hc Hne Hs. unfold slot_ok. rewrite Hf, Hn.
  assert (completions id' w' = completions id' w) as ->; [|done].
  destruct Hc as [Hc|[e Hc]]; [unfold completions; by rewrite Hc|by eapply completions_other].
Qed.

(** A machine is kept, changed or not. *)
Lemma kept_ok id m m' w w' :
  Service_ok w -> id_to_fsm_ w !! id = Some m -> next_fsm_id_ w' = next_fsm_id_ w ->
  (forall id', id' <> id -> id_to_fsm_ w' !! id' = id_to_fsm_ w !! id') -> id_to_fsm_ w' !! id = Some m' ->
  sv_completed w' = sv_completed w -> machine_ok m' -> Service_ok w'.
Proof.
  intros [Hnx Hok] Hm Hn Ho Hm' Hc Hok'. split; [by rewrite Hn|]. intros id'. destruct (decide (id' = id)) as [->|Hne].
  - pose proof (Hok id) as Hid. unfold slot_ok, completions in *. rewrite Hm in Hid. rewrite Hm', Hn, Hc.
    by destruct Hid as (? & _ & ?).
  - by apply (slot_other id id' w); [|apply Ho|left| |].
Qed.

(** A machine is completed and erased. *)
Lemma erased_ok id m e w w' :
  Service_ok w -> id_to_fsm_ w !! id = Some m -> next_fsm_id_ w' = next_fsm_id_ w ->
  (forall id', id' <> id -> id_to_fsm_ w' !! id' = id_to_fsm_ w !! id') -> id_to_fsm_ w' !! id = None ->
  sv_completed w' = sv_completed w ++ [(id, e)] -> Service_ok w'.
Proof.
  intros [Hnx Hok] Hm Hn Ho Hgone Hc. split; [by rewrite Hn|]. intros id'. destruct (decide (id' = id)) as [->|Hne].
  - pose proof (Hok id) as Hid. unfold slot_ok in *. rewrite Hm in Hid. destruct Hid as (Hlt & _ & Hcnt).
    rewrite Hgone, Hn, decide_True by done. erewrite completions_self by done. lia.
  - apply (slot_other id id' w); [done|by apply Ho|eauto|done|done].
Qed.

Lemma put_fsm_ok id m m' w :
  Service_ok w -> id_to_fsm_ w !! id = Some m -> machine_ok m' -> Service_ok (set_fsms <[id := m']> w).
Proof.
  intros Hok Hm Hm'. eapply (kept_ok id m m'); try done; cbn; [|apply lookup_insert_eq].
  intros id' Hne. by rewrite lookup_insert_ne.
Qed.

(** A step keeps the invariant when it keeps the machine, or completes the
    channel once. *)
Lemma moved_ok id m w w' left sent done env :
  Service_ok w -> id_to_fsm_ w !! id = Some m -> moved id w w' left sent done env ->
  match left with Some m' => machine_ok m' /\ done = [] | None => exists e, done = [e] end -> Service_ok w'.
Proof.
  intros Hok Hm [Hn Ho Hl Hs Hc He] Hleft. destruct left as [m'|].
  - destruct Hleft as [Hm' ->]. rewrite app_nil_r in Hc. by eapply (kept_ok id m m').
  - destruct Hleft as [e ->]. by eapply (erased_ok id m e).
Qed.

(** Services with no machine, and with one. *)
Lemma no_machine_ok e : Service_ok (mkService ∅ 0 [] [] e).
Proof. split; [done|]. intros id. unfold slot_ok. cbn. rewrite lookup_empty, decide_False by lia. done. Qed.

Lemma one_machine_ok m e : machine_ok m -> Service_ok (mkService {[0 := m]} 1 [] [] e).
Proof.
  intros Hm. split; [done|]. intros id. unfold slot_ok. cbn. destruct (decide (id = 0)) as [->|Hne].
  - by rewrite lookup_singleton_eq.
  - rewrite lookup_singleton_ne, decide_False by lia. done.
Qed.

Definition with_new (m : F) w : W :=
  mkService (<[next_fsm_id_ w := m]> (id_to_fsm_ w)) (u64 (next_fsm_id_ w + 1))
            (sv_sent w) (sv_completed w) (sv_env w).

Lemma wp_newChannel m (start : FsmId -> M W unit) (Q : unit -> W -> Prop) w :
  wp (start (next_fsm_id_ w)) Q (with_new m w) -> wp (newChannel m start) Q w.
Proof. intros HQ. unfold newChannel. do 4 wp_step. exact HQ. Qed.

Lemma with_new_lookup m w : id_to_fsm_ (with_new m w) !! next_fsm_id_ w = Some m.
Proof. apply lookup_insert_eq. Qed.

Lemma with_new_ok m w : Service_ok w -> machine_ok m -> next_fsm_id_ w < 2 ^ 64 - 1 -> Service_ok (with_new m w).
Proof.
  intros [Hnx Hok] Hmo Hlt. assert (next_fsm_id_ (with_new m w) = next_fsm_id_ w + 1) as Hn
    by (cbn; apply wrap_id; lia). split; [lia|]. intros id. pose proof (Hok id) as Hid.
  unfold slot_ok, completions in *. rewrite Hn. cbn. destruct (decide (id = next_fsm_id_ w)) as [->|Hne].
  - rewrite lookup_insert_eq. destruct (id_to_fsm_ w !! next_fsm_id_ w) as [m'|]; [lia|].
    rewrite decide_False in Hid by lia. split; [lia|]. done.
  - rewrite lookup_insert_ne by done. destruct (id_to_fsm_ w !! id) as [m'|].
    + destruct Hid as (? & ? & ?). split; [lia|]. done.
    + rewrite Hid. repeat case_decide; lia.
Qed.
End State.

Arguments SvcState : clear implicits.
