(* ===== verification/NodeService.v ===== *)
(** * What the node services share

    The three node services ([ListRegisters], [ExecCmd], [AccessRegisters]) run
    one state machine per IPC channel: it collects node identifiers, then holds
    one RPC client and one pending promise per node, forwards responses to the
    channel, and completes the channel when its working set is empty. This file
    holds the parts that are the same in the three sources, and their theory.

    The map of machines and what the channels receive are in [ServiceState]. *)
From S2P Require Import Prelude Errors.
From S2P Require Export ServiceState.

Local Open Scope Z_scope.

Abbreviation NodeId := Z.

(** Conversion of an unsigned 64-bit count to a signed one. *)
Definition i64 (z : Z) : Z := let r := u64 z in if r <? 2 ^ 63 then r else r - 2 ^ 64.

Lemma i64_id z : 0 <= z < 2 ^ 63 -> i64 z = z.
Proof. intros Hz. unfold i64. rewrite wrap_id by lia. by rewrite (proj2 (Z.ltb_lt _ _)) by lia. Qed.

(** [time_point + duration]: signed 64-bit microseconds, overflow is undefined. *)
Definition add_time (now timeout : Z) : outcome Z :=
  if (- 2 ^ 63 <=? now + timeout) && (now + timeout <? 2 ^ 63) then Done (now + timeout) else Undef.

Section NodeService.
Context {P X Req Resp Env : Type}.

(** [CyPromise]: what will bring the response of one node to one request, until a
    deadline. *)
Record CyPromise := mkPromise { pr_node_id : NodeId; pr_request : Req; pr_deadline : Z }.

(** [Fsm::NodeContext]: [P] is the register index or the command. *)
Record NodeContext := mkCnxt {
  timeout : Z;
  cn_data : P;
  client : bool;
  promise : option CyPromise;
}.

(** [Fsm]: [X] holds the other members. *)
Record Fsm := mkFsm {
  processing_ : bool;
  fsm_data : X;
  node_id_to_cnxt_ : gmap NodeId NodeContext;
}.

(** The Cyphal presentation layer, the clock and the IPC channel. *)
Record Oracles := mkOracles {
  cy_now : Env -> Z;
  cy_make_client : NodeId -> Env -> (CyError + unit) * Env;
  cy_request : NodeId -> Req -> Z -> Env -> (CyError + unit) * Env;
  ch_send : FsmId -> Resp -> Env -> OptError * Env;
  ch_complete : FsmId -> OptError -> Env -> OptError * Env;
  (** the iteration order of the unordered map *)
  node_order : gmap NodeId NodeContext -> list NodeId;
}.
Context (O : Oracles).

Abbreviation W := (SvcState Fsm Resp Env).

Definition set_cnxts (f : gmap NodeId NodeContext -> gmap NodeId NodeContext) (m : Fsm) : Fsm :=
  mkFsm (processing_ m) (fsm_data m) (f (node_id_to_cnxt_ m)).

Definition cn_set_client (c : NodeContext) : NodeContext := mkCnxt (timeout c) (cn_data c) true (promise c).
Definition cn_set_promise (p : CyPromise) (c : NodeContext) : NodeContext :=
  mkCnxt (timeout c) (cn_data c) (client c) (Some p).
Definition cn_set_data (p : P) (c : NodeContext) : NodeContext :=
  mkCnxt (timeout c) p (client c) (promise c).

(** An access through the reference [node_cnxt]. *)
Definition get_cnxt (id : FsmId) (node_id : NodeId) : M W NodeContext :=
  m ← get_fsm id;
  match node_id_to_cnxt_ m !! node_id with Some c => mret c | None => undef end.

Definition update_cnxts (id : FsmId) (f : gmap NodeId NodeContext -> gmap NodeId NodeContext) : M W unit :=
  m ← get_fsm id; put_fsm id (set_cnxts f m).

(** A failure is only logged. *)
Definition sendResponse (id : FsmId) (ipc_response : Resp) : M W unit :=
  send_ipc (ch_send O) id ipc_response;;
  mret tt.

Definition complete (id : FsmId) (completion_opt_error : OptError) : M W unit :=
  update_cnxts id (fun _ => ∅);;
  complete_ipc (ch_complete O) id completion_opt_error.

Definition releaseNodeContext (id : FsmId) (node_id : NodeId) : M W unit :=
  update_cnxts id (delete node_id);;
  m ← get_fsm id;
  if decide (node_id_to_cnxt_ m = ∅) then complete id None else mret tt.

(** [error_response node_id opt_error]: an empty item with the error;
    [start]: the service's [startCy...RpcCallFor]. *)
Definition makeCyRpcClient (error_response : NodeId -> OptError -> Resp)
    (start : FsmId -> NodeId -> M W unit) (id : FsmId) (node_id : NodeId) : M W unit :=
  m ← get_fsm id;
  match node_id_to_cnxt_ m !! node_id with
  | None => mret tt
  | Some _ =>
      cy_make_result ← call (cy_make_client O node_id);
      match cy_make_result with
      | inl cy_failure =>
          let opt_error := cyFailureToOptError cy_failure in
          sendResponse id (error_response node_id opt_error);;
          releaseNodeContext id node_id
      | inr _ =>
          update_cnxts id (alter cn_set_client node_id);;
          start id node_id
      end
  end.

(** The request of one RPC; its promise is for what was sent. *)
Definition cyRequest (id : FsmId) (node_id : NodeId) (c : NodeContext) (cy_request_ : Req)
    : M W (CyError + CyPromise) :=
  now ← gets (fun w => cy_now O (sv_env w));
  deadline ← ofOutcome (add_time now (timeout c));
  cy_req_result ← call (cy_request O node_id cy_request_ deadline);
  mret match cy_req_result with
       | inl cy_failure => inl cy_failure
       | inr _ => inr (mkPromise node_id cy_request_ deadline)
       end.

(** [node_id_to_cnxt_.emplace(node_id, NodeContext{...})] keeps the context of a
    node that is listed twice. *)
Definition emplace_nodes (node_ids : list NodeId) (c : NodeContext)
    (m : gmap NodeId NodeContext) : gmap NodeId NodeContext :=
  foldl (fun m node_id => match m !! node_id with Some _ => m | None => <[node_id := c]> m end) m node_ids.

(** [handleEvent(const Channel::Completed&)]; [nothing_to_do] is the service's
    test for an empty working set. *)
Definition handleCompleted (nothing_to_do : Fsm -> bool) (make : FsmId -> NodeId -> M W unit)
    (id : FsmId) (keep_alive : bool) : M W unit :=
  m ← get_fsm id;
  if negb keep_alive then complete id (Some (Err Code.Canceled))
  else if processing_ m then mret tt
  else
    put_fsm id (mkFsm true (fsm_data m) (node_id_to_cnxt_ m));;
    m ← get_fsm id;
    if nothing_to_do m then complete id None
    else mfor (node_order O (node_id_to_cnxt_ m)) (fun node_id => make id node_id).

(** [operator()]: a machine for a new channel. *)
Definition newNodeChannel (data : X) (handleInput : FsmId -> M W unit) : M W unit :=
  newChannel (mkFsm false data ∅) handleInput.
End NodeService.

Arguments CyPromise : clear implicits.
Arguments NodeContext : clear implicits.
Arguments Fsm : clear implicits.
Arguments Oracles : clear implicits.

(** The service implementation and the world around it. *)
Abbreviation Service P X Req Resp Env := (SvcState (Fsm P X Req) Resp Env).
