(* ===== verification/NodeServiceFacts.v ===== *)
(** * Theory of the node services

    How the working set of a machine moves: a processed node leaves some
    responses and either a pending context or no context; when no context is
    left the machine is completed and destroyed. The invariant of the services
    says that machines that exist are waiting for something, and that every
    channel is completed exactly once. *)
From S2P Require Import Prelude Errors NodeService.

Local Open Scope Z_scope.

#[local] Set Default Proof Using "Type".

Section Facts.
Context {P X Req Resp Env : Type}.
Context (O : Oracles P Req Resp Env).
Abbreviation Cnxt := (NodeContext P Req).
Abbreviation Machine := (Fsm P X Req).
Abbreviation W := (Service P X Req Resp Env).
Implicit Types (w : W) (m : Machine) (c : Cnxt) (id : FsmId) (node_id n : NodeId) (rs : list Resp).

(** What was done for one node: the responses sent and the context left. *)
Abbreviation Done_for := (NodeId * list Resp * option Cnxt)%type.

Definition apply_done (out : list Done_for) (cs : gmap NodeId Cnxt) : gmap NodeId Cnxt :=
  foldl (fun cs x => partial_alter (fun _ => x.2) x.1.1 cs) cs out.

(** The world after this was done by machine [id], which was [m]. *)
Record finished id m (out : list Done_for) w w' : Prop := {
  fin_next : next_fsm_id_ w' = next_fsm_id_ w;
  fin_others : forall id', id' <> id -> id_to_fsm_ w' !! id' = id_to_fsm_ w !! id';
  fin_sent : sv_sent w' = sv_sent w ++ (pair id <$> concat (snd <$> (fst <$> out)));
  fin_machine :
    if decide (apply_done out (node_id_to_cnxt_ m) = ∅)
    then id_to_fsm_ w' !! id = None /\ sv_completed w' = sv_completed w ++ [(id, None)]
    else id_to_fsm_ w' !! id = Some (set_cnxts (fun _ => apply_done out (node_id_to_cnxt_ m)) m) /\
         sv_completed w' = sv_completed w;
}.

(** Only responses were sent, and the context of the node may have changed. *)
Record touched id m n (c : Cnxt) rs w w' : Prop := {
  tou_next : next_fsm_id_ w' = next_fsm_id_ w;
  tou_others : forall id', id' <> id -> id_to_fsm_ w' !! id' = id_to_fsm_ w !! id';
  tou_sent : sv_sent w' = sv_sent w ++ (pair id <$> rs);
  tou_machine : id_to_fsm_ w' !! id = Some (set_cnxts <[n := c]> m);
  tou_completed : sv_completed w' = sv_completed w;
}.

Lemma touched_finished id m n c rs rs' o w w1 w2 :
  touched id m n c rs w w1 -> finished id (set_cnxts <[n := c]> m) [(n, rs', o)] w1 w2 ->
  finished id m [(n, rs ++ rs', o)] w w2.
Proof.
  intros [Hn1 Ho1 Hs1 Hm1 Hc1] [Hn2 Ho2 Hs2 Hm2]. split.
  - by rewrite Hn2.
  - intros id' Hne. by rewrite Ho2, Ho1.
  - rewrite Hs2, Hs1. cbn. by rewrite !app_nil_r, fmap_app, app_assoc.
  - cbn in *. rewrite Hc1 in Hm2.
    assert (partial_alter (fun _ => o) n (<[n:=c]> (node_id_to_cnxt_ m)) =
            partial_alter (fun _ => o) n (node_id_to_cnxt_ m)) as Heq
      by (apply map_eq; intros i; destruct (decide (n = i)) as [->|];
          [by rewrite !lookup_partial_alter_eq|by rewrite !lookup_partial_alter_ne, lookup_insert_ne]).
    rewrite Heq in Hm2. done.
Qed.

Lemma touched_trans id m n c c' rs rs' w w1 w2 :
  touched id m n c rs w w1 -> touched id (set_cnxts <[n := c]> m) n c' rs' w1 w2 ->
  touched id m n c' (rs ++ rs') w w2.
Proof.
  intros [Hn1 Ho1 Hs1 Hm1 Hc1] [Hn2 Ho2 Hs2 Hm2 Hc2]. split.
  - by rewrite Hn2.
  - intros id' Hne. by rewrite Ho2, Ho1.
  - by rewrite Hs2, Hs1, fmap_app, app_assoc.
  - rewrite Hm2. unfold set_cnxts; cbn. by rewrite insert_insert_eq.
  - by rewrite Hc2.
Qed.

Lemma touched_refl id m n c w :
  id_to_fsm_ w !! id = Some m -> node_id_to_cnxt_ m !! n = Some c -> touched id m n c [] w w.
Proof.
  intros Hm Hc. split; [done|done|by rewrite app_nil_r| |done].
  rewrite Hm. f_equal. destruct m; unfold set_cnxts; cbn in *. by rewrite insert_id.
Qed.

(** ** Symbolic execution of the shared operations *)

Lemma wp_get_cnxt id m n c (Q : Cnxt -> W -> Prop) w :
  id_to_fsm_ w !! id = Some m -> node_id_to_cnxt_ m !! n = Some c -> Q c w -> wp (get_cnxt id n) Q w.
Proof. intros Hm Hc HQ. unfold get_cnxt. apply wp_bind, (wp_get_fsm id m); [done|]. by rewrite Hc. Qed.

Lemma wp_update_cnxts id m f (Q : unit -> W -> Prop) w :
  id_to_fsm_ w !! id = Some m -> Q tt (set_fsms <[id := set_cnxts f m]> w) -> wp (update_cnxts id f) Q w.
Proof. intros Hm HQ. unfold update_cnxts. apply wp_bind, (wp_get_fsm id m); [done|]. by apply (wp_put_fsm id m). Qed.

Lemma update_cnxts_run id m f w :
  id_to_fsm_ w !! id = Some m -> update_cnxts id f w = Done (tt, set_fsms <[id := set_cnxts f m]> w).
Proof.
  intros Hm. unfold update_cnxts, get_fsm, gets, mbind, M_bind. rewrite Hm. cbn. by apply (put_fsm_run id m).
Qed.

(** The machine's slot when nothing but the environment moved. *)
Lemma env_only_touched id m n c w w' :
  id_to_fsm_ w !! id = Some m -> node_id_to_cnxt_ m !! n = Some c -> env_only w w' -> touched id m n c [] w w'.
Proof.
  intros Hm Hc (Hf & Hn & Hs & Hcm). destruct (touched_refl id m n c w Hm Hc).
  split; by rewrite ?Hf, ?Hn, ?Hs, ?Hcm.
Qed.

Lemma set_cnxts_same m n c : node_id_to_cnxt_ m !! n = Some c -> set_cnxts <[n := c]> m = m.
Proof. intros Hc. destruct m; unfold set_cnxts; cbn in *. by rewrite insert_id. Qed.

Lemma wp_sendResponse id m r (Q : unit -> W -> Prop) w :
  id_to_fsm_ w !! id = Some m ->
  (forall w', id_to_fsm_ w' = id_to_fsm_ w -> next_fsm_id_ w' = next_fsm_id_ w ->
     sv_sent w' = sv_sent w ++ [(id, r)] -> sv_completed w' = sv_completed w -> Q tt w') ->
  wp (sendResponse O id r) Q w.
Proof.
  intros Hm HQ. unfold sendResponse. apply wp_bind. eapply wp_send_ipc; [done|]. intros e w' Hf Hn Hs Hc.
  apply wp_ret. by apply HQ.
Qed.

(** A response for a node that is in the working set. *)
Lemma wp_sendResponse_touched id m n c r (Q : unit -> W -> Prop) w :
  id_to_fsm_ w !! id = Some m -> node_id_to_cnxt_ m !! n = Some c ->
  (forall w', touched id m n c [r] w w' -> Q tt w') -> wp (sendResponse O id r) Q w.
Proof.
  intros Hm Hc HQ. eapply wp_sendResponse; [done|]. intros w' Hf Hn Hs Hcm. apply HQ.
  destruct (touched_refl id m n c w Hm Hc). split; try by rewrite ?Hf, ?Hn, ?Hs, ?Hcm.
Qed.

(** [complete] tells the channel once, and destroys the machine. *)
Lemma wp_complete id m e (Q : unit -> W -> Prop) w :
  id_to_fsm_ w !! id = Some m ->
  (forall w', next_fsm_id_ w' = next_fsm_id_ w -> id_to_fsm_ w' = delete id (id_to_fsm_ w) ->
     sv_sent w' = sv_sent w -> sv_completed w' = sv_completed w ++ [(id, e)] -> Q tt w') ->
  wp (complete O id e) Q w.
Proof.
  intros Hm HQ. unfold complete. apply wp_bind, (wp_update_cnxts id m); [done|].
  eapply wp_complete_ipc; [cbn; by rewrite lookup_insert_eq|]. intros w' Hn Hf Hs Hc.
  apply HQ; [done| |done|done]. rewrite Hf. cbn. by rewrite delete_insert_eq.
Qed.

Lemma wp_releaseNodeContext id m n w :
  id_to_fsm_ w !! id = Some m ->
  wp (releaseNodeContext O id n) (fun _ w' => finished id m [(n, [], None)] w w') w.
Proof.
  intros Hm. unfold releaseNodeContext. apply wp_bind, (wp_update_cnxts id m); [done|].
  apply wp_bind. eapply wp_get_fsm; [cbn; by rewrite lookup_insert_eq|]. cbn.
  assert (apply_done [(n, [], None)] (node_id_to_cnxt_ m) = delete n (node_id_to_cnxt_ m)) as Hap by done.
  case_decide as Hz.
  - eapply wp_complete; [cbn; by rewrite lookup_insert_eq|]. intros w' Hn Hf Hs Hc. split.
    + done.
    + intros id' Hne. rewrite Hf; cbn. by rewrite lookup_delete_ne, lookup_insert_ne.
    + rewrite Hs. by rewrite app_nil_r.
    + rewrite Hap, decide_True by done. split; [|by rewrite Hc]. rewrite Hf. apply lookup_delete_eq.
  - apply wp_ret. split; cbn.
    + done.
    + intros id' Hne. by rewrite lookup_insert_ne.
    + by rewrite app_nil_r.
    + rewrite decide_False by exact Hz. by rewrite lookup_insert_eq.
Qed.

(** A promise is kept: the node stays in the working set. *)
Lemma wp_keep_promise id m n c (q : CyPromise Req) w :
  id_to_fsm_ w !! id = Some m -> node_id_to_cnxt_ m !! n = Some c ->
  wp (update_cnxts id (alter (cn_set_promise q) n))
     (fun _ w' => finished id m [(n, [], Some (cn_set_promise q c))] w w') w.
Proof.
  intros Hm Hc. apply (wp_update_cnxts id m); [done|].
  assert (alter (cn_set_promise q) n (node_id_to_cnxt_ m)
          = partial_alter (fun _ => Some (cn_set_promise q c)) n (node_id_to_cnxt_ m)) as Heq.
  { unfold alter, map_alter. apply partial_alter_ext. intros x Hx. rewrite Hc in Hx. by subst. }
  split; cbn; [done| |by rewrite app_nil_r|].
  - intros id' Hne. by rewrite lookup_insert_ne.
  - rewrite decide_False.
    + rewrite lookup_insert_eq. split; [|done]. f_equal. unfold set_cnxts; cbn. by rewrite Heq.
    + intros He. apply (f_equal (lookup n)) in He. rewrite lookup_partial_alter_eq, lookup_empty in He. done.
Qed.

Lemma alter_insert_known (f : Cnxt -> Cnxt) n c (cs : gmap NodeId Cnxt) :
  cs !! n = Some c -> alter f n cs = <[n := f c]> cs.
Proof.
  intros Hc. apply map_eq. intros i. destruct (decide (n = i)) as [->|Hne].
  - by rewrite lookup_alter_eq, Hc, lookup_insert_eq.
  - by rewrite lookup_alter_ne, lookup_insert_ne.
Qed.

(** Changing the context of one node. *)
Lemma wp_touch_cnxt (f : Cnxt -> Cnxt) id m n c (Q : unit -> W -> Prop) w :
  id_to_fsm_ w !! id = Some m -> node_id_to_cnxt_ m !! n = Some c ->
  (forall w', touched id m n (f c) [] w w' -> Q tt w') ->
  wp (update_cnxts id (alter f n)) Q w.
Proof.
  intros Hm Hc HQ. apply (wp_update_cnxts id m); [done|]. apply HQ. split; cbn; [done| |by rewrite app_nil_r| |done].
  - intros id' Hne. by rewrite lookup_insert_ne.
  - rewrite lookup_insert_eq. f_equal. unfold set_cnxts; cbn. f_equal. by apply alter_insert_known.
Qed.

Lemma wp_touch_client id m n c (Q : unit -> W -> Prop) w :
  id_to_fsm_ w !! id = Some m -> node_id_to_cnxt_ m !! n = Some c ->
  (forall w', touched id m n (cn_set_client c) [] w w' -> Q tt w') ->
  wp (update_cnxts id (alter cn_set_client n)) Q w.
Proof.
  apply wp_touch_cnxt.
Qed.

(** ** Making the clients of the working set *)

(** [Rel n c rs o]: what the service's [start] may do for a node with context
    [c]: the responses it sends and the context it leaves. *)
Definition start_spec (start : FsmId -> NodeId -> M W unit) (ok : X -> Cnxt -> Prop)
    (Rel : X -> NodeId -> Cnxt -> list Resp -> option Cnxt -> Prop) : Prop :=
  forall id m n c w, id_to_fsm_ w !! id = Some m -> node_id_to_cnxt_ m !! n = Some c -> client c = true ->
    ok (fsm_data m) c ->
    wp (start id n) (fun _ w' => exists rs o, finished id m [(n, rs, o)] w w' /\ Rel (fsm_data m) n c rs o) w.

Lemma wp_finished_after id m n c rs w w1 (a : M W unit) (Rel : list Resp -> option Cnxt -> Prop) :
  touched id m n c rs w w1 ->
  wp a (fun _ w' => exists rs' o, finished id (set_cnxts <[n := c]> m) [(n, rs', o)] w1 w' /\ Rel (rs ++ rs') o) w1 ->
  wp a (fun _ w' => exists rs' o, finished id m [(n, rs', o)] w w' /\ Rel rs' o) w1.
Proof.
  intros Ht Ha. eapply wp_mono; [done|]. intros [] w' (rs' & o & Hf & Hr).
  exists (rs ++ rs'), o. split; [|done]. by eapply touched_finished.
Qed.

Context (error_response : NodeId -> OptError -> Resp).

(** Sending an error response and giving up the node. *)
Lemma wp_give_up id m n c e w (Rel : list Resp -> option Cnxt -> Prop) :
  id_to_fsm_ w !! id = Some m -> node_id_to_cnxt_ m !! n = Some c ->
  Rel [error_response n e] None ->
  wp (sendResponse O id (error_response n e);; releaseNodeContext O id n)
     (fun _ w' => exists rs o, finished id m [(n, rs, o)] w w' /\ Rel rs o) w.
Proof.
  intros Hm Hc HR. apply wp_bind. eapply wp_sendResponse_touched; [done|done|]. intros w1 Ht.
  eapply wp_mono; [eapply wp_releaseNodeContext, Ht|].
  intros [] w' Hf. exists ([error_response n e] ++ []), None. split; [by eapply touched_finished|done].
Qed.

(** Failures that the Cyphal layer may give for a node. *)
Definition cy_refuses n (cy : CyError) : Prop :=
  (exists e, (cy_make_client O n e).1 = inl cy) \/ (exists q d e, (cy_request O n q d e).1 = inl cy).

(** The promise of the request [q] to the node [n], which has [timeout] to answer. *)
Definition asked n (timeout : Z) (q : Req) (p : CyPromise Req) : Prop :=
  pr_node_id p = n /\ pr_request p = q /\ exists e, pr_deadline p = cy_now O e + timeout.

(** A request is refused, or there is its promise. *)
Lemma wp_cyRequest id n c q (Q : CyError + CyPromise Req -> W -> Prop) w :
  (forall e, 0 <= cy_now O e < 2 ^ 62) -> 0 <= timeout c < 2 ^ 62 ->
  (forall r w', match r with inl cy => cy_refuses n cy | inr p => asked n (timeout c) q p end -> env_only w w' -> Q r w') ->
  wp (cyRequest O id n c q) Q w.
Proof.
  intros Hclock Ht HQ. unfold cyRequest. do 2 wp_step. apply wp_bind.
  eapply (wp_ofOutcome _ (cy_now O (sv_env w) + timeout c)).
  { unfold add_time. specialize (Hclock (sv_env w)).
    rewrite (proj2 (Z.leb_le _ _)), (proj2 (Z.ltb_lt _ _)) by lia. done. }
  apply wp_bind, wp_call_from. intros r w1 Hr He1. apply wp_ret, HQ; [|done].
  destruct r as [cy|[]]; [right; eauto|]. split; [done|]. split; [done|]. by eexists.
Qed.

Section make.
Context (start : FsmId -> NodeId -> M W unit).
Context (ok : X -> Cnxt -> Prop) (Rel : X -> NodeId -> Cnxt -> list Resp -> option Cnxt -> Prop).
Context (Hstart : start_spec start ok Rel).

(** What making the client of a node may do. *)
Definition make_rel (x : X) n c rs (o : option Cnxt) : Prop :=
  (exists cy, cy_refuses n cy /\ rs = [error_response n (cyFailureToOptError cy)] /\ o = None) \/ Rel x n (cn_set_client c) rs o.

Lemma wp_makeCyRpcClient id m n c w :
  id_to_fsm_ w !! id = Some m -> node_id_to_cnxt_ m !! n = Some c -> ok (fsm_data m) (cn_set_client c) ->
  wp (makeCyRpcClient O error_response start id n)
     (fun _ w' => exists rs o, finished id m [(n, rs, o)] w w' /\ make_rel (fsm_data m) n c rs o) w.
Proof using Type Hstart.
  intros Hm Hc Hok. unfold makeCyRpcClient. apply wp_bind, (wp_get_fsm id m); [done|]. rewrite Hc.
  apply wp_bind, wp_call_from. intros r w1 Hcall He1.
  assert (id_to_fsm_ w1 !! id = Some m) as Hm1 by (by rewrite (proj1 He1)).
  assert (touched id m n c [] w w1) as Ht1.
  { by apply env_only_touched. }
  apply (wp_finished_after id m n c [] w w1); [done|]. rewrite set_cnxts_same by done. destruct r as [cy|[]].
  - eapply wp_give_up; [done|done|]. left. exists cy. split; [left; eauto|done].
  - apply wp_bind. eapply wp_touch_client; [done|done|]. intros w2 Ht2.
    apply (wp_finished_after id m n (cn_set_client c) [] w1 w2); [done|].
    eapply wp_mono; [eapply Hstart; [apply Ht2|cbn; apply lookup_insert_eq|done|done]|].
    intros [] w' (rs & o & Hf & Hr). exists rs, o. split; [done|]. by right.
Qed.

Lemma finished_cons id m x out w w1 w' :
  finished id m [x] w w1 -> apply_done [x] (node_id_to_cnxt_ m) <> ∅ ->
  finished id (set_cnxts (fun _ => apply_done [x] (node_id_to_cnxt_ m)) m) out w1 w' ->
  finished id m (x :: out) w w'.
Proof.
  intros [Hn1 Ho1 Hs1 Hm1] Hne [Hn2 Ho2 Hs2 Hm2]. rewrite decide_False in Hm1 by done.
  destruct Hm1 as [Hm1 Hc1]. split.
  - by rewrite Hn2.
  - intros id' Hd. by rewrite Ho2, Ho1.
  - rewrite Hs2, Hs1. cbn. by rewrite app_nil_r, fmap_app, app_assoc.
  - rewrite Hc1 in Hm2. done.
Qed.

Lemma finished_last id m x w w1 :
  finished id m [x] w w1 -> apply_done [x] (node_id_to_cnxt_ m) = ∅ -> id_to_fsm_ w1 !! id = None.
Proof. intros [_ _ _ Hm] He. rewrite decide_True in Hm by done. apply Hm. Qed.

(** The loop over the working set never touches a machine that is gone. *)
Lemma wp_make_all id m ns w :
  id_to_fsm_ w !! id = Some m -> NoDup ns -> ns <> [] ->
  (forall n, n ∈ ns -> exists c, node_id_to_cnxt_ m !! n = Some c /\ ok (fsm_data m) (cn_set_client c)) ->
  wp (mfor ns (fun n => makeCyRpcClient O error_response start id n))
     (fun _ w' => exists out : list Done_for,
        fst <$> (fst <$> out) = ns /\ finished id m out w w' /\
        Forall (fun x => exists c, node_id_to_cnxt_ m !! x.1.1 = Some c /\
                                   make_rel (fsm_data m) x.1.1 c x.1.2 x.2) out) w.
Proof using Type Hstart.
  revert m w. induction ns as [|n ns IH]; intros m w Hm Hnd Hne Hin; [done|].
  apply NoDup_cons in Hnd as [Hnn Hnd]. destruct (Hin n) as (c & Hc & Hok); [set_solver|].
  cbn. apply wp_bind. eapply wp_mono; [by eapply wp_makeCyRpcClient|].
  intros [] w1 (rs & o & Hf & Hr). set (cs1 := apply_done [(n, rs, o)] (node_id_to_cnxt_ m)).
  assert (forall n', n' ∈ ns -> cs1 !! n' = node_id_to_cnxt_ m !! n') as Hcs1.
  { intros n' Hn'. unfold cs1; cbn. rewrite lookup_partial_alter_ne; [done|]. intros ->. done. }
  destruct ns as [|n2 ns].
  { apply wp_ret. exists [(n, rs, o)]. split; [done|]. split; [done|]. apply Forall_singleton. eauto. }
  assert (cs1 <> ∅) as Hne1.
  { intros He. destruct (Hin n2) as (c2 & Hc2 & _); [set_solver|].
    rewrite <- Hcs1, He in Hc2 by apply list_elem_of_here. by rewrite lookup_empty in Hc2. }
  pose proof (fin_machine _ _ _ _ _ Hf) as Hm1. fold cs1 in Hm1. rewrite decide_False in Hm1 by done.
  destruct Hm1 as [Hm1 _]. eapply wp_mono.
  { apply (IH _ _ Hm1); [done|done|]. intros n' Hn'. cbn. rewrite Hcs1 by done. apply Hin. set_solver. }
  intros [] w' (out & Hns & Hfo & Hall). exists ((n, rs, o) :: out).
  split; [cbn; by rewrite Hns|]. split; [by eapply finished_cons|].
  apply Forall_cons. split; [eauto|]. apply Forall_forall. intros x Hx.
  rewrite Forall_forall in Hall. destruct (Hall x Hx) as (c' & Hc' & Hr'). exists c'. split; [|done].
  cbn in Hc'. rewrite Hcs1 in Hc'; [done|]. rewrite <- Hns. apply list_elem_of_fmap.
  exists x.1. split; [done|]. apply list_elem_of_fmap. eauto.
Qed.
End make.

Lemma apply_done_lookup (out : list Done_for) cs n :
  NoDup (fst <$> (fst <$> out)) ->
  apply_done out cs !! n = match list_find (fun x => x.1.1 = n) out with
                           | Some (_, x) => x.2
                           | None => cs !! n
                           end.
Proof.
  revert cs. induction out as [|x out IH]; intros cs Hnd; [done|].
  cbn in Hnd. apply NoDup_cons in Hnd as [Hnn Hnd].
  change (apply_done (x :: out) cs) with (apply_done out (partial_alter (fun _ => x.2) x.1.1 cs)).
  rewrite IH by done. cbn.
  destruct (decide (x.1.1 = n)) as [<-|Hne].
  - destruct (list_find (fun y => y.1.1 = x.1.1) out) as [[i y]|] eqn:E; cbn.
    + apply list_find_Some in E as (Hy & He & _). destruct Hnn.
      apply list_elem_of_fmap. exists y.1. split; [done|]. apply list_elem_of_fmap. exists y. split; [done|].
      by eapply list_elem_of_lookup_2.
    + by rewrite lookup_partial_alter_eq.
  - rewrite lookup_partial_alter_ne by done.
    destruct (list_find (fun y => y.1.1 = n) out) as [[i y]|]; done.
Qed.

Lemma done_found (out : list Done_for) cs n c :
  fst <$> (fst <$> out) ≡ₚ (map_to_list cs).*1 -> cs !! n = Some c ->
  exists i x, list_find (fun x => x.1.1 = n) out = Some (i, x) /\ x ∈ out /\ x.1.1 = n.
Proof.
  intros Hperm Hc. assert (n ∈ fst <$> (fst <$> out)) as Hn.
  { rewrite Hperm. apply list_elem_of_fmap. exists (n, c). split; [done|]. by apply elem_of_map_to_list. }
  apply list_elem_of_fmap in Hn as (y & -> & Hy). apply list_elem_of_fmap in Hy as (x & -> & Hx).
  destruct (list_find _ out) as [[i z]|] eqn:E.
  - exists i, z. apply list_find_Some in E as (Hi & He & _). split; [done|]. split; [|done].
    by eapply list_elem_of_lookup_2.
  - apply list_find_None in E. rewrite Forall_forall in E. by destruct (E x).
Qed.

(** ** The invariant *)

Section invariant.
(** What the data of a machine must satisfy, and a context before processing and
    while it is pending. *)
Context (data_ok : X -> Prop) (fresh : Cnxt -> Prop) (good : X -> NodeId -> Cnxt -> Prop).

Definition pending (x : X) n c : Prop := client c = true /\ is_Some (promise c) /\ good x n c.

(** A machine that processes is waiting for at least one node, and holds a
    client and a promise for every node of its working set. *)
Definition machine_ok m : Prop :=
  data_ok (fsm_data m) /\
  if processing_ m
  then node_id_to_cnxt_ m <> ∅ /\ map_Forall (pending (fsm_data m)) (node_id_to_cnxt_ m)
  else map_Forall (fun _ => fresh) (node_id_to_cnxt_ m).

Abbreviation Service_ok := (ServiceState.Service_ok machine_ok).

(** [finished] keeps the invariant. *)
Lemma finished_ok id m out w w' :
  Service_ok w -> is_Some (id_to_fsm_ w !! id) ->
  forall w0, next_fsm_id_ w0 = next_fsm_id_ w -> sv_completed w0 = sv_completed w ->
  (forall id', id' <> id -> id_to_fsm_ w0 !! id' = id_to_fsm_ w !! id') ->
  finished id m out w0 w' -> processing_ m = true -> data_ok (fsm_data m) ->
  map_Forall (pending (fsm_data m)) (apply_done out (node_id_to_cnxt_ m)) -> Service_ok w'.
Proof.
  intros Hok [m0 Hm0] w0 Hn0 Hc0 Ho0 [Hn Ho Hs Hm] Hp Hd Hall.
  assert (forall id', id' <> id -> id_to_fsm_ w' !! id' = id_to_fsm_ w !! id') as Hothers
    by (intros id' Hne; by rewrite Ho, Ho0). rewrite Hc0 in Hm. case_decide as Hz; destruct Hm as [Hm Hc].
  - eapply (erased_ok machine_ok id m0); try done. by rewrite Hn.
  - eapply (kept_ok machine_ok id m0); try done; [by rewrite Hn|]. split; [done|]. cbn. by rewrite Hp.
Qed.

(** Completing at once. *)
Lemma wp_complete_ok id m e w :
  Service_ok w -> id_to_fsm_ w !! id = Some m ->
  forall w0 m', next_fsm_id_ w0 = next_fsm_id_ w -> sv_completed w0 = sv_completed w -> sv_sent w0 = sv_sent w ->
  (forall id', id' <> id -> id_to_fsm_ w0 !! id' = id_to_fsm_ w !! id') -> id_to_fsm_ w0 !! id = Some m' ->
  wp (complete O id e) (fun _ w' => Service_ok w' /\ id_to_fsm_ w' !! id = None /\ sv_sent w' = sv_sent w /\
                                    sv_completed w' = sv_completed w ++ [(id, e)]) w0.
Proof.
  intros Hok Hm w0 m' Hn0 Hc0 Hs0 Ho0 Hm'. eapply wp_complete; [done|].
  intros w' Hn Hf Hs Hc. rewrite Hc0 in Hc. rewrite Hn0 in Hn. rewrite Hs0 in Hs.
  assert (id_to_fsm_ w' !! id = None) as Hgone by (rewrite Hf; apply lookup_delete_eq).
  split; [|done]. eapply (erased_ok machine_ok id m); try done.
  intros id' Hne. rewrite Hf, lookup_delete_ne by done. by apply Ho0.
Qed.

Section completed.
Context (Horder : forall cs : gmap NodeId Cnxt, node_order O cs ≡ₚ (map_to_list cs).*1).
Context (start : FsmId -> NodeId -> M W unit).
Context (ok : X -> Cnxt -> Prop) (Rel : X -> NodeId -> Cnxt -> list Resp -> option Cnxt -> Prop).
Context (Hstart : start_spec start ok Rel).
Context (Hrel : forall x n c rs c', Rel x n c rs (Some c') -> pending x n c').
Context (nothing_to_do : Machine -> bool).
Context (Hnothing : forall m n c, nothing_to_do m = false -> data_ok (fsm_data m) -> map_Forall (fun _ => fresh) (node_id_to_cnxt_ m) ->
                                  node_id_to_cnxt_ m !! n = Some c -> ok (fsm_data m) (cn_set_client c)).
Context (Hempty : forall m, nothing_to_do m = false -> node_id_to_cnxt_ m <> ∅).

Abbreviation make := (makeCyRpcClient O error_response start).

(** The machine has begun to process. *)
Definition begun m : Machine := mkFsm true (fsm_data m) (node_id_to_cnxt_ m).

Lemma wp_handleCompleted_cancel id m w :
  Service_ok w -> id_to_fsm_ w !! id = Some m ->
  wp (handleCompleted O nothing_to_do make id false)
     (fun _ w' => Service_ok w' /\ id_to_fsm_ w' !! id = None /\ sv_sent w' = sv_sent w /\
                  sv_completed w' = sv_completed w ++ [(id, Some (Err Code.Canceled))]) w.
Proof.
  intros Hok Hm. unfold handleCompleted. apply wp_bind, (wp_get_fsm id m); [done|]. cbn [negb].
  by eapply (wp_complete_ok id m _ w Hok Hm).
Qed.

Lemma handleCompleted_ignored id m w :
  id_to_fsm_ w !! id = Some m -> processing_ m = true ->
  handleCompleted O nothing_to_do make id true w = Done (tt, w).
Proof.
  intros Hm Hp. unfold handleCompleted, get_fsm, mbind, M_bind, gets. rewrite Hm. cbn. by rewrite Hp.
Qed.

Lemma wp_handleCompleted_nothing id m w :
  Service_ok w -> id_to_fsm_ w !! id = Some m -> processing_ m = false -> nothing_to_do (begun m) = true ->
  wp (handleCompleted O nothing_to_do make id true)
     (fun _ w' => Service_ok w' /\ id_to_fsm_ w' !! id = None /\ sv_sent w' = sv_sent w /\
                  sv_completed w' = sv_completed w ++ [(id, None)]) w.
Proof.
  intros Hok Hm Hp Hn. unfold handleCompleted. apply wp_bind, (wp_get_fsm id m); [done|]. cbn [negb].
  rewrite Hp. apply wp_bind, (wp_put_fsm id m); [done|]. apply wp_bind. eapply wp_get_fsm; [cbn; apply lookup_insert_eq|].
  fold (begun m). rewrite Hn. eapply (wp_complete_ok id m _ w Hok Hm); [done|done|done| |cbn; apply lookup_insert_eq].
  intros id' Hne. cbn. by rewrite lookup_insert_ne.
Qed.

(** Processing begins: every node of the working set has been answered or has
    a promise; if none has, the channel is completed. *)
Definition processed id m w w' : Prop :=
  exists (w0 : W) (out : list Done_for),
    next_fsm_id_ w0 = next_fsm_id_ w /\ sv_completed w0 = sv_completed w /\ sv_sent w0 = sv_sent w /\
    finished id (begun m) out w0 w' /\
    fst <$> (fst <$> out) ≡ₚ (map_to_list (node_id_to_cnxt_ m)).*1 /\
    Forall (fun x => exists c, node_id_to_cnxt_ m !! x.1.1 = Some c /\
                               make_rel Rel (fsm_data m) x.1.1 c x.1.2 x.2) out.

Lemma all_done_pending m (out : list Done_for) :
  fst <$> (fst <$> out) ≡ₚ (map_to_list (node_id_to_cnxt_ m)).*1 ->
  Forall (fun x => exists c, node_id_to_cnxt_ m !! x.1.1 = Some c /\
                             make_rel Rel (fsm_data m) x.1.1 c x.1.2 x.2) out ->
  map_Forall (pending (fsm_data m)) (apply_done out (node_id_to_cnxt_ m)).
Proof using Type Hrel.
  intros Hperm Hall n c. rewrite apply_done_lookup by (rewrite Hperm; apply NoDup_fst_map_to_list).
  destruct (list_find _ out) as [[i x]|] eqn:E.
  - intros Hx. apply list_find_Some in E as (Hi & Hn & _). apply list_elem_of_lookup_2 in Hi.
    rewrite Forall_forall in Hall. destruct (Hall x Hi) as (c0 & _ & [(cy & _ & _ & Hnone)|Hr]); [congruence|].
    rewrite Hx, Hn in Hr. by eapply Hrel.
  - intros Hc. destruct (done_found out _ n c Hperm Hc) as (i & x & Hx & _). congruence.
Qed.

Lemma wp_handleCompleted_start id m w :
  Service_ok w -> id_to_fsm_ w !! id = Some m -> processing_ m = false -> nothing_to_do (begun m) = false ->
  wp (handleCompleted O nothing_to_do make id true)
     (fun _ w' => Service_ok w' /\ processed id m w w') w.
Proof using Type Horder Hstart Hrel Hnothing Hempty.
  intros Hok Hm Hp Hn. unfold handleCompleted. apply wp_bind, (wp_get_fsm id m); [done|]. cbn [negb].
  rewrite Hp. apply wp_bind, (wp_put_fsm id m); [done|]. apply wp_bind. eapply wp_get_fsm; [cbn; apply lookup_insert_eq|].
  fold (begun m). rewrite Hn.
  destruct (Service_machine_ok machine_ok id m w Hok Hm) as [Hdata Hfresh]. rewrite Hp in Hfresh.
  set (w0 := set_fsms <[id := begun m]> w). eapply wp_mono.
  { eapply (wp_make_all start ok Rel Hstart id (begun m)).
    - cbn. apply lookup_insert_eq.
    - rewrite Horder. apply NoDup_fst_map_to_list.
    - intros Hnil. apply (Hempty _ Hn). pose proof (Horder (node_id_to_cnxt_ (begun m))) as Hperm.
      rewrite Hnil in Hperm. apply Permutation_nil_l in Hperm. symmetry in Hperm. apply fmap_nil_inv in Hperm.
      by apply map_to_list_empty_iff.
    - intros n Hin. rewrite Horder in Hin. apply list_elem_of_fmap in Hin as ([n' c] & -> & Hin).
      apply elem_of_map_to_list in Hin. exists c. split; [done|]. by apply (Hnothing (begun m) n' c). }
  intros [] w' (out & Hns & Hfin & Hall). assert (fst <$> (fst <$> out) ≡ₚ (map_to_list (node_id_to_cnxt_ m)).*1) as Hperm
    by (rewrite Hns; apply Horder).
  split; [|by exists w0, out].
  eapply (finished_ok id (begun m) out w w' Hok ltac:(eauto) w0); try done.
  - intros id' Hne. cbn. by rewrite lookup_insert_ne.
  - by apply all_done_pending.
Qed.
End completed.

(** A response keeps the invariant if what it leaves does. *)
Lemma response_ok id m n rs o w w' :
  Service_ok w -> id_to_fsm_ w !! id = Some m -> processing_ m = true ->
  finished id m [(n, rs, o)] w w' -> (forall c', o = Some c' -> pending (fsm_data m) n c') -> Service_ok w'.
Proof.
  intros Hok Hm Hp Hf Ho. destruct (Service_machine_ok machine_ok id m w Hok Hm) as [Hdata Hmo]. rewrite Hp in Hmo. destruct Hmo as [_ Hmo].
  eapply (finished_ok id m _ w w' Hok ltac:(eauto) w); try done.
  intros n' c'. cbn. rewrite lookup_partial_alter. case_decide as Hn; [subst n'; apply Ho|apply Hmo].
Qed.

(** What is to be done for each node: its time, and its command or first index. *)
Definition plan (cs : gmap NodeId Cnxt) : gmap NodeId (Z * P) := (fun c => (timeout c, cn_data c)) <$> cs.

(** Input only adds fresh contexts, for nodes that have none. *)
Lemma emplace_nodes_plan (ns : list NodeId) c (cs : gmap NodeId Cnxt) :
  plan (emplace_nodes ns c cs) = plan cs ∪ gset_to_gmap (timeout c, cn_data c) (list_to_set ns).
Proof.
  revert cs. induction ns as [|n ns IH]; intros cs.
  { cbn [emplace_nodes foldl list_to_set]. by rewrite gset_to_gmap_empty, (right_id_L ∅ (∪)). }
  unfold emplace_nodes in IH |- *. cbn [foldl]. rewrite IH. cbn [list_to_set].
  rewrite gset_to_gmap_union_singleton. unfold plan. destruct (cs !! n) as [c0|] eqn:E.
  - apply map_eq. intros i. rewrite !lookup_union. destruct (decide (n = i)) as [<-|Hne]; [|by rewrite lookup_insert_ne].
    rewrite lookup_insert_eq, lookup_fmap, E. by destruct (gset_to_gmap _ _ !! n).
  - rewrite fmap_insert, <- insert_union_l, insert_union_r by (by rewrite lookup_fmap, E). done.
Qed.

Lemma plan_lookup cs n c tp nodes :
  plan cs = gset_to_gmap tp nodes -> cs !! n = Some c -> n ∈ nodes /\ (timeout c, cn_data c) = tp.
Proof.
  intros Hp Hc. apply (f_equal (lookup n)) in Hp. unfold plan in Hp. rewrite lookup_fmap, Hc in Hp.
  symmetry in Hp. apply lookup_gset_to_gmap_Some in Hp as [? ->]. done.
Qed.

Lemma plan_dom cs tp nodes : plan cs = gset_to_gmap tp nodes -> dom cs = nodes.
Proof. intros Hp. rewrite <- (dom_gset_to_gmap nodes tp), <- Hp. unfold plan. by rewrite dom_fmap_L. Qed.

Lemma emplace_nodes_Forall (Q : Cnxt -> Prop) (ns : list NodeId) c (cs : gmap NodeId Cnxt) :
  Q c -> map_Forall (fun _ => Q) cs -> map_Forall (fun _ => Q) (emplace_nodes ns c cs).
Proof.
  intros Hc. revert cs. induction ns as [|n ns IH]; intros cs Hcs; [done|]. unfold emplace_nodes in IH |- *. cbn. apply IH.
  destruct (cs !! n); [done|]. by apply map_Forall_insert_2.
Qed.

Definition new_machine (x : X) : Machine := mkFsm false x ∅.

Lemma new_machine_ok x : data_ok x -> machine_ok (new_machine x).
Proof. split; [done|]. cbn. apply map_Forall_empty. Qed.
End invariant.

(** ** Counting responses *)

Definition keys (cs : gmap NodeId Cnxt) : list NodeId := (map_to_list cs).*1.

Lemma keys_delete cs n c : cs !! n = Some c -> n :: keys (delete n cs) ≡ₚ keys cs.
Proof. intros Hc. unfold keys. by rewrite <- (map_to_list_delete cs n c Hc). Qed.

Lemma keys_insert cs n c c' : cs !! n = Some c -> keys (<[n := c']> cs) ≡ₚ keys cs.
Proof.
  intros Hc. rewrite <- (keys_delete cs n c Hc). unfold keys.
  rewrite <- insert_delete_eq. rewrite map_to_list_insert by apply lookup_delete_eq. done.
Qed.

Lemma keys_nil cs : keys cs = [] <-> cs = ∅.
Proof.
  unfold keys. split; [|intros ->; by rewrite map_to_list_empty].
  intros H%fmap_nil_inv. by apply map_to_list_empty_iff.
Qed.

(** The nodes that are still in the working set of a machine. *)
Definition remaining id w : list NodeId :=
  match id_to_fsm_ w !! id with Some m => keys (node_id_to_cnxt_ m) | None => [] end.

(** The context of a node, if its machine exists and has not released it. *)
Definition left_of id n w : option Cnxt :=
  m ← id_to_fsm_ w !! id; node_id_to_cnxt_ m !! n.

Lemma finished_left id m n out w w' :
  finished id m out w w' -> left_of id n w' = apply_done out (node_id_to_cnxt_ m) !! n.
Proof.
  intros [_ _ _ Hm]. unfold left_of. case_decide as Hz; destruct Hm as [-> _]; [|done]. by rewrite Hz, lookup_empty.
Qed.

Context (node_of : Resp -> NodeId).

(** The responses for one node. *)
Definition own n rs : list Resp := filter (fun r => node_of r = n) rs.

Lemma own_app n rs rs' : own n (rs ++ rs') = own n rs ++ own n rs'.
Proof. apply filter_app. Qed.

Lemma own_all n rs : Forall (fun r => node_of r = n) rs -> own n rs = rs.
Proof. unfold own. induction 1 as [|r rs Hr _ IH]; [done|]. rewrite filter_cons_True by done. by f_equal. Qed.

Lemma own_none n n' rs : Forall (fun r => node_of r = n') rs -> n' <> n -> own n rs = [].
Proof.
  intros Hrs Hne. unfold own. induction Hrs as [|r rs Hr _ IH]; [done|]. rewrite filter_cons_False; [done|]. by rewrite Hr.
Qed.

(** Among the responses for several nodes, those for one of them. *)
Lemma own_concat n (out : list Done_for) :
  NoDup (fst <$> (fst <$> out)) ->
  Forall (fun x => Forall (fun r => node_of r = x.1.1) x.1.2) out ->
  own n (concat (snd <$> (fst <$> out))) = match list_find (fun x => x.1.1 = n) out with Some (_, x) => x.1.2 | None => [] end.
Proof.
  induction out as [|[[n' rs] o] out IH]; [done|]. intros [Hnn Hnd]%NoDup_cons [Hrs Hall]%Forall_cons.
  cbn [fmap list_fmap fst snd concat list_find] in *. rewrite own_app, IH by done. case_decide as Hn; [subst n'|].
  - rewrite own_all by done. destruct (list_find _ out) as [[i x]|] eqn:E; [|by rewrite app_nil_r].
    apply list_find_Some in E as (Hx & He & _). destruct Hnn. rewrite <- He.
    apply list_elem_of_fmap. exists x.1. split; [done|]. apply list_elem_of_fmap. exists x. split; [done|].
    by eapply list_elem_of_lookup_2.
  - rewrite (own_none n n') by done. by destruct (list_find _ out) as [[i x]|].
Qed.

(** A node is either answered once and released, or still waiting. *)
Definition answered_once (n : NodeId) rs (o : option Cnxt) : Prop :=
  (node_of <$> rs = [n] /\ o = None) \/ (rs = [] /\ exists c, o = Some c).

Lemma answered_perm (out : list Done_for) cs :
  NoDup (fst <$> (fst <$> out)) ->
  Forall (fun x => is_Some (cs !! x.1.1) /\ answered_once x.1.1 x.1.2 x.2) out ->
  (node_of <$> concat (snd <$> (fst <$> out))) ++ keys (apply_done out cs) ≡ₚ keys cs.
Proof.
  revert cs. induction out as [|[[n rs] o] out IH]; intros cs Hnd Hall; [done|].
  apply NoDup_cons in Hnd as [Hnn Hnd]. apply Forall_cons in Hall as [[[c Hc] Ha] Hall]. cbn in Hnn, Hc, Ha.
  change (apply_done ((n, rs, o) :: out) cs) with (apply_done out (partial_alter (fun _ => o) n cs)).
  cbn [fmap list_fmap concat fst snd]. rewrite fmap_app, <- app_assoc. setoid_rewrite IH; [|done|].
  - destruct Ha as [[-> ->]|[-> [c' ->]]]; cbn; [by apply keys_delete with c|by apply keys_insert with c].
  - eapply Forall_impl; [apply Forall_and; split; [exact Hall|]|].
    + instantiate (1 := fun x => x.1.1 <> n). apply Forall_forall. intros x Hx E. apply Hnn. rewrite <- E.
      apply list_elem_of_fmap. exists x.1. split; [done|]. apply list_elem_of_fmap. eauto.
    + intros x [[Hx Hax] Hne]. split; [|done]. by rewrite lookup_partial_alter_ne.
Qed.

Lemma finished_remaining id m out w w' :
  finished id m out w w' -> remaining id w' = keys (apply_done out (node_id_to_cnxt_ m)).
Proof.
  intros [_ _ _ Hm]. unfold remaining. case_decide as Hz; destruct Hm as [-> _]; [|done].
  rewrite Hz. symmetry. by apply keys_nil.
Qed.

Lemma finished_completed id m out w w' :
  finished id m out w w' ->
  sv_completed w' = sv_completed w ++ (if decide (remaining id w' = []) then [(id, None)] else []).
Proof.
  intros Hf. rewrite (finished_remaining _ _ _ _ _ Hf). pose proof (fin_machine _ _ _ _ _ Hf) as Hm.
  case_decide as Hz; destruct Hm as [_ ->].
  - rewrite decide_True by (by apply keys_nil). done.
  - rewrite decide_False by (by rewrite keys_nil). by rewrite app_nil_r.
Qed.

Lemma processed_remaining (Rel : X -> NodeId -> Cnxt -> list Resp -> option Cnxt -> Prop) id m w w' :
  (forall n c rs o, make_rel Rel (fsm_data m) n c rs o -> answered_once n rs o) ->
  processed Rel id m w w' ->
  exists new, sv_sent w' = sv_sent w ++ (pair id <$> new) /\
    (node_of <$> new) ++ remaining id w' ≡ₚ keys (node_id_to_cnxt_ m) /\
    sv_completed w' = sv_completed w ++ (if decide (remaining id w' = []) then [(id, None)] else []) /\
    Forall (fun r => exists n c rs o, make_rel Rel (fsm_data m) n c rs o /\ r ∈ rs) new.
Proof.
  intros Hrel (w0 & out & _ & Hc0 & Hs0 & Hf & Hperm & Hall).
  exists (concat (snd <$> (fst <$> out))). split; [|split; [|split]].
  - by rewrite (fin_sent _ _ _ _ _ Hf), Hs0.
  - rewrite (finished_remaining _ _ _ _ _ Hf). apply answered_perm.
    + rewrite Hperm. apply NoDup_fst_map_to_list.
    + eapply Forall_impl; [exact Hall|]. intros x (c & Hc & Hr). split; [eauto|]. by eapply Hrel.
  - by rewrite (finished_completed _ _ _ _ _ Hf), Hc0.
  - apply Forall_forall. intros r Hr. apply list_elem_of_In, in_concat in Hr as (rs & Hrs & Hr).
    apply list_elem_of_In, list_elem_of_fmap in Hrs as (y & -> & Hy).
    apply list_elem_of_fmap in Hy as (x & -> & Hx). apply list_elem_of_In in Hr.
    rewrite Forall_forall in Hall. destruct (Hall x Hx) as (c & _ & Hmr). eauto 10.
Qed.
End Facts.

(** The invariant of a node service. *)
Abbreviation NodeService_ok data_ok fresh good := (Service_ok (machine_ok data_ok fresh good)).
