(* ===== verification/ListRegisters.v ===== *)
(** * The "list registers" node service

    Models [src/daemon/engine/svc/node/list_registers_service.cpp]: for every
    node of the request the registers are asked for one by one, by index, and
    each name is forwarded to the IPC client until the node answers with an
    empty name or fails. *)
From S2P Require Import Prelude Errors NodeService NodeServiceFacts.

Local Open Scope Z_scope.

Module ListRegs.

(** [ListRegisters.0.1.dsdl] *)
Record Request := mkRequest { timeout_us : Z; node_ids : list NodeId }.
Record Response := mkResponse { res_error : Error_0_1; res_node_id : NodeId; res_item : bytes }.

(** [CyPromise::Result]; a response carries a register name. *)
Inductive PromiseResult : Type :=
| Success (name : bytes)
| Failure (cy_failure : CyError).

(** The register index (16 bits) is the data of a node. *)
Abbreviation Cnxt := (NodeContext Z Z).
Abbreviation Machine := (Fsm Z unit Z).

Section Service.
Context {Env : Type} (O : Oracles Z Z Response Env).
Abbreviation W := (Service Z unit Z Response Env).

Definition response (node_id : NodeId) (item : bytes) (opt_error : OptError) : Response :=
  mkResponse (optErrorToDsdlError opt_error) node_id item.

Definition startCyRegListRpcCallFor (id : FsmId) (node_id : NodeId) : M W unit :=
  node_cnxt ← get_cnxt id node_id;
  if negb (client node_cnxt) then releaseNodeContext O id node_id
  else
    let cy_request := cn_data node_cnxt in
    cy_req_result ← cyRequest O id node_id node_cnxt cy_request;
    match cy_req_result with
    | inl cy_failure =>
        let opt_error := cyFailureToOptError cy_failure in
        sendResponse O id (response node_id [] opt_error);;
        releaseNodeContext O id node_id
    | inr cy_promise => update_cnxts id (alter (cn_set_promise cy_promise) node_id)
    end.

Definition makeClient : FsmId -> NodeId -> M W unit :=
  makeCyRpcClient O (fun node_id opt_error => response node_id [] opt_error) startCyRegListRpcCallFor.

Definition handleNodeResponse (id : FsmId) (node_id : NodeId) (result : PromiseResult) : M W unit :=
  m ← get_fsm id;
  match node_id_to_cnxt_ m !! node_id with
  | None => mret tt
  | Some _ =>
      match result with
      | Success name =>
          (* An empty name is the end of the list. *)
          if decide (name = []) then releaseNodeContext O id node_id
          else
            sendResponse O id (response node_id name None);;
            node_cnxt ← get_cnxt id node_id;
            update_cnxts id (alter (cn_set_data (u16 (cn_data node_cnxt + 1))) node_id);;
            startCyRegListRpcCallFor id node_id
      | Failure cy_failure =>
          let opt_error := cyFailureToOptError cy_failure in
          sendResponse O id (response node_id [] opt_error);;
          releaseNodeContext O id node_id
      end
  end.

Definition handleInput (input : Request) (id : FsmId) : M W unit :=
  m ← get_fsm id;
  if processing_ m then mret tt
  else
    let timeout := i64 (timeout_us input) in
    update_cnxts id (emplace_nodes (node_ids input) (mkCnxt timeout 0 false None)).

Definition nothing_to_do (m : Machine) : bool := bool_decide (node_id_to_cnxt_ m = ∅).

Definition handleCompletedEvent (id : FsmId) (keep_alive : bool) : M W unit :=
  handleCompleted O nothing_to_do makeClient id keep_alive.

(** [operator()]: a new channel with its first request. *)
Definition serve (request : Request) : M W unit := newNodeChannel tt (handleInput request).

(** What can happen to the service. *)
Inductive Event : Type :=
| NewChannel (request : Request)
| ChInput (id : FsmId) (input : Request)
| ChCompleted (id : FsmId) (keep_alive : bool)
| NodeResponse (id : FsmId) (node_id : NodeId) (result : PromiseResult).

Definition handle (e : Event) : M W unit :=
  match e with
  | NewChannel request => serve request
  | ChInput id input => handleInput input id
  | ChCompleted id keep_alive => handleCompletedEvent id keep_alive
  | NodeResponse id node_id result => handleNodeResponse id node_id result
  end.
End Service.
End ListRegs.

Section Facts.
Import ListRegs.
Context {Env : Type} (O : Oracles Z Z Response Env).
Abbreviation W := (Service Z unit Z Response Env).
Implicit Types (w : W) (id : FsmId) (n : NodeId).

(** The clock is far from the ends of its range, and so are the timeouts that
    the service accepts without undefined behaviour. *)
Definition lr_clock_ok : Prop := forall e, 0 <= cy_now O e < 2 ^ 62.
Definition lr_order_ok : Prop := forall cs : gmap NodeId Cnxt, node_order O cs ≡ₚ (map_to_list cs).*1.
Definition lr_timeout_ok (c : Cnxt) : Prop := 0 <= timeout c < 2 ^ 62.
Definition lr_request_ok (r : Request) : Prop := 0 <= timeout_us r < 2 ^ 62.

Definition lr_fresh (c : Cnxt) : Prop := lr_timeout_ok c /\ cn_data c = 0.
(** The promise of a node is for the register of its index. *)
Definition lr_good (x : unit) (n : NodeId) (c : Cnxt) : Prop :=
  lr_timeout_ok c /\ exists p, promise c = Some p /\ asked O n (timeout c) (cn_data c) p.

(** The channel and the promises that exist can deliver events. *)
Definition lr_enabled w (e : Event) : Prop :=
  match e with
  | NewChannel request => lr_request_ok request /\ next_fsm_id_ w < 2 ^ 64 - 1
  | ChInput id input => lr_request_ok input /\ is_Some (id_to_fsm_ w !! id)
  | ChCompleted id _ => is_Some (id_to_fsm_ w !! id)
  | NodeResponse id n _ => exists m c, id_to_fsm_ w !! id = Some m /\ processing_ m = true /\
                                       node_id_to_cnxt_ m !! n = Some c /\ is_Some (promise c)
  end.

Abbreviation Lr_ok := (NodeService_ok (fun _ => True) lr_fresh lr_good).

Definition error_item (n : NodeId) (e : OptError) : Response := response n [] e.

(** What asking a node for the register of its index may do. *)
Definition lr_asks (x : unit) (n : NodeId) (c : Cnxt) (rs : list Response) (o : option Cnxt) : Prop :=
  (exists cy, cy_refuses O n cy /\ rs = [error_item n (cyFailureToOptError cy)] /\ o = None) \/
  (rs = [] /\ exists p, o = Some (cn_set_promise p c) /\ client c = true /\ lr_timeout_ok c /\ asked O n (timeout c) (cn_data c) p).

Context (Hclock : lr_clock_ok).

Lemma lr_start_spec : start_spec (startCyRegListRpcCallFor O) (fun _ c => lr_timeout_ok c) lr_asks.
Proof.
  intros id m n c w Hm Hc Hcl Ht. unfold startCyRegListRpcCallFor.
  apply wp_bind, (wp_get_cnxt id m n c); [done|done|]. rewrite Hcl. cbn [negb].
  apply wp_bind, wp_cyRequest; [exact Hclock|exact Ht|]. intros r w1 Hr He1.
  assert (id_to_fsm_ w1 !! id = Some m) as Hm1 by (by rewrite (proj1 He1)).
  apply (wp_finished_after id m n c [] w w1); [by apply env_only_touched|].
  rewrite set_cnxts_same by done.
  destruct r as [cy|p].
  - eapply (wp_give_up O error_item); [done|done|]. left. by exists cy.
  - eapply wp_mono; [by eapply wp_keep_promise|]. intros [] w' Hfin.
    exists [], (Some (cn_set_promise p c)). split; [done|]. right. split; [done|]. by exists p.
Qed.

Lemma lr_asks_pending x n c rs c' : lr_asks x n c rs (Some c') -> pending lr_good x n c'.
Proof.
  intros [(cy & _ & _ & ?)|(_ & p & [= ->] & Hc & Ht & Hp)]; [done|]. split; [done|]. split; [by eexists|].
  split; [done|]. by exists p.
Qed.

(** One answer of a node: what is sent and what is left of its context. *)
Definition lr_answers (c : Cnxt) (result : PromiseResult) (n : NodeId) (rs : list Response) (o : option Cnxt) : Prop :=
  match result with
  | Success name =>
      if decide (name = []) then rs = [] /\ o = None
      else exists rs', rs = response n name None :: rs' /\
             lr_asks tt n (cn_set_data (u16 (cn_data c + 1)) c) rs' o
  | Failure e => rs = [error_item n (Some (cyErrorToSdkError e))] /\ o = None
  end.

Lemma lr_wp_handleNodeResponse id m n c result w :
  id_to_fsm_ w !! id = Some m -> node_id_to_cnxt_ m !! n = Some c -> client c = true -> lr_timeout_ok c ->
  wp (handleNodeResponse O id n result)
     (fun _ w' => exists rs o, finished id m [(n, rs, o)] w w' /\ lr_answers c result n rs o) w.
Proof.
  intros Hm Hc Hcl Ht. unfold handleNodeResponse. apply wp_bind, (wp_get_fsm id m); [done|]. rewrite Hc.
  destruct result as [name|cy]; cbn [lr_answers].
  - case_decide as Hn.
    { eapply wp_mono; [by eapply wp_releaseNodeContext|]. intros [] w' Hf. by exists [], None. }
    apply wp_bind. eapply wp_sendResponse_touched; [done|done|]. intros w1 Ht1.
    apply (wp_finished_after id m n c [response n name None] w w1); [done|]. rewrite set_cnxts_same by done.
    pose proof (tou_machine _ _ _ _ _ _ _ Ht1) as Hm1. rewrite set_cnxts_same in Hm1 by done.
    apply wp_bind, (wp_get_cnxt id m n c); [done|done|].
    apply wp_bind, (wp_touch_cnxt _ id m n c); [done|done|]. intros w2 Ht2.
    apply (wp_finished_after id m n (cn_set_data (u16 (cn_data c + 1)) c) [] w1 w2); [done|].
    eapply wp_mono; [eapply lr_start_spec; [apply Ht2|cbn; apply lookup_insert_eq|done|done]|].
    intros [] w' (rs & o & Hf & Hr). exists rs, o. split; [done|]. exists rs. split; [done|]. exact Hr.
  - eapply (wp_give_up O error_item); [done|done|]. done.
Qed.

Lemma lr_answers_pending c result n rs c' : lr_answers c result n rs (Some c') -> pending lr_good tt n c'.
Proof.
  destruct result as [name|e]; cbn; [|by intros [_ ?]].
  case_decide; [by intros [_ ?]|]. intros (rs' & _ & Ha). by eapply lr_asks_pending.
Qed.

Lemma lr_input_ok id m input w :
  Lr_ok w -> id_to_fsm_ w !! id = Some m -> lr_request_ok input ->
  wp (handleInput input id) (fun _ w' => Lr_ok w') w.
Proof.
  intros Hok Hm Hr. unfold handleInput. apply wp_bind, (wp_get_fsm id m); [done|].
  destruct (processing_ m) eqn:Hp; [by apply wp_ret|].
  destruct (Service_machine_ok _ id m w Hok Hm) as [_ Hmo]. rewrite Hp in Hmo.
  eapply wp_update_cnxts; [done|]. eapply put_fsm_ok; [done|done|]. split; [done|]; cbn. rewrite Hp.
  apply emplace_nodes_Forall; [|apply Hmo]. split; [|done]. unfold lr_timeout_ok; cbn.
  unfold lr_request_ok in Hr. by rewrite i64_id by lia.
Qed.

Lemma lr_wp_completed id m w :
  lr_order_ok -> Lr_ok w -> id_to_fsm_ w !! id = Some m -> processing_ m = false -> node_id_to_cnxt_ m <> ∅ ->
  wp (handleCompletedEvent O id true) (fun _ w' => Lr_ok w' /\ processed O error_item lr_asks id m w w') w.
Proof.
  intros Hord Hok Hm Hp Hn. unfold handleCompletedEvent, makeClient.
  eapply (wp_handleCompleted_start O error_item _ lr_fresh lr_good); try done.
  - apply lr_start_spec.
  - intros x n c rs c'. apply lr_asks_pending.
  - intros m' n c _ _ Hf Hc. by apply (Hf n c).
  - intros m' Hn'. by apply bool_decide_eq_false in Hn'.
  - by apply bool_decide_eq_false.
Qed.

(** The service never touches a machine that it has destroyed (nor the
    context of a node that was released), whatever the Cyphal layer and the
    channel answer; machines that exist are waiting for at least one promise
    or for their input to end; and each channel is completed exactly once. *)
Theorem list_registers_safe e w :
  lr_order_ok -> Lr_ok w -> lr_enabled w e -> wp (handle O e) (fun _ w' => Lr_ok w') w.
Proof.
  intros Hord Hok He. destruct e as [request|id input|id k|id n result]; cbn [handle lr_enabled] in *.
  - destruct He as [Hr Hlt]. unfold serve, newNodeChannel, newChannel. do 4 wp_step.
    pose proof (with_new_ok (machine_ok _ lr_fresh lr_good) (new_machine tt) w Hok ltac:(by apply new_machine_ok) Hlt) as Hok1.
    fold (with_new (new_machine (Req := Z) tt) w).
    eapply (lr_input_ok _ (new_machine tt)); [exact Hok1|cbn; apply lookup_insert_eq|done].
  - destruct He as [Hr [m Hm]]. by eapply lr_input_ok.
  - destruct He as [m Hm]. destruct k.
    2:{ eapply wp_mono; [by eapply wp_handleCompleted_cancel|]. by intros [] w' (? & _). }
    destruct (processing_ m) eqn:Hp.
    { unfold wp, handleCompletedEvent, makeClient. erewrite handleCompleted_ignored; done. }
    destruct (nothing_to_do (begun m)) eqn:Hn.
    { eapply wp_mono; [by eapply wp_handleCompleted_nothing|]. by intros [] w' (? & _). }
    apply bool_decide_eq_false in Hn. eapply wp_mono; [by eapply lr_wp_completed|]. by intros [] w' (? & _).
  - destruct He as (m & c & Hm & Hp & Hc & _).
    destruct (Service_machine_ok _ id m w Hok Hm) as [_ Hmo]. rewrite Hp in Hmo. destruct Hmo as [_ Hall]. destruct (Hall n c Hc) as (Hcl & _ & Ht & _).
    eapply wp_mono; [by eapply lr_wp_handleNodeResponse|]. intros [] w' (rs & o & Hf & Ha).
    eapply response_ok; [done|done|done|done|]. intros c' ->. destruct (fsm_data m). by eapply lr_answers_pending.
Qed.

(** The names of a node are forwarded one by one, in order and unchanged.
    While the node keeps answering and the requests can be sent, each answer
    is one response to the IPC client, and the register that is asked for next
    is the one after (its index is a 16-bit number). *)
Theorem list_registers_enumerates (names : list bytes) id m n c w :
  (forall e, (cy_make_client O n e).1 = inr tt) -> (forall q d e, (cy_request O n q d e).1 = inr tt) ->
  id_to_fsm_ w !! id = Some m -> node_id_to_cnxt_ m !! n = Some c -> pending lr_good tt n c ->
  0 <= cn_data c < 2 ^ 16 -> Forall (fun name => name <> []) names ->
  wp (mfor names (fun name => handle O (NodeResponse id n (Success name))))
     (fun _ w' => exists m' c', id_to_fsm_ w' !! id = Some m' /\ node_id_to_cnxt_ m' !! n = Some c' /\
        pr_request <$> promise c' = Some (u16 (cn_data c + Z.of_nat (length names))) /\
        sv_sent w' = sv_sent w ++ ((fun name => (id, response n name None)) <$> names) /\
        sv_completed w' = sv_completed w) w.
Proof.
  intros Hmake Hreq. revert m c w. induction names as [|name names IH]; intros m c w Hm Hc Hp Hd Hall.
  { apply wp_ret. exists m, c. split; [done|]. split; [done|]. split; [|by rewrite app_nil_r].
    destruct Hp as (_ & _ & _ & p & -> & _ & Hq & _). cbn. by rewrite Hq, Z.add_0_r, wrap_id. }
  apply Forall_cons in Hall as [Hn Hall]. cbn. apply wp_bind. destruct Hp as (Hcl & Hpr & Ht & _).
  unfold handleNodeResponse. apply wp_bind, (wp_get_fsm id m); [done|]. rewrite Hc. rewrite decide_False by done.
  apply wp_bind. eapply wp_sendResponse_touched; [done|done|]. intros w1 Ht1.
  pose proof (tou_machine _ _ _ _ _ _ _ Ht1) as Hm1. rewrite set_cnxts_same in Hm1 by done.
  apply wp_bind, (wp_get_cnxt id m n c); [done|done|].
  apply wp_bind, (wp_touch_cnxt _ id m n c); [done|done|]. intros w2 Ht2.
  set (c2 := cn_set_data (u16 (cn_data c + 1)) c) in *.
  set (m2 := set_cnxts <[n := c2]> m) in *. pose proof (tou_machine _ _ _ _ _ _ _ Ht2) as Hm2. fold m2 in Hm2.
  assert (node_id_to_cnxt_ m2 !! n = Some c2) as Hc2 by (cbn; apply lookup_insert_eq).
  unfold startCyRegListRpcCallFor. apply wp_bind, (wp_get_cnxt id m2 n c2); [done|done|].
  change (client c2) with (client c). rewrite Hcl. cbn [negb].
  apply wp_bind, wp_cyRequest; [exact Hclock|exact Ht|]. intros [cy|p] w3 Hp (Hf3 & Hn3 & Hs3 & Hc3).
  { destruct Hp as [[e He]|(q & d & e & He)]; [by rewrite Hmake in He|by rewrite Hreq in He]. }
  eapply wp_update_cnxts; [by rewrite Hf3|].
  set (m3 := set_cnxts _ m2). set (c3 := cn_set_promise p c2).
  assert (node_id_to_cnxt_ m3 !! n = Some c3) as Hcm3 by (cbn; by rewrite lookup_alter_eq, lookup_insert_eq).
  eapply wp_mono; [apply (IH m3 c3); [cbn; apply lookup_insert_eq|done| | |done]|].
  - split; [done|]. split; [by eexists|]. split; [done|]. by exists p.
  - cbn. apply wrap_bound. lia.
  - intros [] w' (m' & c' & Hm' & Hc' & Hp' & Hs' & Hcm'). exists m', c'. split; [done|]. split; [done|].
    split; [|split].
    + rewrite Hp'. cbn. rewrite wrap_add_l. do 2 f_equal. lia.
    + rewrite Hs'. cbn. rewrite Hs3, (tou_sent _ _ _ _ _ _ _ Ht2), (tou_sent _ _ _ _ _ _ _ Ht1). cbn.
      by rewrite app_nil_r, <- app_assoc.
    + rewrite Hcm'. cbn. by rewrite Hc3, (tou_completed _ _ _ _ _ _ _ Ht2), (tou_completed _ _ _ _ _ _ _ Ht1).
Qed.
End Facts.

(** A Cyphal layer that accepts everything, and a service that waits for the
    answer of the node 42. *)
Module ListRegsExample.
Import ListRegs.

Definition oracles : Oracles Z Z Response unit :=
  mkOracles (fun _ => 0) (fun _ e => (inr tt, e)) (fun _ _ _ e => (inr tt, e))
            (fun _ _ e => (None, e)) (fun _ _ e => (None, e)) (fun cs => (map_to_list cs).*1).

Definition waiting : Cnxt := mkCnxt 1000000 0 true (Some (mkPromise 42 0 1000000)).
Definition machine : Machine := mkFsm true tt {[42 := waiting]}.
Definition service : Service Z unit Z Response unit := mkService {[0 := machine]} 1 [] [] tt.

Lemma lr_clock : lr_clock_ok oracles.
Proof. intros e. cbn. lia. Qed.

Lemma waiting_pending : pending (lr_good oracles) tt 42 waiting.
Proof.
  split; [done|]. split; [by eexists|]. split; [unfold lr_timeout_ok; cbn; lia|].
  eexists. split; [done|]. by repeat (split || exists tt).
Qed.

Lemma lr_service_ok : NodeService_ok (fun _ => True) lr_fresh (lr_good oracles) service.
Proof.
  apply one_machine_ok. split; [done|]. split; [apply map_non_empty_singleton|].
  apply map_Forall_singleton. exact waiting_pending.
Qed.

Lemma service_machine : id_to_fsm_ service !! 0 = Some machine.
Proof. done. Qed.
End ListRegsExample.

Lemma list_registers_safe_witness :
  wp (ListRegs.handle ListRegsExample.oracles (ListRegs.NodeResponse 0 42 (ListRegs.Success (str "uavcan.node.id"))))
     (fun _ w' => NodeService_ok (fun _ => True) lr_fresh (lr_good ListRegsExample.oracles) w') ListRegsExample.service.
Proof.
  apply (list_registers_safe ListRegsExample.oracles ListRegsExample.lr_clock).
  - intros cs. done.
  - apply ListRegsExample.lr_service_ok.
  - exists ListRegsExample.machine, ListRegsExample.waiting. repeat split. by eexists.
Defined.

Lemma list_registers_enumerates_witness :
  wp (mfor [str "a"; str "b"] (fun name =>
        ListRegs.handle ListRegsExample.oracles (ListRegs.NodeResponse 0 42 (ListRegs.Success name))))
     (fun _ w' => exists m' c', id_to_fsm_ w' !! 0 = Some m' /\ node_id_to_cnxt_ m' !! 42 = Some c' /\
        pr_request <$> promise c' = Some (u16 (0 + Z.of_nat 2)) /\
        sv_sent w' = [] ++ ((fun name => (0, ListRegs.response 42 name None)) <$> [str "a"; str "b"]) /\
        sv_completed w' = []) ListRegsExample.service.
Proof.
  apply (list_registers_enumerates ListRegsExample.oracles ListRegsExample.lr_clock [str "a"; str "b"] 0
           ListRegsExample.machine 42 ListRegsExample.waiting ListRegsExample.service); try done.
  - apply ListRegsExample.waiting_pending.
  - by repeat constructor.
Defined.
