(* ===== verification/ExecCmd.v ===== *)
(** * The "execute command" node service

    Models [src/daemon/engine/svc/node/exec_cmd_service.cpp]: one command is
    sent to every node of the request, and each answer (or failure) is
    forwarded to the IPC client. *)
From S2P Require Import Prelude Errors NodeService NodeServiceFacts.

Local Open Scope Z_scope.

Module ExecCmd.

(** [UavcanNodeExecCmdReq.0.1], [UavcanNodeExecCmdRes.0.1], [ExecCmd.0.2] *)
Record RequestPayload := mkReqPayload { command : Z; parameter : bytes }.
Record ResponsePayload := mkResPayload { status : Z; output : bytes }.
Record Request := mkRequest { timeout_us : Z; node_ids : list NodeId; req_payload : RequestPayload }.
Record Response := mkResponse { res_error : Error_0_1; res_node_id : NodeId; res_payload : ResponsePayload }.

(** [CyPromise::Result] *)
Inductive PromiseResult : Type :=
| Success (status : Z) (output : bytes)
| Failure (cy_failure : CyError).

Abbreviation Cnxt := (NodeContext RequestPayload RequestPayload).
Abbreviation Machine := (Fsm RequestPayload unit RequestPayload).

Section Service.
Context {Env : Type} (O : Oracles RequestPayload RequestPayload Response Env).
Abbreviation W := (Service RequestPayload unit RequestPayload Response Env).

Definition empty_payload : ResponsePayload := mkResPayload 0 [].

Definition response (node_id : NodeId) (payload : ResponsePayload) (opt_error : OptError) : Response :=
  mkResponse (optErrorToDsdlError opt_error) node_id payload.

Definition startCyExecCmdRpcCallFor (id : FsmId) (node_id : NodeId) : M W unit :=
  node_cnxt ← get_cnxt id node_id;
  if negb (client node_cnxt) then releaseNodeContext O id node_id
  else
    let cy_request := cn_data node_cnxt in
    cy_req_result ← cyRequest O id node_id node_cnxt cy_request;
    match cy_req_result with
    | inl cy_failure =>
        let opt_error := cyFailureToOptError cy_failure in
        sendResponse O id (response node_id empty_payload opt_error);;
        releaseNodeContext O id node_id
    | inr cy_promise => update_cnxts id (alter (cn_set_promise cy_promise) node_id)
    end.

Definition makeClient : FsmId -> NodeId -> M W unit :=
  makeCyRpcClient O (fun node_id opt_error => response node_id empty_payload opt_error) startCyExecCmdRpcCallFor.

Definition handleNodeResponse (id : FsmId) (node_id : NodeId) (result : PromiseResult) : M W unit :=
  let '(payload, opt_error) :=
    match result with
    | Success status output => (mkResPayload status output, None)
    | Failure cy_failure => (empty_payload, cyFailureToOptError cy_failure)
    end in
  sendResponse O id (response node_id payload opt_error);;
  releaseNodeContext O id node_id.

Definition handleInput (input : Request) (id : FsmId) : M W unit :=
  m ← get_fsm id;
  if processing_ m then mret tt
  else
    let timeout := i64 (timeout_us input) in
    update_cnxts id (emplace_nodes (node_ids input) (mkCnxt timeout (req_payload input) false None)).

Definition nothing_to_do (m : Machine) : bool := bool_decide (node_id_to_cnxt_ m = ∅).

Definition handleCompletedEvent (id : FsmId) (keep_alive : bool) : M W unit :=
  handleCompleted O nothing_to_do makeClient id keep_alive.

(** [operator()]: a new channel with its first request. *)
Definition serve (request : Request) : M W unit := newNodeChannel tt (handleInput request).

(** What can happen to the service. *)
Inductive Event : Type :=
| NewChannel (request : Request)
| ChInput (id : FsmId) (input : Request)
| ChCompleted (id : FsmId) (keep_alive : bool)
| NodeResponse (id : FsmId) (node_id : NodeId) (result : PromiseResult).

Definition handle (e : Event) : M W unit :=
  match e with
  | NewChannel request => serve request
  | ChInput id input => handleInput input id
  | ChCompleted id keep_alive => handleCompletedEvent id keep_alive
  | NodeResponse id node_id result => handleNodeResponse id node_id result
  end.
End Service.
End ExecCmd.

Section Facts.
Import ExecCmd.
Context {Env : Type} (O : Oracles RequestPayload RequestPayload Response Env).
Abbreviation W := (Service RequestPayload unit RequestPayload Response Env).
Implicit Types (w : W) (id : FsmId) (n : NodeId).

(** The clock is far from the ends of its range, and so are the timeouts that
    the service accepts without undefined behaviour. *)
Definition ec_clock_ok : Prop := forall e, 0 <= cy_now O e < 2 ^ 62.
Definition ec_order_ok : Prop := forall cs : gmap NodeId Cnxt, node_order O cs ≡ₚ (map_to_list cs).*1.
Definition ec_fresh (c : Cnxt) : Prop := 0 <= timeout c < 2 ^ 62.
Definition ec_request_ok (r : Request) : Prop := 0 <= timeout_us r < 2 ^ 62.
(** The promise of a node is for its command. *)
Definition ec_good (x : unit) (n : NodeId) (c : Cnxt) : Prop :=
  exists p, promise c = Some p /\ asked O n (timeout c) (cn_data c) p.

(** The channel and the promises that exist can deliver events. *)
Definition ec_enabled w (e : Event) : Prop :=
  match e with
  | NewChannel request => ec_request_ok request /\ next_fsm_id_ w < 2 ^ 64 - 1
  | ChInput id input => ec_request_ok input /\ is_Some (id_to_fsm_ w !! id)
  | ChCompleted id _ => is_Some (id_to_fsm_ w !! id)
  | NodeResponse id n _ => exists m c, id_to_fsm_ w !! id = Some m /\ processing_ m = true /\
                                       node_id_to_cnxt_ m !! n = Some c /\ is_Some (promise c)
  end.

Abbreviation Ec_ok := (NodeService_ok (fun _ => True) ec_fresh (ec_good)).

Definition error_payload (n : NodeId) (e : OptError) : Response := response n empty_payload e.

(** What sending the command to a node may do. *)
Definition ec_sends (x : unit) (n : NodeId) (c : Cnxt) (rs : list Response) (o : option Cnxt) : Prop :=
  (exists cy, cy_refuses O n cy /\ rs = [error_payload n (cyFailureToOptError cy)] /\ o = None) \/
  (rs = [] /\ exists p, o = Some (cn_set_promise p c) /\ client c = true /\ asked O n (timeout c) (cn_data c) p).

Context (Hclock : ec_clock_ok).

Lemma ec_start_spec : start_spec (startCyExecCmdRpcCallFor O) (fun _ c => ec_fresh c) ec_sends.
Proof.
  intros id m n c w Hm Hc Hcl Ht. unfold startCyExecCmdRpcCallFor.
  apply wp_bind, (wp_get_cnxt id m n c); [done|done|]. rewrite Hcl. cbn [negb].
  apply wp_bind, wp_cyRequest; [exact Hclock|exact Ht|]. intros r w1 Hr He1.
  assert (id_to_fsm_ w1 !! id = Some m) as Hm1 by (by rewrite (proj1 He1)).
  apply (wp_finished_after id m n c [] w w1); [by apply env_only_touched|].
  rewrite set_cnxts_same by done. destruct r as [cy|p].
  - eapply (wp_give_up O error_payload); [done|done|]. left. eauto.
  - eapply wp_mono; [by eapply wp_keep_promise|]. intros [] w' Hfin.
    exists [], (Some (cn_set_promise p c)). split; [done|]. right. eauto.
Qed.

Lemma ec_sends_pending x n c rs c' : ec_sends x n c rs (Some c') -> pending ec_good x n c'.
Proof.
  intros [(cy & _ & _ & ?)|(_ & p & [= ->] & Hc & Hp)]; [done|]. split; [done|]. split; [by eexists|]. by exists p.
Qed.

Lemma ec_sends_once x n c rs o : make_rel O error_payload ec_sends x n c rs o -> answered_once res_node_id n rs o.
Proof. intros [(cy & _ & -> & ->)|[(cy & _ & -> & ->)|(-> & p & -> & _)]]; [by left|by left|right; eauto]. Qed.

(** The answer that is forwarded for a result. *)
Definition result_response (n : NodeId) (result : PromiseResult) : Response :=
  match result with
  | Success status output => response n (mkResPayload status output) None
  | Failure e => response n empty_payload (Some (cyErrorToSdkError e))
  end.

Lemma ec_wp_handleNodeResponse id m n c result w :
  id_to_fsm_ w !! id = Some m -> node_id_to_cnxt_ m !! n = Some c ->
  wp (handleNodeResponse O id n result)
     (fun _ w' => finished id m [(n, [result_response n result], None)] w w') w.
Proof.
  intros Hm Hc. unfold handleNodeResponse.
  assert (forall r, wp (sendResponse O id r;; releaseNodeContext O id n)
            (fun _ w' => finished id m [(n, [r], None)] w w') w) as Hgen.
  { intros r. apply wp_bind. eapply wp_sendResponse_touched; [done|done|]. intros w1 Ht.
    eapply wp_mono; [eapply wp_releaseNodeContext, Ht|]. intros [] w' Hf.
    change [r] with ([r] ++ []). by eapply touched_finished. }
  destruct result; apply Hgen.
Qed.

Lemma ec_input_ok id m input w :
  Ec_ok w -> id_to_fsm_ w !! id = Some m -> ec_request_ok input ->
  wp (handleInput input id) (fun _ w' => Ec_ok w') w.
Proof.
  intros Hok Hm Hr. unfold handleInput. apply wp_bind, (wp_get_fsm id m); [done|].
  destruct (processing_ m) eqn:Hp; [by apply wp_ret|].
  destruct (Service_machine_ok _ id m w Hok Hm) as [_ Hmo]. rewrite Hp in Hmo.
  eapply wp_update_cnxts; [done|]. eapply put_fsm_ok; [exact Hok|done|]. split; [done|]; cbn. rewrite Hp.
  apply emplace_nodes_Forall; [|apply Hmo]. unfold ec_fresh; cbn.
  unfold ec_request_ok in Hr. by rewrite i64_id by lia.
Qed.

Lemma ec_start_ok id m w :
  ec_order_ok -> Ec_ok w -> id_to_fsm_ w !! id = Some m -> processing_ m = false ->
  node_id_to_cnxt_ m <> ∅ ->
  wp (handleCompletedEvent O id true)
     (fun _ w' => Ec_ok w' /\ processed O error_payload ec_sends id m w w') w.
Proof.
  intros Hord Hok Hm Hp Hn. unfold handleCompletedEvent, makeClient.
  eapply (wp_handleCompleted_start O error_payload _ ec_fresh ec_good); try done.
  - apply ec_start_spec.
  - intros x n c rs c'. apply ec_sends_pending.
  - intros m' n c _ _ Hf Hc. by apply (Hf n c).
  - intros m' Hn'. by apply bool_decide_eq_false in Hn'.
  - by apply bool_decide_eq_false.
Qed.

(** The service never touches a machine that it has destroyed, whatever the
    Cyphal layer and the channel answer; machines that exist are waiting for at
    least one promise or for their input to end; and each channel is completed
    exactly once. *)
Theorem exec_cmd_safe e w :
  ec_order_ok -> Ec_ok w -> ec_enabled w e -> wp (handle O e) (fun _ w' => Ec_ok w') w.
Proof.
  intros Hord Hok He. destruct e as [request|id input|id k|id n result]; cbn [handle ec_enabled] in *.
  - destruct He as [Hr Hlt]. unfold serve, newNodeChannel, newChannel. do 4 wp_step.
    pose proof (with_new_ok (machine_ok _ ec_fresh ec_good) (new_machine tt) w Hok ltac:(by apply new_machine_ok) Hlt) as Hok1.
    fold (with_new (new_machine (Req := RequestPayload) tt) w).
    eapply (ec_input_ok _ (new_machine tt)); [exact Hok1|cbn; apply lookup_insert_eq|done].
  - destruct He as [Hr [m Hm]]. by eapply ec_input_ok.
  - destruct He as [m Hm]. destruct k.
    2:{ eapply wp_mono; [by eapply wp_handleCompleted_cancel|]. by intros [] w' (? & _). }
    destruct (processing_ m) eqn:Hp.
    { unfold wp, handleCompletedEvent, makeClient. erewrite handleCompleted_ignored; done. }
    destruct (nothing_to_do (begun m)) eqn:Hn.
    { eapply wp_mono; [by eapply wp_handleCompleted_nothing|]. by intros [] w' (? & _). }
    apply bool_decide_eq_false in Hn.
    eapply wp_mono; [by eapply ec_start_ok|]. by intros [] w' (? & _).
  - destruct He as (m & c & Hm & Hp & Hc & _).
    eapply wp_mono; [by eapply ec_wp_handleNodeResponse|]. intros [] w' Hf.
    eapply response_ok; [done|done|done|done|]. done.
Qed.

(** One answer per node. When the client has sent all its nodes, each of
    them is answered with an error at once or its command was sent; from then
    on each answer of a node is forwarded as it is, and that node leaves the
    working set. The channel is completed, without error, by the event that
    empties the working set, and by no other. *)
Theorem exec_cmd_one_response_per_node id m w :
  ec_order_ok -> Ec_ok w -> id_to_fsm_ w !! id = Some m ->
  let completes w' := sv_completed w' = sv_completed w ++ (if decide (remaining id w' = []) then [(id, None)] else []) in
  (processing_ m = false -> node_id_to_cnxt_ m <> ∅ ->
     wp (handle O (ChCompleted id true)) (fun _ w' => completes w' /\ exists new,
        sv_sent w' = sv_sent w ++ (pair id <$> new) /\
        (res_node_id <$> new) ++ remaining id w' ≡ₚ remaining id w /\
        Forall (fun r => exists n e, r = error_payload n (Some e)) new) w) /\
  (forall n result c, processing_ m = true -> node_id_to_cnxt_ m !! n = Some c ->
     wp (handle O (NodeResponse id n result)) (fun _ w' => completes w' /\
        sv_sent w' = sv_sent w ++ [(id, result_response n result)] /\
        n :: remaining id w' ≡ₚ remaining id w) w).
Proof.
  intros Hord Hok Hm completes. assert (remaining id w = keys (node_id_to_cnxt_ m)) as Hrem
    by (unfold remaining; by rewrite Hm). rewrite Hrem. split.
  - intros Hp Hn. eapply wp_mono; [by eapply ec_start_ok|]. intros [] w' (_ & Hpr).
    destruct (processed_remaining O error_payload res_node_id ec_sends id m w w') as (new & Hs & Hperm & Hc & Hall); [|done|].
    { apply ec_sends_once. }
    split; [done|]. exists new. split; [done|]. split; [done|]. eapply Forall_impl; [done|].
    intros r (n & c & rs & o & [(cy & _ & -> & ->)|[(cy & _ & -> & ->)|(-> & _)]] & Hr); [| |by apply not_elem_of_nil in Hr];
      apply list_elem_of_singleton in Hr as ->; by eexists _, _.
  - intros n result c Hp Hc. cbn [handle]. eapply wp_mono; [by eapply ec_wp_handleNodeResponse|].
    intros [] w' Hf. split; [by eapply finished_completed|]. split; [by rewrite (fin_sent _ _ _ _ _ Hf)|].
    rewrite (finished_remaining _ _ _ _ _ Hf). by apply keys_delete with c.
Qed.
End Facts.

(** A Cyphal layer that accepts everything, and a service that waits for the
    answers of the nodes 42 and 43. *)
Module ExecCmdExample.
Import ExecCmd.

Definition oracles : Oracles RequestPayload RequestPayload Response unit :=
  mkOracles (fun _ => 0) (fun _ e => (inr tt, e)) (fun _ _ _ e => (inr tt, e))
            (fun _ _ e => (None, e)) (fun _ _ e => (None, e)) (fun cs => (map_to_list cs).*1).

Definition restart : RequestPayload := mkReqPayload 65535 [].
Definition waiting : Cnxt := mkCnxt 1000000 restart true (Some (mkPromise 42 restart 1000000)).
Definition waiting2 : Cnxt := mkCnxt 1000000 restart true (Some (mkPromise 43 restart 1000000)).
Definition machine : Machine := mkFsm true tt {[42 := waiting; 43 := waiting2]}.
Definition service : Service RequestPayload unit RequestPayload Response unit := mkService {[0 := machine]} 1 [] [] tt.

Lemma ec_clock : ec_clock_ok oracles.
Proof. intros e. cbn. lia. Qed.

Lemma ec_service_ok : NodeService_ok (fun _ => True) ec_fresh (ec_good oracles) service.
Proof.
  apply one_machine_ok. split; [done|]. split; [apply insert_non_empty|].
  apply map_Forall_insert_2; [|apply map_Forall_singleton];
    (split; [done|]); (split; [by eexists|]); (eexists; split; [done|]); by repeat (split || exists tt).
Qed.
End ExecCmdExample.

Lemma exec_cmd_safe_witness :
  wp (ExecCmd.handle ExecCmdExample.oracles (ExecCmd.NodeResponse 0 42 (ExecCmd.Success 0 [])))
     (fun _ w' => NodeService_ok (fun _ => True) ec_fresh (ec_good ExecCmdExample.oracles) w') ExecCmdExample.service.
Proof.
  apply (exec_cmd_safe ExecCmdExample.oracles ExecCmdExample.ec_clock).
  - intros cs. done.
  - apply ExecCmdExample.ec_service_ok.
  - exists ExecCmdExample.machine, ExecCmdExample.waiting. repeat split. by eexists.
Defined.

Lemma exec_cmd_one_response_per_node_witness :
  wp (ExecCmd.handle ExecCmdExample.oracles (ExecCmd.NodeResponse 0 42 (ExecCmd.Success 0 []))) (fun _ w' =>
     sv_completed w' = [] ++ (if decide (remaining 0 w' = []) then [(0, None)] else []) /\
     sv_sent w' = [] ++ [(0, result_response 42 (ExecCmd.Success 0 []))] /\
     42 :: remaining 0 w' ≡ₚ remaining 0 ExecCmdExample.service) ExecCmdExample.service.
Proof.
  apply (proj2 (exec_cmd_one_response_per_node ExecCmdExample.oracles ExecCmdExample.ec_clock 0 ExecCmdExample.machine
    ExecCmdExample.service ltac:(by intros cs) ExecCmdExample.ec_service_ok eq_refl)) with (c := ExecCmdExample.waiting); done.
Defined.
