(* ===== verification/AccessRegisters.v ===== *)
(** * The "access registers" node service

    Models [src/daemon/engine/svc/node/access_registers_service.cpp]: the client
    sends nodes and registers; every register is written or read on every node,
    one at a time, and each result is forwarded to the IPC client. *)
From S2P Require Import Prelude Errors NodeService NodeServiceFacts.

Local Open Scope Z_scope.

Module AccessRegs.

Section Service.
(** [uavcan.register.Value.1.0] is generated; [empty_value] is its default. *)
Context {Val : Type} (empty_value : Val).

(** [AccessRegistersKeyValue.0.1] *)
Record RegKeyValue := mkReg { key : bytes; value : Val }.

(** [AccessRegisters.0.1.dsdl] *)
Inductive Request : Type :=
| Req_empty
| Req_scope (timeout_us : Z) (node_ids : list NodeId)
| Req_register (reg : RegKeyValue).

Record Response := mkResponse { res_error : Error_0_1; res_node_id : NodeId; res_register : RegKeyValue }.

(** [CyPromise::Result] *)
Inductive PromiseResult : Type :=
| Success (v : Val)
| Failure (cy_failure : CyError).

(** The index of the register (16 bits) is the data of a node; the registers
    are the data of the machine. *)
Abbreviation Cnxt := (NodeContext Z RegKeyValue).
Abbreviation Machine := (Fsm Z (list RegKeyValue) RegKeyValue).

Context {Env : Type} (O : Oracles Z RegKeyValue Response Env).
Abbreviation W := (Service Z (list RegKeyValue) RegKeyValue Response Env).

Definition response (node_id : NodeId) (reg : RegKeyValue) (opt_error : OptError) : Response :=
  mkResponse (optErrorToDsdlError opt_error) node_id reg.

(** [registers_[node_cnxt.reg_index]]: out of range is undefined. *)
Definition reg_at (m : Machine) (reg_index : Z) : M W RegKeyValue :=
  match fsm_data m !! Z.to_nat reg_index with Some reg => mret reg | None => undef end.

(** The [while] loop; [fuel] bounds the number of requests that fail. *)
Fixpoint access_loop (fuel : nat) (id : FsmId) (node_id : NodeId) : M W unit :=
  m ← get_fsm id;
  node_cnxt ← get_cnxt id node_id;
  if client node_cnxt && (cn_data node_cnxt <? Z.of_nat (length (fsm_data m))) then
    match fuel with
    | 0%nat => undef
    | S fuel' =>
        reg ← reg_at m (cn_data node_cnxt);
        cy_req_result ← cyRequest O id node_id node_cnxt reg;
        match cy_req_result with
        | inr cy_promise => update_cnxts id (alter (cn_set_promise cy_promise) node_id)
        | inl cy_failure =>
            let opt_error := cyFailureToOptError cy_failure in
            sendResponse O id (response node_id (mkReg (key reg) empty_value) opt_error);;
            update_cnxts id (alter (cn_set_data (u16 (cn_data node_cnxt + 1))) node_id);;
            access_loop fuel' id node_id
        end
    end
  else releaseNodeContext O id node_id.

Definition startCyRegAccessRpcCallFor (id : FsmId) (node_id : NodeId) : M W unit :=
  m ← get_fsm id;
  access_loop (length (fsm_data m)) id node_id.

Definition makeClient : FsmId -> NodeId -> M W unit :=
  makeCyRpcClient O (fun node_id opt_error => response node_id (mkReg [] empty_value) opt_error)
                  startCyRegAccessRpcCallFor.

Definition handleNodeResponse (id : FsmId) (node_id : NodeId) (result : PromiseResult) : M W unit :=
  m ← get_fsm id;
  match node_id_to_cnxt_ m !! node_id with
  | None => mret tt
  | Some node_cnxt =>
      reg ← reg_at m (cn_data node_cnxt);
      let '(reg_key_value, opt_error) :=
        match result with
        | Success v => (mkReg (key reg) v, None)
        | Failure cy_failure => (mkReg (key reg) empty_value, cyFailureToOptError cy_failure)
        end in
      sendResponse O id (response node_id reg_key_value opt_error);;
      update_cnxts id (alter (cn_set_data (u16 (cn_data node_cnxt + 1))) node_id);;
      startCyRegAccessRpcCallFor id node_id
  end.

Definition handleInput (input : Request) (id : FsmId) : M W unit :=
  m ← get_fsm id;
  if processing_ m then mret tt
  else
    match input with
    | Req_empty => mret tt
    | Req_scope timeout_us node_ids =>
        let timeout := i64 timeout_us in
        update_cnxts id (emplace_nodes node_ids (mkCnxt timeout 0 false None))
    | Req_register reg => put_fsm id (mkFsm (processing_ m) (fsm_data m ++ [reg]) (node_id_to_cnxt_ m))
    end.

Definition nothing_to_do (m : Machine) : bool :=
  bool_decide (node_id_to_cnxt_ m = ∅) || (length (fsm_data m) =? 0)%nat.

Definition handleCompletedEvent (id : FsmId) (keep_alive : bool) : M W unit :=
  handleCompleted O nothing_to_do makeClient id keep_alive.

(** [operator()]: a new channel with its first request. *)
Definition serve (request : Request) : M W unit := newNodeChannel [] (handleInput request).

(** What can happen to the service. *)
Inductive Event : Type :=
| NewChannel (request : Request)
| ChInput (id : FsmId) (input : Request)
| ChCompleted (id : FsmId) (keep_alive : bool)
| NodeResponse (id : FsmId) (node_id : NodeId) (result : PromiseResult).

Definition handle (e : Event) : M W unit :=
  match e with
  | NewChannel request => serve request
  | ChInput id input => handleInput input id
  | ChCompleted id keep_alive => handleCompletedEvent id keep_alive
  | NodeResponse id node_id result => handleNodeResponse id node_id result
  end.
End Service.
Arguments RegKeyValue : clear implicits.
Arguments Request : clear implicits.
Arguments Response : clear implicits.
Arguments PromiseResult : clear implicits.
Arguments Event : clear implicits.
End AccessRegs.

Section Facts.
Import AccessRegs.
Context {Val : Type} (empty_value : Val).
Context {Env : Type} (O : Oracles Z (RegKeyValue Val) (Response Val) Env).
Abbreviation W := (Service Z (list (RegKeyValue Val)) (RegKeyValue Val) (Response Val) Env).
Abbreviation Cnxt := (NodeContext Z (RegKeyValue Val)).
Abbreviation Machine := (Fsm Z (list (RegKeyValue Val)) (RegKeyValue Val)).
Implicit Types (w : W) (id : FsmId) (n : NodeId) (c : Cnxt).

Definition ar_clock_ok : Prop := forall e, 0 <= cy_now O e < 2 ^ 62.
Definition ar_order_ok : Prop := forall cs : gmap NodeId Cnxt, node_order O cs ≡ₚ (map_to_list cs).*1.
Definition ar_timeout_ok c : Prop := 0 <= timeout c < 2 ^ 62.
Definition ar_request_ok (m : Machine) (r : Request Val) : Prop :=
  match r with
  | Req_empty => True
  | Req_scope timeout_us _ => 0 <= timeout_us < 2 ^ 62
  | Req_register _ => Z.of_nat (length (fsm_data m)) + 1 < 2 ^ 16
  end.

Definition ar_fresh c : Prop := ar_timeout_ok c /\ cn_data c = 0.

(** While a promise is pending, it is for the register of the node's index. *)
Definition ar_good (x : list (RegKeyValue Val)) n c : Prop :=
  ar_timeout_ok c /\ 0 <= cn_data c < Z.of_nat (length x) /\
  exists reg p, x !! Z.to_nat (cn_data c) = Some reg /\ promise c = Some p /\ asked O n (timeout c) reg p.

(** The channel and the promises that exist can deliver events. *)
Definition ar_enabled w (e : Event Val) : Prop :=
  match e with
  | NewChannel request => ar_request_ok (new_machine []) request /\ next_fsm_id_ w < 2 ^ 64 - 1
  | ChInput id input => exists m, id_to_fsm_ w !! id = Some m /\ ar_request_ok m input
  | ChCompleted id _ => is_Some (id_to_fsm_ w !! id)
  | NodeResponse id n _ => exists m c, id_to_fsm_ w !! id = Some m /\ processing_ m = true /\
                                       node_id_to_cnxt_ m !! n = Some c /\ is_Some (promise c)
  end.

(** The number of registers fits the 16-bit index. *)
Definition ar_data_ok (x : list (RegKeyValue Val)) : Prop := Z.of_nat (length x) < 2 ^ 16.

Abbreviation Ar_ok := (NodeService_ok ar_data_ok ar_fresh ar_good).

Definition error_reg (n : NodeId) (e : OptError) : Response Val := response n (mkReg [] empty_value) e.

(** [ar_accesses x n c rs o]: starting at the index of [c], the responses [rs]
    are for the next registers, in order; then either a promise is pending for
    the register after them, or all the registers are done. *)
Definition ar_accesses (x : list (RegKeyValue Val)) (n : NodeId) c (rs : list (Response Val)) (o : option Cnxt) : Prop :=
  let i := Z.to_nat (cn_data c) in
  let k := length rs in
  0 <= cn_data c /\ (i + k <= length x)%nat /\
  Forall (fun r => res_node_id r = n) rs /\
  (key ∘ res_register <$> rs) = take k (drop i (key <$> x)) /\
  match o with
  | None => (i + k = length x)%nat
  | Some c' => (i + k < length x)%nat /\ cn_data c' = Z.of_nat (i + k) /\ client c' = true /\ timeout c' = timeout c /\
               ar_timeout_ok c' /\ exists reg p, x !! (i + k)%nat = Some reg /\ promise c' = Some p /\ asked O n (timeout c') reg p
  end.

(** A register whose request the Cyphal layer refused. *)
Definition ar_refused (n : NodeId) (r : Response Val) : Prop :=
  exists k cy, cy_refuses O n cy /\ r = response n (mkReg k empty_value) (cyFailureToOptError cy).

(** Until a promise is pending, or the registers are done, requests were refused. *)
Definition ar_starts (x : list (RegKeyValue Val)) (n : NodeId) c (rs : list (Response Val)) (o : option Cnxt) : Prop :=
  ar_accesses x n c rs o /\ Forall (ar_refused n) rs.

(** The keys of the responses sent for a node, in order. *)
Definition ar_keys (n : NodeId) (rs : list (Response Val)) : list bytes :=
  key ∘ res_register <$> own res_node_id n rs.

Definition ar_log (id : FsmId) (n : NodeId) w : list bytes :=
  ar_keys n (snd <$> filter (fun x => x.1 = id) (sv_sent w)).

(** The registers of the indices [i .. i + k - 1] have been answered; then the
    register [i + k] is pending, or there is no other. *)
Definition ar_advances (id : FsmId) (n : NodeId) (x : list (RegKeyValue Val)) (i k : nat) w w' : Prop :=
  ar_log id n w' = ar_log id n w ++ take k (drop i (key <$> x)) /\
  match left_of id n w' with
  | Some c' => (i + k < length x)%nat /\ cn_data c' = Z.of_nat (i + k) /\ pr_request <$> promise c' = x !! (i + k)%nat
  | None => (i + k = length x)%nat
  end.

Context (Hclock : ar_clock_ok).

Lemma ar_accesses_nil x n c o :
  0 <= cn_data c ->
  match o with
  | None => cn_data c = Z.of_nat (length x)
  | Some c' => cn_data c < Z.of_nat (length x) /\ cn_data c' = cn_data c /\ client c' = true /\ timeout c' = timeout c /\
               ar_timeout_ok c' /\ exists reg p, x !! Z.to_nat (cn_data c) = Some reg /\ promise c' = Some p /\ asked O n (timeout c') reg p
  end -> ar_accesses x n c [] o.
Proof.
  intros H0 Ho. unfold ar_accesses; cbn. rewrite Nat.add_0_r, take_0.
  destruct o as [c'|]; [destruct Ho as (? & ? & ? & ? & ? & ?)|];
    (split; [done|]); (split; [lia|]); (split; [by apply Forall_nil|]); (split; [done|]); [|lia].
  split; [lia|]. split; [lia|]. done.
Qed.

Lemma ar_accesses_step x n c rs o reg v e :
  0 <= cn_data c < Z.of_nat (length x) -> Z.of_nat (length x) < 2 ^ 16 -> x !! Z.to_nat (cn_data c) = Some reg ->
  ar_accesses x n (cn_set_data (u16 (cn_data c + 1)) c) rs o ->
  ar_accesses x n c (response n (mkReg (key reg) v) e :: rs) o.
Proof.
  intros Hi Hx Hreg (_ & Hk & Hn & Hkeys & Ho). unfold ar_accesses. cbn in Hk, Hkeys, Ho |- *.
  rewrite wrap_id in * by lia. set (i := Z.to_nat (cn_data c)) in *.
  replace (Z.to_nat (cn_data c + 1)) with (S i) in * by lia.
  assert (drop i (key <$> x) = key reg :: drop (S i) (key <$> x)) as ->
    by (apply drop_S; rewrite list_lookup_fmap, Hreg; done).
  replace (i + S (length rs))%nat with (S i + length rs)%nat by lia.
  split; [lia|]. split; [lia|]. split; [by apply Forall_cons|]. split; [|done]. cbn. f_equal. done.
Qed.

(** Moving on to the next register, after a response. *)
Lemma ar_next id m n c r w w1 (a : M W unit) reg v e :
  touched id m n (cn_set_data (u16 (cn_data c + 1)) c) [r] w w1 -> r = response n (mkReg (key reg) v) e ->
  0 <= cn_data c < Z.of_nat (length (fsm_data m)) -> Z.of_nat (length (fsm_data m)) < 2 ^ 16 ->
  fsm_data m !! Z.to_nat (cn_data c) = Some reg ->
  let c1 := cn_set_data (u16 (cn_data c + 1)) c in
  wp a (fun _ w' => exists rs o, finished id (set_cnxts <[n := c1]> m) [(n, rs, o)] w1 w' /\
                                 ar_starts (fsm_data m) n c1 rs o) w1 ->
  wp a (fun _ w' => exists rs o, finished id m [(n, rs, o)] w w' /\ ar_accesses (fsm_data m) n c rs o /\
                                 exists rs', rs = r :: rs' /\ Forall (ar_refused n) rs') w1.
Proof.
  intros Ht -> Hi Hx Hreg c1 Ha. eapply wp_mono; [exact Ha|]. intros [] w' (rs & o & Hf & Hr & Href).
  exists ([response n (mkReg (key reg) v) e] ++ rs), o. split; [by eapply touched_finished|].
  split; [by apply ar_accesses_step|]. by exists rs.
Qed.

(** A response for the register of the index. *)
Lemma ar_wp_respond id m n c r w (a : M W unit) (Q : unit -> W -> Prop) :
  id_to_fsm_ w !! id = Some m -> node_id_to_cnxt_ m !! n = Some c ->
  let c1 := cn_set_data (u16 (cn_data c + 1)) c in
  (forall w1, touched id m n c1 [r] w w1 -> wp a Q w1) ->
  wp (sendResponse O id r;; update_cnxts id (alter (cn_set_data (u16 (cn_data c + 1))) n);; a) Q w.
Proof.
  intros Hm Hc c1 HQ. apply wp_bind. eapply wp_sendResponse_touched; [done|done|]. intros w2 Ht2.
  pose proof (tou_machine _ _ _ _ _ _ _ Ht2) as Hm2. rewrite set_cnxts_same in Hm2 by done.
  apply wp_bind, (wp_touch_cnxt _ id m n c); [done|done|]. intros w3 Ht3. apply HQ.
  change [r] with ([r] ++ []). eapply touched_trans; [done|]. by rewrite set_cnxts_same.
Qed.

Lemma wp_access_loop fuel id m n c w :
  id_to_fsm_ w !! id = Some m -> node_id_to_cnxt_ m !! n = Some c -> client c = true -> ar_timeout_ok c ->
  0 <= cn_data c <= Z.of_nat (length (fsm_data m)) -> Z.of_nat (length (fsm_data m)) < 2 ^ 16 ->
  (length (fsm_data m) <= fuel + Z.to_nat (cn_data c))%nat ->
  wp (access_loop empty_value O fuel id n)
     (fun _ w' => exists rs o, finished id m [(n, rs, o)] w w' /\ ar_starts (fsm_data m) n c rs o) w.
Proof.
  revert m c w. induction fuel as [|fuel IH]; intros m c w Hm Hc Hcl Ht Hi Hx Hfuel; cbn [access_loop];
    (apply wp_bind, (wp_get_fsm id m); [done|]); (apply wp_bind, (wp_get_cnxt id m n c); [done|done|]);
    rewrite Hcl; cbn [andb]; destruct (Z.ltb_spec (cn_data c) (Z.of_nat (length (fsm_data m)))) as [Hlt|Hge];
    try lia.
  1,3: eapply wp_mono; [by eapply wp_releaseNodeContext|]; intros [] w' Hf; exists [], None; (split; [done|]);
    (split; [apply ar_accesses_nil; lia|by apply Forall_nil]).
  destruct (lookup_lt_is_Some_2 (fsm_data m) (Z.to_nat (cn_data c))) as [reg Hreg]; [lia|].
  apply wp_bind. unfold reg_at. rewrite Hreg. apply wp_ret.
  apply wp_bind, wp_cyRequest; [exact Hclock|exact Ht|]. intros r w1 Hcall He1.
  assert (id_to_fsm_ w1 !! id = Some m) as Hm1 by (by rewrite (proj1 He1)).
  apply (wp_finished_after id m n c [] w w1); [by apply env_only_touched|]. rewrite set_cnxts_same by done.
  destruct r as [cy|p].
  - eapply ar_wp_respond; [done|done|]. intros w2 Ht2.
    eapply wp_mono; [eapply ar_next; [done|done|lia|done|done|]|].
    2:{ intros [] w' (rs & o & Hf & Ha & rs' & -> & Href). exists (response n (mkReg (key reg) empty_value) (cyFailureToOptError cy) :: rs'), o.
        split; [done|]. split; [done|]. apply Forall_cons. split; [|done]. by exists (key reg), cy. }
    set (c1 := cn_set_data (u16 (cn_data c + 1)) c) in *. apply (IH (set_cnxts <[n := c1]> m) c1);
      [apply Ht2|cbn; apply lookup_insert_eq|done|done| |done|]; cbn; rewrite wrap_id by lia; lia.
  - eapply wp_mono; [by eapply wp_keep_promise|]. intros [] w' Hf.
    exists [], (Some (cn_set_promise p c)). split; [done|]. split; [|by apply Forall_nil].
    apply ar_accesses_nil; [lia|]. split; [lia|]. do 4 (split; [done|]). by exists reg, p.
Qed.

Definition ar_start_ok (x : list (RegKeyValue Val)) c : Prop :=
  ar_timeout_ok c /\ 0 <= cn_data c <= Z.of_nat (length x) /\ Z.of_nat (length x) < 2 ^ 16.

Lemma ar_start_spec : start_spec (startCyRegAccessRpcCallFor empty_value O) ar_start_ok ar_starts.
Proof.
  intros id m n c w Hm Hc Hcl (Ht & Hi & Hx). unfold startCyRegAccessRpcCallFor.
  apply wp_bind, (wp_get_fsm id m); [done|]. apply wp_access_loop; [done..|lia].
Qed.

Lemma ar_accesses_pending x n c rs c' :
  ar_accesses x n c rs (Some c') -> pending ar_good x n c'.
Proof.
  intros (_ & _ & _ & _ & Hlt & Hd & Hcl & _ & Ht & reg & p & Hreg & Hp & Ha). unfold pending, ar_good. rewrite Hd, Nat2Z.id.
  split; [done|]. split; [by exists p|]. split; [done|]. split; [lia|]. by exists reg, p.
Qed.

(** The response to the result of a promise for [reg]. *)
Definition ar_result (n : NodeId) (reg : RegKeyValue Val) (result : PromiseResult Val) : Response Val :=
  match result with
  | Success v => response n (mkReg (key reg) v) None
  | Failure e => response n (mkReg (key reg) empty_value) (Some (cyErrorToSdkError e))
  end.

Lemma ar_wp_handleNodeResponse id m n c reg result w :
  id_to_fsm_ w !! id = Some m -> node_id_to_cnxt_ m !! n = Some c -> client c = true ->
  ar_good (fsm_data m) n c -> Z.of_nat (length (fsm_data m)) < 2 ^ 16 ->
  fsm_data m !! Z.to_nat (cn_data c) = Some reg ->
  wp (handleNodeResponse empty_value O id n result)
     (fun _ w' => exists rs o, finished id m [(n, rs, o)] w w' /\ ar_accesses (fsm_data m) n c rs o /\
                               exists rs', rs = ar_result n reg result :: rs' /\ Forall (ar_refused n) rs') w.
Proof.
  intros Hm Hc Hcl (Ht & Hi & _) Hx Hreg. unfold handleNodeResponse.
  apply wp_bind, (wp_get_fsm id m); [done|]. rewrite Hc. apply wp_bind. unfold reg_at. rewrite Hreg. apply wp_ret.
  assert (forall v e, wp (sendResponse O id (response n (mkReg (key reg) v) e);;
      update_cnxts id (alter (cn_set_data (u16 (cn_data c + 1))) n);; startCyRegAccessRpcCallFor empty_value O id n)
      (fun _ w' => exists rs o, finished id m [(n, rs, o)] w w' /\ ar_accesses (fsm_data m) n c rs o /\
                                exists rs', rs = response n (mkReg (key reg) v) e :: rs' /\ Forall (ar_refused n) rs') w) as Hgen.
  { intros v e. eapply ar_wp_respond; [done|done|]. intros w2 Ht2. eapply ar_next; [done|done|done|done|done|].
    set (c1 := cn_set_data (u16 (cn_data c + 1)) c) in *. apply (ar_start_spec id (set_cnxts <[n := c1]> m) n c1);
      [apply Ht2|cbn; apply lookup_insert_eq|done|]. split; [done|]. cbn. rewrite wrap_id by lia. lia. }
  destruct result; apply Hgen.
Qed.

Lemma ar_input_ok id m input w :
  Ar_ok w -> id_to_fsm_ w !! id = Some m -> ar_request_ok m input ->
  wp (handleInput input id) (fun _ w' => Ar_ok w') w.
Proof.
  intros Hok Hm Hr. destruct (Service_machine_ok _ id m w Hok Hm) as [Hd Hmo].
  unfold handleInput. apply wp_bind, (wp_get_fsm id m); [done|].
  destruct (processing_ m) eqn:Hp; [by apply wp_ret|]. destruct input as [|timeout_us ns|reg]; cbn in Hr.
  - by apply wp_ret.
  - eapply wp_update_cnxts; [done|]. eapply put_fsm_ok; [exact Hok|done|]. split; [done|]. cbn. rewrite Hp.
    apply emplace_nodes_Forall; [|done]. split; [|done]. unfold ar_timeout_ok; cbn. by rewrite i64_id by lia.
  - apply (wp_put_fsm id m); [done|]. eapply put_fsm_ok; [exact Hok|done|]. split; [|done].
    unfold ar_data_ok; cbn. rewrite length_app; cbn. lia.
Qed.

Lemma ar_wp_completed id m w :
  ar_order_ok -> Ar_ok w -> id_to_fsm_ w !! id = Some m -> processing_ m = false -> nothing_to_do m = false ->
  wp (handleCompletedEvent empty_value O id true)
     (fun _ w' => Ar_ok w' /\ processed O error_reg ar_starts id m w w') w.
Proof.
  intros Hord Hok Hm Hp Hn. unfold handleCompletedEvent, makeClient.
  eapply (wp_handleCompleted_start O error_reg ar_data_ok ar_fresh ar_good); try done.
  - apply ar_start_spec.
  - intros x n c rs c' [Ha _]. by eapply ar_accesses_pending.
  - intros m' n c _ Hd Hf Hc. destruct (Hf n c Hc) as [Ht Hz]. split; [done|]. cbn. rewrite Hz.
    unfold ar_data_ok in Hd. lia.
  - intros m' [Hn' _]%orb_false_iff. by apply bool_decide_eq_false in Hn'.
Qed.

(** The service never touches a machine that it has destroyed nor a register
    out of range, whatever the Cyphal layer and the channel answer; machines
    that exist are waiting for at least one promise (for the register of the
    node's index) or for their input to end; and each channel is completed
    exactly once. *)
Theorem access_registers_safe e w :
  ar_order_ok -> Ar_ok w -> ar_enabled w e -> wp (handle empty_value O e) (fun _ w' => Ar_ok w') w.
Proof.
  intros Hord Hok He. destruct e as [request|id input|id k|id n result]; cbn [handle ar_enabled] in *.
  - destruct He as [Hr Hlt]. unfold serve, newNodeChannel, newChannel. do 4 wp_step.
    pose proof (with_new_ok (machine_ok ar_data_ok ar_fresh ar_good) (new_machine []) w Hok ltac:(by apply new_machine_ok) Hlt) as Hok1.
    fold (with_new (new_machine (Req := (RegKeyValue Val)) []) w).
    eapply (ar_input_ok _ (new_machine [])); [exact Hok1|cbn; apply lookup_insert_eq|done].
  - destruct He as (m & Hm & Hr). by eapply ar_input_ok.
  - destruct He as [m Hm]. destruct k.
    2:{ eapply wp_mono; [by eapply wp_handleCompleted_cancel|]. by intros [] w' (? & _). }
    destruct (processing_ m) eqn:Hp.
    { unfold wp, handleCompletedEvent, makeClient. erewrite handleCompleted_ignored; done. }
    destruct (nothing_to_do (begun m)) eqn:Hn.
    { eapply wp_mono; [by eapply wp_handleCompleted_nothing|]. by intros [] w' (? & _). }
    eapply wp_mono; [by eapply ar_wp_completed|]. by intros [] w' (? & _).
  - destruct He as (m & c & Hm & Hp & Hc & _).
    destruct (Service_machine_ok _ id m w Hok Hm) as [Hd Hmo]. rewrite Hp in Hmo. destruct Hmo as [_ Hall].
    destruct (Hall n c Hc) as (Hcl & _ & Hg). pose proof Hg as (_ & _ & reg & p & Hreg & _).
    eapply wp_mono; [by eapply ar_wp_handleNodeResponse|]. intros [] w' (rs & o & Hf & Ha & _).
    eapply response_ok; [done|done|done|done|]. intros c' ->. by eapply ar_accesses_pending.
Qed.

Lemma log_app id n w w' (rs : list (Response Val)) :
  sv_sent w' = sv_sent w ++ (pair id <$> rs) -> ar_log id n w' = ar_log id n w ++ ar_keys n rs.
Proof.
  intros Hs. unfold ar_log, ar_keys. rewrite Hs, filter_app, fmap_app, own_app, fmap_app. do 3 f_equal.
  clear Hs. induction rs as [|r rs IH]; [done|]. cbn [fmap list_fmap]. rewrite filter_cons_True by done.
  cbn [fmap list_fmap snd]. by f_equal.
Qed.

Lemma ar_accesses_advances id n x c rs o w w' :
  ar_accesses x n c rs o -> sv_sent w' = sv_sent w ++ (pair id <$> rs) -> left_of id n w' = o ->
  ar_advances id n x (Z.to_nat (cn_data c)) (length rs) w w'.
Proof.
  intros (_ & _ & Hn & Hk & Ho) Hs Hl. unfold ar_advances. erewrite log_app by done.
  unfold ar_keys. rewrite own_all, Hk, Hl by done. split; [done|]. destruct o; [|done].
  destruct Ho as (? & ? & _ & _ & _ & reg & p & -> & -> & _ & <- & _). done.
Qed.

(** Each register is accessed exactly once on each node, in the order in
    which the client gave them. When the client has sent its request, the node
    is answered for its first [k] registers (requests that could not be sent)
    and the register [k] is pending, or the node has no RPC client and is given
    up with one error. Each answer of the node is forwarded as the response for
    the register that is pending, and the node moves on; it leaves the
    working set exactly when it was answered for every register. *)
Theorem access_registers_in_order id m n c w :
  ar_order_ok -> Ar_ok w -> id_to_fsm_ w !! id = Some m -> node_id_to_cnxt_ m !! n = Some c ->
  (processing_ m = false -> fsm_data m <> [] ->
     wp (handle empty_value O (ChCompleted id true)) (fun _ w' =>
        (exists k, ar_advances id n (fsm_data m) 0 k w w') \/
        (ar_log id n w' = ar_log id n w ++ [[]] /\ left_of id n w' = None)) w) /\
  (processing_ m = true -> forall result,
     wp (handle empty_value O (NodeResponse id n result)) (fun _ w' => exists k reg rest,
        ar_advances id n (fsm_data m) (Z.to_nat (cn_data c)) (S k) w w' /\
        fsm_data m !! Z.to_nat (cn_data c) = Some reg /\
        sv_sent w' = sv_sent w ++ (id, ar_result n reg result) :: rest) w).
Proof.
  intros Hord Hok Hm Hc. destruct (Service_machine_ok _ id m w Hok Hm) as [Hd Hmo]. split.
  - intros Hp Hx. cbn [handle]. rewrite Hp in Hmo. destruct (Hmo n c Hc) as [_ Hz]. eapply wp_mono.
    { apply ar_wp_completed; [done|done|done|done|]. apply orb_false_iff. split.
      - apply bool_decide_eq_false. intros He. by rewrite He in Hc.
      - apply Nat.eqb_neq. by destruct (fsm_data m). }
    intros [] w' (_ & w0 & out & _ & _ & Hs0 & Hf & Hperm & Hall).
    assert (NoDup (fst <$> (fst <$> out))) as Hnd by (rewrite Hperm; apply NoDup_fst_map_to_list).
    pose proof (fin_sent _ _ _ _ _ Hf) as Hs. rewrite Hs0 in Hs. pose proof (finished_left _ _ n _ _ _ Hf) as Hl.
    rewrite apply_done_lookup in Hl by done. apply (log_app _ n) in Hs. unfold ar_keys in Hs.
    rewrite own_concat in Hs; [|done|].
    2:{ eapply Forall_impl; [exact Hall|]. intros y (cy & _ & [(e & _ & -> & _)|[Ha _]]); [by repeat constructor|apply Ha]. }
    destruct (done_found out _ n c Hperm Hc) as (i & x & Hfind & Hin & He). rewrite Hfind in Hs, Hl.
    rewrite Forall_forall in Hall. destruct (Hall x Hin) as (cx & Hcx & Hr). rewrite He in Hcx, Hr.
    rewrite Hc in Hcx. injection Hcx as <-. destruct Hr as [(e & _ & Hrs & Ho)|[(_ & _ & _ & Hk & Ho) _]].
    { right. by rewrite Hs, Hrs, Hl, Ho. }
    left. exists (length x.1.2). cbn in Hk, Ho. rewrite Hz in Hk, Ho. cbn in Hk, Ho.
    split; [by rewrite Hs, Hk|]. rewrite Hl. destruct x.2; [|done]. destruct Ho as (? & ? & _ & _ & _ & reg & p & Hreg & -> & _ & <- & _). done.
  - intros Hp result. cbn [handle]. rewrite Hp in Hmo. destruct Hmo as [_ Hall].
    destruct (Hall n c Hc) as (Hcl & _ & Hg). pose proof Hg as (_ & _ & reg & p & Hreg & _).
    eapply wp_mono; [eapply ar_wp_handleNodeResponse; [done|done|done|done|done|exact Hreg]|].
    intros [] w' (rs & o & Hf & Ha & rs' & -> & _). pose proof (fin_sent _ _ _ _ _ Hf) as Hs. cbn in Hs. rewrite app_nil_r in Hs.
    exists (length rs'), reg, (pair id <$> rs'). split; [|split; [congruence|done]].
    change (S (length rs')) with (length (ar_result n reg result :: rs')).
    eapply (ar_accesses_advances id n _ c _ o); [exact Ha|by rewrite Hs|].
    rewrite (finished_left _ _ n _ _ _ Hf). cbn. apply lookup_partial_alter_eq.
Qed.
End Facts.

(** A Cyphal layer that accepts everything, and a service that waits for the
    node 42 to answer for the first of two registers. *)
Module AccessRegsExample.
Import AccessRegs.

Definition oracles : Oracles Z (RegKeyValue bool) (Response bool) unit :=
  mkOracles (fun _ => 0) (fun _ e => (inr tt, e)) (fun _ _ _ e => (inr tt, e))
            (fun _ _ e => (None, e)) (fun _ _ e => (None, e)) (fun cs => (map_to_list cs).*1).

Definition reg_a : RegKeyValue bool := mkReg (str "a") true.
Definition reg_b : RegKeyValue bool := mkReg (str "b") true.
Definition waiting : NodeContext Z (RegKeyValue bool) := mkCnxt 1000000 0 true (Some (mkPromise 42 reg_a 1000000)).
Definition machine : Fsm Z (list (RegKeyValue bool)) (RegKeyValue bool) := mkFsm true [reg_a; reg_b] {[42 := waiting]}.
Definition service : Service Z (list (RegKeyValue bool)) (RegKeyValue bool) (Response bool) unit :=
  mkService {[0 := machine]} 1 [] [] tt.

Lemma ar_clock : ar_clock_ok oracles.
Proof. intros e. cbn. lia. Qed.

Lemma ar_service_ok : NodeService_ok ar_data_ok ar_fresh (ar_good oracles) service.
Proof.
  apply one_machine_ok. split; [done|]. split; [apply map_non_empty_singleton|].
  apply map_Forall_singleton. split; [done|]. split; [by eexists|].
  split; [unfold ar_timeout_ok; cbn; lia|]. split; [cbn; lia|].
  do 2 eexists. split; [done|]. split; [done|]. by repeat (split || exists tt).
Qed.
End AccessRegsExample.

Lemma access_registers_safe_witness :
  wp (AccessRegs.handle false AccessRegsExample.oracles (AccessRegs.NodeResponse 0 42 (AccessRegs.Success true)))
     (fun _ w' => NodeService_ok ar_data_ok ar_fresh (ar_good AccessRegsExample.oracles) w') AccessRegsExample.service.
Proof.
  apply (access_registers_safe false AccessRegsExample.oracles AccessRegsExample.ar_clock).
  - intros cs. done.
  - apply AccessRegsExample.ar_service_ok.
  - exists AccessRegsExample.machine, AccessRegsExample.waiting. repeat split. by eexists.
Defined.

Lemma access_registers_in_order_witness :
  wp (AccessRegs.handle false AccessRegsExample.oracles (AccessRegs.NodeResponse 0 42 (AccessRegs.Success true)))
     (fun _ w' => exists k reg rest,
        ar_advances 0 42 [AccessRegsExample.reg_a; AccessRegsExample.reg_b] 0 (S k) AccessRegsExample.service w' /\
        [AccessRegsExample.reg_a; AccessRegsExample.reg_b] !! 0%nat = Some reg /\
        sv_sent w' = [] ++ (0, ar_result false 42 reg (AccessRegs.Success true)) :: rest) AccessRegsExample.service.
Proof.
  apply (proj2 (access_registers_in_order false AccessRegsExample.oracles AccessRegsExample.ar_clock 0
    AccessRegsExample.machine 42 AccessRegsExample.waiting AccessRegsExample.service ltac:(by intros cs)
    AccessRegsExample.ar_service_ok eq_refl eq_refl)). done.
Defined.
