(* ===== verification/Config.v ===== *)
(** * The daemon's configuration

    Models [src/daemon/engine/config.cpp] and the unique identifier of the node
    ([Engine::getUniqueId] of [src/daemon/engine/engine.cpp]). The TOML library is
    a parameter: typed lookups by a path of keys, assignments, printing and
    parsing, with the laws that the configuration relies on. *)
From S2P Require Import Prelude Errors.

Local Open Scope Z_scope.

(** A path of keys in the document. *)
Abbreviation Keys := (list bytes).

(** The TOML library. A lookup gives [None] when it throws; an assignment gives
    [None] when [operator[]] throws (a key on the way is not a table). *)
Class Toml (T : Type) := {
  find_strings : T -> Keys -> option (list bytes);
  find_string : T -> Keys -> option bytes;
  find_u16 : T -> Keys -> option Z;
  find_size : T -> Keys -> option Z;
  find_bytes16 : T -> Keys -> option bytes;
  set_strings : Keys -> list bytes -> T -> option T;
  set_bytes16 : Keys -> bytes -> T -> option T;
  set_time : Keys -> Z -> T -> option T;
  toml_format : T -> bytes;
  toml_parse : bytes -> option T;
  (** the strings of the document are text that TOML can hold: they are UTF-8 *)
  representable : T -> Prop;
}.

(** The keys that the configuration uses; none is a prefix of another. *)
Definition k_last_modified : Keys := [str "__meta__"; str "last_modified"].
Definition k_node_id : Keys := [str "cyphal"; str "application"; str "node_id"].
Definition k_unique_id : Keys := [str "cyphal"; str "application"; str "unique_id"].
Definition k_interfaces : Keys := [str "cyphal"; str "transport"; str "interfaces"].
Definition k_mtu : Keys := [str "cyphal"; str "transport"; str "mtu"].
Definition k_roots : Keys := [str "file_server"; str "roots"].
Definition k_connections : Keys := [str "ipc"; str "connections"].
Definition k_log_file : Keys := [str "logging"; str "file"].
Definition k_log_level : Keys := [str "logging"; str "level"].
Definition k_log_flush : Keys := [str "logging"; str "flush_level"].

(** What the configuration relies on: a value that was assigned is found,
    assignments to other keys do not change it, and printing keeps it. *)
Class TomlOk (T : Type) `{Toml T} : Prop := {
  strings_set k l t t' : set_strings k l t = Some t' -> find_strings t' k = Some l;
  strings_again k l l' t t' : set_strings k l t = Some t' -> is_Some (set_strings k l' t) /\ is_Some (set_strings k l' t');
  strings_time t t' now : set_time k_last_modified now t = Some t' -> find_strings t' k_roots = find_strings t k_roots;
  bytes16_set k u t t' : length u = 16%nat -> set_bytes16 k u t = Some t' -> find_bytes16 t' k = Some u;
  bytes16_time t t' now : set_time k_last_modified now t = Some t' ->
    find_bytes16 t' k_unique_id = find_bytes16 t k_unique_id;
  representable_time t t' now : set_time k_last_modified now t = Some t' -> representable t -> representable t';
  parse_format t : representable t -> exists t', toml_parse (toml_format t) = Some t' /\
    (forall k, find_strings t' k = find_strings t k) /\ (forall k, find_bytes16 t' k = find_bytes16 t k);
}.

Section Config.
Context {T : Type} `{Toml T}.

(** [ConfigImpl] *)
Record Config := mkConfig { file_path : bytes; root : T; is_dirty : bool }.

(** The files of the host. *)
Abbreviation Disk := (gmap bytes bytes).

(** [Config::make]; [None]: the parser throws (also when there is no file). *)
Definition make (path : bytes) (disk : Disk) : option Config :=
  content ← disk !! path;
  root ← toml_parse content;
  Some (mkConfig path root false).

(** [write path content]: what an [ofstream] leaves in the file, [None] when it
    could not be opened. The stream does not throw: its state is not looked at. *)
Definition save (now : Z) (write : bytes -> bytes -> option bytes) (c : Config) (disk : Disk) : Config * Disk :=
  if is_dirty c then
    match set_time k_last_modified now (root c) with
    | None => (c, disk)
    | Some root' =>
        let cfg_str := toml_format root' in
        let disk' := match write (file_path c) cfg_str with
                     | Some content => <[file_path c := content]> disk
                     | None => disk
                     end in
        (mkConfig (file_path c) root' false, disk')
    end
  else (c, disk).

Definition find_or (c : Config) (k : Keys) : list bytes :=
  match find_strings (root c) k with Some l => l | None => [] end.

Definition getCyphalAppNodeId (c : Config) : option Z := find_u16 (root c) k_node_id.
Definition getCyphalAppUniqueId (c : Config) : option bytes := find_bytes16 (root c) k_unique_id.
Definition getCyphalTransportInterfaces (c : Config) : list bytes := find_or c k_interfaces.
Definition getCyphalTransportMtu (c : Config) : option Z := find_size (root c) k_mtu.
Definition getFileServerRoots (c : Config) : list bytes := find_or c k_roots.
Definition getIpcConnections (c : Config) : list bytes := find_or c k_connections.
Definition getLoggingFile (c : Config) : option bytes := find_string (root c) k_log_file.
Definition getLoggingLevel (c : Config) : option bytes := find_string (root c) k_log_level.
Definition getLoggingFlushLevel (c : Config) : option bytes := find_string (root c) k_log_flush.

(** The setters; [Undef] stands for an exception that nothing catches. *)
Definition setCyphalAppUniqueId (unique_id : bytes) (c : Config) : outcome Config :=
  match set_bytes16 k_unique_id unique_id (root c) with
  | Some root' => Done (mkConfig (file_path c) root' true)
  | None => Undef
  end.

Definition setFileServerRoots (roots : list bytes) (c : Config) : outcome Config :=
  match set_strings k_roots roots (root c) with
  | Some root' => Done (mkConfig (file_path c) root' true)
  | None => Undef
  end.

(** [Engine::getUniqueId]; [random] are the bytes of the generator. *)
Definition getUniqueId (random : bytes) (now : Z) (write : bytes -> bytes -> option bytes)
    (c : Config) (disk : Disk) : outcome (bytes * Config * Disk) :=
  match getCyphalAppUniqueId c with
  | Some unique_id => Done (unique_id, c, disk)
  | None =>
      match setCyphalAppUniqueId random c with
      | Undef => Undef
      | Done c1 => let '(c2, disk2) := save now write c1 disk in Done (random, c2, disk2)
      end
  end.
End Config.
Arguments Config : clear implicits.

Section Facts.
Context {T : Type} `{HT : Toml T} `{!TomlOk T}.
Abbreviation Disk := (gmap bytes bytes).

(** The stream writes the file. *)
Definition writes (write : bytes -> bytes -> option bytes) : Prop := forall p s, write p s = Some s.

Lemma setFileServerRoots_get roots (c c' : Config T) :
  setFileServerRoots roots c = Done c' -> getFileServerRoots c' = roots /\ is_dirty c' = true /\ file_path c' = file_path c.
Proof.
  unfold setFileServerRoots, getFileServerRoots, find_or. destruct (set_strings _ _ _) as [t|] eqn:E; [|done].
  intros [= <-]. cbn. by rewrite (strings_set _ _ _ _ E).
Qed.

(** What was saved is read back. *)
Lemma save_make (now : Z) (write : bytes -> bytes -> option bytes) (c c' : Config T) (disk disk' : Disk) :
  writes write -> is_dirty c = true -> representable (root c) -> save now write c disk = (c', disk') -> is_dirty c' = false ->
  exists c2, make (file_path c) disk' = Some c2 /\
    getFileServerRoots c2 = getFileServerRoots c /\ getCyphalAppUniqueId c2 = getCyphalAppUniqueId c.
Proof.
  intros Hw Hd Hr. unfold save. rewrite Hd. destruct (set_time _ _ _) as [t|] eqn:E; [|intros [= <- <-]; congruence].
  rewrite Hw. intros [= <- <-] _. destruct (parse_format t (representable_time _ _ _ E Hr)) as (t' & Hp & Hs & Hb).
  exists (mkConfig (file_path c) t' false). split; [|split].
  - unfold make. rewrite lookup_insert_eq. cbn. by rewrite Hp.
  - unfold getFileServerRoots, find_or. cbn. by rewrite Hs, (strings_time _ _ _ E).
  - unfold getCyphalAppUniqueId. cbn. by rewrite Hb, (bytes16_time _ _ _ E).
Qed.

(** The node keeps its unique identifier. When the identifier that was made
    at the first run could be saved, every later run gives the same one, and
    changes neither the configuration nor the file. *)
Theorem unique_id_stable (random random' : bytes) (now now' : Z) (write write' : bytes -> bytes -> option bytes) (c c1 c2 : Config T) (disk disk1 : Disk) (uid : bytes) :
  writes write -> length random = 16%nat -> make (file_path c) disk = Some c ->
  (forall t, set_bytes16 k_unique_id random (root c) = Some t -> representable t) ->
  getUniqueId random now write c disk = Done (uid, c1, disk1) -> is_dirty c1 = false ->
  make (file_path c) disk1 = Some c2 ->
  getUniqueId random' now' write' c2 disk1 = Done (uid, c2, disk1).
Proof.
  intros Hw Hr Hmake Hrep Hget Hclean Hmake2. unfold getUniqueId in Hget.
  destruct (getCyphalAppUniqueId c) as [u|] eqn:Hu.
  { injection Hget as <- <- <-. rewrite Hmake in Hmake2. injection Hmake2 as <-. unfold getUniqueId. by rewrite Hu. }
  unfold setCyphalAppUniqueId in Hget. destruct (set_bytes16 _ _ _) as [t|] eqn:E; [|done].
  set (cs := mkConfig (file_path c) t true) in *. destruct (save now write cs disk) as [c1' disk1'] eqn:Hs.
  injection Hget as <- <- <-. destruct (save_make now write cs _ _ _ Hw ltac:(done) (Hrep t eq_refl) Hs Hclean) as (c3 & Hm3 & _ & Hu3).
  change (file_path cs) with (file_path c) in Hm3. rewrite Hm3 in Hmake2. injection Hmake2 as <-.
  unfold getUniqueId. rewrite Hu3. unfold getCyphalAppUniqueId.
  by rewrite (bytes16_set _ _ _ _ Hr E : find_bytes16 (root cs) k_unique_id = Some random).
Qed.
End Facts.

(** A document that holds the two values that the daemon changes, with an
    encoding in which every byte of a string is escaped. *)
Module ConfigExample.
Record Doc := mkDoc { d_roots : list bytes; d_uid : option bytes }.

Definition print_string (s : bytes) (rest : bytes) : bytes := foldr (fun b r => x01 :: b :: r) (x00 :: rest) s.
Definition print_strings (l : list bytes) (rest : bytes) : bytes :=
  foldr (fun s r => x01 :: print_string s r) (x00 :: rest) l.

Fixpoint read_string (s : bytes) : option (bytes * bytes) :=
  match s with
  | x01 :: b :: s' => '(t, rest) ← read_string s'; Some (b :: t, rest)
  | x00 :: rest => Some ([], rest)
  | _ => None
  end.

Fixpoint read_strings (fuel : nat) (s : bytes) : option (list bytes * bytes) :=
  match fuel, s with
  | S fuel', x01 :: s' =>
      '(t, rest) ← read_string s'; '(l, rest') ← read_strings fuel' rest; Some (t :: l, rest')
  | S _, x00 :: rest => Some ([], rest)
  | _, _ => None
  end.

Definition print_doc (d : Doc) : bytes :=
  print_strings (d_roots d) (print_strings (option_list (d_uid d)) []).

Definition read_doc (s : bytes) : option Doc :=
  '(l, rest) ← read_strings (length s) s;
  '(u, _) ← read_strings (length s) rest;
  Some (mkDoc l (head u)).

Lemma read_print_string s rest : read_string (print_string s rest) = Some (s, rest).
Proof. induction s as [|b s IH]; [done|]. cbn. unfold print_string in IH. by rewrite IH. Qed.

Lemma read_print_strings l rest fuel :
  (length l < fuel)%nat -> read_strings fuel (print_strings l rest) = Some (l, rest).
Proof.
  revert fuel. induction l as [|s l IH]; intros [|fuel] Hf; cbn in Hf; try lia; [done|].
  cbn. fold (print_strings l rest). rewrite read_print_string. cbn. rewrite IH by lia. done.
Qed.

Lemma print_string_length s rest : (length rest < length (print_string s rest))%nat.
Proof. induction s as [|b s IH]; cbn; [lia|]. fold (print_string s rest). lia. Qed.

Lemma print_strings_length l rest : (length l + length rest < length (print_strings l rest))%nat.
Proof.
  induction l as [|s l IH]; cbn; [lia|].
  fold (print_strings l rest). pose proof (print_string_length s (print_strings l rest)). lia.
Qed.

Lemma read_print_doc d : read_doc (print_doc d) = Some d.
Proof.
  destruct d as [l u]. unfold read_doc, print_doc. cbn [d_roots d_uid]. set (rest := print_strings (option_list u) []).
  pose proof (print_strings_length l rest) as H1. pose proof (print_strings_length (option_list u) []) as H2. fold rest in H2.
  rewrite read_print_strings by lia. cbn. unfold rest at 2. rewrite read_print_strings by lia. by destruct u.
Qed.

#[global] Instance doc_toml : Toml Doc := {
  find_strings d k := if decide (k = k_roots) then Some (d_roots d) else None;
  find_string _ _ := None;
  find_u16 _ _ := None;
  find_size _ _ := None;
  find_bytes16 d k := if decide (k = k_unique_id) then d_uid d else None;
  set_strings k l d := if decide (k = k_roots) then Some (mkDoc l (d_uid d)) else None;
  set_bytes16 k u d := if decide (k = k_unique_id) then Some (mkDoc (d_roots d) (Some u)) else None;
  set_time _ _ d := Some d;
  toml_format := print_doc;
  toml_parse := read_doc;
  representable _ := True;
}.

#[global] Instance doc_toml_ok : TomlOk Doc.
Proof.
  split; cbn.
  - intros k l t t'. case_decide; [|done]. by intros [= <-].
  - intros k l l' t t'. case_decide; [|done]. eauto.
  - by intros t t' now [= <-].
  - intros k u t t' _. case_decide; [|done]. by intros [= <-].
  - by intros t t' now [= <-].
  - done.
  - intros t _. exists t. split; [apply read_print_doc|done].
Qed.

Definition path : bytes := str "/etc/ocvsmd.toml".
Definition write : bytes -> bytes -> option bytes := fun _ s => Some s.
Definition uid : bytes := repeat x2a 16.
Definition conf (u : option bytes) : Config Doc := mkConfig path (mkDoc [str "/tmp"] u) false.
Definition disk (u : option bytes) : gmap bytes bytes := {[path := print_doc (mkDoc [str "/tmp"] u)]}.

Lemma make_conf u : make path (disk u) = Some (conf u).
Proof.
  unfold make, disk. rewrite lookup_singleton_eq. pose proof (read_print_doc (mkDoc [str "/tmp"] u)) as Hd.
  unfold mbind, option_bind. unfold toml_parse, doc_toml. by rewrite Hd.
Qed.

Lemma first_run : getUniqueId uid 0 write (conf None) (disk None) = Done (uid, conf (Some uid), disk (Some uid)).
Proof.
  unfold getUniqueId, getCyphalAppUniqueId, setCyphalAppUniqueId, save, disk, conf, write. cbn [find_bytes16 doc_toml].
  case_decide; [|done]. cbn [set_bytes16 doc_toml d_uid root]. rewrite decide_True by done.
  cbn [is_dirty set_time doc_toml root file_path d_roots toml_format]. done.
Qed.
End ConfigExample.

Lemma unique_id_stable_witness :
  getUniqueId [] 1 (fun _ _ => None) (ConfigExample.conf (Some ConfigExample.uid)) (ConfigExample.disk (Some ConfigExample.uid))
  = Done (ConfigExample.uid, ConfigExample.conf (Some ConfigExample.uid), ConfigExample.disk (Some ConfigExample.uid)).
Proof.
  apply (unique_id_stable ConfigExample.uid [] 0 1 ConfigExample.write (fun _ _ => None) (ConfigExample.conf None)
    (ConfigExample.conf (Some ConfigExample.uid)) (ConfigExample.conf (Some ConfigExample.uid))
    (ConfigExample.disk None)).
  - intros p s. reflexivity.
  - reflexivity.
  - apply ConfigExample.make_conf.
  - intros t _. exact I.
  - apply ConfigExample.first_run.
  - reflexivity.
  - apply ConfigExample.make_conf.
Defined.
