(* ===== verification/FileProvider.v ===== *)
(** * The file provider

    Models [src/daemon/engine/cyphal/file_provider.cpp]: the roots that the
    daemon serves to the Cyphal network, and the [GetInfo] and [Read] requests of
    remote nodes. The operating system is an oracle over an environment, so the
    file system may change between any two calls; every call that names a path is
    recorded. [Undef] is undefined behaviour or an exception nothing catches. *)
From S2P Require Import Prelude Errors Config.

Local Open Scope Z_scope.

(** [struct stat], as far as it is used. *)
Record Stat := mkStat { st_size : Z; st_mtime : Z; st_is_dir : bool }.

(** The calls that name a path. *)
Inductive OsCall : Type :=
| OsRealpath (path : bytes) (resolved : option bytes)
| OsStat (path : bytes)
| OsAccess (path : bytes)
| OsRead (path : bytes) (offset count : Z).

(** [os_read]: an [ifstream] with exceptions on [failbit] and [badbit] is opened,
    moved and read; [inl] is the code of the exception, [inr] what was read. *)
Record Os (Env : Type) := mkOs {
  os_realpath : bytes -> Env -> option bytes * Env;
  os_stat : bytes -> Env -> option Stat * Env;
  os_access : bytes -> bool -> Env -> bool * Env;
  os_read : bytes -> Z -> Z -> Env -> (Z + bytes) * Env;
}.
Arguments os_realpath {Env}.
Arguments os_stat {Env}.
Arguments os_access {Env}.
Arguments os_read {Env}.

(** [uavcan::file::Error_1_0] *)
Inductive FileError : Type :=
| OK | UNKNOWN_ERROR | NOT_FOUND | IO_ERROR | ACCESS_DENIED | IS_DIRECTORY | INVALID_VALUE
| FILE_TOO_LARGE | OUT_OF_SPACE | NOT_SUPPORTED.

(** The generated responses; the fields that no branch sets keep their default. *)
Record GetInfoResponse := mkGetInfo {
  gi_error : FileError;
  gi_size : Z;
  gi_modified : Z;
  gi_is_file : bool;
  gi_is_link : bool;
  gi_readable : bool;
  gi_writeable : bool;
}.
Record ReadResponse := mkRead { rd_error : FileError; rd_data : bytes }.

Section FileProvider.
(** [MaxDataSize] is the capacity of the data of a generated [Read] response. *)
Context {T : Type} `{Toml T} {Env : Type} (os : Os Env) (MaxDataSize : Z).

Record FileProvider := mkProvider {
  roots_ : list bytes;
  config_ : Config T;
  fp_env : Env;
  fp_calls : list OsCall;
}.
Abbreviation W := FileProvider.

(** A call of the operating system, recorded. *)
Definition os_call {A} (f : Env -> A * Env) (event : A -> OsCall) : M W A := liftF (fun w =>
  let '(a, e) := f (fp_env w) in
  (a, mkProvider (roots_ w) (config_ w) e (fp_calls w ++ [event a]))).

Definition set_roots (roots : list bytes) (config : Config T) (w : W) : W :=
  mkProvider roots config (fp_env w) (fp_calls w).

(** ** Roots *)

Definition getListOfRoots (w : W) : list bytes := roots_ w.

(** [roots_] has changed: it is stored in the configuration. *)
Definition store_roots (roots : list bytes) : M W unit :=
  config ← gets config_;
  config' ← ofOutcome (setFileServerRoots roots config);
  modify (set_roots roots config').

(** The index of the first, and of the last, occurrence. *)
Definition find_first (path : bytes) (roots : list bytes) : option nat := fst <$> list_find (fun r => r = path) roots.
Definition find_last (path : bytes) (roots : list bytes) : option nat :=
  (fun i => length roots - 1 - i)%nat <$> find_first path (reverse roots).

(** When nothing is found from the back, [rev_it.base() - 1] is before the first
    element, and erasing it is undefined. *)
Definition popRoot (path : bytes) (back : bool) : M W unit :=
  roots ← gets roots_;
  if back then
    match find_last path roots with
    | Some i => store_roots (delete i roots)
    | None => undef
    end
  else
    match find_first path roots with
    | Some i => store_roots (delete i roots)
    | None => mret tt
    end.

Definition pushRoot (path : bytes) (back : bool) : M W unit :=
  roots ← gets roots_;
  store_roots (if back then roots ++ [path] else path :: roots).

(** ** Paths *)

(** [realpath] gives a C string. *)
Definition canonicalizePath (path : bytes) : M W (option bytes) :=
  os_call (fun e => let '(r, e') := os_realpath os (c_str path) e in (c_str <$> r, e')) (OsRealpath (c_str path)).

(** The test that [file_path] is strictly under the directory [root_path];
    [file_path[root_len]] is the final NUL when both are equal. *)
Definition is_under (root_path file_path : bytes) : bool :=
  is_prefix root_path file_path && bool_decide (default x00 (file_path !! length root_path) = x2f).

Definition buildAndValidateRootWithPath (root file : bytes) : M W (option bytes) :=
  root_path ← canonicalizePath root;
  match root_path with
  | None => mret None
  | Some root_path =>
      sure_file_path ← canonicalizePath (root ++ [x2f] ++ file);
      match sure_file_path with
      | Some file_path => mret (if is_under root_path file_path then Some file_path else None)
      | None => mret None
      end
  end.

Fixpoint find_valid (roots : list bytes) (request_path : bytes) : M W (option (bytes * Stat)) :=
  match roots with
  | [] => mret None
  | root :: roots' =>
      real_path ← buildAndValidateRootWithPath root request_path;
      match real_path with
      | Some real_path =>
          file_stat ← os_call (os_stat os real_path) (fun _ => OsStat real_path);
          match file_stat with
          | Some file_stat => mret (Some (real_path, file_stat))
          | None => find_valid roots' request_path
          end
      | None => find_valid roots' request_path
      end
  end.

Definition findFirstValidFile (request_path : bytes) : M W (option (bytes * Stat)) :=
  roots ← gets roots_;
  find_valid roots request_path.

(** ** Requests *)

Definition convertErrorCode (code : Z) : FileError :=
  if (code =? Errno.EIO) || (code =? Errno.EPERM) then IO_ERROR
  else if code =? Errno.ENOENT then NOT_FOUND
  else if code =? Errno.EISDIR then IS_DIRECTORY
  else if code =? Errno.ENOSPC then OUT_OF_SPACE
  else if code =? Errno.EACCES then ACCESS_DENIED
  else if code =? Errno.EINVAL then INVALID_VALUE
  else if code =? Errno.ENOTSUP then NOT_SUPPORTED
  else if code =? Errno.E2BIG then FILE_TOO_LARGE
  else UNKNOWN_ERROR.

Definition serveGetInfoRequest (request_path : bytes) : M W GetInfoResponse :=
  path_and_stat ← findFirstValidFile request_path;
  match path_and_stat with
  | None => mret (mkGetInfo NOT_FOUND 0 0 false false false false)
  | Some (file_path, file_stat) =>
      readable ← os_call (os_access os file_path false) (fun _ => OsAccess file_path);
      writeable ← os_call (os_access os file_path true) (fun _ => OsAccess file_path);
      mret (mkGetInfo OK (u64 (st_size file_stat)) (u64 (st_mtime file_stat)) (negb (st_is_dir file_stat)) false
                      readable writeable)
  end.

(** [offset] is unsigned: [st_size] is converted. *)
Definition serveReadRequest (request_path : bytes) (offset : Z) : M W ReadResponse :=
  path_and_stat ← findFirstValidFile request_path;
  match path_and_stat with
  | None => mret (mkRead NOT_FOUND [])
  | Some (file_path, file_stat) =>
      if u64 (st_size file_stat) <=? offset then mret (mkRead OK [])
      else
        let bytes_to_read := Z.min (u64 (st_size file_stat - offset)) MaxDataSize in
        result ← os_call (os_read os file_path offset bytes_to_read) (fun _ => OsRead file_path offset bytes_to_read);
        match result with
        | inr data => mret (mkRead OK data)
        | inl code => mret (mkRead (convertErrorCode code) [])
        end
  end.

(** The constructor: the roots of the configuration, each looked up for the log. *)
Definition initProvider (config : Config T) (e : Env) : outcome FileProvider :=
  let roots := getFileServerRoots config in
  let w := mkProvider roots config e [] in
  match mfor roots (fun root => canonicalizePath root;; mret tt) w with
  | Done (_, w') => Done w'
  | Undef => Undef
  end.

(** ** The servers *)

(** A request of either server, and its response. *)
Inductive FileRequest : Type :=
| GetInfoRequest (path : bytes)
| ReadRequest (path : bytes) (offset : Z).
Inductive FileResponse : Type :=
| GetInfoResponded (response : GetInfoResponse)
| ReadResponded (response : ReadResponse).

(** The callbacks that the constructor sets, [serveGetInfoRequest] and [serveReadRequest]. *)
Definition serveFileRequest (request : FileRequest) : M W FileResponse :=
  match request with
  | GetInfoRequest path => response ← serveGetInfoRequest path; mret (GetInfoResponded response)
  | ReadRequest path offset => response ← serveReadRequest path offset; mret (ReadResponded response)
  end.

(** [setupOnRequestCallback]: what the continuation is given, the deadline (in microseconds) and the
    response. *)
Definition setupOnRequestCallback (handler : FileRequest -> M W FileResponse) (approx_now : Z) (request : FileRequest) :
    M W (Z * FileResponse) :=
  response ← handler request;
  mret (approx_now + 100000, response).

(** [makeServer]: of what [presentation.makeServer] returned, only whether there is a server. *)
Definition makeServer {E} (presentation_makeServer : E -> option CyError * E) (e : E) : bool * E :=
  let '(failure, e) := presentation_makeServer e in
  (match failure with Some _ => false | None => true end, e).

(** [FileProvider::make], over a presentation that makes the two servers; the servers are made both, in
    any case. *)
Definition makeFileProvider {E} (make_read make_get_info : E -> option CyError * E) (config : Config T) (os_env : Env) (e : E) :
    outcome (option FileProvider * E) :=
  let '(read_srv, e) := makeServer make_read e in
  let '(get_info_srv, e) := makeServer make_get_info e in
  if negb read_srv || negb get_info_srv then Done (None, e)
  else match initProvider config os_env with Done p => Done (Some p, e) | Undef => Undef end.
End FileProvider.
Arguments FileProvider : clear implicits.

Section Facts.
Context {T : Type} `{HT : Toml T} {Env : Type} (os : Os Env) (MaxDataSize : Z).
Abbreviation W := (FileProvider T Env).
Implicit Types (w : W) (path request_path real root : bytes).

(** The calls that open or examine a file. *)
Definition touches (call : OsCall) path : Prop :=
  call = OsStat path \/ call = OsAccess path \/ exists offset count, call = OsRead path offset count.

(** The file that is touched was resolved from a root and the requested path, and
    is strictly under what that root resolved to. *)
Definition confined (roots : list bytes) request_path (calls : list OsCall) : Prop :=
  forall call path, call ∈ calls -> touches call path ->
    exists root real rest, root ∈ roots /\
      OsRealpath (c_str root) (Some real) ∈ calls /\
      OsRealpath (c_str (root ++ [x2f] ++ request_path)) (Some path) ∈ calls /\
      path = real ++ [x2f] ++ rest.

(** Only calls were made. *)
Definition only_calls (calls : list OsCall) w w' : Prop :=
  fp_calls w' = fp_calls w ++ calls /\ roots_ w' = roots_ w /\ config_ w' = config_ w.

Lemma only_calls_trans calls calls' w w1 w2 :
  only_calls calls w w1 -> only_calls calls' w1 w2 -> only_calls (calls ++ calls') w w2.
Proof.
  intros (H1 & H2 & H3) (H4 & H5 & H6). split; [by rewrite H4, H1, app_assoc|]. split; congruence.
Qed.

Lemma only_calls_nil w : only_calls [] w w.
Proof. unfold only_calls. by rewrite app_nil_r. Qed.

Lemma wp_os_call {A} (f : Env -> A * Env) (event : A -> OsCall) (Q : A -> W -> Prop) w :
  (forall w', only_calls [event (f (fp_env w)).1] w w' -> Q (f (fp_env w)).1 w') -> wp (os_call f event) Q w.
Proof. intros HQ. unfold os_call. apply wp_liftF. destruct (f (fp_env w)) as [a e]. by apply HQ. Qed.

Lemma wp_canonicalizePath path (Q : option bytes -> W -> Prop) w :
  (forall r w', only_calls [OsRealpath (c_str path) r] w w' -> Q r w') -> wp (canonicalizePath os path) Q w.
Proof. intros HQ. apply wp_os_call. intros w' Hw. by apply HQ. Qed.

Lemma is_under_spec real path : is_under real path = true -> exists rest, path = real ++ [x2f] ++ rest.
Proof.
  unfold is_under. rewrite andb_true_iff, is_prefix_spec, bool_decide_eq_true. intros [Hp Hs].
  rewrite Hp in Hs. destruct (drop (length real) path) as [|b rest] eqn:E.
  - rewrite app_nil_r, lookup_ge_None_2 in Hs by lia. done.
  - rewrite list_lookup_middle in Hs by done. cbn in Hs. subst b. exists rest. by rewrite Hp.
Qed.

(** A root whose canonical path ends with a slash serves nothing: no canonical
    path has two slashes in a row. *)
Lemma root_slash_serves_nothing path :
  (forall p q, path <> p ++ [x2f; x2f] ++ q) -> is_under [x2f] path = false.
Proof.
  intros Hc. destruct (is_under [x2f] path) eqn:E; [|done].
  apply is_under_spec in E as [rest ->]. by destruct (Hc [] rest).
Qed.

(** A path that was validated, in a record of calls. *)
Definition valid_in root request_path real (calls : list OsCall) : Prop :=
  exists real_root rest, OsRealpath (c_str root) (Some real_root) ∈ calls /\
    OsRealpath (c_str (root ++ [x2f] ++ request_path)) (Some real) ∈ calls /\ real = real_root ++ [x2f] ++ rest.

Definition touches_nothing (calls : list OsCall) : Prop := forall call path, call ∈ calls -> ~ touches call path.

Lemma touches_nothing_realpath path r : touches_nothing [OsRealpath path r].
Proof. intros call p ->%list_elem_of_singleton [?|[?|(? & ? & ?)]]; done. Qed.

Lemma touches_nothing_app calls calls' :
  touches_nothing calls -> touches_nothing calls' -> touches_nothing (calls ++ calls').
Proof. intros H1 H2 call p [?|?]%elem_of_app; [by apply H1|by apply H2]. Qed.

Lemma wp_buildAndValidate root request_path w :
  wp (buildAndValidateRootWithPath os root request_path)
     (fun r w' => exists calls, only_calls calls w w' /\ touches_nothing calls /\
        forall real, r = Some real -> valid_in root request_path real calls) w.
Proof.
  unfold buildAndValidateRootWithPath. apply wp_bind, wp_canonicalizePath. intros [real_root|] w1 H1.
  2:{ apply wp_ret. exists [OsRealpath (c_str root) None]. split; [done|]. split; [apply touches_nothing_realpath|done]. }
  apply wp_bind, wp_canonicalizePath. intros r2 w2 H2. pose proof (only_calls_trans _ _ _ _ _ H1 H2) as H12.
  pose proof (touches_nothing_app _ _ (touches_nothing_realpath (c_str root) (Some real_root))
                (touches_nothing_realpath (c_str (root ++ [x2f] ++ request_path)) r2)) as Htn.
  destruct r2 as [file_path|]; apply wp_ret; (eexists; split; [exact H12|]; split; [exact Htn|]); [|done].
  intros real. destruct (is_under real_root file_path) eqn:E; [|done]. intros [= <-].
  apply is_under_spec in E as [rest Hrest]. exists real_root, rest.
  split; [by apply list_elem_of_here|]. split; [apply list_elem_of_further, list_elem_of_here|done].
Qed.

Lemma valid_in_mono root request_path real calls calls' :
  calls ⊆ calls' -> valid_in root request_path real calls -> valid_in root request_path real calls'.
Proof. intros Hsub (rr & rest & H1 & H2 & H3). exists rr, rest. by repeat split; [apply Hsub|apply Hsub|]. Qed.

(** Searching touches validated files only, and gives a validated file. *)
Definition searched (roots : list bytes) request_path (calls : list OsCall) (r : option (bytes * Stat)) : Prop :=
  (forall call path, call ∈ calls -> touches call path ->
     exists root, root ∈ roots /\ valid_in root request_path path calls) /\
  (forall path st, r = Some (path, st) -> exists root, root ∈ roots /\ valid_in root request_path path calls).

Lemma searched_cons root roots request_path calls calls' r :
  (forall call path, call ∈ calls -> touches call path -> valid_in root request_path path calls) ->
  searched roots request_path calls' r -> searched (root :: roots) request_path (calls ++ calls') r.
Proof.
  intros Hc [Ht Hr]. split.
  - intros call path [Hin|Hin]%elem_of_app Htc.
    + exists root. split; [apply list_elem_of_here|]. eapply valid_in_mono; [|by eapply Hc]. set_solver.
    + destruct (Ht call path Hin Htc) as (root' & Hin' & Hv). exists root'. split; [by apply list_elem_of_further|].
      eapply valid_in_mono; [|done]. set_solver.
  - intros path st E. destruct (Hr path st E) as (root' & Hin' & Hv). exists root'.
    split; [by apply list_elem_of_further|]. eapply valid_in_mono; [|done]. set_solver.
Qed.

(** Using the file that was found. *)
Lemma searched_then roots request_path calls extra path st :
  searched roots request_path calls (Some (path, st)) ->
  (forall call p, call ∈ extra -> touches call p -> p = path) -> confined roots request_path (calls ++ extra).
Proof.
  intros [Ht Hr] He call p Hin Htc. assert (exists root, root ∈ roots /\ valid_in root request_path p calls) as Hv.
  { apply elem_of_app in Hin as [Hin|Hin]; [by eapply Ht|]. rewrite (He call p Hin Htc). by eapply Hr. }
  destruct Hv as (root & Hroot & rr & rest & H1 & H2 & H3). exists root, rr, rest.
  split; [done|]. split; [apply elem_of_app; by left|]. split; [apply elem_of_app; by left|done].
Qed.

Lemma wp_find_valid roots request_path w :
  wp (find_valid os roots request_path)
     (fun r w' => exists calls, only_calls calls w w' /\ searched roots request_path calls r) w.
Proof.
  revert w. induction roots as [|root roots IH]; intros w; cbn [find_valid].
  { apply wp_ret. exists []. split; [apply only_calls_nil|]. split; [intros ? ? ?%not_elem_of_nil; done|done]. }
  apply wp_bind. eapply wp_mono; [apply wp_buildAndValidate|]. intros r w1 (calls & Hw1 & Hn & Hv).
  destruct r as [real|].
  2:{ eapply wp_mono; [apply IH|]. intros r w2 (calls2 & Hw2 & Hs). exists (calls ++ calls2).
      split; [by eapply only_calls_trans|]. apply searched_cons; [|done]. intros c p Hin Ht. by destruct (Hn c p). }
  specialize (Hv real eq_refl). assert (forall c p, c ∈ calls ++ [OsStat real] -> touches c p ->
      valid_in root request_path p (calls ++ [OsStat real])) as Hall.
  { intros c p [Hin| ->%list_elem_of_singleton]%elem_of_app Ht; [by destruct (Hn c p)|].
    destruct Ht as [[= ->]|[?|(? & ? & ?)]]; [|done..]. eapply valid_in_mono; [|done]. set_solver. }
  apply wp_bind, wp_os_call. intros w2 Hw2. pose proof (only_calls_trans _ _ _ _ _ Hw1 Hw2) as Hw.
  destruct (os_stat os real (fp_env w1)).1 as [st|].
  - apply wp_ret. exists (calls ++ [OsStat real]). split; [done|]. split.
    + intros c p Hin Ht. exists root. split; [apply list_elem_of_here|by eapply Hall].
    + intros p st' [= <- <-]. exists root. split; [apply list_elem_of_here|]. eapply valid_in_mono; [|done]. set_solver.
  - eapply wp_mono; [apply IH|]. intros r w3 (calls3 & Hw3 & Hs). exists ((calls ++ [OsStat real]) ++ calls3).
    split; [by eapply only_calls_trans|]. by apply searched_cons.
Qed.

Lemma searched_confined roots request_path calls r : searched roots request_path calls r -> confined roots request_path calls.
Proof.
  intros [Hs _] call path Hin Ht. destruct (Hs call path Hin Ht) as (root & Hr & rr & rest & ? & ? & ?).
  by exists root, rr, rest.
Qed.

Lemma wp_findFirstValidFile request_path w :
  wp (findFirstValidFile os request_path)
     (fun r w' => exists calls, only_calls calls w w' /\ searched (roots_ w) request_path calls r) w.
Proof. unfold findFirstValidFile. wp_steps. apply wp_find_valid. Qed.

Lemma file_handlers_confined request_path offset w :
  let post w' := exists calls, only_calls calls w w' /\ confined (roots_ w) request_path calls in
  wp (serveGetInfoRequest os request_path) (fun _ => post) w /\
  wp (serveReadRequest os MaxDataSize request_path offset) (fun _ => post) w.
Proof.
  intros post. split.
  - unfold serveGetInfoRequest. apply wp_bind. eapply wp_mono; [apply wp_findFirstValidFile|].
    intros [[path st]|] w1 (calls & Hw1 & Hs).
    2:{ apply wp_ret. exists calls. split; [done|by eapply searched_confined]. }
    apply wp_bind, wp_os_call. intros w2 Hw2. apply wp_bind, wp_os_call. intros w3 Hw3. apply wp_ret.
    exists (calls ++ [OsAccess path] ++ [OsAccess path]).
    split; [eapply only_calls_trans, only_calls_trans; done|]. eapply searched_then; [done|].
    intros c p Hin. assert (c = OsAccess path) as -> by set_solver. by intros [?|[[= ->]|(? & ? & ?)]].
  - unfold serveReadRequest. apply wp_bind. eapply wp_mono; [apply wp_findFirstValidFile|].
    intros [[path st]|] w1 (calls & Hw1 & Hs).
    2:{ apply wp_ret. exists calls. split; [done|by eapply searched_confined]. }
    destruct (_ <=? _); [apply wp_ret; exists calls; split; [done|by eapply searched_confined]|].
    apply wp_bind, wp_os_call. intros w2 Hw2.
    assert (post w2) as Hpost.
    { exists (calls ++ [OsRead path offset (Z.min (u64 (st_size st - offset)) MaxDataSize)]).
      split; [by eapply only_calls_trans|]. eapply searched_then; [done|].
      intros c p ->%list_elem_of_singleton [?|[?|(? & ? & [= -> _ _])]]; done. }
    destruct (os_read _ _ _ _ _).1; by apply wp_ret.
Qed.

Definition requested_path (request : FileRequest) : bytes :=
  match request with GetInfoRequest path => path | ReadRequest path _ => path end.

(** C16: remote nodes cannot leave the roots. Every [GetInfo] or [Read] request is answered by its own
    response, which has 100 ms to go; and every file that it examines or opens was resolved by
    the system from one of the roots and the requested path, and the resolved path is strictly under what that
    root resolves to - whatever the path contains, and whatever the system
    answers. Neither the roots nor the configuration change. *)
Theorem file_requests_confined approx_now (request : FileRequest) w :
  wp (setupOnRequestCallback (serveFileRequest os MaxDataSize) approx_now request)
     (fun answer w' => answer.1 = approx_now + 100000 /\
        match request, answer.2 with
        | GetInfoRequest _, GetInfoResponded _ | ReadRequest _ _, ReadResponded _ => True
        | _, _ => False
        end /\
        exists calls, only_calls calls w w' /\ confined (roots_ w) (requested_path request) calls) w.
Proof.
  unfold setupOnRequestCallback. wp_step. destruct request as [path|path offset]; cbn [serveFileRequest requested_path]; wp_step.
  - eapply wp_mono; [apply (file_handlers_confined path 0 w)|]. intros response w' Hc. by do 2 apply wp_ret.
  - eapply wp_mono; [apply (file_handlers_confined path offset w)|]. intros response w' Hc. by do 2 apply wp_ret.
Qed.

(** ** A file system that does not change *)

Record Files := mkFiles {
  f_realpath : bytes -> option bytes;
  f_stat : bytes -> option Stat;
  f_content : bytes -> option bytes;
}.

(** The system shows these files; a read within the content gives that part. *)
Definition shows (files : Files) : Prop :=
  (forall p e, (os_realpath os p e).1 = f_realpath files p) /\
  (forall p e, (os_stat os p e).1 = f_stat files p) /\
  (forall p offset n e content, f_content files p = Some content ->
     0 <= offset -> 0 <= n -> offset + n <= Z.of_nat (length content) ->
     (os_read os p offset n e).1 = inr (take (Z.to_nat n) (drop (Z.to_nat offset) content))).

(** Reference: the first root under which the path names a file. *)
Definition resolve (files : Files) request_path root : option (bytes * Stat) :=
  real_root ← f_realpath files (c_str root);
  path ← f_realpath files (c_str (root ++ [x2f] ++ request_path));
  st ← f_stat files (c_str path);
  if is_under (c_str real_root) (c_str path) then Some (c_str path, st) else None.

Definition first_valid (files : Files) request_path (roots : list bytes) : option (bytes * Stat) :=
  head (omap (resolve files request_path) roots).

Context (files : Files) (Hfiles : shows files).

Lemma wp_canonicalizePath_static path (Q : option bytes -> W -> Prop) w :
  (forall w', roots_ w' = roots_ w -> Q (c_str <$> f_realpath files (c_str path)) w') -> wp (canonicalizePath os path) Q w.
Proof using Hfiles.
  intros HQ. apply wp_os_call. intros w' (_ & Hr & _). destruct Hfiles as [Hreal _].
  specialize (Hreal (c_str path) (fp_env w)). destruct (os_realpath _ _ _) as [r e]. cbn in *. subst r. by apply HQ.
Qed.

Lemma wp_find_valid_static roots request_path w :
  wp (find_valid os roots request_path)
     (fun r w' => r = first_valid files request_path roots /\ roots_ w' = roots_ w) w.
Proof using Hfiles.
  revert w. induction roots as [|root roots IH]; intros w; cbn [find_valid]; [by apply wp_ret|].
  unfold first_valid. cbn [omap list_omap]. unfold resolve at 1. apply wp_bind. unfold buildAndValidateRootWithPath.
  apply wp_bind, wp_canonicalizePath_static. intros w1 H1.
  destruct (f_realpath files (c_str root)) as [rr|]; cbn [fmap option_fmap option_map mbind option_bind].
  2:{ apply wp_ret. eapply wp_mono; [apply IH|]. cbn. intros r w' [-> ->]. done. }
  apply wp_bind, wp_canonicalizePath_static. intros w2 H2.
  destruct (f_realpath files _) as [p|]; cbn [fmap option_fmap option_map mbind option_bind]; apply wp_ret.
  2:{ eapply wp_mono; [apply IH|]. cbn. intros r w' [-> ->]. split; [done|congruence]. }
  destruct (is_under _ _).
  2:{ destruct (f_stat files _); (eapply wp_mono; [apply IH|]; cbn; intros r w' [-> ->]; split; [done|congruence]). }
  apply wp_bind, wp_os_call. intros w3 (_ & H3 & _). destruct Hfiles as (_ & Hstat & _). rewrite Hstat.
  destruct (f_stat files (c_str p)) as [st|]; cbn.
  - apply wp_ret. split; [done|congruence].
  - eapply wp_mono; [apply IH|]. cbn. intros r w' [-> ->]. split; [done|congruence].
Qed.

(** A remote node that reads a file from its start until it gets no more data;
    [None]: an error, or [fuel] did not suffice. *)
Fixpoint download (fuel : nat) request_path (offset : Z) : M W (option (list bytes)) :=
  match fuel with
  | 0%nat => mret None
  | S fuel' =>
      response ← serveReadRequest os MaxDataSize request_path offset;
      match rd_error response, rd_data response with
      | OK, [] => mret (Some [])
      | OK, chunk => chunks ← download fuel' request_path (offset + Z.of_nat (length chunk));
                     mret (cons chunk <$> chunks)
      | _, _ => mret None
      end
  end.

Lemma wp_download fuel request_path path st content offset w :
  0 < MaxDataSize -> first_valid files request_path (roots_ w) = Some (path, st) -> f_content files path = Some content ->
  st_size st = Z.of_nat (length content) -> Z.of_nat (length content) < 2 ^ 63 ->
  0 <= offset <= Z.of_nat (length content) -> Z.of_nat (length content) - offset < Z.of_nat fuel ->
  wp (download fuel request_path offset) (fun r w' => exists chunks, r = Some chunks /\
        concat chunks = drop (Z.to_nat offset) content /\
        Forall (fun chunk => 0 < Z.of_nat (length chunk) <= MaxDataSize) chunks) w.
Proof using Hfiles.
  intros Hmax. revert offset w. induction fuel as [|fuel IH]; intros offset w Hv Hc Hs Hlen Hoff Hfuel; [lia|].
  cbn [download]. apply wp_bind. unfold serveReadRequest. apply wp_bind. unfold findFirstValidFile. wp_steps.
  eapply wp_mono; [apply wp_find_valid_static|]. intros r w1 [-> Hr1]. rewrite Hv.
  rewrite Hs, !wrap_id by lia. destruct (Z.leb_spec (Z.of_nat (length content)) offset) as [Hge|Hlt].
  { apply wp_ret. cbn. exists []. split; [done|]. rewrite drop_ge by lia. split; [done|by apply Forall_nil]. }
  set (n := Z.min (Z.of_nat (length content) - offset) MaxDataSize).
  apply wp_bind, wp_os_call. intros w2 (_ & Hr2 & _). destruct Hfiles as (_ & _ & Hread).
  rewrite (Hread path offset n _ content) by (done || lia). apply wp_ret. cbn [rd_error rd_data].
  set (chunk := take _ _). assert (length chunk = Z.to_nat n) as Hchunk by (unfold chunk; rewrite length_take, length_drop; lia).
  destruct chunk as [|b chunk'] eqn:Ec; [cbn in Hchunk; lia|]. rewrite <- Ec in *. clear b chunk' Ec.
  rewrite Hchunk. apply wp_bind. eapply wp_mono; [apply (IH (offset + Z.of_nat (Z.to_nat n)) w2)|]; try done.
  - by rewrite Hr2, Hr1.
  - lia.
  - lia.
  - intros r w' (chunks & -> & Hcat & Hall). apply wp_ret. exists (chunk :: chunks). split; [done|]. split.
    + cbn. rewrite Hcat. replace (Z.to_nat (offset + _)) with (Z.to_nat offset + Z.to_nat n)%nat by lia.
      unfold chunk. rewrite <- drop_drop. by rewrite take_drop.
    + apply Forall_cons. split; [lia|done].
Qed.

(** C21: a file is read whole. When the files do not change, a remote node that
    reads a path chunk by chunk, until it gets no data, receives exactly the
    content of the file that the first root resolves the path to, in chunks
    that are not empty and fit a response; it terminates after at most one read
    per byte. *)
Theorem read_whole_file request_path path st content w :
  0 < MaxDataSize -> first_valid files request_path (roots_ w) = Some (path, st) -> f_content files path = Some content ->
  st_size st = Z.of_nat (length content) -> Z.of_nat (length content) < 2 ^ 63 ->
  wp (download (S (length content)) request_path 0) (fun r w' => exists chunks, r = Some chunks /\
        concat chunks = content /\ Forall (fun chunk => 0 < Z.of_nat (length chunk) <= MaxDataSize) chunks) w.
Proof using Hfiles.
  intros Hmax Hv Hc Hs Hlen. eapply wp_mono; [apply (wp_download _ _ path st content 0); (done || lia)|].
  intros r w' (chunks & ? & ? & ?). by exists chunks.
Qed.

End Facts.

(** A host with one file under one root. *)
Module FileProviderExample.
Import ConfigExample.

Definition file : bytes := str "/srv/fw/app.bin".
Definition content : bytes := str "firmware".

Definition files : Files := mkFiles
  (fun p => if decide (p = str "/srv/fw/") then Some (str "/srv/fw") else
            if decide (p = str "/srv/fw//app.bin") then Some file else None)
  (fun p => if decide (p = file) then Some (mkStat 8 0 false) else None)
  (fun p => if decide (p = file) then Some content else None).

Definition os : Os unit := mkOs unit
  (fun p e => (f_realpath files p, e)) (fun p e => (f_stat files p, e)) (fun _ _ e => (true, e))
  (fun p offset n e =>
     (match f_content files p with Some c => inr (take (Z.to_nat n) (drop (Z.to_nat offset) c)) | None => inl 1 end, e)).

Lemma os_shows : shows os files.
Proof. split; [done|]. split; [done|]. intros p offset n e c Hc _ _ _. unfold os, os_read. by rewrite Hc. Qed.

Definition provider : FileProvider Doc unit := mkProvider [str "/srv/fw/"] (conf None) tt [].

Lemma found : first_valid files (str "app.bin") (roots_ provider) = Some (file, mkStat 8 0 false).
Proof. vm_compute. reflexivity. Qed.
End FileProviderExample.

Lemma read_whole_file_witness :
  wp (download FileProviderExample.os 3 9 (str "app.bin") 0) (fun r w' => exists chunks, r = Some chunks /\
        concat chunks = FileProviderExample.content /\ Forall (fun chunk => 0 < Z.of_nat (length chunk) <= 3) chunks)
     FileProviderExample.provider.
Proof.
  apply (read_whole_file FileProviderExample.os 3 FileProviderExample.files FileProviderExample.os_shows
           (str "app.bin") FileProviderExample.file (mkStat 8 0 false)
           FileProviderExample.content FileProviderExample.provider).
  - lia.
  - apply FileProviderExample.found.
  - reflexivity.
  - reflexivity.
  - vm_compute. reflexivity.
Defined.
