(* ===== verification/FileServer.v ===== *)
(** * The file server services

    Models the three services of [src/daemon/engine/svc/file_server/] through which
    IPC clients list and change the roots of the file provider. Each handles one
    request of a new channel: it has no state of its own and completes the
    channel before it returns. *)
From S2P Require Import Prelude Errors Config FileProvider.

Local Open Scope Z_scope.

Abbreviation ChannelId := Z.

(** The requests, with the channel that they open. *)
Inductive RootsRequest : Type :=
| ListRoots (channel : ChannelId)
| PopRoot (channel : ChannelId) (path : bytes) (is_back : bool)
| PushRoot (channel : ChannelId) (path : bytes) (is_back : bool).

Section FileServer.
(** [MaxRootLen] is the capacity of the path of a generated response. *)
Context {T : Type} `{Toml T} {Env : Type} (MaxRootLen : Z).

(** The provider, and what was handed to the channels. *)
Record FileServer := mkServer {
  file_provider_ : FileProvider T Env;
  srv_sent : list (ChannelId * bytes);
  srv_completed : list ChannelId;
}.
Abbreviation W := FileServer.

Definition on_provider {A} (f : M (FileProvider T Env) A) : M W A := fun w =>
  match f (file_provider_ w) with
  | Done (a, p) => Done (a, mkServer p (srv_sent w) (srv_completed w))
  | Undef => Undef
  end.

(** [channel.send] and [channel.complete]; a failure is only logged. *)
Definition channel_send (channel : ChannelId) (path : bytes) : M W unit := modify (fun w =>
  mkServer (file_provider_ w) (srv_sent w ++ [(channel, path)]) (srv_completed w)).

Definition channel_complete (channel : ChannelId) : M W unit := modify (fun w =>
  mkServer (file_provider_ w) (srv_sent w) (srv_completed w ++ [channel])).

Definition listRoots (channel : ChannelId) : M W unit :=
  roots ← gets (fun w => getListOfRoots (file_provider_ w));
  mfor roots (fun root =>
    if MaxRootLen <? Z.of_nat (length root) then mret tt else channel_send channel root);;
  channel_complete channel.

Definition popRootService (channel : ChannelId) (path : bytes) (is_back : bool) : M W unit :=
  on_provider (popRoot path is_back);;
  channel_complete channel.

Definition pushRootService (channel : ChannelId) (path : bytes) (is_back : bool) : M W unit :=
  on_provider (pushRoot path is_back);;
  channel_complete channel.

Definition serveRoots (request : RootsRequest) : M W unit :=
  match request with
  | ListRoots channel => listRoots channel
  | PopRoot channel path is_back => popRootService channel path is_back
  | PushRoot channel path is_back => pushRootService channel path is_back
  end.
End FileServer.
Arguments FileServer : clear implicits.

(** ** Specification: a double-ended list *)

Fixpoint remove_first (path : bytes) (roots : list bytes) : list bytes :=
  match roots with
  | [] => []
  | r :: roots' => if decide (r = path) then roots' else r :: remove_first path roots'
  end.

Definition remove_last (path : bytes) (roots : list bytes) : list bytes := reverse (remove_first path (reverse roots)).

Definition roots_after (roots : list bytes) (request : RootsRequest) : list bytes :=
  match request with
  | ListRoots _ => roots
  | PopRoot _ path is_back => if is_back then remove_last path roots else remove_first path roots
  | PushRoot _ path is_back => if is_back then roots ++ [path] else path :: roots
  end.

Definition listed (MaxRootLen : Z) (roots : list bytes) (request : RootsRequest) : list (ChannelId * bytes) :=
  match request with
  | ListRoots channel => pair channel <$> filter (fun r => Z.of_nat (length r) <= MaxRootLen) roots
  | _ => []
  end.

Definition channel_of (request : RootsRequest) : ChannelId :=
  match request with ListRoots c => c | PopRoot c _ _ => c | PushRoot c _ _ => c end.

(** Popping from the back is undefined when the root is not there. *)
Definition allowed (roots : list bytes) (request : RootsRequest) : Prop :=
  match request with PopRoot _ path true => path ∈ roots | _ => True end.

Fixpoint all_allowed (roots : list bytes) (requests : list RootsRequest) : Prop :=
  match requests with
  | [] => True
  | r :: rs => allowed roots r /\ all_allowed (roots_after roots r) rs
  end.

Fixpoint all_listed (MaxRootLen : Z) (roots : list bytes) (requests : list RootsRequest) : list (ChannelId * bytes) :=
  match requests with
  | [] => []
  | r :: rs => listed MaxRootLen roots r ++ all_listed MaxRootLen (roots_after roots r) rs
  end.

Section Facts.
Context {T : Type} `{HT : Toml T} `{!TomlOk T} {Env : Type} (MaxRootLen : Z).
Abbreviation W := (FileServer T Env).
Implicit Types (w : W) (path : bytes) (roots : list bytes).

Lemma find_first_cons path r roots :
  find_first path (r :: roots) = if decide (r = path) then Some 0%nat else S <$> find_first path roots.
Proof. unfold find_first. cbn. case_decide; [done|]. by destruct (list_find _ roots) as [[i x]|]. Qed.

Lemma find_first_remove path roots :
  match find_first path roots with
  | Some i => (i < length roots)%nat /\ delete i roots = remove_first path roots
  | None => remove_first path roots = roots /\ path ∉ roots
  end.
Proof.
  induction roots as [|r roots IH]; [split; [done|apply not_elem_of_nil]|]. rewrite find_first_cons. cbn [remove_first].
  case_decide as Hr; [cbn; split; [lia|done]|].
  destruct (find_first path roots) as [i|]; cbn; destruct IH as [H1 H2].
  - split; [lia|]. by f_equal.
  - rewrite H1. split; [done|]. rewrite not_elem_of_cons. by split; [intros ->|].
Qed.

Lemma delete_reverse (i : nat) roots :
  (i < length roots)%nat -> delete (length roots - 1 - i)%nat roots = reverse (delete i (reverse roots)).
Proof.
  intros Hi. rewrite !delete_take_drop, reverse_app, take_reverse, drop_reverse, !reverse_involutive.
  f_equal; f_equal; lia.
Qed.

Lemma find_last_remove path roots :
  match find_last path roots with
  | Some i => delete i roots = remove_last path roots
  | None => path ∉ roots
  end.
Proof.
  unfold find_last, remove_last. pose proof (find_first_remove path (reverse roots)) as Hf.
  destruct (find_first path (reverse roots)) as [i|]; cbn; destruct Hf as [H1 H2].
  - rewrite length_reverse in H1. by rewrite delete_reverse, H2.
  - by rewrite elem_of_reverse in H2.
Qed.

(** The configuration holds the roots of the provider, and can be changed. *)
Definition roots_stored (p : FileProvider T Env) : Prop :=
  getFileServerRoots (config_ p) = roots_ p /\ forall l, is_Some (set_strings k_roots l (root (config_ p))).

Lemma wp_store_roots l (p : FileProvider T Env) :
  roots_stored p ->
  wp (store_roots l) (fun _ p' => roots_ p' = l /\ roots_stored p' /\ file_path (config_ p') = file_path (config_ p) /\
                                  is_dirty (config_ p') = true) p.
Proof.
  intros [Hr Hs]. unfold store_roots. do 2 wp_step. apply wp_bind. destruct (Hs l) as [t Ht].
  eapply wp_ofOutcome; [unfold setFileServerRoots; by rewrite Ht|]. apply wp_modify. cbn.
  split; [done|]. split; [|done]. split.
  - unfold getFileServerRoots, find_or. cbn. by rewrite (strings_set _ _ _ _ Ht).
  - intros l'. cbn. by destruct (strings_again _ _ l' _ _ Ht).
Qed.

(** What one change of the roots does to the provider. *)
Definition changed roots (p p' : FileProvider T Env) : Prop :=
  roots_ p' = roots /\ roots_stored p' /\ file_path (config_ p') = file_path (config_ p) /\
  (is_dirty (config_ p') = true \/ config_ p' = config_ p).

Lemma wp_popRoot path back (p : FileProvider T Env) channel :
  roots_stored p -> allowed (roots_ p) (PopRoot channel path back) ->
  wp (popRoot path back) (fun _ => changed (roots_after (roots_ p) (PopRoot channel path back)) p) p.
Proof.
  intros Hp Ha. unfold popRoot. do 2 wp_step. cbn [roots_after]. destruct back.
  - pose proof (find_last_remove path (roots_ p)) as Hf. destruct (find_last path (roots_ p)) as [i|]; [|done].
    eapply wp_mono; [by apply wp_store_roots|]. rewrite Hf. intros [] p' (? & ? & ? & ?). split; [done|auto].
  - pose proof (find_first_remove path (roots_ p)) as Hf. destruct (find_first path (roots_ p)) as [i|]; destruct Hf as [H1 H2].
    + eapply wp_mono; [by apply wp_store_roots|]. rewrite H2. intros [] p' (? & ? & ? & ?). split; [done|auto].
    + apply wp_ret. rewrite H1. split; [done|]. auto.
Qed.

Lemma wp_on_provider {A} (f : M (FileProvider T Env) A) (Q : A -> W -> Prop) w :
  wp f (fun a p => Q a (mkServer p (srv_sent w) (srv_completed w))) (file_provider_ w) -> wp (on_provider f) Q w.
Proof. unfold wp, on_provider. by destruct (f (file_provider_ w)) as [[a p]|]. Qed.

Lemma wp_listRoots_loop channel roots (w : W) :
  wp (mfor roots (fun r => if MaxRootLen <? Z.of_nat (length r) then mret tt else channel_send channel r))
     (fun _ w' => w' = mkServer (file_provider_ w)
        (srv_sent w ++ (pair channel <$> filter (fun r => Z.of_nat (length r) <= MaxRootLen) roots)) (srv_completed w)) w.
Proof.
  revert w. induction roots as [|r roots IH]; intros w; cbn [mfor].
  { apply wp_ret. rewrite app_nil_r. by destruct w. }
  apply wp_bind. destruct (Z.ltb_spec MaxRootLen (Z.of_nat (length r))).
  - apply wp_ret. eapply wp_mono; [apply IH|]. intros [] w' ->. rewrite filter_cons_False by lia. done.
  - apply wp_modify. eapply wp_mono; [apply IH|]. intros [] w' ->. rewrite filter_cons_True by lia. cbn.
    by rewrite <- app_assoc.
Qed.

(** One request, against the specification. *)
Lemma wp_serveRoots request w :
  roots_stored (file_provider_ w) -> allowed (roots_ (file_provider_ w)) request ->
  wp (serveRoots MaxRootLen request) (fun _ w' =>
    changed (roots_after (roots_ (file_provider_ w)) request) (file_provider_ w) (file_provider_ w') /\
    srv_sent w' = srv_sent w ++ listed MaxRootLen (roots_ (file_provider_ w)) request /\
    srv_completed w' = srv_completed w ++ [channel_of request]) w.
Proof.
  intros Hp Ha. destruct request as [channel|channel path back|channel path back]; cbn [serveRoots].
  - unfold listRoots. do 2 wp_step. apply wp_bind. eapply wp_mono; [apply wp_listRoots_loop|].
    intros [] w1 ->. apply wp_modify. split; [|done]. cbn. split; [done|]. auto.
  - apply wp_bind, wp_on_provider. eapply wp_mono; [by apply (wp_popRoot path back _ channel)|].
    intros [] p' Hc. apply wp_modify. cbn. by rewrite app_nil_r.
  - apply wp_bind, wp_on_provider. unfold pushRoot. do 2 wp_step. eapply wp_mono; [by apply wp_store_roots|].
    intros [] p' (? & ? & ? & ?). apply wp_modify. cbn. rewrite app_nil_r. split; [|done]. split; [done|auto].
Qed.

Lemma wp_serve_all requests w :
  roots_stored (file_provider_ w) -> all_allowed (roots_ (file_provider_ w)) requests ->
  wp (mfor requests (serveRoots MaxRootLen)) (fun _ w' =>
    changed (foldl roots_after (roots_ (file_provider_ w)) requests) (file_provider_ w) (file_provider_ w') /\
    srv_sent w' = srv_sent w ++ all_listed MaxRootLen (roots_ (file_provider_ w)) requests /\
    srv_completed w' = srv_completed w ++ (channel_of <$> requests)) w.
Proof.
  revert w. induction requests as [|r rs IH]; intros w Hp Ha.
  { apply wp_ret. cbn. rewrite !app_nil_r. split; [|done]. split; [done|auto]. }
  destruct Ha as [Har Hars]. cbn [mfor]. apply wp_bind. eapply wp_mono; [by apply wp_serveRoots|].
  intros [] w1 ((Hr & Hp1 & Hf1 & Hd1) & Hs1 & Hc1). eapply wp_mono; [apply IH; [done|by rewrite Hr]|].
  intros [] w' ((Hr' & Hp' & Hf' & Hd') & Hs' & Hc'). rewrite Hr in *. cbn. split; [|split].
  - split; [done|]. split; [done|]. split; [congruence|]. destruct Hd' as [?|E]; [by left|]. rewrite E. done.
  - by rewrite Hs', Hs1, <- app_assoc.
  - by rewrite Hc', Hc1, <- app_assoc.
Qed.

(** Popping an absent root from the back is undefined. *)
Lemma serveRoots_undefined request w :
  ~ allowed (roots_ (file_provider_ w)) request -> serveRoots MaxRootLen request w = Undef.
Proof.
  destruct request as [channel|channel path [|]|channel path back]; intros Ha; cbn [allowed] in Ha; try done.
  unfold serveRoots, popRootService, on_provider, popRoot, gets, mbind, M_bind.
  pose proof (find_last_remove path (roots_ (file_provider_ w))) as Hf. unfold find_last, find_first, remove_last in *.
  destruct (list_find _ (reverse (roots_ (file_provider_ w)))) as [[i x]|] eqn:E; cbn in *; [|done].
  exfalso. apply Ha. apply list_find_Some in E as (Hi & <- & _). apply list_elem_of_lookup_2 in Hi. by rewrite elem_of_reverse in Hi.
Qed.

Lemma serve_all_undefined requests w :
  roots_stored (file_provider_ w) -> ~ all_allowed (roots_ (file_provider_ w)) requests ->
  mfor requests (serveRoots MaxRootLen) w = Undef.
Proof.
  revert w. induction requests as [|r rs IH]; intros w Hp Ha; [by destruct Ha|]. cbn [mfor all_allowed] in *.
  unfold mbind, M_bind. assert (Decision (allowed (roots_ (file_provider_ w)) r)) as [Hr|Hr].
  { destruct r as [|? ? []|]; cbn; apply _. }
  - pose proof (wp_serveRoots r w Hp Hr) as Hw. apply wp_Done in Hw as ([] & w1 & -> & (Hr1 & Hp1 & _) & _).
    apply IH; [done|]. rewrite Hr1. tauto.
  - by rewrite serveRoots_undefined.
Qed.

(** C17: the file server services implement a double-ended list of roots. When no request
    pops a root from the back that is not there, a
    sequence of requests leaves the roots of the specification, lists on each request
    exactly the roots of that moment that fit a response, in order, and completes the
    channel of each request once, in order; and the configuration always holds the
    current roots. When some request does, the sequence runs into undefined behaviour,
    although the header of the SDK says that nothing happens then. *)
Theorem file_server_refines requests w :
  roots_stored (file_provider_ w) ->
  (all_allowed (roots_ (file_provider_ w)) requests ->
   wp (mfor requests (serveRoots MaxRootLen)) (fun _ w' =>
     changed (foldl roots_after (roots_ (file_provider_ w)) requests) (file_provider_ w) (file_provider_ w') /\
     srv_sent w' = srv_sent w ++ all_listed MaxRootLen (roots_ (file_provider_ w)) requests /\
     srv_completed w' = srv_completed w ++ (channel_of <$> requests)) w) /\
  (~ all_allowed (roots_ (file_provider_ w)) requests -> mfor requests (serveRoots MaxRootLen) w = Undef).
Proof. intros Hp. split; [by apply wp_serve_all|by apply serve_all_undefined]. Qed.

(** The constructor only looks the roots up. *)
Lemma initProvider_roots (os : Os Env) (config : Config T) (e : Env) :
  exists p, initProvider os config e = Done p /\ roots_ p = getFileServerRoots config /\ config_ p = config.
Proof.
  set (roots := getFileServerRoots config). set (p0 := mkProvider roots config e []).
  assert (wp (mfor roots (fun root => canonicalizePath os root;; mret tt))
             (fun _ p => roots_ p = roots /\ config_ p = config) p0) as Hw.
  { eapply wp_mono; [apply (wp_mfor (fun _ p => roots_ p = roots /\ config_ p = config))|done].
    - intros root l p [Hr Hc]. apply wp_bind, wp_canonicalizePath. intros r p' (_ & Hr' & Hc'). apply wp_ret.
      split; congruence.
    - done. }
  apply wp_Done in Hw as ([] & p & Hp & Hr & Hc). exists p. unfold initProvider. fold roots. fold p0. by rewrite Hp.
Qed.

(** The daemon has a file provider exactly when both servers can be made, and then it serves the
    roots of the configuration. *)
Lemma makeFileProvider_roots {E} (os : Os Env) (make_read make_get_info : E -> option CyError * E) (config : Config T) os_env e :
  exists fp, makeFileProvider os make_read make_get_info config os_env e = Done (fp, (make_get_info (make_read e).2).2) /\
    match fp with
    | Some p => (make_read e).1 = None /\ (make_get_info (make_read e).2).1 = None /\
                roots_ p = getFileServerRoots config /\ config_ p = config
    | None => (make_read e).1 <> None \/ (make_get_info (make_read e).2).1 <> None
    end.
Proof.
  unfold makeFileProvider, makeServer. destruct (make_read e) as [[f1|] e1]; cbn.
  - destruct (make_get_info e1) as [f2 e2]. exists None. split; [done|by left].
  - destruct (make_get_info e1) as [[f2|] e2]; cbn; [exists None; split; [done|by right]|].
    destruct (initProvider_roots os config os_env) as (p & -> & Hr & Hc). by exists (Some p).
Qed.

(** C22: roots survive a restart. When requests have changed the roots (none of which pops a
    root from the back that is not there) and the daemon then saved its configuration, whose
    strings are text that TOML can hold, the next run serves the same roots. *)
Theorem roots_survive_restart (requests : list RootsRequest) (now : Z) (write : bytes -> bytes -> option bytes) w (os : Os Env) (e : Env)
    (disk : gmap bytes bytes) :
  writes write -> roots_stored (file_provider_ w) -> all_allowed (roots_ (file_provider_ w)) requests ->
  wp (mfor requests (serveRoots MaxRootLen)) (fun _ w' =>
    forall config' disk', is_dirty (config_ (file_provider_ w')) = true -> representable (root (config_ (file_provider_ w'))) ->
      save now write (config_ (file_provider_ w')) disk = (config', disk') -> is_dirty config' = false ->
      exists config2 p2, make (file_path (config_ (file_provider_ w))) disk' = Some config2 /\
        initProvider os config2 e = Done p2 /\
        roots_ p2 = foldl roots_after (roots_ (file_provider_ w)) requests) w.
Proof.
  intros Hw Hp Ha. eapply wp_mono; [by apply wp_serve_all|].
  intros [] w' ((Hr & [Hg _] & Hf & _) & _) config' disk' Hd Hrep Hs Hclean.
  destruct (save_make now write _ _ _ _ Hw Hd Hrep Hs Hclean) as (config2 & Hm & Hroots & _).
  destruct (initProvider_roots os config2 e) as (p2 & Hi & Hr2 & _). exists config2, p2.
  split; [by rewrite <- Hf|]. split; [done|]. congruence.
Qed.
End Facts.

(** A session on a document without unique identifier: a root is added at both
    ends, the first is removed. *)
Module FileServerExample.
Import ConfigExample.

Definition requests : list RootsRequest :=
  [PushRoot 1 (str "/b") true; PushRoot 2 (str "/a") false; ListRoots 3; PopRoot 4 (str "/b") true].

Definition server : FileServer Doc unit := mkServer (mkProvider [str "/tmp"] (conf None) tt []) [] [].

Lemma stored : roots_stored (file_provider_ server).
Proof.
  split; [reflexivity|]. intros l. cbn [set_strings doc_toml]. rewrite decide_True by done. by eexists.
Qed.

Lemma requests_allowed : all_allowed (roots_ (file_provider_ server)) requests.
Proof. cbn. split; [done|]. split; [done|]. split; [done|]. split; [set_solver|done]. Qed.
End FileServerExample.

Lemma file_server_refines_witness :
  wp (mfor FileServerExample.requests (serveRoots 255)) (fun _ w' =>
    changed [str "/a"; str "/tmp"] (file_provider_ FileServerExample.server) (file_provider_ w') /\
    srv_sent w' = [] ++ [(3, str "/a"); (3, str "/tmp"); (3, str "/b")] /\
    srv_completed w' = [] ++ [1; 2; 3; 4]) FileServerExample.server /\
  mfor [PopRoot 1 (str "/b") true] (serveRoots 255) FileServerExample.server = Undef.
Proof.
  split.
  - exact (proj1 (file_server_refines 255 FileServerExample.requests FileServerExample.server FileServerExample.stored)
             FileServerExample.requests_allowed).
  - apply (proj2 (file_server_refines 255 [PopRoot 1 (str "/b") true] FileServerExample.server FileServerExample.stored)).
    intros [Hin _]. cbn in Hin. apply list_elem_of_singleton in Hin. discriminate Hin.
Defined.

Lemma roots_survive_restart_witness :
  wp (mfor FileServerExample.requests (serveRoots 255)) (fun _ w' =>
    forall config' disk', is_dirty (config_ (file_provider_ w')) = true -> representable (root (config_ (file_provider_ w'))) ->
      save 7 ConfigExample.write (config_ (file_provider_ w')) (ConfigExample.disk None) = (config', disk') ->
      is_dirty config' = false ->
      exists config2 p2, make ConfigExample.path disk' = Some config2 /\
        initProvider FileProviderExample.os config2 tt = Done p2 /\
        roots_ p2 = [str "/a"; str "/tmp"]) FileServerExample.server.
Proof.
  apply (roots_survive_restart 255 FileServerExample.requests 7 ConfigExample.write FileServerExample.server
           FileProviderExample.os tt (ConfigExample.disk None)).
  - intros p s. reflexivity.
  - exact FileServerExample.stored.
  - exact FileServerExample.requests_allowed.
Defined.
