(* ===== verification/RawPublisher.v ===== *)
(** * The "raw publisher" relay service

    Models [src/daemon/engine/svc/relay/raw_publisher_service.cpp]: an IPC client
    opens a channel for a subject; what it then sends is published to the Cyphal
    network as it is, and every publication is answered with its error. *)
From S2P Require Import Prelude Errors SocketBuffer ServiceState NodeService.

Local Open Scope Z_scope.

Module RawPub.

(** [RawPublisher.0.1.dsdl]; a message with raw data carries it as the tail of
    its payload. *)
Inductive Request : Type :=
| Req_empty
| Req_create (subject_id : Z)
| Req_config (priority : option Z)
| Req_publish (timeout_us : Z) (payload_size : Z).

Inductive Response : Type :=
| Res_empty
| Res_publish_error (e : Error_0_1).

(** [Fsm]: the publisher, if any, with the priority that was set. *)
Record Machine := mkMachine { cy_raw_publisher_ : option (option Z) }.

(** The Cyphal presentation layer, the clock and the IPC channel. *)
Record Outside (Env : Type) := mkOutside {
  cy_now : Env -> Z;
  cy_makePublisher : Z -> Env -> (CyError + unit) * Env;
  cy_publish : FsmId -> option Z -> Z -> bytes -> Env -> option CyError * Env;
  ch_send : FsmId -> Response -> Env -> OptError * Env;
  ch_complete : FsmId -> OptError -> Env -> OptError * Env;
}.
Arguments cy_now {Env}.
Arguments cy_makePublisher {Env}.
Arguments cy_publish {Env}.
Arguments ch_send {Env}.
Arguments ch_complete {Env}.

Section Service.
Context {Env : Type} (O : Outside Env).
Abbreviation W := (SvcState Machine Response Env).

Definition complete (id : FsmId) (completion_opt_error : OptError) : M W unit :=
  put_fsm id (mkMachine None);;
  complete_ipc (ch_complete O) id completion_opt_error.

Definition makeCyPublisher (id : FsmId) (subject_id : Z) : M W bool :=
  cy_make_result ← call (cy_makePublisher O subject_id);
  match cy_make_result with
  | inl cy_failure =>
      let opt_error := cyFailureToOptError cy_failure in
      complete id opt_error;;
      mret false
  | inr _ =>
      put_fsm id (mkMachine (Some None));;
      mret true
  end.

Definition start (request : Request) (id : FsmId) : M W unit :=
  match request with
  | Req_create subject_id =>
      made ← makeCyPublisher id subject_id;
      if made : bool then
        opt_error ← send_ipc (ch_send O) id Res_empty;
        match opt_error with
        | Some _ => complete id opt_error
        | None => mret tt
        end
      else mret tt
  | _ => mret tt
  end.

Definition sendPublishResponse (id : FsmId) (opt_error : OptError) : M W unit :=
  send_ipc (ch_send O) id (Res_publish_error (optErrorToDsdlError opt_error));;
  mret tt.

Definition handleConfig (id : FsmId) (priority : option Z) : M W unit :=
  m ← get_fsm id;
  match cy_raw_publisher_ m with
  | None => complete id (Some (Err Code.Canceled))
  | Some _ =>
      match priority with
      | Some p => put_fsm id (mkMachine (Some (Some p)))
      | None => mret tt
      end
  end.

Definition handlePublish (id : FsmId) (timeout_us payload_size : Z) (payload : bytes) : M W unit :=
  m ← get_fsm id;
  match cy_raw_publisher_ m with
  | None => complete id (Some (Err Code.Canceled))
  | Some priority =>
      let timeout := i64 timeout_us in
      now ← gets (fun w => cy_now O (sv_env w));
      deadline ← ofOutcome (add_time now timeout);
      raw_msg_payload ← ofOutcome (payload_tail payload payload_size);
      cy_failure ← call (cy_publish O id priority deadline raw_msg_payload);
      sendPublishResponse id (match cy_failure with Some f => cyFailureToOptError f | None => None end)
  end.

Definition handleInput (id : FsmId) (input : Request) (payload : bytes) : M W unit :=
  match input with
  | Req_config priority => handleConfig id priority
  | Req_publish timeout_us payload_size => handlePublish id timeout_us payload_size payload
  | Req_create _ | Req_empty => mret tt
  end.

Definition handleCompleted (id : FsmId) (keep_alive : bool) (opt_error : OptError) : M W unit :=
  if keep_alive then mret tt else complete id opt_error.

(** [operator()] *)
Definition serve (request : Request) : M W unit := newChannel (mkMachine None) (start request).

Inductive Event : Type :=
| NewChannel (request : Request)
| ChInput (id : FsmId) (input : Request) (payload : bytes)
| ChCompleted (id : FsmId) (keep_alive : bool) (opt_error : OptError).

Definition handle (e : Event) : M W unit :=
  match e with
  | NewChannel request => serve request
  | ChInput id input payload => handleInput id input payload
  | ChCompleted id keep_alive opt_error => handleCompleted id keep_alive opt_error
  end.
End Service.
End RawPub.

(** ** Specification *)
Section Spec.
Import RawPub.
Context {Env : Type} (O : Outside Env).

(** A step of one channel: the event, the publisher and the environment before
    and after, what is sent, and how the channel is completed. No machine is
    left exactly when it is completed. *)
Inductive pub_step (id : FsmId) : Event -> Machine -> Env -> option Machine -> Env -> list Response -> list OptError -> Prop :=
| pub_open subject_id m env env1 env2 :
    cy_makePublisher O subject_id env = (inr tt, env1) -> ch_send O id Res_empty env1 = (None, env2) ->
    pub_step id (NewChannel (Req_create subject_id)) m env (Some (mkMachine (Some None))) env2 [Res_empty] []
| pub_open_unsent subject_id m env env1 env2 e env3 :
    cy_makePublisher O subject_id env = (inr tt, env1) -> ch_send O id Res_empty env1 = (Some e, env2) ->
    env3 = (ch_complete O id (Some e) env2).2 ->
    pub_step id (NewChannel (Req_create subject_id)) m env None env3 [Res_empty] [Some e]
| pub_open_failed subject_id m env f env1 env2 :
    cy_makePublisher O subject_id env = (inl f, env1) ->
    env2 = (ch_complete O id (cyFailureToOptError f) env1).2 ->
    pub_step id (NewChannel (Req_create subject_id)) m env None env2 [] [cyFailureToOptError f]
| pub_open_other request m env :
    (forall subject_id, request <> Req_create subject_id) -> pub_step id (NewChannel request) m env (Some m) env [] []
| pub_priority p q payload env :
    pub_step id (ChInput id (Req_config (Some p)) payload) (mkMachine (Some q)) env (Some (mkMachine (Some (Some p)))) env [] []
| pub_no_priority q payload env :
    pub_step id (ChInput id (Req_config None) payload) (mkMachine (Some q)) env (Some (mkMachine (Some q))) env [] []
| pub_publish timeout size header msg q env f env1 env2 :
    size = Z.of_nat (length msg) -> cy_publish O id q (cy_now O env + i64 timeout) msg env = (f, env1) ->
    let e := match f with Some f => Some (cyErrorToSdkError f) | None => None end in
    env2 = (ch_send O id (Res_publish_error (optErrorToDsdlError e)) env1).2 ->
    pub_step id (ChInput id (Req_publish timeout size) (header ++ msg)) (mkMachine (Some q)) env
             (Some (mkMachine (Some q))) env2 [Res_publish_error (optErrorToDsdlError e)] []
| pub_not_open input payload env env1 :
    (forall s, input <> Req_create s) -> input <> Req_empty ->
    env1 = (ch_complete O id (Some (Err Code.Canceled)) env).2 ->
    pub_step id (ChInput id input payload) (mkMachine None) env None env1 [] [Some (Err Code.Canceled)]
| pub_ignored input payload m env :
    (exists s, input = Req_create s) \/ input = Req_empty ->
    pub_step id (ChInput id input payload) m env (Some m) env [] []
| pub_keep_alive e m env : pub_step id (ChCompleted id true e) m env (Some m) env [] []
| pub_completed e m env env1 :
    env1 = (ch_complete O id e env).2 -> pub_step id (ChCompleted id false e) m env None env1 [] [e].
End Spec.

Section Facts.
Import RawPub.
Context {Env : Type} (O : Outside Env).
Abbreviation W := (SvcState Machine Response Env).
Implicit Types (w : W) (id : FsmId).

(** The channel an event is for, the machine it finds and the world it finds it in. *)
Definition rp_target w (e : Event) (id : FsmId) (m : Machine) (w0 : W) : Prop :=
  match e with
  | NewChannel _ => id = next_fsm_id_ w /\ m = mkMachine None /\ w0 = with_new (mkMachine None) w /\ next_fsm_id_ w < 2 ^ 64 - 1
  | ChInput id' _ _ | ChCompleted id' _ _ => id = id' /\ id_to_fsm_ w !! id = Some m /\ w0 = w
  end.

(** What the code does is defined, except for a message whose deadline cannot be
    represented, or that announces more than its payload. *)
Definition rp_defined w (e : Event) (m : Machine) : Prop :=
  match e, cy_raw_publisher_ m with
  | ChInput _ (Req_publish timeout_us payload_size) payload, Some _ =>
      - 2 ^ 63 <= cy_now O (sv_env w) + i64 timeout_us < 2 ^ 63 /\ payload_size <= Z.of_nat (length payload)
  | _, _ => True
  end.

(** The announced size is a 64-bit number, and so is the size of a payload. *)
Definition rp_sizes (e : Event) : Prop :=
  match e with
  | ChInput _ (Req_publish _ payload_size) payload => 0 <= payload_size < 2 ^ 64 /\ Z.of_nat (length payload) < 2 ^ 64
  | _ => True
  end.

Abbreviation Rp_ok := (Service_ok (fun _ : Machine => True)).

Lemma wp_rp_complete id m w0 w sent done env e (Q : unit -> W -> Prop) :
  moved id w0 w (Some m) sent done env ->
  (forall w', moved id w0 w' None sent (done ++ [e]) (ch_complete O id e env).2 -> Q tt w') -> wp (complete O id e) Q w.
Proof.
  intros Hw HQ. unfold complete. apply wp_bind. eapply wp_put_moved; [done|]. intros w1 H1.
  eapply wp_complete_moved; [exact H1|]. exact HQ.
Qed.

Lemma pub_step_left id e m env left env' sent done :
  pub_step O id e m env left env' sent done ->
  match left with Some _ => True /\ done = [] | None => exists e, done = [e] end.
Proof. destruct 1; eauto. Qed.

(** What the theorem below says of one event. *)
Definition rp_stepped w (e : Event) id m w0 (w' : W) : Prop :=
  exists left sent done env', moved id w0 w' left sent done env' /\ pub_step O id e m (sv_env w) left env' sent done.

Lemma wp_rp_start request id m w w0 :
  sv_env w0 = sv_env w -> id_to_fsm_ w0 !! id = Some m ->
  wp (start O request id) (fun _ => rp_stepped w (NewChannel request) id m w0) w0.
Proof.
  intros He Hm. pose proof (moved_refl id m w0 Hm) as H0. rewrite He in H0.
  assert ((forall s, request <> Req_create s) ->
          rp_stepped w (NewChannel request) id m w0 w0) as Hother
    by (intros Hr; do 4 eexists; split; [exact H0|by constructor]).
  destruct request as [|subject_id|p|t n]; cbn [start]; try (apply wp_ret, Hother; done).
  unfold makeCyPublisher. apply wp_bind, wp_bind. eapply wp_call_moved; [exact H0|]. intros w1 H1.
  destruct (cy_makePublisher O subject_id (sv_env w)) as [[f|[]] env1] eqn:Emake; cbn [fst snd] in *.
  - apply wp_bind. eapply wp_rp_complete; [exact H1|]. intros w2 H2. apply wp_ret, wp_ret.
    do 4 eexists. split; [exact H2|]. by eapply pub_open_failed.
  - apply wp_bind. eapply wp_put_moved; [exact H1|]. intros w2 H2. apply wp_ret. apply wp_bind.
    eapply wp_send_moved; [exact H2|]. intros w3 H3.
    destruct (ch_send O id Res_empty env1) as [[e|] env2] eqn:Esend; cbn [fst snd] in *.
    + eapply wp_rp_complete; [exact H3|]. intros w4 H4. do 4 eexists. split; [exact H4|]. by eapply pub_open_unsent.
    + apply wp_ret. do 4 eexists. split; [exact H3|]. by eapply pub_open.
Qed.

Lemma wp_rp_publish id m timeout size payload w :
  rp_sizes (ChInput id (Req_publish timeout size) payload) ->
  rp_defined w (ChInput id (Req_publish timeout size) payload) m -> id_to_fsm_ w !! id = Some m ->
  wp (handlePublish O id timeout size payload) (fun _ => rp_stepped w (ChInput id (Req_publish timeout size) payload) id m w) w.
Proof.
  intros [Hs Hlen] Hd Hm. pose proof (moved_refl id m w Hm) as H0. unfold handlePublish.
  apply wp_bind. eapply wp_get_moved; [exact H0|]. destruct m as [[q|]]; cbn [cy_raw_publisher_].
  2:{ eapply wp_rp_complete; [exact H0|]. intros w1 H1. do 4 eexists. split; [exact H1|]. by apply pub_not_open. }
  destruct Hd as [Ht Hsize]. do 2 wp_step. apply wp_bind.
  eapply (wp_ofOutcome _ (cy_now O (sv_env w) + i64 timeout)).
  { unfold add_time. rewrite (proj2 (Z.leb_le _ _)), (proj2 (Z.ltb_lt _ _)) by lia. done. }
  set (k := (length payload - Z.to_nat size)%nat).
  rewrite <- (take_drop k payload). set (header := take k payload). set (msg := drop k payload).
  assert (Z.of_nat (length msg) = size) as Hmsg by (unfold msg; rewrite length_drop; lia).
  apply wp_bind. eapply (wp_ofOutcome _ msg).
  { rewrite <- Hmsg. apply payload_tail_app. unfold header, msg. by rewrite take_drop. }
  apply wp_bind. eapply wp_call_moved; [exact H0|]. intros w1 H1.
  destruct (cy_publish O id q _ msg (sv_env w)) as [f env1] eqn:Epub; cbn [fst snd] in *.
  assert (match f with Some f => cyFailureToOptError f | None => None end =
          match f with Some f => Some (cyErrorToSdkError f) | None => None end) as -> by (by destruct f).
  unfold sendPublishResponse. apply wp_bind. eapply wp_send_moved; [exact H1|]. intros w2 H2. apply wp_ret.
  do 4 eexists. split; [exact H2|]. by eapply pub_publish.
Qed.

Lemma wp_rp_input id m input payload w :
  rp_sizes (ChInput id input payload) -> rp_defined w (ChInput id input payload) m -> id_to_fsm_ w !! id = Some m ->
  wp (handleInput O id input payload) (fun _ => rp_stepped w (ChInput id input payload) id m w) w.
Proof.
  intros Hs Hd Hm. pose proof (moved_refl id m w Hm) as H0.
  destruct input as [|s|p|t n]; cbn [handleInput]; [| | |by apply wp_rp_publish].
  1,2: apply wp_ret; do 4 eexists; (split; [exact H0|]); apply pub_ignored; eauto.
  unfold handleConfig. apply wp_bind. eapply wp_get_moved; [exact H0|]. destruct m as [[q|]]; cbn [cy_raw_publisher_].
  2:{ eapply wp_rp_complete; [exact H0|]. intros w1 H1. do 4 eexists. split; [exact H1|]. by apply pub_not_open. }
  destruct p as [p|].
  - eapply wp_put_moved; [exact H0|]. intros w1 H1. do 4 eexists. split; [exact H1|]. constructor.
  - apply wp_ret. do 4 eexists. split; [exact H0|]. constructor.
Qed.

(** A message with such a deadline, or such a size, is undefined behaviour. *)
Lemma rp_undefined e w id m w0 :
  rp_sizes e -> rp_target w e id m w0 -> ~ rp_defined w e m -> handle O e w = Undef.
Proof.
  intros Hs Htarget Hd. destruct e as [request|id' [|s|p|t n] payload|id' k err]; cbn [rp_defined] in Hd; try done.
  destruct m as [[q|]]; cbn [cy_raw_publisher_] in Hd; [|done]. destruct Htarget as (<- & Hm & _). destruct Hs as [Hs Hlen].
  cbn [handle handleInput]. unfold handlePublish, get_fsm, gets, ofOutcome, mbind, M_bind, mret, M_ret. rewrite Hm. cbn [cy_raw_publisher_].
  unfold add_time. destruct (Z.leb_spec (- 2 ^ 63) (cy_now O (sv_env w) + i64 t)); [|done].
  destruct (Z.ltb_spec (cy_now O (sv_env w) + i64 t) (2 ^ 63)); [|done]. cbn [andb].
  destruct (payload_tail payload n) eqn:E; [|done]. destruct Hd. split; [done|].
  apply payload_tail_defined; [done|done|]. by rewrite E.
Qed.

(** C18: the raw publisher implements its specification. Every event of a channel,
    but one kind, is one step of that channel (the raw message that is published is
    exactly the tail of the payload, with the priority that was set, and its error
    is the one response), the other channels do not move, no machine is used after
    it was destroyed, and each channel is completed exactly once. The other kind is
    a message on an open publisher that announces more bytes than its payload has, or
    whose deadline is not a 64-bit count of microseconds: exactly these are undefined
    behaviour. *)
Theorem raw_publisher_refines e w id m w0 :
  Rp_ok w -> rp_target w e id m w0 -> rp_sizes e ->
  (rp_defined w e m -> wp (handle O e) (fun _ w' => Rp_ok w' /\ rp_stepped w e id m w0 w') w) /\
  (~ rp_defined w e m -> handle O e w = Undef).
Proof.
  intros Hok Htarget Hsz. split; [intros Hd|by eapply rp_undefined].
  assert (Rp_ok w0 /\ id_to_fsm_ w0 !! id = Some m /\ sv_env w0 = sv_env w) as (Hok0 & Hm & Henv).
  { destruct e; cbn in Htarget.
    - destruct Htarget as (-> & -> & -> & Hn). split; [by apply with_new_ok|]. split; [apply with_new_lookup|done].
    - by destruct Htarget as (-> & ? & ->).
    - by destruct Htarget as (-> & ? & ->). }
  eapply (wp_mono _ (fun _ w' => rp_stepped w e id m w0 w')).
  2:{ intros [] w' Hs. split; [|done]. destruct Hs as (left & sent & done & env' & Hmv & Hst).
      eapply moved_ok; [exact Hok0|exact Hm|exact Hmv|by eapply pub_step_left]. }
  destruct e as [request|id' input payload|id' k err]; cbn [handle rp_target] in *.
  - destruct Htarget as (-> & -> & -> & _). apply wp_newChannel. by apply wp_rp_start.
  - destruct Htarget as (-> & Hm' & ->). by apply wp_rp_input.
  - destruct Htarget as (-> & _ & ->). pose proof (moved_refl id' m w Hm) as H0. unfold handleCompleted. destruct k.
    + apply wp_ret. do 4 eexists. split; [exact H0|]. constructor.
    + eapply wp_rp_complete; [exact H0|]. intros w1 H1. do 4 eexists. split; [exact H1|]. by constructor.
Qed.
End Facts.

(** An environment that records what is published. *)
Module RawPubExample.
Import RawPub.

Definition outside : Outside (list (option Z * bytes)) :=
  mkOutside _ (fun _ => 1000) (fun _ e => (inr tt, e)) (fun _ q _ msg e => (None, e ++ [(q, msg)]))
            (fun _ _ e => (None, e)) (fun _ _ e => (None, e)).

Definition open : Machine := mkMachine (Some (Some 4)).
Definition service : SvcState Machine Response (list (option Z * bytes)) := mkService {[0 := open]} 1 [] [] [].
Definition event : Event := ChInput 0 (Req_publish 1000000 3) (str "header" ++ str "msg").
End RawPubExample.

Lemma raw_publisher_refines_witness :
  wp (RawPub.handle RawPubExample.outside RawPubExample.event) (fun _ w' =>
     Service_ok (fun _ => True) w' /\
     rp_stepped RawPubExample.outside RawPubExample.service RawPubExample.event 0 RawPubExample.open
                RawPubExample.service w') RawPubExample.service.
Proof.
  apply (raw_publisher_refines RawPubExample.outside RawPubExample.event RawPubExample.service 0 RawPubExample.open RawPubExample.service).
  - apply one_machine_ok. done.
  - split; [done|]. split; reflexivity.
  - vm_compute. repeat split; discriminate.
  - vm_compute. repeat split; discriminate.
Defined.
