(* ===== verification/RawSubscriber.v ===== *)
(** * The "raw subscriber" relay service

    Models [src/daemon/engine/svc/relay/raw_subscriber_service.cpp]: an IPC client
    opens a channel for a subject; every message of that subject is forwarded to
    it as it is, with its priority and publisher. *)
From S2P Require Import Prelude Errors SocketBuffer ServiceState.

Local Open Scope Z_scope.

Module RawSub.

(** [RawSubscriber.0.1.dsdl] *)
Inductive Request : Type :=
| Req_empty
| Req_create (subject_id extent_size : Z).

Inductive Response : Type :=
| Res_empty
| Res_receive (priority : Z) (remote_node_id : option Z) (payload_size : Z).

(** What is sent: a response, and the raw message after it. *)
Abbreviation Sent := (Response * bytes)%type.

(** [Fsm]: is there a subscriber? *)
Record Machine := mkMachine { cy_raw_subscriber_ : bool }.

(** The Cyphal presentation layer and the IPC channel. *)
Record Outside (Env : Type) := mkOutside {
  cy_makeSubscriber : Z -> Z -> Env -> (CyError + unit) * Env;
  ch_send : FsmId -> Sent -> Env -> OptError * Env;
  ch_complete : FsmId -> OptError -> Env -> OptError * Env;
}.
Arguments cy_makeSubscriber {Env}.
Arguments ch_send {Env}.
Arguments ch_complete {Env}.

Section Service.
Context {Env : Type} (O : Outside Env).
Abbreviation W := (SvcState Machine Sent Env).

Definition complete (id : FsmId) (completion_opt_error : OptError) : M W unit :=
  put_fsm id (mkMachine false);;
  complete_ipc (ch_complete O) id completion_opt_error.

Definition makeCySubscriber (id : FsmId) (subject_id extent_bytes : Z) : M W bool :=
  cy_make_result ← call (cy_makeSubscriber O subject_id extent_bytes);
  match cy_make_result with
  | inl cy_failure =>
      let opt_error := cyFailureToOptError cy_failure in
      complete id opt_error;;
      mret false
  | inr _ =>
      put_fsm id (mkMachine true);;
      mret true
  end.

Definition start (request : Request) (id : FsmId) : M W unit :=
  match request with
  | Req_create subject_id extent_size =>
      made ← makeCySubscriber id subject_id extent_size;
      if made : bool then
        opt_error ← send_ipc (ch_send O) id (Res_empty, []);
        match opt_error with
        | Some _ => complete id opt_error
        | None => mret tt
        end
      else mret tt
  | Req_empty => mret tt
  end.

(** The fragments of the message are sent one after the other. *)
Definition handleNodeMessage (id : FsmId) (raw_msg_buff : list bytes) (priority : Z) (publisher_node_id : option Z) : M W unit :=
  let payload_size := Z.of_nat (length (concat raw_msg_buff)) in
  send_ipc (ch_send O) id (Res_receive priority publisher_node_id payload_size, concat raw_msg_buff);;
  mret tt.

Definition handleInput (id : FsmId) : M W unit := mret tt.

Definition handleCompleted (id : FsmId) (keep_alive : bool) : M W unit :=
  if keep_alive then mret tt else complete id (Some (Err Code.Canceled)).

(** [operator()] *)
Definition serve (request : Request) : M W unit := newChannel (mkMachine false) (start request).

Inductive Event : Type :=
| NewChannel (request : Request)
| ChInput (id : FsmId) (input : Request)
| ChCompleted (id : FsmId) (keep_alive : bool)
| NodeMessage (id : FsmId) (raw_msg_buff : list bytes) (priority : Z) (publisher_node_id : option Z).

Definition handle (e : Event) : M W unit :=
  match e with
  | NewChannel request => serve request
  | ChInput id _ => handleInput id
  | ChCompleted id keep_alive => handleCompleted id keep_alive
  | NodeMessage id raw_msg_buff priority publisher_node_id => handleNodeMessage id raw_msg_buff priority publisher_node_id
  end.
End Service.
End RawSub.

(** ** Specification *)
Section Spec.
Import RawSub.
Context {Env : Type} (O : Outside Env).

(** A step of one channel. *)
Inductive sub_step (id : FsmId) : Event -> Machine -> Env -> option Machine -> Env -> list Sent -> list OptError -> Prop :=
| sub_open subject_id extent m env env1 env2 :
    cy_makeSubscriber O subject_id extent env = (inr tt, env1) -> ch_send O id (Res_empty, []) env1 = (None, env2) ->
    sub_step id (NewChannel (Req_create subject_id extent)) m env (Some (mkMachine true)) env2 [(Res_empty, [])] []
| sub_open_unsent subject_id extent m env env1 env2 e env3 :
    cy_makeSubscriber O subject_id extent env = (inr tt, env1) -> ch_send O id (Res_empty, []) env1 = (Some e, env2) ->
    env3 = (ch_complete O id (Some e) env2).2 ->
    sub_step id (NewChannel (Req_create subject_id extent)) m env None env3 [(Res_empty, [])] [Some e]
| sub_open_failed subject_id extent m env f env1 env2 :
    cy_makeSubscriber O subject_id extent env = (inl f, env1) ->
    env2 = (ch_complete O id (cyFailureToOptError f) env1).2 ->
    sub_step id (NewChannel (Req_create subject_id extent)) m env None env2 [] [cyFailureToOptError f]
| sub_open_empty m env : sub_step id (NewChannel Req_empty) m env (Some m) env [] []
| sub_message msg buff priority publisher m env env1 :
    concat buff = msg -> let response := (Res_receive priority publisher (Z.of_nat (length msg)), msg) in
    env1 = (ch_send O id response env).2 ->
    sub_step id (NodeMessage id buff priority publisher) m env (Some m) env1 [response] []
| sub_input input m env : sub_step id (ChInput id input) m env (Some m) env [] []
| sub_keep_alive m env : sub_step id (ChCompleted id true) m env (Some m) env [] []
| sub_canceled m env env1 :
    env1 = (ch_complete O id (Some (Err Code.Canceled)) env).2 ->
    sub_step id (ChCompleted id false) m env None env1 [] [Some (Err Code.Canceled)].
End Spec.

Section Facts.
Import RawSub.
Context {Env : Type} (O : Outside Env).
Abbreviation W := (SvcState Machine Sent Env).
Implicit Types (w : W) (id : FsmId).

(** The channel an event is for, the machine it finds and the world it finds it in.
    A message comes through the subscriber of the machine. *)
Definition rs_target w (e : Event) (id : FsmId) (m : Machine) (w0 : W) : Prop :=
  match e with
  | NewChannel _ => id = next_fsm_id_ w /\ m = mkMachine false /\ w0 = with_new (mkMachine false) w /\ next_fsm_id_ w < 2 ^ 64 - 1
  | ChInput id' _ | ChCompleted id' _ => id = id' /\ id_to_fsm_ w !! id = Some m /\ w0 = w
  | NodeMessage id' _ _ _ => id = id' /\ id_to_fsm_ w !! id = Some m /\ cy_raw_subscriber_ m = true /\ w0 = w
  end.

Abbreviation Rs_ok := (Service_ok (fun _ : Machine => True)).

Lemma wp_rs_complete id m w0 w sent done env e (Q : unit -> W -> Prop) :
  moved id w0 w (Some m) sent done env ->
  (forall w', moved id w0 w' None sent (done ++ [e]) (ch_complete O id e env).2 -> Q tt w') -> wp (complete O id e) Q w.
Proof.
  intros Hw HQ. unfold complete. apply wp_bind. eapply wp_put_moved; [done|]. intros w1 H1.
  eapply wp_complete_moved; [exact H1|]. exact HQ.
Qed.

Lemma sub_step_left id e m env left env' sent done :
  sub_step O id e m env left env' sent done ->
  match left with Some _ => True /\ done = [] | None => exists e, done = [e] end.
Proof. destruct 1; eauto. Qed.

(** What the theorem below says of one event. *)
Definition rs_stepped w (e : Event) id m w0 (w' : W) : Prop :=
  exists left sent done env', moved id w0 w' left sent done env' /\ sub_step O id e m (sv_env w) left env' sent done.

Lemma wp_rs_start request id m w w0 :
  sv_env w0 = sv_env w -> id_to_fsm_ w0 !! id = Some m ->
  wp (start O request id) (fun _ => rs_stepped w (NewChannel request) id m w0) w0.
Proof.
  intros He Hm. pose proof (moved_refl id m w0 Hm) as H0. rewrite He in H0.
  destruct request as [|subject_id extent]; cbn [start].
  { apply wp_ret. do 4 eexists. split; [exact H0|]. constructor. }
  unfold makeCySubscriber. apply wp_bind, wp_bind. eapply wp_call_moved; [exact H0|]. intros w1 H1.
  destruct (cy_makeSubscriber O subject_id extent (sv_env w)) as [[f|[]] env1] eqn:Emake; cbn [fst snd] in *.
  - apply wp_bind. eapply wp_rs_complete; [exact H1|]. intros w2 H2. apply wp_ret, wp_ret.
    do 4 eexists. split; [exact H2|]. by eapply sub_open_failed.
  - apply wp_bind. eapply wp_put_moved; [exact H1|]. intros w2 H2. apply wp_ret. apply wp_bind.
    eapply wp_send_moved; [exact H2|]. intros w3 H3.
    destruct (ch_send O id (Res_empty, []) env1) as [[e|] env2] eqn:Esend; cbn [fst snd] in *.
    + eapply wp_rs_complete; [exact H3|]. intros w4 H4. do 4 eexists. split; [exact H4|]. by eapply sub_open_unsent.
    + apply wp_ret. do 4 eexists. split; [exact H3|]. by eapply sub_open.
Qed.

(** C19: the raw subscriber implements its specification: every event of a channel
    is one step of that channel (a message of the subject is forwarded once,
    whole, with its size, priority and publisher), the other channels do not
    move, no machine is used after it was destroyed, and each channel is
    completed exactly once. *)
Theorem raw_subscriber_refines e w id m w0 :
  Rs_ok w -> rs_target w e id m w0 ->
  wp (handle O e) (fun _ w' => Rs_ok w' /\ rs_stepped w e id m w0 w') w.
Proof.
  intros Hok Htarget.
  assert (Rs_ok w0 /\ id_to_fsm_ w0 !! id = Some m /\ sv_env w0 = sv_env w) as (Hok0 & Hm & Henv).
  { destruct e; cbn in Htarget; [|by destruct Htarget as (-> & ? & ->)..|by destruct Htarget as (-> & ? & _ & ->)].
    destruct Htarget as (-> & -> & -> & Hn). split; [by apply with_new_ok|]. split; [apply with_new_lookup|done]. }
  eapply (wp_mono _ (fun _ w' => rs_stepped w e id m w0 w')).
  2:{ intros [] w' Hs. split; [|done]. destruct Hs as (left & sent & done & env' & Hmv & Hst).
      eapply moved_ok; [exact Hok0|exact Hm|exact Hmv|by eapply sub_step_left]. }
  destruct e as [request|id' input|id' k|id' buff priority publisher]; cbn [handle rs_target] in *.
  - destruct Htarget as (-> & -> & -> & _). apply wp_newChannel. by apply wp_rs_start.
  - destruct Htarget as (-> & _ & ->). apply wp_ret. do 4 eexists. split; [by apply moved_refl|constructor].
  - destruct Htarget as (-> & _ & ->). pose proof (moved_refl id' m w Hm) as H0. unfold handleCompleted. destruct k.
    + apply wp_ret. do 4 eexists. split; [exact H0|]. constructor.
    + eapply wp_rs_complete; [exact H0|]. intros w1 H1. do 4 eexists. split; [exact H1|]. by constructor.
  - destruct Htarget as (-> & _ & _ & ->). pose proof (moved_refl id' m w Hm) as H0. unfold handleNodeMessage.
    apply wp_bind. eapply wp_send_moved; [exact H0|]. intros w1 H1. apply wp_ret. do 4 eexists. split; [exact H1|].
    by constructor.
Qed.
End Facts.

(** A channel with a subscriber, and an environment that records what is sent. *)
Module RawSubExample.
Import RawSub.

Definition outside : Outside (list Sent) :=
  mkOutside _ (fun _ _ e => (inr tt, e)) (fun _ r e => (None, e ++ [r])) (fun _ _ e => (None, e)).

Definition open : Machine := mkMachine true.
Definition service : SvcState Machine Sent (list Sent) := mkService {[0 := open]} 1 [] [] [].
Definition event : Event := NodeMessage 0 [str "he"; str "llo"] 4 (Some 42).
End RawSubExample.

Lemma raw_subscriber_refines_witness :
  wp (RawSub.handle RawSubExample.outside RawSubExample.event) (fun _ w' =>
     Service_ok (fun _ => True) w' /\
     rs_stepped RawSubExample.outside RawSubExample.service RawSubExample.event 0 RawSubExample.open
                RawSubExample.service w') RawSubExample.service.
Proof.
  apply raw_subscriber_refines.
  - apply one_machine_ok. done.
  - split; [done|]. split; [reflexivity|]. split; reflexivity.
Defined.
