(* ===== verification/RawRpcClient.v ===== *)
(** * The "raw RPC client" relay service

    Models [src/daemon/engine/svc/relay/raw_rpc_client_service.cpp]: an IPC client
    opens a channel for a service of a remote node; every call is sent to that
    node as it is, and its answer (or error) comes back on the channel. There
    is one pending call at most: a later call replaces an earlier one. *)
From S2P Require Import Prelude Errors SocketBuffer ServiceState NodeService.

Local Open Scope Z_scope.

Module RawRpc.

(** [RawRpcClient.0.1.dsdl] *)
Inductive Request : Type :=
| Req_empty
| Req_create (extent_size service_id server_node_id : Z)
| Req_config (priority : option Z)
| Req_call (request_timeout_us response_timeout_us payload_size : Z).

Inductive Response : Type :=
| Res_empty
| Res_receive (priority remote_node_id payload_size : Z)
| Res_error (e : Error_0_1).

(** What is sent: a response, and the raw data after it. *)
Abbreviation Sent := (Response * bytes)%type.

(** [CyPromise::Result] *)
Inductive PromiseResult : Type :=
| Success (response : list bytes) (priority remote_node_id : Z)
| Failure (cy_failure : CyError).

(** [Fsm]: the RPC client with the priority that was set, and is a call pending? *)
Record Machine := mkMachine { cy_raw_svc_client_ : option (option Z); cy_promise_ : bool }.

(** The Cyphal presentation layer, the clock and the IPC channel. *)
Record Outside (Env : Type) := mkOutside {
  cy_now : Env -> Z;
  cy_makeClient : Z -> Z -> Z -> Env -> (CyError + unit) * Env;
  cy_request : FsmId -> option Z -> Z -> Z -> bytes -> Env -> (CyError + unit) * Env;
  ch_send : FsmId -> Sent -> Env -> OptError * Env;
  ch_complete : FsmId -> OptError -> Env -> OptError * Env;
}.
Arguments cy_now {Env}.
Arguments cy_makeClient {Env}.
Arguments cy_request {Env}.
Arguments ch_send {Env}.
Arguments ch_complete {Env}.

Section Service.
Context {Env : Type} (O : Outside Env).
Abbreviation W := (SvcState Machine Sent Env).

Definition complete (id : FsmId) (completion_opt_error : OptError) : M W unit :=
  put_fsm id (mkMachine None false);;
  complete_ipc (ch_complete O) id completion_opt_error.

Definition makeCySvcClient (id : FsmId) (server_node_id service_id extent_bytes : Z) : M W bool :=
  cy_make_result ← call (cy_makeClient O server_node_id service_id extent_bytes);
  match cy_make_result with
  | inl cy_failure =>
      let opt_error := cyFailureToOptError cy_failure in
      complete id opt_error;;
      mret false
  | inr _ =>
      m ← get_fsm id;
      put_fsm id (mkMachine (Some None) (cy_promise_ m));;
      mret true
  end.

Definition reply (id : FsmId) (ipc_response : Response) (complete_of_failure : bool) : M W unit :=
  opt_error ← send_ipc (ch_send O) id (ipc_response, []);
  match opt_error with
  | Some _ => if complete_of_failure then complete id opt_error else mret tt
  | None => mret tt
  end.

(** The overload with raw data. *)
Definition reply_raw (id : FsmId) (ipc_response : Response) (sock_buff : list bytes) : M W unit :=
  send_ipc (ch_send O) id (ipc_response, concat sock_buff);;
  mret tt.

Definition start (request : Request) (id : FsmId) : M W unit :=
  match request with
  | Req_create extent_size service_id server_node_id =>
      made ← makeCySvcClient id server_node_id service_id extent_size;
      if made : bool then reply id Res_empty true else mret tt
  | _ => mret tt
  end.

Definition handleConfig (id : FsmId) (priority : option Z) : M W unit :=
  m ← get_fsm id;
  match cy_raw_svc_client_ m with
  | None => complete id (Some (Err Code.Canceled))
  | Some _ =>
      match priority with
      | Some p => put_fsm id (mkMachine (Some (Some p)) (cy_promise_ m))
      | None => mret tt
      end
  end.

Definition handleCall (id : FsmId) (request_timeout_us response_timeout_us payload_size : Z) (payload : bytes) : M W unit :=
  m ← get_fsm id;
  match cy_raw_svc_client_ m with
  | None => complete id (Some (Err Code.Canceled))
  | Some priority =>
      now ← gets (fun w => cy_now O (sv_env w));
      request_deadline ← ofOutcome (add_time now (i64 request_timeout_us));
      response_deadline ← ofOutcome (add_time now (i64 response_timeout_us));
      raw_msg_payload ← ofOutcome (payload_tail payload payload_size);
      cy_req_result ← call (cy_request O id priority request_deadline response_deadline raw_msg_payload);
      match cy_req_result with
      | inl cy_failure => reply id (Res_error (optErrorToDsdlError (cyFailureToOptError cy_failure))) false
      | inr _ =>
          m ← get_fsm id;
          put_fsm id (mkMachine (cy_raw_svc_client_ m) true)
      end
  end.

Definition handleInput (id : FsmId) (input : Request) (payload : bytes) : M W unit :=
  match input with
  | Req_config priority => handleConfig id priority
  | Req_call request_timeout_us response_timeout_us payload_size =>
      handleCall id request_timeout_us response_timeout_us payload_size payload
  | Req_create _ _ _ | Req_empty => mret tt
  end.

Definition handleRpcResponse (id : FsmId) (result : PromiseResult) : M W unit :=
  match result with
  | Success response priority remote_node_id =>
      let payload_size := Z.of_nat (length (concat response)) in
      reply_raw id (Res_receive priority remote_node_id payload_size) response
  | Failure cy_failure => reply id (Res_error (optErrorToDsdlError (cyFailureToOptError cy_failure))) false
  end.

Definition handleCompleted (id : FsmId) (keep_alive : bool) (opt_error : OptError) : M W unit :=
  if keep_alive then mret tt else complete id opt_error.

(** [operator()] *)
Definition serve (request : Request) : M W unit := newChannel (mkMachine None false) (start request).

Inductive Event : Type :=
| NewChannel (request : Request)
| ChInput (id : FsmId) (input : Request) (payload : bytes)
| ChCompleted (id : FsmId) (keep_alive : bool) (opt_error : OptError)
| RpcResponse (id : FsmId) (result : PromiseResult).

Definition handle (e : Event) : M W unit :=
  match e with
  | NewChannel request => serve request
  | ChInput id input payload => handleInput id input payload
  | ChCompleted id keep_alive opt_error => handleCompleted id keep_alive opt_error
  | RpcResponse id result => handleRpcResponse id result
  end.
End Service.
End RawRpc.

(** ** Specification *)
Section Spec.
Import RawRpc.
Context {Env : Type} (O : Outside Env).

Definition error_of (f : CyError) : Sent := (Res_error (optErrorToDsdlError (Some (cyErrorToSdkError f))), []).

(** A step of one channel. *)
Inductive rpc_step (id : FsmId) : Event -> Machine -> Env -> option Machine -> Env -> list Sent -> list OptError -> Prop :=
| rpc_open extent svc node m env env1 env2 :
    cy_makeClient O node svc extent env = (inr tt, env1) -> ch_send O id (Res_empty, []) env1 = (None, env2) ->
    rpc_step id (NewChannel (Req_create extent svc node)) m env (Some (mkMachine (Some None) (cy_promise_ m))) env2
             [(Res_empty, [])] []
| rpc_open_unsent extent svc node m env env1 env2 e env3 :
    cy_makeClient O node svc extent env = (inr tt, env1) -> ch_send O id (Res_empty, []) env1 = (Some e, env2) ->
    env3 = (ch_complete O id (Some e) env2).2 ->
    rpc_step id (NewChannel (Req_create extent svc node)) m env None env3 [(Res_empty, [])] [Some e]
| rpc_open_failed extent svc node m env f env1 env2 :
    cy_makeClient O node svc extent env = (inl f, env1) -> env2 = (ch_complete O id (cyFailureToOptError f) env1).2 ->
    rpc_step id (NewChannel (Req_create extent svc node)) m env None env2 [] [cyFailureToOptError f]
| rpc_open_other request m env :
    (forall x s n, request <> Req_create x s n) -> rpc_step id (NewChannel request) m env (Some m) env [] []
| rpc_priority p q b payload env :
    rpc_step id (ChInput id (Req_config (Some p)) payload) (mkMachine (Some q) b) env
             (Some (mkMachine (Some (Some p)) b)) env [] []
| rpc_no_priority q b payload env :
    rpc_step id (ChInput id (Req_config None) payload) (mkMachine (Some q) b) env (Some (mkMachine (Some q) b)) env [] []
| rpc_call t1 t2 size header msg q b env env1 :
    size = Z.of_nat (length msg) ->
    cy_request O id q (cy_now O env + i64 t1) (cy_now O env + i64 t2) msg env = (inr tt, env1) ->
    rpc_step id (ChInput id (Req_call t1 t2 size) (header ++ msg)) (mkMachine (Some q) b) env
             (Some (mkMachine (Some q) true)) env1 [] []
| rpc_call_failed t1 t2 size header msg q b env f env1 env2 :
    size = Z.of_nat (length msg) ->
    cy_request O id q (cy_now O env + i64 t1) (cy_now O env + i64 t2) msg env = (inl f, env1) ->
    env2 = (ch_send O id (error_of f) env1).2 ->
    rpc_step id (ChInput id (Req_call t1 t2 size) (header ++ msg)) (mkMachine (Some q) b) env
             (Some (mkMachine (Some q) b)) env2 [error_of f] []
| rpc_not_open input payload b env env1 :
    (forall x s n, input <> Req_create x s n) -> input <> Req_empty ->
    env1 = (ch_complete O id (Some (Err Code.Canceled)) env).2 ->
    rpc_step id (ChInput id input payload) (mkMachine None b) env None env1 [] [Some (Err Code.Canceled)]
| rpc_ignored input payload m env :
    (exists x s n, input = Req_create x s n) \/ input = Req_empty ->
    rpc_step id (ChInput id input payload) m env (Some m) env [] []
| rpc_answer fragments msg priority node m env env1 :
    concat fragments = msg -> let response := (Res_receive priority node (Z.of_nat (length msg)), msg) in
    env1 = (ch_send O id response env).2 ->
    rpc_step id (RpcResponse id (Success fragments priority node)) m env (Some m) env1 [response] []
| rpc_answer_failed f m env env1 :
    env1 = (ch_send O id (error_of f) env).2 ->
    rpc_step id (RpcResponse id (Failure f)) m env (Some m) env1 [error_of f] []
| rpc_keep_alive e m env : rpc_step id (ChCompleted id true e) m env (Some m) env [] []
| rpc_completed e m env env1 :
    env1 = (ch_complete O id e env).2 -> rpc_step id (ChCompleted id false e) m env None env1 [] [e].
End Spec.

Section Facts.
Import RawRpc.
Context {Env : Type} (O : Outside Env).
Abbreviation W := (SvcState Machine Sent Env).
Implicit Types (w : W) (id : FsmId).

(** A call is pending only while there is a client. *)
Definition rr_machine_ok (m : Machine) : Prop := cy_promise_ m = true -> cy_raw_svc_client_ m <> None.

Abbreviation Rr_ok := (Service_ok rr_machine_ok).

Definition rr_new : Machine := mkMachine None false.

(** The channel an event is for, the machine it finds and the world it finds it in.
    An answer comes through the pending call of the machine. *)
Definition rr_target w (e : Event) (id : FsmId) (m : Machine) (w0 : W) : Prop :=
  match e with
  | NewChannel _ => id = next_fsm_id_ w /\ m = rr_new /\ w0 = with_new rr_new w /\ next_fsm_id_ w < 2 ^ 64 - 1
  | ChInput id' _ _ | ChCompleted id' _ _ => id = id' /\ id_to_fsm_ w !! id = Some m /\ w0 = w
  | RpcResponse id' _ => id = id' /\ id_to_fsm_ w !! id = Some m /\ cy_promise_ m = true /\ w0 = w
  end.

(** A time of the clock, in microseconds, that [time_point] represents. *)
Definition is_time (t : Z) : Prop := - 2 ^ 63 <= t < 2 ^ 63.

(** What the code does is defined, except for a call one of whose deadlines cannot be
    represented, or that announces more than its payload. *)
Definition rr_defined w (e : Event) (m : Machine) : Prop :=
  match e, cy_raw_svc_client_ m with
  | ChInput _ (Req_call t1 t2 payload_size) payload, Some _ =>
      is_time (cy_now O (sv_env w) + i64 t1) /\ is_time (cy_now O (sv_env w) + i64 t2) /\
      payload_size <= Z.of_nat (length payload)
  | _, _ => True
  end.

(** The announced size is a 64-bit number, and so is the size of a payload. *)
Definition rr_sizes (e : Event) : Prop :=
  match e with
  | ChInput _ (Req_call _ _ payload_size) payload => 0 <= payload_size < 2 ^ 64 /\ Z.of_nat (length payload) < 2 ^ 64
  | _ => True
  end.

Lemma add_time_is_time now t : is_time (now + t) -> add_time now t = Done (now + t).
Proof. intros []. unfold add_time. by rewrite (proj2 (Z.leb_le _ _)), (proj2 (Z.ltb_lt _ _)) by lia. Qed.

Lemma add_time_defined now t : add_time now t <> Undef -> is_time (now + t).
Proof.
  unfold add_time, is_time. destruct (Z.leb_spec (- 2 ^ 63) (now + t)), (Z.ltb_spec (now + t) (2 ^ 63)); cbn [andb]; done || lia.
Qed.

Lemma wp_rr_complete id m w0 w sent done env e (Q : unit -> W -> Prop) :
  moved id w0 w (Some m) sent done env ->
  (forall w', moved id w0 w' None sent (done ++ [e]) (ch_complete O id e env).2 -> Q tt w') -> wp (complete O id e) Q w.
Proof.
  intros Hw HQ. unfold complete. apply wp_bind. eapply wp_put_moved; [done|]. intros w1 H1.
  eapply wp_complete_moved; [exact H1|]. exact HQ.
Qed.

Lemma rpc_step_left id e m env left env' sent done :
  rr_machine_ok m -> rpc_step O id e m env left env' sent done ->
  match left with Some m' => rr_machine_ok m' /\ done = [] | None => exists e, done = [e] end.
Proof. intros Hm. destruct 1; eauto; split; try done. Qed.

(** What the theorem below says of one event. *)
Definition rr_stepped w (e : Event) id m w0 (w' : W) : Prop :=
  exists left sent done env', moved id w0 w' left sent done env' /\ rpc_step O id e m (sv_env w) left env' sent done.

Lemma wp_rr_start request id m w w0 :
  sv_env w0 = sv_env w -> id_to_fsm_ w0 !! id = Some m ->
  wp (start O request id) (fun _ => rr_stepped w (NewChannel request) id m w0) w0.
Proof.
  intros He Hm. pose proof (moved_refl id m w0 Hm) as H0. rewrite He in H0.
  assert ((forall x s n, request <> Req_create x s n) -> rr_stepped w (NewChannel request) id m w0 w0) as Hother
    by (intros Hr; do 4 eexists; split; [exact H0|by constructor]).
  destruct request as [|extent svc node|p|t1 t2 n]; cbn [start]; try (apply wp_ret, Hother; done).
  unfold makeCySvcClient. apply wp_bind, wp_bind. eapply wp_call_moved; [exact H0|]. intros w1 H1.
  destruct (cy_makeClient O node svc extent (sv_env w)) as [[f|[]] env1] eqn:Emake; cbn [fst snd] in *.
  - apply wp_bind. eapply wp_rr_complete; [exact H1|]. intros w2 H2. apply wp_ret, wp_ret.
    do 4 eexists. split; [exact H2|]. by eapply rpc_open_failed.
  - apply wp_bind. eapply wp_get_moved; [exact H1|]. apply wp_bind. eapply wp_put_moved; [exact H1|]. intros w2 H2.
    apply wp_ret. unfold reply. apply wp_bind. eapply wp_send_moved; [exact H2|]. intros w3 H3.
    destruct (ch_send O id (Res_empty, []) env1) as [[e|] env2] eqn:Esend; cbn [fst snd] in *.
    + eapply wp_rr_complete; [exact H3|]. intros w4 H4. do 4 eexists. split; [exact H4|]. by eapply rpc_open_unsent.
    + apply wp_ret. do 4 eexists. split; [exact H3|]. by eapply rpc_open.
Qed.

(** A reply that is not followed by anything. *)
Lemma wp_rr_reply id m w0 w sent done env r (Q : unit -> W -> Prop) :
  moved id w0 w (Some m) sent done env ->
  (forall w', moved id w0 w' (Some m) (sent ++ [(r, [])]) done (ch_send O id (r, []) env).2 -> Q tt w') ->
  wp (reply O id r false) Q w.
Proof.
  intros Hw HQ. unfold reply. apply wp_bind. eapply wp_send_moved; [exact Hw|]. intros w1 H1.
  destruct (ch_send O id (r, []) env).1; apply wp_ret; by apply HQ.
Qed.

Lemma wp_rr_call id m t1 t2 size payload w :
  rr_sizes (ChInput id (Req_call t1 t2 size) payload) ->
  rr_defined w (ChInput id (Req_call t1 t2 size) payload) m -> id_to_fsm_ w !! id = Some m ->
  wp (handleCall O id t1 t2 size payload) (fun _ => rr_stepped w (ChInput id (Req_call t1 t2 size) payload) id m w) w.
Proof.
  intros [Hs Hlen] Hd Hm. pose proof (moved_refl id m w Hm) as H0. unfold handleCall.
  apply wp_bind. eapply wp_get_moved; [exact H0|]. destruct m as [[q|] b]; cbn [cy_raw_svc_client_].
  2:{ eapply wp_rr_complete; [exact H0|]. intros w1 H1. do 4 eexists. split; [exact H1|]. by apply rpc_not_open. }
  destruct Hd as (Ht1 & Ht2 & Hsize). do 2 wp_step.
  apply wp_bind. eapply wp_ofOutcome; [by apply add_time_is_time|].
  apply wp_bind. eapply wp_ofOutcome; [by apply add_time_is_time|].
  set (k := (length payload - Z.to_nat size)%nat).
  rewrite <- (take_drop k payload). set (header := take k payload). set (msg := drop k payload).
  assert (Z.of_nat (length msg) = size) as Hmsg by (unfold msg; rewrite length_drop; lia).
  apply wp_bind. eapply (wp_ofOutcome _ msg).
  { rewrite <- Hmsg. apply payload_tail_app. unfold header, msg. by rewrite take_drop. }
  apply wp_bind. eapply wp_call_moved; [exact H0|]. intros w1 H1.
  destruct (cy_request O id q _ _ msg (sv_env w)) as [[f|[]] env1] eqn:Ereq; cbn [fst snd] in *.
  - eapply wp_rr_reply; [exact H1|]. intros w2 H2. do 4 eexists. split; [exact H2|]. by eapply rpc_call_failed.
  - apply wp_bind. eapply wp_get_moved; [exact H1|]. eapply wp_put_moved; [exact H1|]. intros w2 H2.
    do 4 eexists. split; [exact H2|]. by eapply rpc_call.
Qed.

Lemma wp_rr_input id m input payload w :
  rr_sizes (ChInput id input payload) -> rr_defined w (ChInput id input payload) m -> id_to_fsm_ w !! id = Some m ->
  wp (handleInput O id input payload) (fun _ => rr_stepped w (ChInput id input payload) id m w) w.
Proof.
  intros Hs Hd Hm. pose proof (moved_refl id m w Hm) as H0.
  destruct input as [|x s n|p|t1 t2 n]; cbn [handleInput]; [| | |by apply wp_rr_call].
  1,2: apply wp_ret; do 4 eexists; (split; [exact H0|]); apply rpc_ignored; eauto.
  unfold handleConfig. apply wp_bind. eapply wp_get_moved; [exact H0|]. destruct m as [[q|] b]; cbn [cy_raw_svc_client_].
  2:{ eapply wp_rr_complete; [exact H0|]. intros w1 H1. do 4 eexists. split; [exact H1|]. by apply rpc_not_open. }
  destruct p as [p|].
  - eapply wp_put_moved; [exact H0|]. intros w1 H1. do 4 eexists. split; [exact H1|]. constructor.
  - apply wp_ret. do 4 eexists. split; [exact H0|]. constructor.
Qed.

Lemma wp_rr_response id m result w :
  id_to_fsm_ w !! id = Some m ->
  wp (handleRpcResponse O id result) (fun _ => rr_stepped w (RpcResponse id result) id m w) w.
Proof.
  intros Hm. pose proof (moved_refl id m w Hm) as H0. destruct result as [fragments priority node|f]; cbn [handleRpcResponse].
  - unfold reply_raw. apply wp_bind. eapply wp_send_moved; [exact H0|]. intros w1 H1. apply wp_ret.
    do 4 eexists. split; [exact H1|]. by constructor.
  - eapply wp_rr_reply; [exact H0|]. intros w1 H1. do 4 eexists. split; [exact H1|]. by constructor.
Qed.

(** A call with such a deadline, or such a size, is undefined behaviour. *)
Lemma rr_undefined e w id m w0 :
  rr_sizes e -> rr_target w e id m w0 -> ~ rr_defined w e m -> handle O e w = Undef.
Proof.
  intros Hs Htarget Hd. destruct e as [request|id' [|x s n|p|t1 t2 n] payload|id' k err|id' result]; cbn [rr_defined] in Hd; try done.
  destruct m as [[q|] b]; cbn [cy_raw_svc_client_] in Hd; [|done]. destruct Htarget as (<- & Hm & _). destruct Hs as [Hs Hlen].
  cbn [handle handleInput]. unfold handleCall, get_fsm, gets, ofOutcome, mbind, M_bind, mret, M_ret. rewrite Hm. cbn [cy_raw_svc_client_].
  destruct (add_time _ (i64 t1)) eqn:E1; [|done]. destruct (add_time _ (i64 t2)) eqn:E2; [|done].
  destruct (payload_tail payload n) eqn:E; [|done]. destruct Hd.
  split; [apply add_time_defined; by rewrite E1|]. split; [apply add_time_defined; by rewrite E2|].
  apply payload_tail_defined; [done|done|]. by rewrite E.
Qed.

(** C20: the raw RPC client implements its specification. Every event of a channel, but
    one kind, is one step of that channel (a call carries exactly the tail of the
    payload with the deadlines and priority of the client; an answer or an error comes
    back once, whole), the other channels do not move, no machine is used after
    it was destroyed, and each channel is completed exactly once. The other kind is a
    call of an open client that announces more bytes than its payload has, or one of
    whose deadlines is not a 64-bit count of microseconds: exactly these are undefined
    behaviour. *)
Theorem raw_rpc_client_refines e w id m w0 :
  Rr_ok w -> rr_target w e id m w0 -> rr_sizes e ->
  (rr_defined w e m -> wp (handle O e) (fun _ w' => Rr_ok w' /\ rr_stepped w e id m w0 w') w) /\
  (~ rr_defined w e m -> handle O e w = Undef).
Proof.
  intros Hok Htarget Hsz. split; [intros Hd|by eapply rr_undefined].
  assert (Rr_ok w0 /\ id_to_fsm_ w0 !! id = Some m /\ sv_env w0 = sv_env w) as (Hok0 & Hm & Henv).
  { destruct e; cbn in Htarget; [|by destruct Htarget as (-> & ? & ->)..|by destruct Htarget as (-> & ? & _ & ->)].
    destruct Htarget as (-> & -> & -> & Hn). split; [by apply with_new_ok|]. split; [apply with_new_lookup|done]. }
  eapply (wp_mono _ (fun _ w' => rr_stepped w e id m w0 w')).
  2:{ intros [] w' Hs. split; [|done]. destruct Hs as (left & sent & done & env' & Hmv & Hst).
      eapply moved_ok; [exact Hok0|exact Hm|exact Hmv|]. eapply rpc_step_left; [|exact Hst].
      by apply (Service_machine_ok rr_machine_ok id m w0). }
  destruct e as [request|id' input payload|id' k err|id' result]; cbn [handle rr_target] in *.
  - destruct Htarget as (-> & -> & -> & _). apply wp_newChannel. by apply wp_rr_start.
  - destruct Htarget as (-> & Hm' & ->). by apply wp_rr_input.
  - destruct Htarget as (-> & _ & ->). pose proof (moved_refl id' m w Hm) as H0. unfold handleCompleted. destruct k.
    + apply wp_ret. do 4 eexists. split; [exact H0|]. constructor.
    + eapply wp_rr_complete; [exact H0|]. intros w1 H1. do 4 eexists. split; [exact H1|]. by constructor.
  - destruct Htarget as (-> & _ & _ & ->). by apply wp_rr_response.
Qed.
End Facts.

(** A channel with a pending call, and an environment that records what is sent. *)
Module RawRpcExample.
Import RawRpc.

Definition outside : Outside (list Sent) :=
  mkOutside _ (fun _ => 1000) (fun _ _ _ e => (inr tt, e)) (fun _ _ _ _ _ e => (inr tt, e))
            (fun _ r e => (None, e ++ [r])) (fun _ _ e => (None, e)).

Definition waiting : Machine := mkMachine (Some None) true.
Definition service : SvcState Machine Sent (list Sent) := mkService {[0 := waiting]} 1 [] [] [].
Definition event : Event := ChInput 0 (Req_call 1000000 1000000 3) (str "header" ++ str "msg").
End RawRpcExample.

Lemma raw_rpc_client_refines_witness :
  wp (RawRpc.handle RawRpcExample.outside RawRpcExample.event) (fun _ w' =>
     Service_ok rr_machine_ok w' /\
     rr_stepped RawRpcExample.outside RawRpcExample.service RawRpcExample.event 0 RawRpcExample.waiting
                RawRpcExample.service w') RawRpcExample.service.
Proof.
  apply (raw_rpc_client_refines RawRpcExample.outside RawRpcExample.event RawRpcExample.service 0 RawRpcExample.waiting RawRpcExample.service).
  - apply one_machine_ok. done.
  - split; [done|]. split; reflexivity.
  - vm_compute. repeat split; discriminate.
  - vm_compute. repeat split; discriminate.
Defined.
