(* ===== verification/NodeClients.v ===== *)
(** * The SDK's clients of the node services

    Models [src/sdk/svc/node/]: the clients that ask the daemon to list registers,
    to execute a command, or to access registers on several nodes. Each sends
    its requests (the nodes in chunks that fit a message) when its channel is
    connected, says that there are no more, collects the responses in a map,
    and calls its receiver when the channel is completed. What makes them is in
    [NodeSenders]. *)
From S2P Require Import Prelude Errors NodeService ListRegisters ExecCmd AccessRegisters.

Local Open Scope Z_scope.

(** [ArrayCapacity::node_ids] of the three requests. *)
Definition chunk_size : nat := 128.

(** [std::max<std::uint64_t>(0, timeout.count())]: the conversion to an unsigned
    number comes first, so a negative timeout becomes a huge one. *)
Definition timeout_to_us (timeout : Z) : Z := Z.max 0 (u64 timeout).

(** The loop over [node_ids] that splits it into chunks; every turn takes at
    least one node. *)
Fixpoint split_nodes (fuel offset : nat) (node_ids : list NodeId) : list (list NodeId) :=
  match fuel with
  | 0%nat => []
  | S fuel' =>
      if (offset <? length node_ids)%nat
      then take (Nat.min chunk_size (length node_ids - offset)) (drop offset node_ids)
           :: split_nodes fuel' (offset + chunk_size) node_ids
      else []
  end.

Definition node_chunks (node_ids : list NodeId) : list (list NodeId) := split_nodes (length node_ids) 0 node_ids.

(** ** What the three clients share *)
Section NodeClient.
(** Requests, responses, what is kept for a node, and what the user's receiver gets. *)
Context {Req Res R Env Fin : Type}.

Abbreviation Result := (Error + gmap NodeId R)%type.

(** What goes out on the channel. *)
Inductive Outgoing : Type :=
| OutRequest (request : Req)
| OutComplete (keep_alive : bool).

(** The client; [received] are the calls of the user's receiver. *)
Record Client := mkClient {
  requests_ : list Req;
  node_id_to_result_ : gmap NodeId R;
  received : list Fin;
  cl_out : list Outgoing;
  cl_env : Env;
}.
Abbreviation W := Client.

Context (channel : Outgoing -> Env -> OptError * Env).

Definition new_client (requests : list Req) (env : Env) : W := mkClient requests ∅ [] [] env.

Definition ch_out (o : Outgoing) : M W OptError := liftF (fun w =>
  let '(e, env) := channel o (cl_env w) in
  (e, mkClient (requests_ w) (node_id_to_result_ w) (received w) (cl_out w ++ [o]) env)).

(** The user's receiver. *)
Definition user_receiver (result : Fin) : M W unit := modify (fun w =>
  mkClient (requests_ w) (node_id_to_result_ w) (received w ++ [result]) (cl_out w) (cl_env w)).

(** The member of that name: what [submit] was given, the user's receiver or lambdas
    around it. *)
Context (receiver_ : Result -> M W unit).

(** The loop over [requests_]; the error that ends it. *)
Fixpoint send_requests (requests : list Req) : M W OptError :=
  match requests with
  | [] => mret None
  | request :: requests' =>
      opt_error ← ch_out (OutRequest request);
      match opt_error with
      | Some _ => mret opt_error
      | None => send_requests requests'
      end
  end.

Definition handleConnected : M W unit :=
  requests ← gets requests_;
  send_error ← send_requests requests;
  match send_error with
  | Some e => receiver_ (inl e)
  | None =>
      opt_error ← ch_out (OutComplete true);
      match opt_error with
      | Some e => receiver_ (inl e)
      | None => mret tt
      end
  end.

(** [add]: what one response does to the map. *)
Definition handleInput (add : Res -> gmap NodeId R -> gmap NodeId R) (input : Res) : M W unit := modify (fun w =>
  mkClient (requests_ w) (add input (node_id_to_result_ w)) (received w) (cl_out w) (cl_env w)).

(** The map is moved out. *)
Definition handleCompleted (opt_error : OptError) : M W unit :=
  m ← gets node_id_to_result_;
  match opt_error with
  | Some e => receiver_ (inl e)
  | None =>
      modify (fun w => mkClient (requests_ w) ∅ (received w) (cl_out w) (cl_env w));;
      receiver_ (inr m)
  end.

(** [submitImpl], and the events of the channel that it subscribes to, in their order:
    connected, inputs, completed. *)
Definition session (add : Res -> gmap NodeId R -> gmap NodeId R) (inputs : list Res) (opt_error : OptError) : M W unit :=
  handleConnected;;
  mfor inputs (handleInput add);;
  handleCompleted opt_error.
End NodeClient.
Arguments Outgoing : clear implicits.
Arguments Client : clear implicits.

(** ** The three clients *)

(** [NodeRegisters::Result], [NodeResponse::Result]: a failure of the node or what it gave. *)
Abbreviation NodeResult A := (Error + A)%type.

(** [unordered_map::emplace] keeps what is there. *)
Definition emplace {A} (n : NodeId) (a : A) (m : gmap NodeId A) : gmap NodeId A :=
  match m !! n with Some _ => m | None => <[n := a]> m end.

Module ListClient.
Definition buildRequests (node_ids : list NodeId) (timeout : Z) : list ListRegs.Request :=
  ListRegs.mkRequest (timeout_to_us timeout) <$> node_chunks node_ids.

Definition listInput (input : ListRegs.Response) (m : gmap NodeId (NodeResult (list bytes))) : gmap NodeId (NodeResult (list bytes)) :=
  let node_id := ListRegs.res_node_id input in
  match dsdlErrorToOptError (ListRegs.res_error input) with
  | Some e => emplace node_id (inl e) m
  | None =>
      let m := emplace node_id (inr []) m in
      match m !! node_id with
      | Some (inr regs) => <[node_id := inr (regs ++ [ListRegs.res_item input])]> m
      | _ => m
      end
  end.
End ListClient.

Module ExecClient.
Definition buildExecRequests (node_ids : list NodeId) (node_request : ExecCmd.RequestPayload) (timeout : Z) : list ExecCmd.Request :=
  (fun ids => ExecCmd.mkRequest (timeout_to_us timeout) ids node_request) <$> node_chunks node_ids.

Definition execInput (input : ExecCmd.Response) (m : gmap NodeId (NodeResult ExecCmd.ResponsePayload))
    : gmap NodeId (NodeResult ExecCmd.ResponsePayload) :=
  let node_id := ExecCmd.res_node_id input in
  match dsdlErrorToOptError (ExecCmd.res_error input) with
  | Some e => emplace node_id (inl e) m
  | None => emplace node_id (inr (ExecCmd.res_payload input)) m
  end.
End ExecClient.

Module AccessClient.
Section Access.
Context {Val : Type} (empty_value : Val).

Definition buildScopeRequests (node_ids : list NodeId) (timeout : Z) : list (AccessRegs.Request Val) :=
  AccessRegs.Req_scope (timeout_to_us timeout) <$> node_chunks node_ids.

Definition buildReadRegisterRequests (registers : list bytes) : list (AccessRegs.Request Val) :=
  (fun key => AccessRegs.Req_register (AccessRegs.mkReg key empty_value)) <$> registers.

Definition buildWriteRegisterRequests (registers : list (AccessRegs.RegKeyValue Val)) : list (AccessRegs.Request Val) :=
  AccessRegs.Req_register <$> registers.

Definition accessInput (input : AccessRegs.Response Val) (m : gmap NodeId (NodeResult (list (bytes * (Val + Error)))))
    : gmap NodeId (NodeResult (list (bytes * (Val + Error)))) :=
  let node_id := AccessRegs.res_node_id input in
  let opt_error := dsdlErrorToOptError (AccessRegs.res_error input) in
  let reg := AccessRegs.res_register input in
  match opt_error, decide (AccessRegs.key reg = []) with
  | Some e, left _ => emplace node_id (inl e) m
  | _, _ =>
      let m := emplace node_id (inr []) m in
      match m !! node_id with
      | Some (inr regs) =>
          let value := match opt_error with Some e => inr e | None => inl (AccessRegs.value reg) end in
          <[node_id := inr (regs ++ [(AccessRegs.key reg, value)])]> m
      | _ => m
      end
  end.

(** The two constructors: the requests of a client that reads, or writes. *)
Definition make_read (node_ids : list NodeId) (registers : list bytes) (timeout : Z) : list (AccessRegs.Request Val) :=
  buildScopeRequests node_ids timeout ++ buildReadRegisterRequests registers.

Definition make_write (node_ids : list NodeId) (registers : list (AccessRegs.RegKeyValue Val)) (timeout : Z) : list (AccessRegs.Request Val) :=
  buildScopeRequests node_ids timeout ++ buildWriteRegisterRequests registers.
End Access.
End AccessClient.

(** ** Theory *)

Lemma timeout_to_us_id timeout : 0 <= timeout < 2 ^ 63 -> timeout_to_us timeout = timeout.
Proof. intros Ht. unfold timeout_to_us. rewrite wrap_id by lia. lia. Qed.

Lemma split_nodes_concat fuel offset (node_ids : list NodeId) :
  (length node_ids <= fuel + offset)%nat -> concat (split_nodes fuel offset node_ids) = drop offset node_ids.
Proof.
  revert offset. induction fuel as [|fuel IH]; intros offset Hf; cbn [split_nodes].
  { by rewrite drop_ge by lia. }
  destruct (Nat.ltb_spec offset (length node_ids)); [|by rewrite drop_ge by lia]. cbn [concat].
  rewrite IH by (unfold chunk_size; lia). destruct (Nat.le_gt_cases chunk_size (length node_ids - offset)).
  - rewrite Nat.min_l by done. rewrite <- drop_drop. apply take_drop.
  - rewrite Nat.min_r by lia. rewrite take_ge by (rewrite length_drop; lia).
    rewrite (drop_ge _ (offset + chunk_size)) by lia. by rewrite app_nil_r.
Qed.

Lemma split_nodes_sizes fuel offset (node_ids : list NodeId) :
  Forall (fun chunk => 0 < length chunk <= chunk_size)%nat (split_nodes fuel offset node_ids).
Proof.
  revert offset. induction fuel as [|fuel IH]; intros offset; cbn [split_nodes]; [by apply Forall_nil|].
  destruct (Nat.ltb_spec offset (length node_ids)); [|by apply Forall_nil].
  apply Forall_cons. split; [|apply IH]. rewrite length_take, length_drop. unfold chunk_size. lia.
Qed.

Lemma node_chunks_concat node_ids : concat (node_chunks node_ids) = node_ids.
Proof. unfold node_chunks. rewrite split_nodes_concat by lia. done. Qed.

Section Session.
Context {Req Res R Env Fin : Type} (channel : Outgoing Req -> Env -> OptError * Env).
Context (add : Res -> gmap NodeId R -> gmap NodeId R).
Abbreviation W := (Client Req R Env Fin).

(** A receiver that hands what it makes of a result to the user's receiver. *)
Definition hands (receiver : (Error + gmap NodeId R) -> M W unit) (f : (Error + gmap NodeId R) -> Fin) : Prop :=
  forall result, receiver result = user_receiver (f result).

(** The channel takes everything. *)
Definition takes_all : Prop := forall o e, (channel o e).1 = None.
Context (Hall : takes_all).

Lemma wp_ch_out o (Q : OptError -> W -> Prop) w :
  (forall env, Q None (mkClient (requests_ w) (node_id_to_result_ w) (received w) (cl_out w ++ [o]) env)) ->
  wp (ch_out channel o) Q w.
Proof.
  intros HQ. apply wp_liftF. pose proof (Hall o (cl_env w)) as He.
  destruct (channel o (cl_env w)) as [e env]. cbn in *. subst e. apply HQ.
Qed.

Lemma wp_send_requests requests (Q : OptError -> W -> Prop) w :
  (forall env, Q None (mkClient (requests_ w) (node_id_to_result_ w) (received w) (cl_out w ++ (OutRequest <$> requests)) env)) ->
  wp (send_requests channel requests) Q w.
Proof.
  revert w. induction requests as [|r rs IH]; intros w HQ; cbn [send_requests].
  { apply wp_ret. specialize (HQ (cl_env w)). rewrite app_nil_r in HQ. by destruct w. }
  apply wp_bind, wp_ch_out. intros env. apply IH. intros env'. cbn. rewrite <- app_assoc. apply HQ.
Qed.

Lemma wp_inputs inputs (Q : unit -> W -> Prop) w :
  Q tt (mkClient (requests_ w) (foldl (fun m i => add i m) (node_id_to_result_ w) inputs) (received w) (cl_out w) (cl_env w)) ->
  wp (mfor inputs (handleInput add)) Q w.
Proof.
  revert w. induction inputs as [|i inputs IH]; intros w HQ; cbn [mfor].
  { apply wp_ret. by destruct w. }
  apply wp_bind, wp_modify, IH. exact HQ.
Qed.

Lemma wp_session receiver f requests inputs opt_error env :
  hands receiver f ->
  wp (session channel receiver add inputs opt_error) (fun _ w' =>
    cl_out w' = (OutRequest <$> requests) ++ [OutComplete true] /\
    received w' = [f (match opt_error with Some e => inl e | None => inr (foldl (fun m i => add i m) ∅ inputs) end)])
    (new_client requests env).
Proof.
  intros Hf. unfold session, handleConnected. apply wp_bind, wp_bind, wp_gets. apply wp_bind, wp_send_requests. intros env1.
  apply wp_bind, wp_ch_out. intros env2. apply wp_ret. apply wp_bind, wp_inputs. cbn.
  unfold handleCompleted. apply wp_bind, wp_gets. destruct opt_error as [e|]; rewrite Hf.
  - apply wp_modify. done.
  - apply wp_bind, wp_modify, wp_modify. done.
Qed.
End Session.

(** ** What the list client collects *)

(** Reference: the first response of a node decides; after a success, the names of
    its later successes follow, and its errors are not seen. *)
Definition listed_of (n : NodeId) (inputs : list ListRegs.Response) : option (NodeResult (list bytes)) :=
  let own := filter (fun r => ListRegs.res_node_id r = n) inputs in
  let good := filter (fun r => dsdlErrorToOptError (ListRegs.res_error r) = None) own in
  match own with
  | [] => None
  | r :: _ => match dsdlErrorToOptError (ListRegs.res_error r) with
              | Some e => Some (inl e)
              | None => Some (inr (ListRegs.res_item <$> good))
              end
  end.

Lemma list_add_lookup n r m :
  ListClient.listInput r m !! n =
  if decide (ListRegs.res_node_id r = n) then
    match m !! n, dsdlErrorToOptError (ListRegs.res_error r) with
    | Some (inr regs), None => Some (inr (regs ++ [ListRegs.res_item r]))
    | Some x, _ => Some x
    | None, Some e => Some (inl e)
    | None, None => Some (inr [ListRegs.res_item r])
    end
  else m !! n.
Proof.
  unfold ListClient.listInput, emplace. set (k := ListRegs.res_node_id r).
  case_decide as Hk; [rewrite <- Hk|].
  - destruct (dsdlErrorToOptError _) as [e|].
    + destruct (m !! k) as [[x|x]|] eqn:E; rewrite ?E; [done|done|apply lookup_insert_eq].
    + destruct (m !! k) as [[x|x]|] eqn:E; rewrite ?E; [done|apply lookup_insert_eq|].
      by rewrite lookup_insert_eq, lookup_insert_eq.
  - destruct (dsdlErrorToOptError _) as [e|].
    + destruct (m !! k); [done|by apply lookup_insert_ne].
    + destruct (m !! k) as [[x|x]|] eqn:E; rewrite ?E; [done|by apply lookup_insert_ne|].
      by rewrite lookup_insert_eq, !lookup_insert_ne.
Qed.

Lemma listed_of_snoc n inputs r :
  listed_of n (inputs ++ [r]) =
  if decide (ListRegs.res_node_id r = n) then
    match listed_of n inputs, dsdlErrorToOptError (ListRegs.res_error r) with
    | Some (inr regs), None => Some (inr (regs ++ [ListRegs.res_item r]))
    | Some x, _ => Some x
    | None, Some e => Some (inl e)
    | None, None => Some (inr [ListRegs.res_item r])
    end
  else listed_of n inputs.
Proof.
  unfold listed_of. rewrite filter_app. case_decide as Hk.
  - rewrite filter_cons_True, filter_nil by done. rewrite filter_app.
    destruct (filter (fun r => ListRegs.res_node_id r = n) inputs) as [|r0 own]; cbn [app].
    + rewrite filter_nil. cbn [app]. destruct (dsdlErrorToOptError (ListRegs.res_error r)) eqn:E; [done|].
      by rewrite filter_cons_True, filter_nil by done.
    + destruct (dsdlErrorToOptError (ListRegs.res_error r0)) eqn:E0; [done|].
      destruct (dsdlErrorToOptError (ListRegs.res_error r)) eqn:E.
      * rewrite (filter_cons_False _ r) by congruence. rewrite filter_nil, app_nil_r. done.
      * rewrite (filter_cons_True _ r) by done. rewrite filter_nil, fmap_app. done.
  - rewrite (filter_cons_False _ r) by done. by rewrite filter_nil, app_nil_r.
Qed.

Lemma list_collects n inputs : foldl (fun m i => ListClient.listInput i m) ∅ inputs !! n = listed_of n inputs.
Proof.
  induction inputs as [|r inputs IH] using rev_ind; [apply lookup_empty|].
  rewrite foldl_app. cbn [foldl]. rewrite list_add_lookup, listed_of_snoc, IH. done.
Qed.

(** Listing registers, from the client. The request names every node once more
    in messages of at most 128 nodes, in order, and then says that there are no
    others; when the channel is completed the receiver is called exactly once:
    with the error of the channel, or with the map in which a node whose first
    response was an error has failed, and any other node that responded has
    the names of its successful responses in their order. *)
Theorem list_client_session {Env : Type} (channel : Outgoing ListRegs.Request -> Env -> OptError * Env)
    (node_ids : list NodeId) timeout (inputs : list ListRegs.Response) (opt_error : OptError) env :
  takes_all channel -> 0 <= timeout < 2 ^ 63 ->
  wp (session channel user_receiver ListClient.listInput inputs opt_error) (fun _ w' =>
    (exists chunks, cl_out w' = ((fun ids => OutRequest (ListRegs.mkRequest timeout ids)) <$> chunks) ++ [OutComplete true] /\
       concat chunks = node_ids /\ Forall (fun chunk => 0 < length chunk <= 128)%nat chunks) /\
    exists result, received w' = [result] /\
      match opt_error with
      | Some e => result = inl e
      | None => exists m, result = inr m /\ forall n, m !! n = listed_of n inputs
      end) (new_client (ListClient.buildRequests node_ids timeout) env).
Proof.
  intros Hall Ht. eapply wp_mono; [by apply (wp_session channel _ Hall user_receiver id)|]. intros [] w' [Hout Hrec]. split.
  - exists (node_chunks node_ids). split; [|split; [apply node_chunks_concat|apply split_nodes_sizes]].
    rewrite Hout. unfold ListClient.buildRequests. rewrite timeout_to_us_id by done. by rewrite <- list_fmap_compose.
  - rewrite Hrec. eexists. split; [done|]. destruct opt_error; [done|]. eexists. split; [done|].
    intros n. apply list_collects.
Qed.

Module NodeClientsExample.
Definition channel : Outgoing ListRegs.Request -> unit -> OptError * unit := fun _ e => (None, e).
Definition inputs : list ListRegs.Response :=
  [ListRegs.response 42 (str "a") None; ListRegs.response 43 [] (Some (Err Code.TimedOut)); ListRegs.response 42 (str "b") None].
End NodeClientsExample.

Lemma list_client_session_witness :
  wp (session NodeClientsExample.channel user_receiver ListClient.listInput NodeClientsExample.inputs None) (fun _ w' =>
    (exists chunks, cl_out w' = ((fun ids => OutRequest (ListRegs.mkRequest 1000000 ids)) <$> chunks) ++ [OutComplete true] /\
       concat chunks = [42; 43] /\ Forall (fun chunk => 0 < length chunk <= 128)%nat chunks) /\
    exists result, received w' = [result] /\
      exists m, result = inr m /\ forall n, m !! n = listed_of n NodeClientsExample.inputs)
    (new_client (ListClient.buildRequests [42; 43] 1000000) tt).
Proof.
  apply (list_client_session NodeClientsExample.channel [42; 43] 1000000 NodeClientsExample.inputs None tt).
  - intros o e. reflexivity.
  - lia.
Defined.
