(* ===== verification/RelayClients.v ===== *)
(** * The SDK's clients of the relay services

    Models [src/sdk/svc/relay/]: what [Daemon::makePublisher], [makeSubscriber] and
    [makeRpcClient] send, and the objects they give to the user. Such an object
    has a life of two stages on one channel. First a client waits for the
    daemon's first answer; then that client hands its channel to a new object (a
    publisher, a subscriber or an RPC client), which talks to the service of
    [RawPublisher], [RawSubscriber] or [RawRpcClient].

    An operation of the object is a sender ([AsSender] of
    [src/sdk/svc/client_helpers.hpp]) that the user submits. The receiver that
    the object then keeps is a lambda that holds the sender by a plain pointer,
    so the model has the set of the senders that exist, and calling the lambda
    of one that was destroyed is undefined. Users' receivers are recorded, not
    run. The objects live as long as their users hold them. *)
From S2P Require Import Prelude Errors SocketBuffer ServiceState NodeService NodeClients Channel.
From S2P Require Import RawPublisher RawSubscriber RawRpcClient.

Local Open Scope Z_scope.

Abbreviation SenderId := nat.

(** ** What the three have in common *)
Section Relay.
(** Requests, what an operation stores in the object before it is submitted, and
    what receivers are called with. *)
Context {Req Slot Note Env : Type}.

(** The object of the second stage: [slot_] and [payload_] are [published_]
    ([requested_]), and [receiver_] is the lambda of that sender. *)
Record RelayObj := mkRelay {
  completion_error_ : OptError;
  receiver_ : option SenderId;
  slot_ : Slot;
  payload_ : bytes;
}.

Record RelayWorld := mkRelayWorld {
  request_ : Req;                          (* of the client *)
  made : list (Error + unit);              (* the calls of the client's receiver *)
  relay : option RelayObj;                 (* the object, once the client has made it *)
  senders : gset SenderId;                 (* the senders that exist *)
  next_sender : SenderId;
  received : list (SenderId * Note);       (* the calls of the users' receivers *)
  ch_out : list (Req * bytes);             (* what was handed to the channel *)
  cl_env : Env;
}.
Abbreviation W := RelayWorld.

Definition set_relay (o : RelayObj) (w : W) : W :=
  mkRelayWorld (request_ w) (made w) (Some o) (senders w) (next_sender w) (received w) (ch_out w) (cl_env w).

(** Members of the object are accessed through it. *)
Definition get_relay : M W RelayObj :=
  o ← gets relay;
  match o with Some o => mret o | None => undef end.

Definition put_relay (o : RelayObj) : M W unit := modify (set_relay o).

Context (channel_send : Req -> bytes -> Env -> OptError * Env).

Definition relay_send (request : Req) (sock_buff : bytes) : M W OptError := liftF (fun w =>
  let '(e, env) := channel_send request sock_buff (cl_env w) in
  (e, mkRelayWorld (request_ w) (made w) (relay w) (senders w) (next_sender w) (received w)
                   (ch_out w ++ [(request, sock_buff)]) env)).

(** *** The first stage *)
Definition client_receiver (result : Error + unit) : M W unit := modify (fun w =>
  mkRelayWorld (request_ w) (made w ++ [result]) (relay w) (senders w) (next_sender w) (received w) (ch_out w) (cl_env w)).

(** [handleEvent(Connected)] *)
Definition client_connected : M W unit :=
  request ← gets request_;
  opt_error ← relay_send request [];
  match opt_error with
  | Some e => client_receiver (inl e)
  | None => mret tt
  end.

(** [handleEvent(Input)]: the object takes the channel. *)
Definition client_input (slot : Slot) : M W unit :=
  put_relay (mkRelay None None slot []);;
  client_receiver (inr tt).

(** [handleEvent(Completed)] *)
Definition client_completed (opt_error : OptError) : M W unit :=
  client_receiver (inl (default (Err Code.Canceled) opt_error)).

(** *** Senders *)

(** [std::make_unique<AsSender>] *)
Definition make_sender : M W SenderId :=
  id ← gets next_sender;
  modify (fun w => mkRelayWorld (request_ w) (made w) (relay w) ({[id]} ∪ senders w) (S id) (received w) (ch_out w) (cl_env w));;
  mret id.

Definition destroy_sender (id : SenderId) : M W unit := modify (fun w =>
  mkRelayWorld (request_ w) (made w) (relay w) (senders w ∖ {[id]}) (next_sender w) (received w) (ch_out w) (cl_env w)).

(** The lambda of [AsSender::submitImpl]: its first line is [this->logger_]. *)
Definition sender_lambda (id : SenderId) (result : Note) : M W unit :=
  alive ← gets (fun w => bool_decide (id ∈ senders w));
  if alive : bool then modify (fun w =>
    mkRelayWorld (request_ w) (made w) (relay w) (senders w) (next_sender w) (received w ++ [(id, result)]) (ch_out w) (cl_env w))
  else undef.

(** [AsSender::submitImpl] *)
Definition submitImpl (svc_client_submit : SenderId -> M W unit) (id : SenderId) : M W unit :=
  alive ← gets (fun w => bool_decide (id ∈ senders w));
  if alive : bool then svc_client_submit id else undef.

(** *** The second stage *)
Definition notifyReceived (result : Note) : M W unit :=
  o ← get_relay;
  match receiver_ o with
  | Some id => sender_lambda id result
  | None => mret tt
  end.

Definition set_receiver (id : SenderId) : M W unit :=
  o ← get_relay;
  put_relay (mkRelay (completion_error_ o) (Some id) (slot_ o) (payload_ o)).

Definition clear_payload : M W unit :=
  o ← get_relay;
  put_relay (mkRelay (completion_error_ o) (receiver_ o) (slot_ o) []).

(** [handleEvent(Completed)] of the object. *)
Definition relay_completed (failure : Error -> Note) (opt_error : OptError) : M W unit :=
  let error := default (Err Code.Canceled) opt_error in
  o ← get_relay;
  put_relay (mkRelay (Some error) (receiver_ o) (slot_ o) (payload_ o));;
  notifyReceived (failure error).
End Relay.
Arguments RelayObj : clear implicits.
Arguments RelayWorld : clear implicits.

(** A world in which a client was just made. *)
Definition new_relay {Req Slot Note Env} (request : Req) (env : Env) : RelayWorld Req Slot Note Env :=
  mkRelayWorld request [] None ∅ 0 [] [] env.

(** What happens to a client and its object: an event of the channel, or
    something that the user does. *)
Inductive RelayEvent (Res Operation : Type) : Type :=
| OnChannel (event : ChannelEvent Res) (payload : bytes)
| MakeSender (operation : Operation)
| Submit (id : SenderId)
| SetPriority (priority : Z)
| DestroySender (id : SenderId).
Arguments OnChannel {Res Operation}.
Arguments MakeSender {Res Operation}.
Arguments Submit {Res Operation}.
Arguments SetPriority {Res Operation}.
Arguments DestroySender {Res Operation}.

(** ** [raw_publisher_client.cpp] *)
Module PubClient.

(** The operations store a timeout, and their receivers take an optional error. *)
Abbreviation World := (RelayWorld RawPub.Request Z OptError).

Section Publisher.
Abbreviation Request := RawPub.Request.
Abbreviation Response := RawPub.Response.
Context {Env : Type} (channel_send : Request -> bytes -> Env -> OptError * Env).
Abbreviation W := (World Env).

(** [Daemon::makePublisher] *)
Definition makePublisher (subject_id : Z) (env : Env) : W := new_relay (RawPub.Req_create subject_id) env.

(** [PublisherImpl::submit] *)
Definition pub_submit (receiver : SenderId) : M W unit :=
  o ← get_relay;
  match completion_error_ o with
  | Some error => sender_lambda receiver (Some error)
  | None =>
      let request := RawPub.Req_publish (slot_ o) (Z.of_nat (length (payload_ o))) in
      opt_send_error ← relay_send channel_send request (payload_ o);
      clear_payload;;
      match opt_send_error with
      | Some error => sender_lambda receiver (Some error)
      | None => set_receiver receiver
      end
  end.

(** [PublisherImpl::rawPublish] *)
Definition rawPublish (raw_payload : bytes) (timeout : Z) : M W SenderId :=
  o ← get_relay;
  put_relay (mkRelay (completion_error_ o) (receiver_ o) (timeout_to_us timeout) raw_payload);;
  make_sender.

(** [PublisherImpl::setPriority] *)
Definition pub_setPriority (priority : Z) : M W OptError :=
  o ← get_relay;
  match completion_error_ o with
  | Some error => mret (Some error)
  | None => relay_send channel_send (RawPub.Req_config (Some (u8 priority))) []
  end.

(** [PublisherImpl::handleEvent(Input)] *)
Definition pub_handleInput (input : Response) : M W unit :=
  match input with
  | RawPub.Res_publish_error publish_error => notifyReceived (dsdlErrorToOptError publish_error)
  | RawPub.Res_empty => mret tt
  end.

(** The handler of the channel: the client's until it has made the publisher. *)
Definition pub_handleEvent (event : ChannelEvent Response) (payload : bytes) : M W unit :=
  r ← gets relay;
  match r, event with
  | None, ChConnected => client_connected channel_send
  | None, ChInput _ => client_input 0
  | None, ChCompleted opt_error _ => client_completed opt_error
  | Some _, ChConnected => mret tt
  | Some _, ChInput input => pub_handleInput input
  | Some _, ChCompleted opt_error _ => relay_completed Some opt_error
  end.

Definition pub_handle (e : RelayEvent Response (bytes * Z)) : M W unit :=
  match e with
  | OnChannel event payload => pub_handleEvent event payload
  | MakeSender operation => rawPublish (operation.1) (operation.2);; mret tt
  | Submit id => submitImpl pub_submit id
  | SetPriority priority => pub_setPriority priority;; mret tt
  | DestroySender id => destroy_sender id
  end.
End Publisher.
End PubClient.

(** ** [raw_subscriber_client.cpp] *)
Module SubClient.

(** [Subscriber::RawReceive::Success] *)
Record RawReceive := mkReceive { rcv_payload : bytes; rcv_priority : Z; publisher_node_id : option Z }.

Abbreviation World := (RelayWorld RawSub.Request unit (RawReceive + Error)).

Section Subscriber.
Abbreviation Request := RawSub.Request.
Abbreviation Response := RawSub.Response.
Context {Env : Type} (channel_send : Request -> bytes -> Env -> OptError * Env).
Abbreviation W := (World Env).

(** [Daemon::makeSubscriber] *)
Definition makeSubscriber (subject_id extent_bytes : Z) (env : Env) : W := new_relay (RawSub.Req_create subject_id extent_bytes) env.

(** [SubscriberImpl::submit] *)
Definition sub_submit (receiver : SenderId) : M W unit :=
  o ← get_relay;
  match completion_error_ o with
  | Some error => sender_lambda receiver (inr error)
  | None => set_receiver receiver
  end.

(** [SubscriberImpl::rawReceive] *)
Definition rawReceive : M W SenderId :=
  get_relay;;
  make_sender.

(** [SubscriberImpl::handleEvent(Input)] *)
Definition sub_handleInput (input : Response) (payload : bytes) : M W unit :=
  match input with
  | RawSub.Res_receive priority remote_node_id payload_size =>
      raw_msg_payload ← ofOutcome (payload_tail payload payload_size);
      notifyReceived (inl (mkReceive raw_msg_payload priority remote_node_id))
  | RawSub.Res_empty => mret tt
  end.

Definition sub_handleEvent (event : ChannelEvent Response) (payload : bytes) : M W unit :=
  r ← gets relay;
  match r, event with
  | None, ChConnected => client_connected channel_send
  | None, ChInput _ => client_input tt
  | None, ChCompleted opt_error _ => client_completed opt_error
  | Some _, ChConnected => mret tt
  | Some _, ChInput input => sub_handleInput input payload
  | Some _, ChCompleted opt_error _ => relay_completed inr opt_error
  end.

(** A subscriber has no priority. *)
Definition sub_handle (e : RelayEvent Response unit) : M W unit :=
  match e with
  | OnChannel event payload => sub_handleEvent event payload
  | MakeSender _ => rawReceive;; mret tt
  | Submit id => submitImpl sub_submit id
  | SetPriority _ => mret tt
  | DestroySender id => destroy_sender id
  end.
End Subscriber.
End SubClient.

(** ** [raw_rpc_client.cpp] *)
Module RpcClient.

(** [NodeRpcClient::RawCall::Success] *)
Record RawCall := mkCall { raw_response : bytes; call_priority : Z; server_node_id : Z }.

(** The operations store two timeouts. *)
Abbreviation World := (RelayWorld RawRpc.Request (Z * Z) (RawCall + Error)).

Section Rpc.
Abbreviation Request := RawRpc.Request.
Abbreviation Response := RawRpc.Response.
Context {Env : Type} (channel_send : Request -> bytes -> Env -> OptError * Env).
Abbreviation W := (World Env).

(** [Daemon::makeRpcClient] *)
Definition makeRpcClient (service_id server_node_id extent_bytes : Z) (env : Env) : W :=
  new_relay (RawRpc.Req_create extent_bytes service_id server_node_id) env.

(** [NodeRpcClientImpl::submit] *)
Definition rpc_submit (receiver : SenderId) : M W unit :=
  o ← get_relay;
  match completion_error_ o with
  | Some error => sender_lambda receiver (inr error)
  | None =>
      let request := RawRpc.Req_call (slot_ o).1 (slot_ o).2 (Z.of_nat (length (payload_ o))) in
      opt_send_error ← relay_send channel_send request (payload_ o);
      clear_payload;;
      match opt_send_error with
      | Some error => sender_lambda receiver (inr error)
      | None => set_receiver receiver
      end
  end.

(** [NodeRpcClientImpl::rawCall] *)
Definition rawCall (raw_request_payload : bytes) (request_timeout response_timeout : Z) : M W SenderId :=
  o ← get_relay;
  put_relay (mkRelay (completion_error_ o) (receiver_ o)
                     (timeout_to_us request_timeout, timeout_to_us response_timeout) raw_request_payload);;
  make_sender.

(** [NodeRpcClientImpl::setPriority] *)
Definition rpc_setPriority (priority : Z) : M W OptError :=
  o ← get_relay;
  match completion_error_ o with
  | Some error => mret (Some error)
  | None => relay_send channel_send (RawRpc.Req_config (Some (u8 priority))) []
  end.

(** [NodeRpcClientImpl::handleEvent(Input)] *)
Definition rpc_handleInput (input : Response) (payload : bytes) : M W unit :=
  match input with
  | RawRpc.Res_receive priority remote_node_id payload_size =>
      raw_msg_payload ← ofOutcome (payload_tail payload payload_size);
      notifyReceived (inl (mkCall raw_msg_payload priority remote_node_id))
  | RawRpc.Res_error response_error =>
      notifyReceived (inr (default (Err Code.Other) (dsdlErrorToOptError response_error)))
  | RawRpc.Res_empty => mret tt
  end.

Definition rpc_handleEvent (event : ChannelEvent Response) (payload : bytes) : M W unit :=
  r ← gets relay;
  match r, event with
  | None, ChConnected => client_connected channel_send
  | None, ChInput _ => client_input (0, 0)
  | None, ChCompleted opt_error _ => client_completed opt_error
  | Some _, ChConnected => mret tt
  | Some _, ChInput input => rpc_handleInput input payload
  | Some _, ChCompleted opt_error _ => relay_completed inr opt_error
  end.

Definition rpc_handle (e : RelayEvent Response (bytes * Z * Z)) : M W unit :=
  match e with
  | OnChannel event payload => rpc_handleEvent event payload
  | MakeSender operation => let '(raw_request_payload, t1, t2) := operation in rawCall raw_request_payload t1 t2;; mret tt
  | Submit id => submitImpl rpc_submit id
  | SetPriority priority => rpc_setPriority priority;; mret tt
  | DestroySender id => destroy_sender id
  end.
End Rpc.
End RpcClient.

(** ** Receivers that are called exist *)
Section Safety.
Context {Req Slot Note Env : Type}.
Abbreviation W := (RelayWorld Req Slot Note Env).
Implicit Types (w : W) (o : RelayObj Slot) (id : SenderId).

(** The sender whose lambda the object keeps was not destroyed. *)
Definition receiver_alive w : Prop :=
  forall o id, relay w = Some o -> receiver_ o = Some id -> id ∈ senders w.

(** What users and the channel may do: users use the object only once it was
    given to them, they submit senders that they have, they keep the sender
    whose lambda the object has, and data has the tail that its header announces. *)
Definition relay_event_ok {Res Operation} (data_ok : Res -> bytes -> Prop) w (e : RelayEvent Res Operation) : Prop :=
  match e with
  | OnChannel (ChInput input) payload => data_ok input payload
  | OnChannel _ _ => True
  | MakeSender _ | SetPriority _ => relay w <> None
  | Submit id => relay w <> None /\ id ∈ senders w
  | DestroySender id => forall o, relay w = Some o -> receiver_ o <> Some id
  end.

Lemma wp_get_relay o (Q : RelayObj Slot -> W -> Prop) w : relay w = Some o -> Q o w -> wp get_relay Q w.
Proof. intros Ho HQ. unfold get_relay. wp_steps. by rewrite Ho. Qed.

Lemma wp_sender_lambda id (n : Note) (Q : unit -> W -> Prop) w :
  id ∈ senders w ->
  Q tt (mkRelayWorld (request_ w) (made w) (relay w) (senders w) (next_sender w) (received w ++ [(id, n)]) (ch_out w) (cl_env w)) ->
  wp (sender_lambda id n) Q w.
Proof. intros Hid HQ. unfold sender_lambda. wp_steps. rewrite bool_decide_eq_true_2 by done. by wp_step. Qed.

Lemma sender_lambda_dead id (n : Note) w : id ∉ senders w -> sender_lambda id n w = Undef.
Proof. intros Hid. unfold sender_lambda, gets, mbind, M_bind. by rewrite bool_decide_eq_false_2. Qed.

Lemma wp_submitImpl f id (Q : unit -> W -> Prop) w : id ∈ senders w -> wp (f id) Q w -> wp (submitImpl f id) Q w.
Proof. intros Hid HQ. unfold submitImpl. wp_steps. by rewrite bool_decide_eq_true_2 by done. Qed.

Lemma wp_make_sender (Q : SenderId -> W -> Prop) w :
  Q (next_sender w) (mkRelayWorld (request_ w) (made w) (relay w) ({[next_sender w]} ∪ senders w) (S (next_sender w))
                                  (received w) (ch_out w) (cl_env w)) -> wp make_sender Q w.
Proof. intros HQ. unfold make_sender. by wp_steps. Qed.

Lemma wp_relay_send f (r : Req) bs (Q : OptError -> W -> Prop) w :
  Q (f r bs (cl_env w)).1 (mkRelayWorld (request_ w) (made w) (relay w) (senders w) (next_sender w) (received w)
                             (ch_out w ++ [(r, bs)]) (f r bs (cl_env w)).2) ->
  wp (relay_send f r bs) Q w.
Proof. intros HQ. apply wp_liftF. by destruct (f r bs (cl_env w)). Qed.

Lemma notify_alive (n : Note) w :
  relay w <> None -> receiver_alive w -> wp (notifyReceived n) (fun _ => receiver_alive) w.
Proof.
  intros Hr Hw. destruct (relay w) as [o|] eqn:Ho; [|done]. unfold notifyReceived. apply wp_bind, (wp_get_relay o); [done|].
  destruct (receiver_ o) as [id|] eqn:Hid; [|by apply wp_ret]. apply wp_sender_lambda; [by eapply Hw|].
  intros o' id'. cbn. apply Hw.
Qed.

Lemma relay_completed_alive (failure : Error -> Note) e w :
  relay w <> None -> receiver_alive w -> wp (relay_completed failure e) (fun _ => receiver_alive) w.
Proof.
  intros Hr Hw. destruct (relay w) as [o|] eqn:Ho; [|done]. unfold relay_completed. apply wp_bind, (wp_get_relay o); [done|].
  apply wp_bind, wp_modify, notify_alive; [done|]. intros o' id [= <-]. cbn. by apply Hw.
Qed.

Lemma client_connected_alive f w : receiver_alive w -> wp (client_connected f) (fun _ => receiver_alive) w.
Proof.
  intros Hw. unfold client_connected. do 3 wp_step. apply wp_relay_send.
  destruct (f _ _ _).1; [apply wp_modify|apply wp_ret]; exact Hw.
Qed.

Lemma client_input_alive (slot : Slot) w : receiver_alive w -> wp (client_input slot) (fun _ => receiver_alive) w.
Proof. intros Hw. apply wp_bind, wp_modify, wp_modify. by intros o id [= <-]. Qed.

Lemma client_completed_alive e w : receiver_alive w -> wp (client_completed e) (fun _ => receiver_alive) w.
Proof. intros Hw. apply wp_modify. exact Hw. Qed.

Lemma set_receiver_alive id w :
  relay w <> None -> id ∈ senders w -> wp (set_receiver id) (fun _ => receiver_alive) w.
Proof.
  intros Hr Hid. destruct (relay w) as [o|] eqn:Ho; [|done]. apply wp_bind, (wp_get_relay o); [done|]. apply wp_modify.
  by intros o' id' [= <-] [= <-].
Qed.

Lemma sender_lambda_alive id (n : Note) w :
  id ∈ senders w -> receiver_alive w -> wp (sender_lambda id n) (fun _ => receiver_alive) w.
Proof. intros Hid Hw. by apply wp_sender_lambda. Qed.

Lemma put_slot_alive o slot bs w :
  relay w = Some o -> receiver_alive w ->
  receiver_alive (set_relay (mkRelay (completion_error_ o) (receiver_ o) slot bs) w).
Proof. intros Ho Hw o' id [= <-]. cbn. by apply Hw. Qed.

Lemma make_sender_alive w : receiver_alive w -> wp make_sender (fun _ => receiver_alive) w.
Proof. intros Hw. unfold make_sender. wp_steps. intros o id Ho Hid. cbn in *. specialize (Hw o id Ho Hid). set_solver. Qed.

Lemma destroy_alive id w :
  (forall o, relay w = Some o -> receiver_ o <> Some id) -> receiver_alive w -> wp (destroy_sender id) (fun _ => receiver_alive) w.
Proof.
  intros Hne Hw. apply wp_modify. intros o id' Ho Hid. cbn in *. specialize (Hw o id' Ho Hid). specialize (Hne o Ho).
  apply elem_of_difference. split; [done|]. rewrite elem_of_singleton. congruence.
Qed.

Lemma prepare_alive o slot bs w :
  relay w = Some o -> receiver_alive w ->
  wp (put_relay (mkRelay (completion_error_ o) (receiver_ o) slot bs);; make_sender) (fun _ => receiver_alive) w.
Proof. intros Ho Hw. apply wp_bind, wp_modify, make_sender_alive. by apply put_slot_alive. Qed.

(** A result that nobody uses. *)
Lemma wp_ignore {A} (m : M W A) (Q : W -> Prop) w : wp m (fun _ => Q) w -> wp (m;; mret tt) (fun _ => Q) w.
Proof. intros Hm. apply wp_bind. eapply wp_mono; [exact Hm|]. intros a w' HQ. by apply wp_ret. Qed.

(** A submission that sends, whatever the object is: the end of
    [PublisherImpl::submit] and [NodeRpcClientImpl::submit]. *)
Lemma submit_send_alive f (r : Req) bs (failure : Error -> Note) id w :
  relay w <> None -> id ∈ senders w -> receiver_alive w ->
  wp (opt_send_error ← relay_send f r bs; clear_payload;;
      match opt_send_error with Some e => sender_lambda id (failure e) | None => set_receiver id end)
     (fun _ => receiver_alive) w.
Proof.
  intros Hr Hid Hw. destruct (relay w) as [o|] eqn:Ho; [|done].
  apply wp_bind, wp_relay_send, wp_bind, wp_bind, (wp_get_relay o); [done|]. apply wp_modify.
  destruct (f _ _ _).1; [apply sender_lambda_alive|apply set_receiver_alive]; try done.
  apply put_slot_alive; [done|exact Hw].
Qed.
End Safety.

Create HintDb relay.
#[export] Hint Resolve notify_alive relay_completed_alive client_connected_alive client_input_alive
  client_completed_alive destroy_alive make_sender_alive sender_lambda_alive set_receiver_alive : relay.

(** Data of an answer: it ends with as many bytes as its header says. *)
Definition pub_data_ok (input : RawPub.Response) (payload : bytes) : Prop := True.

Definition sub_data_ok (input : RawSub.Response) (payload : bytes) : Prop :=
  match input with
  | RawSub.Res_receive _ _ size => 0 <= size <= Z.of_nat (length payload) /\ Z.of_nat (length payload) < 2 ^ 64
  | RawSub.Res_empty => True
  end.

Definition rpc_data_ok (input : RawRpc.Response) (payload : bytes) : Prop :=
  match input with
  | RawRpc.Res_receive _ _ size => 0 <= size <= Z.of_nat (length payload) /\ Z.of_nat (length payload) < 2 ^ 64
  | RawRpc.Res_empty | RawRpc.Res_error _ => True
  end.

Lemma payload_tail_total payload size :
  0 <= size <= Z.of_nat (length payload) -> Z.of_nat (length payload) < 2 ^ 64 ->
  exists data, payload_tail payload size = Done data.
Proof.
  intros Hs Hl. destruct (payload_tail payload size) eqn:E; [eauto|]. exfalso.
  by apply (payload_tail_defined payload size) in Hl; [|lia]; destruct Hl as [_ Hl]; apply Hl; [lia|].
Qed.

Section Clients.
Context {Env : Type}.

Lemma pub_client_alive f (w : PubClient.World Env) e :
  receiver_alive w -> relay_event_ok pub_data_ok w e -> wp (PubClient.pub_handle f e) (fun _ => receiver_alive) w.
Proof.
  intros Hw He. destruct e as [event payload|operation|id|p|id]; cbn [PubClient.pub_handle relay_event_ok] in *.
  - unfold PubClient.pub_handleEvent. do 2 wp_step. destruct (relay w) as [o|] eqn:Ho, event as [|input|e k]; auto with relay.
    + destruct input as [|e]; [by apply wp_ret|]. apply notify_alive; [congruence|done].
    + apply relay_completed_alive; [congruence|done].
  - destruct (relay w) as [o|] eqn:Ho; [|done]. apply wp_ignore, wp_bind, (wp_get_relay o); [done|]. by apply prepare_alive.
  - destruct He as [Hr Hid]. apply wp_submitImpl; [done|]. destruct (relay w) as [o|] eqn:Ho; [|done].
    apply wp_bind, (wp_get_relay o); [done|]. destruct (completion_error_ o); [by apply sender_lambda_alive|].
    apply submit_send_alive; try done; congruence.
  - destruct (relay w) as [o|] eqn:Ho; [|done]. apply wp_ignore, wp_bind, (wp_get_relay o); [done|].
    destruct (completion_error_ o); [by apply wp_ret|]. by apply wp_relay_send.
  - by apply destroy_alive.
Qed.

Lemma sub_client_alive f (w : SubClient.World Env) e :
  receiver_alive w -> relay_event_ok sub_data_ok w e -> wp (SubClient.sub_handle f e) (fun _ => receiver_alive) w.
Proof.
  intros Hw He. destruct e as [event payload|operation|id|p|id]; cbn [SubClient.sub_handle relay_event_ok] in *.
  - unfold SubClient.sub_handleEvent. do 2 wp_step. destruct (relay w) as [o|] eqn:Ho, event as [|input|e k]; auto with relay.
    + destruct input as [|p n size]; [by apply wp_ret|]. destruct He as [Hs Hl].
      destruct (payload_tail_total _ _ Hs Hl) as [data Hd]. apply wp_bind. eapply wp_ofOutcome; [exact Hd|].
      apply notify_alive; [congruence|done].
    + apply relay_completed_alive; [congruence|done].
  - destruct (relay w) as [o|] eqn:Ho; [|done]. apply wp_ignore, wp_bind, (wp_get_relay o); [done|]. by apply make_sender_alive.
  - destruct He as [Hr Hid]. apply wp_submitImpl; [done|]. destruct (relay w) as [o|] eqn:Ho; [|done].
    apply wp_bind, (wp_get_relay o); [done|]. destruct (completion_error_ o); [by apply sender_lambda_alive|].
    apply set_receiver_alive; try done; congruence.
  - by apply wp_ret.
  - by apply destroy_alive.
Qed.

Lemma rpc_client_alive f (w : RpcClient.World Env) e :
  receiver_alive w -> relay_event_ok rpc_data_ok w e -> wp (RpcClient.rpc_handle f e) (fun _ => receiver_alive) w.
Proof.
  intros Hw He. destruct e as [event payload|[[bs t1] t2]|id|p|id]; cbn [RpcClient.rpc_handle relay_event_ok] in *.
  - unfold RpcClient.rpc_handleEvent. do 2 wp_step. destruct (relay w) as [o|] eqn:Ho, event as [|input|e k]; auto with relay.
    + destruct input as [|p n size|e]; [by apply wp_ret| |apply notify_alive; [congruence|done]]. destruct He as [Hs Hl].
      destruct (payload_tail_total _ _ Hs Hl) as [data Hd]. apply wp_bind. eapply wp_ofOutcome; [exact Hd|].
      apply notify_alive; [congruence|done].
    + apply relay_completed_alive; [congruence|done].
  - destruct (relay w) as [o|] eqn:Ho; [|done]. apply wp_ignore, wp_bind, (wp_get_relay o); [done|]. by apply prepare_alive.
  - destruct He as [Hr Hid]. apply wp_submitImpl; [done|]. destruct (relay w) as [o|] eqn:Ho; [|done].
    apply wp_bind, (wp_get_relay o); [done|]. destruct (completion_error_ o); [by apply sender_lambda_alive|].
    apply submit_send_alive; try done; congruence.
  - destruct (relay w) as [o|] eqn:Ho; [|done]. apply wp_ignore, wp_bind, (wp_get_relay o); [done|].
    destruct (completion_error_ o); [by apply wp_ret|]. by apply wp_relay_send.
  - by apply destroy_alive.
Qed.
End Clients.

(** C33: no event makes an object of the SDK use a destroyed sender or read past its
    data: for the publisher, the subscriber and the RPC client, from a state in
    which the kept receiver is alive, every event of the channel and every
    operation of a careful user (one who keeps a sender for as long as the
    object holds its receiver) has no undefined behaviour, and the kept
    receiver is alive afterwards. *)
Theorem relay_clients_safe {Env : Type} fp fs fr (wp_ : PubClient.World Env) (ws : SubClient.World Env)
    (wr : RpcClient.World Env) ep es er :
  receiver_alive wp_ -> receiver_alive ws -> receiver_alive wr ->
  relay_event_ok pub_data_ok wp_ ep -> relay_event_ok sub_data_ok ws es -> relay_event_ok rpc_data_ok wr er ->
  wp (PubClient.pub_handle fp ep) (fun _ => receiver_alive) wp_ /\
  wp (SubClient.sub_handle fs es) (fun _ => receiver_alive) ws /\
  wp (RpcClient.rpc_handle fr er) (fun _ => receiver_alive) wr.
Proof.
  intros. split; [|split]; [by apply pub_client_alive|by apply sub_client_alive|by apply rpc_client_alive].
Qed.

(** What happens when a user is not careful: an operation was submitted, its
    sender was then destroyed (as the temporary of a finished [sync_wait] is),
    and the channel is completed, because the daemon went away: the object
    calls a lambda whose sender does not exist. *)
Theorem relay_receiver_dangles {Req Slot Note Env} (failure : Error -> Note) opt_error
    (w : RelayWorld Req Slot Note Env) o id :
  relay w = Some o -> receiver_ o = Some id ->
  (destroy_sender id;; relay_completed failure opt_error) w = Undef.
Proof.
  intros Ho Hid. unfold destroy_sender, relay_completed, notifyReceived, get_relay, put_relay, modify, gets, mbind, M_bind.
  cbn. rewrite Ho. cbn. rewrite Hid. apply sender_lambda_dead. cbn. set_solver.
Qed.

(** Two operations that are prepared before either is submitted share the
    place of the payload: the message of the first is lost, the submission of
    the first publishes that of the second, and the submission of the second
    publishes an empty message. *)
Theorem prepared_twice_publishes_empty {Env} (f : RawPub.Request -> bytes -> Env -> OptError * Env) m1 m2 t1 t2
    (w : PubClient.World Env) o :
  (forall r bs env, (f r bs env).1 = None) -> relay w = Some o -> completion_error_ o = None ->
  wp (id1 ← PubClient.rawPublish m1 t1; id2 ← PubClient.rawPublish m2 t2;
      submitImpl (PubClient.pub_submit f) id1;; submitImpl (PubClient.pub_submit f) id2)
     (fun _ w' => ch_out w' = ch_out w ++
        [(RawPub.Req_publish (timeout_to_us t2) (Z.of_nat (length m2)), m2); (RawPub.Req_publish (timeout_to_us t2) 0, [])]) w.
Proof.
  intros Hall Ho Hc. do 2 (apply wp_bind; apply wp_bind; (eapply wp_get_relay; [done|]); apply wp_bind, wp_modify, wp_make_sender).
  apply wp_bind, wp_submitImpl; [cbn; set_solver|]. apply wp_bind. eapply wp_get_relay; [done|]. cbn [completion_error_]. rewrite Hc.
  apply wp_bind, wp_relay_send. rewrite Hall. apply wp_bind, wp_bind. eapply wp_get_relay; [done|]. apply wp_modify, wp_bind.
  eapply wp_get_relay; [done|]. apply wp_modify, wp_submitImpl; [cbn; set_solver|].
  apply wp_bind. eapply wp_get_relay; [done|]. cbn [completion_error_]. rewrite ?Hc. cbn iota.
  apply wp_bind, wp_relay_send. rewrite Hall. apply wp_bind, wp_bind. eapply wp_get_relay; [done|]. apply wp_modify, wp_bind.
  eapply wp_get_relay; [done|]. apply wp_modify. cbn. by rewrite <- app_assoc.
Qed.

(** ** Examples *)
Module RelayExample.

(** A channel that takes everything and counts. *)
Definition channel {Req} (request : Req) (sock_buff : bytes) (env : Z) : OptError * Z := (None, env + 1).

(** Objects that were just made. *)
Definition publisher : PubClient.World Z :=
  mkRelayWorld (RawPub.Req_create 7) [inr tt] (Some (mkRelay None None 0 [])) ∅ 0 [] [] 1.
Definition subscriber : SubClient.World Z :=
  mkRelayWorld (RawSub.Req_create 7 64) [inr tt] (Some (mkRelay None None tt [])) ∅ 0 [] [] 1.
Definition rpc_client : RpcClient.World Z :=
  mkRelayWorld (RawRpc.Req_create 64 430 42) [inr tt] (Some (mkRelay None None (0, 0) [])) ∅ 0 [] [] 1.

(** Objects with a submitted operation. *)
Definition busy_publisher : PubClient.World Z :=
  mkRelayWorld (RawPub.Req_create 7) [inr tt] (Some (mkRelay None (Some 0%nat) 0 [])) {[0%nat]} 1 [] [] 1.
Definition busy_subscriber : SubClient.World Z :=
  mkRelayWorld (RawSub.Req_create 7 64) [inr tt] (Some (mkRelay None (Some 0%nat) tt [])) {[0%nat]} 1 [] [] 1.
Definition busy_rpc_client : RpcClient.World Z :=
  mkRelayWorld (RawRpc.Req_create 64 430 42) [inr tt] (Some (mkRelay None (Some 0%nat) (0, 0) [])) {[0%nat]} 1 [] [] 1.

Lemma busy_alive {Req Slot Note} (r : Req) m (slot : Slot) :
  receiver_alive (Note := Note) (mkRelayWorld r m (Some (mkRelay None (Some 0%nat) slot [])) {[0%nat]} 1 [] [] 1).
Proof. intros o id [= <-] [= <-]. cbn. set_solver. Qed.
End RelayExample.

Lemma relay_clients_safe_witness :
  wp (PubClient.pub_handle RelayExample.channel (OnChannel (ChCompleted None false) [])) (fun _ => receiver_alive) RelayExample.busy_publisher /\
  wp (SubClient.sub_handle RelayExample.channel (OnChannel (ChInput (RawSub.Res_receive 4 None 3)) (str "headermsg"))) (fun _ => receiver_alive)
     RelayExample.busy_subscriber /\
  wp (RpcClient.rpc_handle RelayExample.channel (OnChannel (ChInput (RawRpc.Res_receive 4 42 3)) (str "headermsg"))) (fun _ => receiver_alive)
     RelayExample.busy_rpc_client.
Proof.
  apply relay_clients_safe; try apply RelayExample.busy_alive; [done|vm_compute; intuition congruence..].
Defined.

Lemma relay_receiver_dangles_witness :
  (destroy_sender 0%nat;; relay_completed Some None) RelayExample.busy_publisher = Undef.
Proof. by apply (relay_receiver_dangles Some None RelayExample.busy_publisher (mkRelay None (Some 0%nat) 0 []) 0%nat). Defined.

Lemma prepared_twice_publishes_empty_witness :
  wp (id1 ← PubClient.rawPublish (str "one") 1000; id2 ← PubClient.rawPublish (str "two") 2000;
      submitImpl (PubClient.pub_submit RelayExample.channel) id1;; submitImpl (PubClient.pub_submit RelayExample.channel) id2)
     (fun _ w' => ch_out w' = ch_out RelayExample.publisher ++
        [(RawPub.Req_publish (timeout_to_us 2000) (Z.of_nat (length (str "two"))), str "two");
         (RawPub.Req_publish (timeout_to_us 2000) 0, [])]) RelayExample.publisher.
Proof.
  exact (prepared_twice_publishes_empty RelayExample.channel (str "one") (str "two") 1000 2000 RelayExample.publisher
           (mkRelay None None 0 []) (fun _ _ _ => eq_refl) eq_refl eq_refl).
Defined.
