(* ===== verification/RelayEndToEnd.v ===== *)
(** * Messages and calls from the SDK to the network and back

    The objects of [RelayClients] and the relay services of the daemon together.
    What a client hands to its channel reaches the service as a request whose
    payload is the serialized request ([header]) followed by the client's bytes
    ([Channel.request_reaches_service]); answers come back the same way
    ([Channel.answer_reaches_handler]). The theorems nest as the events follow each other. *)
From S2P Require Import Prelude Errors SocketBuffer ServiceState NodeService NodeClients Channel.
From S2P Require Import RawPublisher RawSubscriber RawRpcClient RelayClients.

Local Open Scope Z_scope.

(** A header and [msg] behind it, as one payload. *)
Definition framed (header msg : bytes) : Prop := Z.of_nat (length (header ++ msg)) < 2 ^ 64.

Lemma framed_size header msg : framed header msg -> 0 <= Z.of_nat (length msg) <= Z.of_nat (length (header ++ msg)).
Proof. intros _. rewrite length_app. lia. Qed.

Section Submissions.
Context {Req Slot Note Env : Type} (f : Req -> bytes -> Env -> OptError * Env).
Abbreviation W := (RelayWorld Req Slot Note Env).
Implicit Types (w : W) (o : RelayObj Slot) (id : SenderId).

(** The channel takes what it is given. *)
Definition sends_all : Prop := forall r bs env, (f r bs env).1 = None.

(** The object awaits an answer for [id] and what it sent before that is [out]. *)
Definition awaiting w w' id out : Prop :=
  ch_out w' = ch_out w ++ out /\ received w' = received w /\ id ∈ senders w' /\
  exists o, relay w' = Some o /\ receiver_ o = Some id.

(** Sending, and keeping the receiver. *)
Lemma wp_submit_send (r : Req) bs (failure : Error -> Note) id w :
  sends_all -> relay w <> None -> id ∈ senders w ->
  wp (opt_send_error ← relay_send f r bs; clear_payload;;
      match opt_send_error with Some e => sender_lambda id (failure e) | None => set_receiver id end)
     (fun _ w' => awaiting w w' id [(r, bs)]) w.
Proof.
  intros Hall Hr Hid. destruct (relay w) as [o|] eqn:Ho; [|done]. apply wp_bind, wp_relay_send. rewrite Hall.
  apply wp_bind, wp_bind, (wp_get_relay o); [done|]. apply wp_modify. apply wp_bind. eapply wp_get_relay; [done|].
  apply wp_modify. do 3 (split; [done|]). by eexists.
Qed.

(** An answer for the awaited sender. *)
Lemma wp_notify_awaited (n : Note) w w' id out :
  awaiting w w' id out -> wp (notifyReceived n) (fun _ w2 => received w2 = received w ++ [(id, n)]) w'.
Proof.
  intros (_ & Hr & Hid & o & Ho & Hrcv). unfold notifyReceived. apply wp_bind, (wp_get_relay o); [done|]. rewrite Hrcv.
  apply wp_sender_lambda; [done|]. cbn. by rewrite Hr.
Qed.
End Submissions.

(** ** Publishing *)
Section Publish.
Context {CEnv SEnv : Type} (f : RawPub.Request -> bytes -> CEnv -> OptError * CEnv) (O : RawPub.Outside SEnv).
Abbreviation PubService := (SvcState RawPub.Machine RawPub.Response SEnv).

(** [publisher->rawPublish(msg, timeout)], submitted. *)
Definition publish_raw (msg : bytes) (timeout : Z) : M (PubClient.World CEnv) SenderId :=
  id ← PubClient.rawPublish msg timeout;
  submitImpl (PubClient.pub_submit f) id;;
  mret id.

Lemma wp_publish_raw msg timeout w :
  sends_all f -> (exists o, relay w = Some o /\ completion_error_ o = None) ->
  wp (publish_raw msg timeout) (fun id w1 =>
    awaiting w w1 id [(RawPub.Req_publish (timeout_to_us timeout) (Z.of_nat (length msg)), msg)]) w.
Proof.
  intros Hall (o & Ho & Hc). apply wp_bind. apply wp_bind, (wp_get_relay o); [done|]. apply wp_bind, wp_modify.
  apply wp_make_sender. apply wp_bind, wp_submitImpl; [cbn; set_solver|]. apply wp_bind.
  eapply wp_get_relay; [done|]. cbn [completion_error_ slot_ payload_]. rewrite Hc.
  eapply wp_mono; [by apply wp_submit_send; [|done|cbn; set_solver]|]. intros [] w' H. apply wp_ret. exact H.
Qed.

(** What the service does with the request: it publishes [msg], and answers with the error. *)
Lemma service_publishes fid q timeout header msg (s : PubService) :
  id_to_fsm_ s !! fid = Some (RawPub.mkMachine (Some q)) -> framed header msg ->
  0 <= timeout < 2 ^ 62 -> 0 <= RawPub.cy_now O (sv_env s) < 2 ^ 62 ->
  wp (RawPub.handle O (RawPub.ChInput fid (RawPub.Req_publish timeout (Z.of_nat (length msg))) (header ++ msg)))
     (fun _ s' =>
        let (e, env) := RawPub.cy_publish O fid q (RawPub.cy_now O (sv_env s) + timeout) msg (sv_env s) in
        exists opt_error, opt_error = (match e with Some e => cyFailureToOptError e | None => None end) /\
        sv_sent s' = sv_sent s ++ [(fid, RawPub.Res_publish_error (optErrorToDsdlError opt_error))]) s.
Proof.
  intros Hm Hlen Ht Hnow. pose proof (framed_size header msg Hlen). unfold framed in Hlen.
  eapply wp_mono; [apply wp_rp_input; [| |exact Hm]; cbn; rewrite ?i64_id by lia; lia|].
  intros [] s' (left & sent & done & env' & Hmv & Hst). inversion Hst; subst; clear Hst; try done.
  2:{ naive_solver. }
  match goal with E : _ ++ _ = _ ++ _ |- _ => apply app_inj_2 in E as [_ ->]; [|lia] end.
  match goal with E : RawPub.cy_publish _ _ _ _ _ _ = _ |- _ => rewrite i64_id in E by lia; rewrite E end.
  eexists. split; [done|]. rewrite (mov_sent _ _ _ _ _ _ _ Hmv). cbn. by destruct f0.
Qed.

(** [publisher->setPriority(p)], if the user has a priority. *)
Definition set_priority (priority : option Z) : M (PubClient.World CEnv) OptError :=
  match priority with
  | Some p => PubClient.pub_setPriority f p
  | None => mret None
  end.

(** It sends at most one request. *)
Lemma wp_set_priority priority w :
  sends_all f -> (exists o, relay w = Some o /\ completion_error_ o = None) ->
  wp (set_priority priority) (fun e w1 => e = None /\ relay w1 = relay w /\ received w1 = received w /\
    ch_out w1 = ch_out w ++ match priority with Some p => [(RawPub.Req_config (Some (u8 p)), [])] | None => [] end) w.
Proof.
  intros Hall (o & Ho & Hc). destruct priority as [p|]; [|by apply wp_ret; rewrite app_nil_r].
  apply wp_bind, (wp_get_relay o); [done|]. rewrite Hc. apply wp_relay_send. by rewrite Hall.
Qed.

(** The service keeps the priority. *)
Lemma service_configured fid q p payload (s : PubService) :
  id_to_fsm_ s !! fid = Some (RawPub.mkMachine (Some q)) ->
  wp (RawPub.handle O (RawPub.ChInput fid (RawPub.Req_config (Some p)) payload))
     (fun _ s' => id_to_fsm_ s' !! fid = Some (RawPub.mkMachine (Some (Some p))) /\ sv_env s' = sv_env s /\ sv_sent s' = sv_sent s) s.
Proof.
  intros Hm. apply wp_bind, (wp_get_fsm fid (RawPub.mkMachine (Some q))); [done|].
  eapply wp_put_fsm; [done|]. split; [apply lookup_insert_eq|done].
Qed.

(** C25: what a user publishes is published. A user that has a publisher may set a
    priority, and then submits a message with a timeout below 2^62 microseconds, while
    the clock is below that too. When the channel takes what the SDK sends and
    the service gets it in that order, the service publishes exactly the user's bytes,
    with the user's timeout and with the user's priority (the one that was set before, if the
    user sets none), and the receiver that the user submitted is called
    with the error of the Cyphal network, or with none. *)
Theorem publish_end_to_end priority msg timeout config header fid q w (s : PubService) :
  sends_all f -> (forall env p now, from_option cy_failure_ok True (RawPub.cy_publish O fid p now msg env).1) ->
  (exists o, relay w = Some o /\ completion_error_ o = None) ->
  id_to_fsm_ s !! fid = Some (RawPub.mkMachine (Some q)) -> framed header msg ->
  from_option (fun p => 0 <= p < 2 ^ 8) True priority ->
  0 <= timeout < 2 ^ 62 -> 0 <= RawPub.cy_now O (sv_env s) < 2 ^ 62 ->
  wp (e ← set_priority priority; id ← publish_raw msg timeout; mret (e, id)) (fun '(e, id) w1 => e = None /\
    exists configs request, ch_out w1 = ch_out w ++ ((fun r => (r, [])) <$> configs) ++ [(request, msg)] /\
    wp (mfor configs (fun r => RawPub.handle O (RawPub.ChInput fid r config));;
        RawPub.handle O (RawPub.ChInput fid request (header ++ msg))) (fun _ s' => exists answer,
      sv_sent s' = sv_sent s ++ [(fid, answer)] /\
      wp (PubClient.pub_handle f (OnChannel (ChInput answer) [])) (fun _ w2 =>
        let used := match priority with Some p => Some p | None => q end in
        let result := (RawPub.cy_publish O fid used (RawPub.cy_now O (sv_env s) + timeout) msg (sv_env s)).1 in
        received w2 = received w ++ [(id, cyErrorToSdkError <$> result)]) w1) s) w.
Proof.
  intros Hall Hcy Hr Hm Hlen Hp Ht Hnow. apply wp_bind. eapply wp_mono; [by apply wp_set_priority|].
  intros e w0 (-> & Hr0 & Hrec0 & Hout0). apply wp_bind. eapply wp_mono; [apply wp_publish_raw; [done|by rewrite Hr0]|]. intros id w1 Hw1.
  rewrite timeout_to_us_id in Hw1 by lia. apply wp_ret. split; [done|].
  set (used := match priority with Some p => Some p | None => q end).
  exists (match priority with Some p => [RawPub.Req_config (Some p)] | None => [] end). eexists. split.
  { destruct Hw1 as [-> _]. rewrite Hout0, <- app_assoc. do 3 f_equal. destruct priority as [p|]; [|done]. cbn in Hp.
    by rewrite wrap_id by lia. }
  apply wp_bind.
  apply (wp_mono _ (fun _ s1 => id_to_fsm_ s1 !! fid = Some (RawPub.mkMachine (Some used)) /\ sv_env s1 = sv_env s /\ sv_sent s1 = sv_sent s)).
  { destruct priority as [p|]; [|by apply wp_ret]. apply wp_bind. eapply wp_mono; [by apply (service_configured fid q)|].
    intros [] s1 Hs1. by apply wp_ret. }
  intros [] s1 (Hm1 & He1 & Hs1).
  eapply wp_mono; [apply service_publishes; [exact Hm1|done|done|by rewrite He1]|]. intros [] s' Hs'. rewrite He1, Hs1 in Hs'.
  specialize (Hcy (sv_env s) used (RawPub.cy_now O (sv_env s) + timeout)).
  destruct (RawPub.cy_publish O fid used _ msg (sv_env s)) as [e env] eqn:Epub. destruct Hs' as (opt_error & -> & Hs').
  eexists. split; [exact Hs'|]. pose proof Hw1 as (_ & _ & _ & o & Ho & _).
  unfold PubClient.pub_handle, PubClient.pub_handleEvent. apply wp_bind, wp_gets. rewrite Ho.
  eapply wp_mono; [by eapply wp_notify_awaited|]. intros [] w2 ->. rewrite Hrec0. cbv zeta. fold used. rewrite Epub. cbn [fst].
  destruct e as [e|]; [by rewrite cy_failure_over_wire|done].
Qed.
End Publish.

(** ** Receiving *)
Section Receive.
Context {CEnv SEnv : Type} (f : RawSub.Request -> bytes -> CEnv -> OptError * CEnv) (O : RawSub.Outside SEnv).
Abbreviation SubService := (SvcState RawSub.Machine RawSub.Sent SEnv).

(** [subscriber->rawReceive()], submitted. *)
Definition receive_raw : M (SubClient.World CEnv) SenderId :=
  id ← SubClient.rawReceive;
  submitImpl SubClient.sub_submit id;;
  mret id.

(** C26: a message of the subject reaches the user: the service forwards it once,
    and the receiver that the user submitted is called with exactly its bytes
    (whatever the fragments in which the network gave it), its priority and its
    publisher. *)
Theorem receive_end_to_end fragments priority publisher header fid w (s : SubService) :
  (exists o, relay w = Some o /\ completion_error_ o = None) ->
  id_to_fsm_ s !! fid = Some (RawSub.mkMachine true) -> framed header (concat fragments) ->
  wp receive_raw (fun id w1 =>
    wp (RawSub.handle O (RawSub.NodeMessage fid fragments priority publisher)) (fun _ s' => exists answer,
      sv_sent s' = sv_sent s ++ [(fid, (answer, concat fragments))] /\
      wp (SubClient.sub_handle f (OnChannel (ChInput answer) (header ++ concat fragments))) (fun _ w2 =>
        received w2 = received w ++ [(id, inl (SubClient.mkReceive (concat fragments) priority publisher))]) w1) s) w.
Proof.
  intros (o & Ho & Hc) Hm Hlen. apply wp_bind. apply wp_bind, (wp_get_relay o); [done|]. apply wp_make_sender.
  apply wp_bind, wp_submitImpl; [cbn; set_solver|]. apply wp_bind, (wp_get_relay o); [done|]. rewrite Hc.
  apply wp_bind, (wp_get_relay o); [done|]. apply wp_modify, wp_ret. apply wp_bind.
  eapply wp_send_moved; [by apply moved_refl|]. intros s' Hs'. apply wp_ret. eexists.
  split; [by rewrite (mov_sent _ _ _ _ _ _ _ Hs')|].
  unfold SubClient.sub_handle, SubClient.sub_handleEvent. apply wp_bind, wp_gets. cbn [relay set_relay SubClient.sub_handleInput].
  apply wp_bind. eapply wp_ofOutcome; [by apply payload_tail_app|].
  eapply (wp_notify_awaited _ w); do 3 (split; [cbn; rewrite ?app_nil_r; set_solver|]). by eexists.
Qed.
End Receive.

(** ** Calling *)
Section Call.
Context {CEnv SEnv : Type} (f : RawRpc.Request -> bytes -> CEnv -> OptError * CEnv) (O : RawRpc.Outside SEnv).
Abbreviation RpcService := (SvcState RawRpc.Machine RawRpc.Sent SEnv).

(** [rpc_client->rawCall(msg, t1, t2)], submitted. *)
Definition call_raw (msg : bytes) (t1 t2 : Z) : M (RpcClient.World CEnv) SenderId :=
  id ← RpcClient.rawCall msg t1 t2;
  submitImpl (RpcClient.rpc_submit f) id;;
  mret id.

Lemma wp_call_raw msg t1 t2 w :
  sends_all f -> (exists o, relay w = Some o /\ completion_error_ o = None) ->
  wp (call_raw msg t1 t2) (fun id w1 =>
    awaiting w w1 id [(RawRpc.Req_call (timeout_to_us t1) (timeout_to_us t2) (Z.of_nat (length msg)), msg)]) w.
Proof.
  intros Hall (o & Ho & Hc). apply wp_bind. apply wp_bind, (wp_get_relay o); [done|]. apply wp_bind, wp_modify.
  apply wp_make_sender. apply wp_bind, wp_submitImpl; [cbn; set_solver|]. apply wp_bind.
  eapply wp_get_relay; [done|]. cbn [completion_error_ slot_ payload_ fst snd]. rewrite Hc.
  eapply wp_mono; [by apply wp_submit_send; [|done|cbn; set_solver]|]. intros [] w' H. apply wp_ret. exact H.
Qed.

(** The service gives the network the request, and awaits its answer. *)
Lemma service_calls fid q b t1 t2 header msg env (s : RpcService) :
  id_to_fsm_ s !! fid = Some (RawRpc.mkMachine (Some q) b) -> framed header msg ->
  0 <= t1 < 2 ^ 62 -> 0 <= t2 < 2 ^ 62 -> 0 <= RawRpc.cy_now O (sv_env s) < 2 ^ 62 ->
  (let now := RawRpc.cy_now O (sv_env s) in RawRpc.cy_request O fid q (now + t1) (now + t2) msg (sv_env s) = (inr tt, env)) ->
  wp (RawRpc.handle O (RawRpc.ChInput fid (RawRpc.Req_call t1 t2 (Z.of_nat (length msg))) (header ++ msg)))
     (fun _ s' => id_to_fsm_ s' !! fid = Some (RawRpc.mkMachine (Some q) true) /\
        sv_sent s' = sv_sent s /\ sv_env s' = env) s.
Proof.
  intros Hm Hlen Ht1 Ht2 Hnow Hcy. cbv zeta in Hcy. pose proof (framed_size header msg Hlen). unfold framed in Hlen.
  eapply wp_mono; [apply wp_rr_input; [| |exact Hm]; cbn; unfold is_time; rewrite ?i64_id by lia; lia|].
  intros [] s' (left & sent & done & env' & Hmv & Hst). inversion Hst; subst; clear Hst; try done.
  3:{ naive_solver. }
  all: match goal with E : _ ++ _ = _ ++ _ |- _ => apply app_inj_2 in E as [_ ->]; [|lia] end.
  all: match goal with E : RawRpc.cy_request _ _ _ _ _ _ _ = _ |- _ => rewrite !i64_id in E by lia end.
  2:{ by match goal with E : RawRpc.cy_request _ _ _ _ _ _ _ = (inl _, _) |- _ => rewrite E in Hcy end. }
  match goal with E : RawRpc.cy_request _ _ _ _ _ _ _ = _ |- _ => rewrite E in Hcy end.
  injection Hcy as <-. split; [apply Hmv|]. split; [|apply Hmv].
  rewrite (mov_sent _ _ _ _ _ _ _ Hmv). apply app_nil_r.
Qed.

(** C27: a call of a user is made and answered: when the channel takes the request
    and the network takes the call, the call has exactly the user's bytes and
    timeouts, and the network's answer, in whatever fragments, reaches the
    receiver that the user submitted with exactly its bytes, its priority and
    the node that sent it. *)
Theorem call_end_to_end msg t1 t2 header fid q b env fragments priority node header' w (s : RpcService) :
  sends_all f -> (exists o, relay w = Some o /\ completion_error_ o = None) ->
  id_to_fsm_ s !! fid = Some (RawRpc.mkMachine (Some q) b) -> framed header msg -> framed header' (concat fragments) ->
  0 <= t1 < 2 ^ 62 -> 0 <= t2 < 2 ^ 62 -> 0 <= RawRpc.cy_now O (sv_env s) < 2 ^ 62 ->
  (let now := RawRpc.cy_now O (sv_env s) in RawRpc.cy_request O fid q (now + t1) (now + t2) msg (sv_env s) = (inr tt, env)) ->
  wp (call_raw msg t1 t2) (fun id w1 => exists request,
    ch_out w1 = ch_out w ++ [(request, msg)] /\
    wp (RawRpc.handle O (RawRpc.ChInput fid request (header ++ msg));;
        RawRpc.handle O (RawRpc.RpcResponse fid (RawRpc.Success fragments priority node))) (fun _ s' => exists answer,
      sv_sent s' = sv_sent s ++ [(fid, (answer, concat fragments))] /\
      wp (RpcClient.rpc_handle f (OnChannel (ChInput answer) (header' ++ concat fragments))) (fun _ w2 =>
        received w2 = received w ++ [(id, inl (RpcClient.mkCall (concat fragments) priority node))]) w1) s) w.
Proof.
  intros Hall Hr Hm Hlen Hlen' Ht1 Ht2 Hnow Hcy. eapply wp_mono; [by apply wp_call_raw|]. intros id w1 Hw1.
  rewrite !timeout_to_us_id in Hw1 by lia. eexists. split; [apply Hw1|].
  apply wp_bind. eapply wp_mono; [by apply (service_calls fid q b t1 t2 header msg env)|]. intros [] s1 (Hm1 & Hs1 & _).
  apply wp_bind. eapply wp_send_moved; [by apply moved_refl|]. intros s' Hs'. apply wp_ret. eexists.
  split; [by rewrite (mov_sent _ _ _ _ _ _ _ Hs'), Hs1|]. pose proof Hw1 as (_ & _ & _ & o & Ho & _).
  unfold RpcClient.rpc_handle, RpcClient.rpc_handleEvent. apply wp_bind, wp_gets. rewrite Ho. cbn [RpcClient.rpc_handleInput].
  apply wp_bind. eapply wp_ofOutcome; [by apply payload_tail_app|]. by eapply wp_notify_awaited.
Qed.
End Call.

(** ** Examples *)
Lemma publish_end_to_end_witness :
  wp (e ← set_priority RelayExample.channel (Some 2); id ← publish_raw RelayExample.channel (str "msg") 1000; mret (e, id)) (fun '(e, id) w1 => e = None /\
    exists configs request, ch_out w1 = ch_out RelayExample.publisher ++ ((fun r => (r, [])) <$> configs) ++ [(request, str "msg")] /\
    wp (mfor configs (fun r => RawPub.handle RawPubExample.outside (RawPub.ChInput 0 r (str "config")));;
        RawPub.handle RawPubExample.outside (RawPub.ChInput 0 request (str "header" ++ str "msg"))) (fun _ s' => exists answer,
      sv_sent s' = sv_sent RawPubExample.service ++ [(0, answer)] /\
      wp (PubClient.pub_handle RelayExample.channel (OnChannel (ChInput answer) [])) (fun _ w2 =>
        let used := Some 2 in
        let result := (RawPub.cy_publish RawPubExample.outside 0 used
                         (RawPub.cy_now RawPubExample.outside (sv_env RawPubExample.service) + 1000) (str "msg")
                         (sv_env RawPubExample.service)).1 in
        received w2 = received RelayExample.publisher ++ [(id, cyErrorToSdkError <$> result)]) w1) RawPubExample.service)
     RelayExample.publisher.
Proof.
  apply (publish_end_to_end RelayExample.channel RawPubExample.outside (Some 2) (str "msg") 1000 (str "config") (str "header") 0 (Some 4)); try done.
  by exists (mkRelay None None 0 []).
Defined.

Lemma receive_end_to_end_witness :
  wp receive_raw (fun id w1 =>
    wp (RawSub.handle RawSubExample.outside (RawSub.NodeMessage 0 [str "he"; str "llo"] 4 (Some 42))) (fun _ s' => exists answer,
      sv_sent s' = sv_sent RawSubExample.service ++ [(0, (answer, concat [str "he"; str "llo"]))] /\
      wp (SubClient.sub_handle RelayExample.channel (OnChannel (ChInput answer) (str "header" ++ concat [str "he"; str "llo"]))) (fun _ w2 =>
        received w2 = received RelayExample.subscriber ++
          [(id, inl (SubClient.mkReceive (concat [str "he"; str "llo"]) 4 (Some 42)))]) w1) RawSubExample.service)
     RelayExample.subscriber.
Proof.
  apply receive_end_to_end; try done. by exists (mkRelay None None tt []).
Defined.

Lemma call_end_to_end_witness :
  wp (call_raw RelayExample.channel (str "ask") 1000 2000) (fun id w1 => exists request,
    ch_out w1 = ch_out RelayExample.rpc_client ++ [(request, str "ask")] /\
    wp (RawRpc.handle RawRpcExample.outside (RawRpc.ChInput 0 request (str "header" ++ str "ask"));;
        RawRpc.handle RawRpcExample.outside (RawRpc.RpcResponse 0 (RawRpc.Success [str "an"; str "swer"] 4 42))) (fun _ s' => exists answer,
      sv_sent s' = sv_sent RawRpcExample.service ++ [(0, (answer, concat [str "an"; str "swer"]))] /\
      wp (RpcClient.rpc_handle RelayExample.channel (OnChannel (ChInput answer) (str "head" ++ concat [str "an"; str "swer"]))) (fun _ w2 =>
        received w2 = received RelayExample.rpc_client ++
          [(id, inl (RpcClient.mkCall (concat [str "an"; str "swer"]) 4 42))]) w1) RawRpcExample.service)
     RelayExample.rpc_client.
Proof.
  apply (call_end_to_end RelayExample.channel RawRpcExample.outside (str "ask") 1000 2000 (str "header") 0 None true []); try done.
  by exists (mkRelay None None (0, 0) []).
Defined.
