(* ===== verification/FileServerClients.v ===== *)
(** * The SDK's clients of the file server

    Models [src/sdk/svc/file_server/] and [src/sdk/file_server.cpp]: the operations
    with which programs list and change the roots that the daemon serves. A path
    that does not fit a request is refused at once; otherwise a client sends one
    request when its channel is connected, and calls its receiver when the channel
    is completed. The end-to-end theorem joins a client and the services of
    [FileServer]. *)
From S2P Require Import Prelude Errors Config FileProvider FileServer.

Local Open Scope Z_scope.

(** The requests of [ListRoots.0.1.dsdl], [PopRoot.0.1.dsdl], [PushRoot.0.1.dsdl]. *)
Inductive RootsCall : Type :=
| CallList
| CallPop (path : bytes) (is_back : bool)
| CallPush (path : bytes) (is_back : bool).

(** A request that arrives on a channel. *)
Definition on_channel (channel : ChannelId) (request : RootsCall) : RootsRequest :=
  match request with
  | CallList => ListRoots channel
  | CallPop path is_back => PopRoot channel path is_back
  | CallPush path is_back => PushRoot channel path is_back
  end.

Section Clients.
Context {Env : Type} (channel_send : RootsCall -> Env -> OptError * Env).

(** [items_] is there in the list client only; the success of the others has no data. *)
Abbreviation Result := (Error + list bytes)%type.

Record RootsClient := mkRootsClient {
  request_ : RootsCall;
  items_ : list bytes;
  received : list Result;       (* the calls of [receiver_] *)
  cl_out : list RootsCall;
  cl_env : Env;
}.
Abbreviation W := RootsClient.

Definition new_client (request : RootsCall) (env : Env) : W := mkRootsClient request [] [] [] env.

Definition client_send (request : RootsCall) : M W OptError := liftF (fun w =>
  let '(e, env) := channel_send request (cl_env w) in
  (e, mkRootsClient (request_ w) (items_ w) (received w) (cl_out w ++ [request]) env)).

Definition receiver_ (result : Result) : M W unit := modify (fun w =>
  mkRootsClient (request_ w) (items_ w) (received w ++ [result]) (cl_out w) (cl_env w)).

(** [ListRootsClientImpl] *)
Definition list_handleConnected : M W unit :=
  request ← gets request_;
  opt_error ← client_send request;
  match opt_error with Some e => receiver_ (inl e) | None => mret tt end.

Definition list_handleInput (path : bytes) : M W unit := modify (fun w =>
  mkRootsClient (request_ w) (items_ w ++ [path]) (received w) (cl_out w) (cl_env w)).

(** The items are moved out. *)
Definition list_handleCompleted (opt_error : OptError) : M W unit :=
  match opt_error with
  | Some e => receiver_ (inl e)
  | None =>
      items ← gets items_;
      modify (fun w => mkRootsClient (request_ w) [] (received w) (cl_out w) (cl_env w));;
      receiver_ (inr items)
  end.

(** [PopRootClientImpl] *)
Definition pop_handleConnected : M W unit :=
  request ← gets request_;
  opt_error ← client_send request;
  match opt_error with Some e => receiver_ (inl e) | None => mret tt end.

Definition pop_handleInput (path : bytes) : M W unit := mret tt.

Definition pop_handleCompleted (opt_error : OptError) : M W unit :=
  match opt_error with
  | Some e => receiver_ (inl e)
  | None => receiver_ (inr [])
  end.

(** [PushRootClientImpl] *)
Definition push_handleConnected : M W unit :=
  request ← gets request_;
  opt_error ← client_send request;
  match opt_error with Some e => receiver_ (inl e) | None => mret tt end.

Definition push_handleInput (path : bytes) : M W unit := mret tt.

Definition push_handleCompleted (opt_error : OptError) : M W unit :=
  match opt_error with
  | Some e => receiver_ (inl e)
  | None => receiver_ (inr [])
  end.

(** The handlers of the client that was made for a request. *)
Definition client_connected : M W unit :=
  request ← gets request_;
  match request with
  | CallList => list_handleConnected
  | CallPop _ _ => pop_handleConnected
  | CallPush _ _ => push_handleConnected
  end.

Definition client_input (path : bytes) : M W unit :=
  request ← gets request_;
  match request with
  | CallList => list_handleInput path
  | CallPop _ _ => pop_handleInput path
  | CallPush _ _ => push_handleInput path
  end.

Definition client_completed (opt_error : OptError) : M W unit :=
  request ← gets request_;
  match request with
  | CallList => list_handleCompleted opt_error
  | CallPop _ _ => pop_handleCompleted opt_error
  | CallPush _ _ => push_handleCompleted opt_error
  end.

(** [FileServerImpl]: a failure at once, or a client. [MaxPathLen] is the capacity of
    the path of a generated request. *)
Section Facade.
Context (MaxPathLen : Z).

Definition sdk_listRoots (env : Env) : Error + W := inr (new_client CallList env).

Definition sdk_popRoot (path : bytes) (back : bool) (env : Env) : Error + W :=
  if MaxPathLen <? Z.of_nat (length path) then inl (Err Code.InvalidArgument)
  else inr (new_client (CallPop path back) env).

Definition sdk_pushRoot (path : bytes) (back : bool) (env : Env) : Error + W :=
  if MaxPathLen <? Z.of_nat (length path) then inl (Err Code.InvalidArgument)
  else inr (new_client (CallPush path back) env).

(** The operation for a call. *)
Definition sdk_call (call : RootsCall) (env : Env) : Error + W :=
  match call with
  | CallList => sdk_listRoots env
  | CallPop path back => sdk_popRoot path back env
  | CallPush path back => sdk_pushRoot path back env
  end.
End Facade.
End Clients.
Arguments RootsClient : clear implicits.

(** ** Theory *)
Section EndToEnd.
Context {T : Type} `{HT : Toml T} `{!TomlOk T} {Env CEnv : Type} (MaxRootLen MaxPathLen : Z).
Context (channel_send : RootsCall -> CEnv -> OptError * CEnv).
Abbreviation Client := (RootsClient CEnv).
Abbreviation Srv := (FileServer T Env).

(** What a call succeeds with, when the roots are [roots]. *)
Definition call_result (roots : list bytes) (call : RootsCall) : list bytes :=
  match call with
  | CallList => filter (fun r => Z.of_nat (length r) <= MaxRootLen) roots
  | _ => []
  end.

Lemma wp_client_connected call env (Q : unit -> Client -> Prop) :
  (forall e env', channel_send call env = (e, env') ->
     Q tt (mkRootsClient call [] (match e with Some e => [inl e] | None => [] end) [call] env')) ->
  wp (client_connected channel_send) Q (new_client call env).
Proof.
  intros HQ. unfold client_connected. do 2 wp_step. destruct (channel_send call env) as [e env'] eqn:E.
  specialize (HQ e env' eq_refl).
  destruct call; apply wp_bind, wp_gets, wp_bind, wp_liftF; cbn; rewrite E; destruct e; exact HQ.
Qed.

Lemma wp_client_inputs call items answers rcv out env :
  wp (mfor answers client_input) (fun _ w => w =
    mkRootsClient call (items ++ match call with CallList => answers | _ => [] end) rcv out env)
    (mkRootsClient (Env := CEnv) call items rcv out env).
Proof.
  revert items. induction answers as [|a answers IH]; intros items; cbn [mfor].
  { apply wp_ret. by destruct call; rewrite app_nil_r. }
  apply wp_bind. unfold client_input. do 2 wp_step. cbn [request_]. destruct call; [apply wp_modify|apply wp_ret..]; cbn.
  - eapply wp_mono; [apply IH|]. intros [] w ->. by rewrite <- app_assoc.
  - apply IH.
  - apply IH.
Qed.

Lemma wp_client_completed call items rcv out (env : CEnv) :
  wp (client_completed None) (fun _ w => received w = rcv ++ [inr (match call with CallList => items | _ => [] end)])
     (mkRootsClient call items rcv out env).
Proof. by destruct call. Qed.

Lemma call_listed roots call c : snd <$> listed MaxRootLen roots (on_channel c call) = call_result roots call.
Proof.
  destruct call; [|done..]. cbn. rewrite <- list_fmap_compose. by rewrite list_fmap_id.
Qed.

(** The path of the call does not fit a request. *)
Definition too_long (call : RootsCall) : Prop :=
  match call with CallPop path _ | CallPush path _ => MaxPathLen < Z.of_nat (length path) | CallList => False end.

Lemma sdk_call_cases call (env : CEnv) :
  (too_long call /\ sdk_call MaxPathLen call env = inl (Err Code.InvalidArgument)) \/
  (~ too_long call /\ sdk_call MaxPathLen call env = inr (new_client call env)).
Proof.
  destruct call as [|path back|path back]; cbn; unfold sdk_popRoot, sdk_pushRoot; [right; split; [tauto|done]|..];
    destruct (Z.ltb_spec MaxPathLen (Z.of_nat (length path))); (left; split; [done|done]) || (right; split; [lia|done]).
Qed.

(** C32: an operation of the SDK on the roots does what it says. A path that is
    too long for a request fails at once with [InvalidArgument], and nothing is
    sent. Otherwise there is a client: when its channel is connected it sends exactly
    that request, and if the channel fails the receiver is told that error. If not, and the
    call does not pop a root from the back that is not there, the daemon's roots are
    then those of the specification, and the receiver is called once,
    with success (for [listRoots]: the roots that fit an answer, in order). If it does pop
    such a root, the daemon runs into undefined behaviour, although the header of the SDK
    says that nothing happens then. *)
Theorem roots_end_to_end call c env (srv : Srv) :
  roots_stored (file_provider_ srv) ->
  (too_long call -> sdk_call MaxPathLen call env = inl (Err Code.InvalidArgument)) /\
  (~ too_long call -> exists client : Client, sdk_call MaxPathLen call env = inr client /\
   wp (client_connected channel_send) (fun _ client' =>
     cl_out client' = [call] /\
     match (channel_send call env).1 with
     | Some e => received client' = [inl e]
     | None =>
         (allowed (roots_ (file_provider_ srv)) (on_channel c call) ->
          wp (serveRoots MaxRootLen (on_channel c call)) (fun _ srv' =>
            roots_ (file_provider_ srv') = roots_after (roots_ (file_provider_ srv)) (on_channel c call) /\
            srv_completed srv' = srv_completed srv ++ [c] /\
            exists answers, srv_sent srv' = srv_sent srv ++ (pair c <$> answers) /\
            wp (mfor answers client_input;; client_completed None) (fun _ client2 =>
              received client2 = [inr (call_result (roots_ (file_provider_ srv)) call)]) client') srv) /\
         (~ allowed (roots_ (file_provider_ srv)) (on_channel c call) -> serveRoots MaxRootLen (on_channel c call) srv = Undef)
     end) client).
Proof.
  intros Hstored. destruct (sdk_call_cases call env) as [[Hl ->]|[Hl ->]]; [by split|]. split; [done|]. intros _.
  exists (new_client call env). split; [done|]. apply wp_client_connected. intros e env' E. rewrite E.
  split; [done|]. cbn [fst]. destruct e as [e|]; [done|]. split; [intros Hallowed|by apply serveRoots_undefined].
  eapply wp_mono; [by apply wp_serveRoots|]. intros [] srv' ((Hroots & _) & Hsent & Hdone).
  split; [done|]. split; [by destruct call|]. exists (call_result (roots_ (file_provider_ srv)) call). split.
  - rewrite Hsent. by destruct call.
  - apply wp_bind. eapply wp_mono; [apply wp_client_inputs|]. intros [] w ->.
    eapply wp_mono; [apply wp_client_completed|]. intros [] w ->. by destruct call.
Qed.
End EndToEnd.

(** ** Examples *)
Module RootsExample.
Definition channel_send (call : RootsCall) (env : Z) : OptError * Z := (None, env + 1).
Definition call : RootsCall := CallPush (str "/a") true.
End RootsExample.

Lemma roots_end_to_end_witness :
  (too_long 255 RootsExample.call -> sdk_call 255 RootsExample.call 0 = inl (Err Code.InvalidArgument)) /\
  (~ too_long 255 RootsExample.call -> exists client : RootsClient Z, sdk_call 255 RootsExample.call 0 = inr client /\
   wp (client_connected RootsExample.channel_send) (fun _ client' =>
     cl_out client' = [RootsExample.call] /\
     match (RootsExample.channel_send RootsExample.call 0).1 with
     | Some e => received client' = [inl e]
     | None =>
         (allowed (roots_ (file_provider_ FileServerExample.server)) (on_channel 7 RootsExample.call) ->
          wp (serveRoots 255 (on_channel 7 RootsExample.call)) (fun _ srv' =>
            roots_ (file_provider_ srv') = roots_after (roots_ (file_provider_ FileServerExample.server)) (on_channel 7 RootsExample.call) /\
            srv_completed srv' = srv_completed FileServerExample.server ++ [7] /\
            exists answers, srv_sent srv' = srv_sent FileServerExample.server ++ (pair 7 <$> answers) /\
            wp (mfor answers client_input;; client_completed None) (fun _ client2 =>
              received client2 = [inr (call_result 255 (roots_ (file_provider_ FileServerExample.server)) RootsExample.call)]) client')
            FileServerExample.server) /\
         (~ allowed (roots_ (file_provider_ FileServerExample.server)) (on_channel 7 RootsExample.call) ->
          serveRoots 255 (on_channel 7 RootsExample.call) FileServerExample.server = Undef)
     end) client).
Proof. exact (roots_end_to_end 255 255 RootsExample.channel_send RootsExample.call 7 0 FileServerExample.server FileServerExample.stored). Defined.

(** Listing, run. *)
Example roots_example :
  (client_connected RootsExample.channel_send;; mfor [str "/a"; str "/tmp"] client_input;; client_completed None)
    (new_client CallList 0) = Done (tt, mkRootsClient CallList [] [inr [str "/a"; str "/tmp"]] [CallList] 1).
Proof. reflexivity. Qed.
