(* ===== verification/EventLoop.v ===== *)
(** * The event loop

    Models [include/ocvsmd/platform/]: the two executors, [epoll] on Linux and
    [kqueue] on BSD, that watch file descriptors for callbacks and schedule
    the callbacks whose descriptors are ready, and the loops that turn an
    executor: [waitPollingUntil] and [Engine::runWhile].

    An awaitable callback is an object with an address, which the kernel is given
    with the descriptor; it can be moved to another address. The kernel is a
    class ([EpollKernel], [KqueueKernel]) whose laws are in the manual pages. Timed
    callbacks, and running what is scheduled, are libcyphal's. *)
From S2P Require Import Prelude Errors.

Local Open Scope Z_scope.

Abbreviation Addr := Z.

(** [IPosixExecutorExtension::Trigger] *)
Inductive Trigger : Type :=
| Readable (fd : Z)
| Writable (fd : Z).

Definition trigger_fd (t : Trigger) : Z := match t with Readable fd | Writable fd => fd end.

#[export] Instance Trigger_eq_dec : EqDecision Trigger.
Proof. solve_decision. Defined.

(** What happens to the callbacks of an executor: one is registered, through a
    temporary object; an object is moved, or destroyed; and, elsewhere in the
    process, a descriptor is opened or closed. *)
Inductive Op : Type :=
| Register (trigger : Trigger) (new_cb_node result : Addr)
| Move (other this : Addr)
| Destroy (this : Addr)
| OpenFd (fd : Z)
| CloseFd (fd : Z).

(** ** [linux/epoll_single_threaded_executor.hpp] *)

(** [epoll_ctl(2)], [epoll_wait(2)]; [interest] is the interest list: the events and
    the pointer of a descriptor. *)
Class EpollKernel (K : Type) := {
  ep_interest : K -> gmap Z (Z * Addr);
  ep_watchable : K -> gset Z;
  ep_ctl_add : Z -> Z * Addr -> K -> K;
  ep_ctl_mod : Z -> Z * Addr -> K -> K;
  ep_ctl_del : Z -> K -> K;
  ep_wait : nat -> Z -> K -> (Z + list Addr) * K;
  ep_open : Z -> K -> K;
  ep_close : Z -> K -> K;
  ep_now : K -> Z;
  ep_sleep_for : Z -> K -> K;
}.

Module Epoll.
Definition EPOLLIN := 1.
Definition EPOLLOUT := 4.
Definition MaxEpollEvents : nat := 16.

(** [nodes] are the objects, with [fd_] and [events_]; [scheduled] the calls of
    [AwaitableNode::schedule]. *)
Record EpollExecutor (K : Type) := mkExecutor {
  nodes : gmap Addr (Z * Z);
  total_awaitables_ : Z;
  scheduled : list (Addr * Z);
  kern : K;
}.
Arguments mkExecutor {K}.
Arguments nodes {K}.
Arguments total_awaitables_ {K}.
Arguments scheduled {K}.
Arguments kern {K}.

Section Epoll.
Context {K : Type} `{EpollKernel K}.
Abbreviation W := (EpollExecutor K).

Definition get_node (this : Addr) : M W (Z * Z) :=
  w ← gets nodes;
  match w !! this with Some n => mret n | None => undef end.

Definition set_nodes (f : gmap Addr (Z * Z) -> gmap Addr (Z * Z)) : M W unit := modify (fun w =>
  mkExecutor (f (nodes w)) (total_awaitables_ w) (scheduled w) (kern w)).

Definition set_total (f : Z -> Z) : M W unit := modify (fun w =>
  mkExecutor (nodes w) (f (total_awaitables_ w)) (scheduled w) (kern w)).

Definition sys (f : K -> K) : M W unit := modify (fun w =>
  mkExecutor (nodes w) (total_awaitables_ w) (scheduled w) (f (kern w))).

(** [AwaitableNode::AwaitableNode(executor, function)] *)
Definition node_new (this : Addr) : M W unit := set_nodes <[this := (-1, 0)]>.

(** [AwaitableNode::~AwaitableNode] *)
Definition node_destroy (this : Addr) : M W unit :=
  n ← get_node this;
  (if 0 <=? n.1 then
     sys (ep_ctl_del n.1);;
     set_total (fun total => u64 (total - 1))
   else mret tt);;
  set_nodes (delete this).

(** [AwaitableNode::AwaitableNode(AwaitableNode&& other)] *)
Definition node_move (other this : Addr) : M W unit :=
  n ← get_node other;
  set_nodes <[other := (-1, 0)]>;;
  set_nodes <[this := n]>;;
  if 0 <=? n.1 then sys (ep_ctl_mod n.1 (n.2, this)) else mret tt.

(** [AwaitableNode::setup] *)
Definition setup (this : Addr) (fd events : Z) : M W unit :=
  get_node this;;
  set_nodes <[this := (fd, events)]>;;
  set_total (fun total => u64 (total + 1));;
  sys (ep_ctl_add fd (events, this)).

Definition registerAwaitableCallback (trigger : Trigger) (new_cb_node result : Addr) : M W unit :=
  node_new new_cb_node;;
  match trigger with
  | Readable fd => setup new_cb_node fd EPOLLIN
  | Writable fd => setup new_cb_node fd EPOLLOUT
  end;;
  node_move new_cb_node result;;
  node_destroy new_cb_node.

(** The timeout of [epoll_wait] in milliseconds; [timeout] is in microseconds. *)
Definition clamped_timeout_ms (timeout : option Z) : Z :=
  match timeout with
  | None => -1
  | Some timeout => Z.max 0 (Z.min (Z.quot timeout 1000) (2 ^ 31 - 1))
  end.

Fixpoint schedule_all (evs : list Addr) (now_time : Z) : M W unit :=
  match evs with
  | [] => mret tt
  | ev :: evs' =>
      (if ev =? 0 then mret tt
       else
         get_node ev;;
         modify (fun w => mkExecutor (nodes w) (total_awaitables_ w) (scheduled w ++ [(ev, now_time)]) (kern w)));;
      schedule_all evs' now_time
  end.

Definition pollAwaitableResourcesFor (timeout : option Z) : M W (option CyError) :=
  total ← gets total_awaitables_;
  if total =? 0 then
    match timeout with
    | None => mret (Some ArgumentError)
    | Some timeout => sys (ep_sleep_for timeout);; mret None
    end
  else
    epoll_result ← liftF (fun w =>
      let '(r, k) := ep_wait MaxEpollEvents (clamped_timeout_ms timeout) (kern w) in
      (r, mkExecutor (nodes w) (total_awaitables_ w) (scheduled w) k));
    match epoll_result with
    | inl err =>
        if err =? Errno.EINTR then mret None else mret (Some (PlatformError (PosixPlatformError_code err)))
    | inr evs =>
        now_time ← gets (fun w => ep_now (kern w));
        schedule_all evs now_time;;
        mret None
    end.

Definition run (op : Op) : M W unit :=
  match op with
  | Register trigger new_cb_node result => registerAwaitableCallback trigger new_cb_node result
  | Move other this => node_move other this
  | Destroy this => node_destroy this
  | OpenFd fd => sys (ep_open fd)
  | CloseFd fd => sys (ep_close fd)
  end.
End Epoll.
End Epoll.

(** ** [bsd/kqueue_single_threaded_executor.hpp] *)

(** [kqueue(2)]; [interest] are the events of the queue: the pointer for a
    descriptor and a filter. *)
Class KqueueKernel (K : Type) := {
  kq_interest : K -> gmap (Z * Z) Addr;
  kq_watchable : K -> gset Z;
  kq_add : Z * Z -> Addr -> K -> K;
  kq_delete : Z * Z -> K -> K;
  kq_wait : nat -> option Z -> K -> (Z + list Addr) * K;
  kq_open : Z -> K -> K;
  kq_close : Z -> K -> K;
  kq_now : K -> Z;
  kq_sleep_for : Z -> K -> K;
}.

Module Kqueue.
Definition EVFILT_READ := -1.
Definition EVFILT_WRITE := -2.
Definition MaxEvents : nat := 16.

(** [nodes] are the objects, with [fd_] and [filter_]. *)
Record KqueueExecutor (K : Type) := mkExecutor {
  nodes : gmap Addr (Z * Z);
  total_awaitables_ : Z;
  scheduled : list (Addr * Z);
  kern : K;
}.
Arguments mkExecutor {K}.
Arguments nodes {K}.
Arguments total_awaitables_ {K}.
Arguments scheduled {K}.
Arguments kern {K}.

Section Kqueue.
Context {K : Type} `{KqueueKernel K}.
Abbreviation W := (KqueueExecutor K).

Definition get_node (this : Addr) : M W (Z * Z) :=
  w ← gets nodes;
  match w !! this with Some n => mret n | None => undef end.

Definition set_nodes (f : gmap Addr (Z * Z) -> gmap Addr (Z * Z)) : M W unit := modify (fun w =>
  mkExecutor (f (nodes w)) (total_awaitables_ w) (scheduled w) (kern w)).

Definition set_total (f : Z -> Z) : M W unit := modify (fun w =>
  mkExecutor (nodes w) (f (total_awaitables_ w)) (scheduled w) (kern w)).

Definition sys (f : K -> K) : M W unit := modify (fun w =>
  mkExecutor (nodes w) (total_awaitables_ w) (scheduled w) (f (kern w))).

Definition kq_node_new (this : Addr) : M W unit := set_nodes <[this := (-1, 0)]>.

Definition kq_node_destroy (this : Addr) : M W unit :=
  n ← get_node this;
  (if 0 <=? n.1 then
     sys (kq_delete n);;
     set_total (fun total => u64 (total - 1))
   else mret tt);;
  set_nodes (delete this).

(** The event is deleted, and added again with the new address. *)
Definition kq_node_move (other this : Addr) : M W unit :=
  n ← get_node other;
  set_nodes <[other := (-1, 0)]>;;
  set_nodes <[this := n]>;;
  if 0 <=? n.1 then
    sys (kq_delete n);;
    sys (kq_add n this)
  else mret tt.

Definition kq_setup (this : Addr) (fd filter : Z) : M W unit :=
  get_node this;;
  set_nodes <[this := (fd, filter)]>;;
  set_total (fun total => u64 (total + 1));;
  sys (kq_add (fd, filter) this).

Definition kq_registerAwaitableCallback (trigger : Trigger) (new_cb_node result : Addr) : M W unit :=
  kq_node_new new_cb_node;;
  match trigger with
  | Readable fd => kq_setup new_cb_node fd EVFILT_READ
  | Writable fd => kq_setup new_cb_node fd EVFILT_WRITE
  end;;
  kq_node_move new_cb_node result;;
  kq_node_destroy new_cb_node.

(** [timespec::tv_nsec] of the timeout of [kevent], or none; [tv_sec] stays zero. *)
Definition timeout_spec (timeout : option Z) : option Z :=
  match timeout with
  | None => None
  | Some timeout => Some (Z.max 0 (Z.min (timeout * 1000) (2 ^ 63 - 1)))
  end.

Fixpoint kq_schedule_all (evs : list Addr) (now_time : Z) : M W unit :=
  match evs with
  | [] => mret tt
  | ev :: evs' =>
      (if ev =? 0 then mret tt
       else
         get_node ev;;
         modify (fun w => mkExecutor (nodes w) (total_awaitables_ w) (scheduled w ++ [(ev, now_time)]) (kern w)));;
      kq_schedule_all evs' now_time
  end.

Definition kq_pollAwaitableResourcesFor (timeout : option Z) : M W (option CyError) :=
  total ← gets total_awaitables_;
  if total =? 0 then
    match timeout with
    | None => mret (Some ArgumentError)
    | Some timeout => sys (kq_sleep_for timeout);; mret None
    end
  else
    kqueue_result ← liftF (fun w =>
      let '(r, k) := kq_wait MaxEvents (timeout_spec timeout) (kern w) in
      (r, mkExecutor (nodes w) (total_awaitables_ w) (scheduled w) k));
    match kqueue_result with
    | inl err =>
        if err =? Errno.EINTR then mret None else mret (Some (PlatformError (PosixPlatformError_code err)))
    | inr evs =>
        now_time ← gets (fun w => kq_now (kern w));
        kq_schedule_all evs now_time;;
        mret None
    end.

Definition kq_run (op : Op) : M W unit :=
  match op with
  | Register trigger new_cb_node result => kq_registerAwaitableCallback trigger new_cb_node result
  | Move other this => kq_node_move other this
  | Destroy this => kq_node_destroy this
  | OpenFd fd => sys (kq_open fd)
  | CloseFd fd => sys (kq_close fd)
  end.
End Kqueue.
End Kqueue.

(** ** [defines.hpp], [engine.cpp]: the loops *)

(** What the loops use of an executor: [spinOnce] tells when the next timed
    callback is due. *)
Class Executor (E : Type) := {
  ex_spinOnce : E -> option Z * E;
  ex_now : E -> Z;
  ex_poll : Z -> E -> option CyError * E;
}.

Section Loops.
Context {E : Type} `{Executor E}.

(** One second at most, in microseconds. *)
Definition poll_timeout (next_exec_time : option Z) (now : Z) : Z :=
  match next_exec_time with
  | Some t => Z.min 1000000 (t - now)
  | None => 1000000
  end.

(** [platform::waitPollingUntil]; [None] when the fuel is used up. *)
Fixpoint waitPollingUntil (fuel : nat) (predicate : E -> bool) (executor : E) : option E :=
  match fuel with
  | O => None
  | S fuel' =>
      if predicate executor then Some executor
      else
        let '(next_exec_time, executor) := ex_spinOnce executor in
        if predicate executor then Some executor
        else
          let timeout := poll_timeout next_exec_time (ex_now executor) in
          let '(poll_failure, executor) := ex_poll timeout executor in
          waitPollingUntil fuel' predicate executor
  end.

(** [Engine::runWhile] *)
Fixpoint runWhile (fuel : nat) (loop_predicate : E -> bool) (executor_ : E) : option E :=
  match fuel with
  | O => None
  | S fuel' =>
      if loop_predicate executor_ then
        let '(next_exec_time, executor_) := ex_spinOnce executor_ in
        let timeout := poll_timeout next_exec_time (ex_now executor_) in
        let '(poll_failure, executor_) := ex_poll timeout executor_ in
        runWhile fuel' loop_predicate executor_
      else Some executor_
  end.
End Loops.

(** ** Specification: which callback watches which descriptor *)

(** The objects, those that watch, and the descriptors that can be watched. *)
Record Registry := mkRegistry {
  objects : gset Addr;
  live : gmap Addr Trigger;
  opened : gset Z;
}.

Definition reg_step (op : Op) (a : Registry) : Registry :=
  match op with
  | Register trigger _ result => mkRegistry ({[result]} ∪ objects a) (<[result := trigger]> (live a)) (opened a)
  | Move other this =>
      mkRegistry ({[this]} ∪ objects a)
        (match live a !! other with
         | Some t => <[this := t]> (delete other (live a))
         | None => live a
         end) (opened a)
  | Destroy this => mkRegistry (objects a ∖ {[this]}) (delete this (live a)) (opened a)
  | OpenFd fd => mkRegistry (objects a) (live a) ({[fd]} ∪ opened a)
  | CloseFd fd => mkRegistry (objects a) (live a) (opened a ∖ {[fd]})
  end.

(** No live callback has the descriptor. *)
Definition unwatched (fd : Z) (a : Registry) : Prop := map_Forall (fun _ t => trigger_fd t <> fd) (live a).

(** How the executors are used: objects live at fresh addresses; there is one
    callback for a descriptor; a number is not used again for a descriptor while a
    callback still has it. *)
Definition op_ok (op : Op) (a : Registry) : Prop :=
  match op with
  | Register trigger tmp result =>
      trigger_fd trigger ∈ opened a /\ unwatched (trigger_fd trigger) a /\
      tmp ∉ objects a /\ result ∉ objects a /\ tmp <> result /\ Z.of_nat (size (live a)) < 2 ^ 64 - 1
  | Move other this => other ∈ objects a /\ this ∉ objects a
  | Destroy this => this ∈ objects a
  | OpenFd fd => 0 <= fd /\ fd ∉ opened a /\ unwatched fd a
  | CloseFd fd => True
  end.

#[export] Instance op_ok_dec op a : Decision (op_ok op a).
Proof. destruct op; cbn; unfold unwatched; apply _. Defined.

Record Registry_ok (a : Registry) : Prop := {
  reg_live : forall p t, live a !! p = Some t -> p ∈ objects a /\ 0 <= trigger_fd t;
  reg_one : forall p q t u, live a !! p = Some t -> live a !! q = Some u -> trigger_fd t = trigger_fd u -> p = q;
  reg_opened : forall fd, fd ∈ opened a -> 0 <= fd;
  reg_size : Z.of_nat (size (live a)) < 2 ^ 64;
}.

Lemma reg_fresh a p : Registry_ok a -> p ∉ objects a -> live a !! p = None.
Proof. intros Ha Hp. destruct (live a !! p) eqn:E; [|done]. by apply (reg_live a Ha) in E as [? _]. Qed.

Lemma reg_step_ok op a : Registry_ok a -> op_ok op a -> Registry_ok (reg_step op a).
Proof.
  intros Ha Hop. pose proof Ha as [Hl H1 Ho Hs]. destruct op as [t tmp r|other this|this|fd|fd]; cbn in *.
  - destruct Hop as (Hfd & Hun & Htmp & Hr & Hne & Hsize). split; cbn; [| |done|].
    + intros p u. rewrite lookup_insert_Some. intros [[<- <-]|[? Hp]]; [split; [set_solver|auto]|].
      apply Hl in Hp. split; [set_solver|apply Hp].
    + intros p q u v. rewrite !lookup_insert_Some. intros [[<- <-]|[? Hp]] [[<- <-]|[? Hq]] E; [done| | |by eapply H1].
      * by destruct (Hun q v Hq).
      * by destruct (Hun p u Hp).
    + rewrite map_size_insert_None by by apply reg_fresh. lia.
  - destruct Hop as [Hother Hthis]. destruct (live a !! other) as [t|] eqn:E; cycle 1.
    { split; cbn; [|done..]. intros p u Hp. apply Hl in Hp. split; [set_solver|apply Hp]. }
    assert (this <> other) as Hne by set_solver. split; cbn; [| |done|].
    + intros p u. rewrite lookup_insert_Some, lookup_delete_Some. intros [[<- <-]|(? & ? & Hp)]; [split; [set_solver|by eapply Hl]|].
      apply Hl in Hp. split; [set_solver|apply Hp].
    + intros p q u v. rewrite !lookup_insert_Some, !lookup_delete_Some.
      intros [[<- <-]|(? & ? & Hp)] [[<- <-]|(? & ? & Hq)] Et; [done| | |by eapply H1].
      * by destruct (H1 other q t v E Hq Et).
      * by destruct (H1 p other u t Hp E Et).
    + rewrite map_size_insert_None.
      * rewrite map_size_delete_Some by done. lia.
      * rewrite lookup_delete_ne by done. by apply reg_fresh.
  - split; cbn; [| |done|].
    + intros p u. rewrite lookup_delete_Some. intros [Hne Hp]. apply Hl in Hp. split; [set_solver|apply Hp].
    + intros p q u v. rewrite !lookup_delete_Some. intros [_ Hp] [_ Hq]. by eapply H1.
    + rewrite map_size_delete. destruct (live a !! this); cbn; lia.
  - destruct Hop as (Hfd & Hnew & _). split; cbn; try done. intros fd'. rewrite elem_of_union, elem_of_singleton. intros [->|?]; auto.
  - split; cbn; try done. set_solver.
Qed.

(** ** Both executors implement it *)

(** What both represent: [code] is how a trigger is stored. *)
(** The first half of a registration. *)
Definition reg_setup (trigger : Trigger) (tmp : Addr) (a : Registry) : Registry :=
  mkRegistry ({[tmp]} ∪ objects a) (<[tmp := trigger]> (live a)) (opened a).

Lemma reg_register trigger tmp result a :
  Registry_ok a -> op_ok (Register trigger tmp result) a ->
  reg_step (Register trigger tmp result) a = reg_step (Destroy tmp) (reg_step (Move tmp result) (reg_setup trigger tmp a)).
Proof.
  intros Ha (_ & _ & Htmp & Hr & Hne & _). cbn. rewrite lookup_insert_eq. f_equal; [set_solver|].
  rewrite delete_insert_id by by apply reg_fresh. rewrite delete_insert_ne by done.
  by rewrite (delete_id (live a)) by by apply reg_fresh.
Qed.

Lemma reg_setup_ok trigger tmp result a :
  Registry_ok a -> op_ok (Register trigger tmp result) a ->
  Registry_ok (reg_setup trigger tmp a) /\ op_ok (Move tmp result) (reg_setup trigger tmp a) /\
  op_ok (Destroy tmp) (reg_step (Move tmp result) (reg_setup trigger tmp a)).
Proof.
  intros Ha (Hfd & Hun & Htmp & Hr & Hne & Hsize). split; [|split; cbn; set_solver].
  apply (reg_step_ok (Register trigger result tmp) a Ha). cbn. repeat split; done.
Qed.

Section Representation.
Context (code : Trigger -> Z * Z).

(** The first half of [code]. *)
Definition code_fd : Prop := forall t, (code t).1 = trigger_fd t.

(** The kernel watches [c] for the callback at [p]. *)
Definition reg_watch (a : Registry) (c : Z * Z) (p : Addr) : Prop :=
  c.1 ∈ opened a /\ exists t, live a !! p = Some t /\ code t = c.

Record nodes_rep (a : Registry) (nodes : gmap Addr (Z * Z)) : Prop := {
  nr_dom : dom nodes = objects a;
  nr_live : forall p t, live a !! p = Some t -> nodes !! p = Some (code t);
  nr_rest : forall p n, live a !! p = None -> nodes !! p = Some n -> n.1 = -1;
}.

Lemma reg_watch_setup (Hcode : code_fd) trigger tmp a c p :
  Registry_ok a -> tmp ∉ objects a -> trigger_fd trigger ∈ opened a ->
  reg_watch (reg_setup trigger tmp a) c p <-> reg_watch a c p \/ (c = code trigger /\ p = tmp).
Proof.
  intros Ha Htmp Hfd. unfold reg_watch. cbn. split.
  - intros (Hc & t & Hp & <-). apply lookup_insert_Some in Hp as [[-> ->]|[? Hp]]; [by right|left; eauto].
  - intros [(Hc & t & Hp & <-)|[-> ->]].
    + split; [done|]. exists t. rewrite lookup_insert_ne; [done|]. intros ->. by rewrite (reg_fresh a) in Hp.
    + rewrite Hcode. split; [done|]. exists trigger. by rewrite lookup_insert_eq.
Qed.

Lemma reg_watch_destroy this a c p : reg_watch (reg_step (Destroy this) a) c p <-> reg_watch a c p /\ p <> this.
Proof. unfold reg_watch. cbn. setoid_rewrite lookup_delete_Some. naive_solver. Qed.

Lemma reg_watch_move other this t a c p :
  live a !! other = Some t -> other <> this ->
  reg_watch (reg_step (Move other this) a) c p <->
  (p = this /\ c = code t /\ c.1 ∈ opened a) \/ (p <> this /\ p <> other /\ reg_watch a c p).
Proof.
  intros Hother Hne. unfold reg_watch. cbn. rewrite Hother. setoid_rewrite lookup_insert_Some. setoid_rewrite lookup_delete_Some.
  naive_solver.
Qed.

Lemma nodes_rep_setup trigger tmp a nodes :
  Registry_ok a -> tmp ∉ objects a -> nodes_rep a nodes ->
  nodes_rep (reg_setup trigger tmp a) (<[tmp := code trigger]> (<[tmp := (-1, 0)]> nodes)).
Proof.
  intros Ha Htmp [Hd Hl Hr]. rewrite insert_insert_eq. split; cbn.
  - by rewrite dom_insert_L, Hd.
  - intros p t. rewrite !lookup_insert_Some. naive_solver.
  - intros p n. rewrite lookup_insert_None, lookup_insert_Some. intros [Hp Hne] [[? _]|[_ Hn]]; [done|]. by eapply Hr.
Qed.

Lemma nodes_rep_move other this a nodes n :
  Registry_ok a -> op_ok (Move other this) a -> nodes_rep a nodes -> nodes !! other = Some n ->
  nodes_rep (reg_step (Move other this) a) (<[this := n]> (<[other := (-1, 0)]> nodes)).
Proof.
  intros Ha [Hother Hthis] [Hd Hl Hr] Hn. assert (other <> this) by set_solver. split; cbn.
  - rewrite !dom_insert_L, Hd. set_solver.
  - intros p t. destruct (live a !! other) as [u|] eqn:E.
    + rewrite !lookup_insert_Some, lookup_delete_Some. pose proof (Hl _ _ E). naive_solver.
    + intros Hp. rewrite !lookup_insert_ne; [by apply Hl| |]; intros ->; [by rewrite Hp in E|].
      by rewrite (reg_fresh a) in Hp.
  - intros p m. destruct (live a !! other) as [u|] eqn:E.
    + rewrite lookup_insert_None, lookup_delete_None. intros [Hp Hne]. rewrite lookup_insert_ne, lookup_insert_Some by done.
      intros [[_ <-]|[? Hm]]; [done|]. destruct Hp as [?|Hp]; [done|]. by apply (Hr p m).
    + intros Hp. rewrite !lookup_insert_Some. intros [[<- <-]|[? [[_ <-]|[? Hm]]]]; [by apply (Hr other n)|done|by apply (Hr p m)].
Qed.

Lemma nodes_rep_destroy this a nodes : nodes_rep a nodes -> nodes_rep (reg_step (Destroy this) a) (delete this nodes).
Proof.
  intros [Hd Hl Hr]. split; cbn.
  - by rewrite dom_delete_L, Hd.
  - intros p t. rewrite !lookup_delete_Some. naive_solver.
  - intros p n. rewrite lookup_delete_None, lookup_delete_Some. intros [?|Hp] [? Hn]; [done|by eapply Hr].
Qed.

(** An object watches exactly when its descriptor is not negative. *)
Lemma nodes_rep_lookup (Hcode : code_fd) a nodes p :
  Registry_ok a -> nodes_rep a nodes -> p ∈ objects a -> exists n, nodes !! p = Some n /\
  match live a !! p with Some t => n = code t /\ (0 <=? n.1) = true | None => (0 <=? n.1) = false end.
Proof.
  intros Ha [Hd Hl Hr] Hp. rewrite <- Hd in Hp. apply elem_of_dom in Hp as [n Hn]. exists n. split; [done|].
  destruct (live a !! p) as [t|] eqn:E.
  - specialize (Hl p t E). rewrite Hn in Hl. injection Hl as ->. split; [done|]. rewrite Hcode.
    apply reg_live in E as [_ ?]; [|done]. by apply Z.leb_le.
  - specialize (Hr p n E Hn). rewrite Hr. done.
Qed.
End Representation.

(** The laws of [epoll]: a descriptor is in the interest list once; a second
    addition fails; closing a descriptor removes it; what is reported is in the
    list. The executor looks at no result of [epoll_ctl]. *)
Class EpollKernelOk (K : Type) `{EpollKernel K} : Prop := {
  ep_add_interest : forall fd e k, ep_interest (ep_ctl_add fd e k) =
    if decide (fd ∈ ep_watchable k) then match ep_interest k !! fd with Some _ => ep_interest k | None => <[fd := e]> (ep_interest k) end
    else ep_interest k;
  ep_mod_interest : forall fd e k, ep_interest (ep_ctl_mod fd e k) =
    match ep_interest k !! fd with Some _ => <[fd := e]> (ep_interest k) | None => ep_interest k end;
  ep_del_interest : forall fd k, ep_interest (ep_ctl_del fd k) = delete fd (ep_interest k);
  ep_open_interest : forall fd k, ep_interest (ep_open fd k) = ep_interest k;
  ep_close_interest : forall fd k, ep_interest (ep_close fd k) = delete fd (ep_interest k);
  ep_wait_interest : forall n t k, ep_interest (ep_wait n t k).2 = ep_interest k;
  ep_sleep_interest : forall t k, ep_interest (ep_sleep_for t k) = ep_interest k;
  ep_add_watchable : forall fd e k, ep_watchable (ep_ctl_add fd e k) = ep_watchable k;
  ep_mod_watchable : forall fd e k, ep_watchable (ep_ctl_mod fd e k) = ep_watchable k;
  ep_del_watchable : forall fd k, ep_watchable (ep_ctl_del fd k) = ep_watchable k;
  ep_open_watchable : forall fd k, ep_watchable (ep_open fd k) = {[fd]} ∪ ep_watchable k;
  ep_close_watchable : forall fd k, ep_watchable (ep_close fd k) = ep_watchable k ∖ {[fd]};
  ep_wait_watchable : forall n t k, ep_watchable (ep_wait n t k).2 = ep_watchable k;
  ep_sleep_watchable : forall t k, ep_watchable (ep_sleep_for t k) = ep_watchable k;
  ep_wait_reports : forall n t k evs p, (ep_wait n t k).1 = inr evs -> p ∈ evs -> exists fd ev, ep_interest k !! fd = Some (ev, p);
}.

(** The laws of [kqueue]: adding an event that is there replaces its pointer. *)
Class KqueueKernelOk (K : Type) `{KqueueKernel K} : Prop := {
  kq_add_interest : forall c p k, kq_interest (kq_add c p k) =
    if decide (c.1 ∈ kq_watchable k) then <[c := p]> (kq_interest k) else kq_interest k;
  kq_delete_interest : forall c k, kq_interest (kq_delete c k) = delete c (kq_interest k);
  kq_open_interest : forall fd k, kq_interest (kq_open fd k) = kq_interest k;
  kq_close_interest : forall fd k c, kq_interest (kq_close fd k) !! c = if decide (c.1 = fd) then None else kq_interest k !! c;
  kq_wait_interest : forall n t k, kq_interest (kq_wait n t k).2 = kq_interest k;
  kq_sleep_interest : forall t k, kq_interest (kq_sleep_for t k) = kq_interest k;
  kq_add_watchable : forall c p k, kq_watchable (kq_add c p k) = kq_watchable k;
  kq_delete_watchable : forall c k, kq_watchable (kq_delete c k) = kq_watchable k;
  kq_open_watchable : forall fd k, kq_watchable (kq_open fd k) = {[fd]} ∪ kq_watchable k;
  kq_close_watchable : forall fd k, kq_watchable (kq_close fd k) = kq_watchable k ∖ {[fd]};
  kq_wait_watchable : forall n t k, kq_watchable (kq_wait n t k).2 = kq_watchable k;
  kq_sleep_watchable : forall t k, kq_watchable (kq_sleep_for t k) = kq_watchable k;
  kq_wait_reports : forall n t k evs p, (kq_wait n t k).1 = inr evs -> p ∈ evs -> exists c, kq_interest k !! c = Some p;
}.

Lemma count_succ n : Z.of_nat n < 2 ^ 64 - 1 -> u64 (Z.of_nat n + 1) = Z.of_nat (S n).
Proof. intros Hn. rewrite wrap_id; lia. Qed.

Lemma count_pred n : (0 < n)%nat -> Z.of_nat n < 2 ^ 64 -> u64 (Z.of_nat n - 1) = Z.of_nat (Nat.pred n).
Proof. intros Hn Hb. rewrite wrap_id; lia. Qed.

Definition epoll_code (t : Trigger) : Z * Z :=
  match t with Readable fd => (fd, Epoll.EPOLLIN) | Writable fd => (fd, Epoll.EPOLLOUT) end.

Definition kqueue_code (t : Trigger) : Z * Z :=
  match t with Readable fd => (fd, Kqueue.EVFILT_READ) | Writable fd => (fd, Kqueue.EVFILT_WRITE) end.

Lemma epoll_code_fd t : (epoll_code t).1 = trigger_fd t.
Proof. by destruct t. Qed.

Lemma kqueue_code_fd t : (kqueue_code t).1 = trigger_fd t.
Proof. by destruct t. Qed.

Section EpollRefines.
Import Epoll.
Context {K : Type} `{EpollKernelOk K}.
Abbreviation W := (EpollExecutor K).

(** The executor represents a registry. *)
Record epoll_rep (a : Registry) (w : W) : Prop := {
  er_nodes : nodes_rep epoll_code a (nodes w);
  er_watch : forall c p, ep_interest (kern w) !! c.1 = Some (c.2, p) <-> reg_watch epoll_code a c p;
  er_opened : ep_watchable (kern w) = opened a;
  er_total : total_awaitables_ w = Z.of_nat (size (live a));
}.

Lemma wp_epoll_get_node this n (Q : Z * Z -> W -> Prop) w : nodes w !! this = Some n -> Q n w -> wp (get_node this) Q w.
Proof. intros Hn HQ. unfold get_node. wp_steps. by rewrite Hn. Qed.

(** Nothing is watched for a descriptor that no live callback has. *)
Lemma epoll_unwatched a w fd : epoll_rep a w -> unwatched fd a -> ep_interest (kern w) !! fd = None.
Proof.
  intros Hw Hun. destruct (ep_interest (kern w) !! fd) as [[ev p]|] eqn:E; [|done].
  apply (er_watch a w Hw (fd, ev) p) in E as (_ & t & Hp & Ht). exfalso. apply (Hun p t Hp).
  by rewrite <- epoll_code_fd, Ht.
Qed.

Lemma epoll_setup_refines trigger tmp result a w :
  Registry_ok a -> op_ok (Register trigger tmp result) a -> epoll_rep a w ->
  wp (node_new tmp;; setup tmp (epoll_code trigger).1 (epoll_code trigger).2) (fun _ => epoll_rep (reg_setup trigger tmp a)) w.
Proof.
  intros Ha (Hfd & Hun & Htmp & _ & _ & Hsize) Hw. pose proof (epoll_unwatched a w _ Hw Hun) as Hnone.
  destruct Hw as [Hn Hwt Ho Ht]. apply wp_bind, wp_modify. apply wp_bind. eapply wp_epoll_get_node; [apply lookup_insert_eq|].
  do 2 apply wp_bind, wp_modify. apply wp_modify. split; cbn.
  - rewrite <- surjective_pairing. by apply nodes_rep_setup.
  - intros c p. rewrite (reg_watch_setup epoll_code epoll_code_fd) by done. rewrite <- Hwt.
    rewrite ep_add_interest, Ho, epoll_code_fd, Hnone, decide_True by done.
    rewrite lookup_insert_Some. destruct c as [fd ev], trigger as [f|f]; cbn in *; split; intros [E|E]; destruct_and?; simplify_eq; eauto.
    all: right; split; [|done]; intros ->; congruence.
  - by rewrite ep_add_watchable.
  - rewrite Ht, count_succ by done. by rewrite map_size_insert_None by by apply reg_fresh.
Qed.

Lemma epoll_move_refines other this a w :
  Registry_ok a -> op_ok (Move other this) a -> epoll_rep a w ->
  wp (node_move other this) (fun _ => epoll_rep (reg_step (Move other this) a)) w.
Proof.
  intros Ha Hop Hw. pose proof Hop as [Hother Hthis]. assert (other <> this) as Hne by set_solver. destruct Hw as [Hn Hwt Ho Ht].
  destruct (nodes_rep_lookup epoll_code epoll_code_fd a (nodes w) other Ha Hn Hother) as (n & Hnode & Hcase).
  apply wp_bind, (wp_epoll_get_node other n); [done|]. do 2 apply wp_bind, wp_modify.
  pose proof (nodes_rep_move epoll_code other this a (nodes w) n Ha Hop Hn Hnode) as Hn'.
  destruct (live a !! other) as [t|] eqn:E.
  - destruct Hcase as [-> ->]. apply wp_modify. split; cbn -[reg_step]; [done| |cbn|cbn].
    + intros c p. rewrite (reg_watch_move epoll_code other this t) by done. rewrite <- Hwt, ep_mod_interest.
      destruct (ep_interest (kern w) !! (epoll_code t).1) as [[ev q]|] eqn:Ei.
      * apply (Hwt (_, ev) q) in Ei as (Hfd & u & Hq & Hu).
        assert (q = other) as -> by (eapply (reg_one a Ha); [done..|]; by rewrite <- !epoll_code_fd, Hu).
        rewrite lookup_insert_Some. destruct c as [fd e]. pose proof (Hwt (fd, e) p) as Hx. cbn in Hx |- *. rewrite Hx. split.
        -- intros [[<- [= <- <-]]|[Hfd' (Hc & v & Hp & Hv)]]; [left; by rewrite <- surjective_pairing|].
           right. split; [|split; [|split; eauto]]; intros ->; [by rewrite (reg_fresh a) in Hp|].
           apply Hfd'. rewrite E in Hp. injection Hp as <-. by rewrite Hv.
        -- intros [(-> & <- & _)|(Hp' & Hp & Hc & v & Hv & Hcv)]; [by left|]. right. split; [|by split; eauto].
           intros Hfd'. apply Hp, (reg_one a Ha p other v t Hv E). by rewrite <- !epoll_code_fd, Hcv.
      * assert ((epoll_code t).1 ∉ opened a) as Hclosed.
        { intros Hfd. destruct (Hwt (epoll_code t) other) as [_ Hx]. rewrite Hx in Ei; [done|]. split; eauto. }
        rewrite Hwt. split.
        -- intros (Hc & v & Hp & Hv). right. split; [|split; [|split; eauto]]; intros ->; [by rewrite (reg_fresh a) in Hp|].
           apply Hclosed. rewrite E in Hp. injection Hp as <-. by rewrite Hv.
        -- intros [(_ & -> & ?)|(_ & _ & ?)]; done.
    + by rewrite ep_mod_watchable.
    + rewrite E, map_size_insert_None, map_size_delete_Some; [|done|rewrite lookup_delete_ne by done; by apply reg_fresh].
      assert (size (live a) <> 0)%nat; [|lia]. intros Hz. apply map_size_empty_inv in Hz. by rewrite Hz in E.
  - rewrite Hcase. apply wp_ret. split; [exact Hn'| | |]; cbn; rewrite ?E; try done.
Qed.

Lemma epoll_destroy_refines this a w :
  Registry_ok a -> op_ok (Destroy this) a -> epoll_rep a w ->
  wp (node_destroy this) (fun _ => epoll_rep (reg_step (Destroy this) a)) w.
Proof.
  intros Ha Hop [Hn Hwt Ho Ht].
  destruct (nodes_rep_lookup epoll_code epoll_code_fd a (nodes w) this Ha Hn Hop) as (n & Hnode & Hcase).
  apply wp_bind, (wp_epoll_get_node this n); [done|]. pose proof (nodes_rep_destroy epoll_code this a (nodes w) Hn) as Hn'.
  destruct (live a !! this) as [t|] eqn:E.
  - destruct Hcase as [-> ->]. apply wp_bind, wp_bind, wp_modify. apply wp_modify, wp_modify. split; cbn -[reg_step]; [done| |cbn|cbn].
    + intros c p. rewrite reg_watch_destroy, <- Hwt, ep_del_interest, lookup_delete_Some.
      split; intros [H1 H2].
      * split; [done|]. intros ->. apply Hwt in H2 as (_ & u & Hu & Hc). rewrite E in Hu. injection Hu as <-.
        apply H1. by rewrite Hc.
      * split; [|done]. intros Hfd. apply H2. apply Hwt in H1 as (_ & u & Hu & Hc).
        apply (reg_one a Ha p this u t Hu E). by rewrite <- !epoll_code_fd, Hc.
    + by rewrite ep_del_watchable.
    + rewrite Ht, map_size_delete_Some by done. pose proof (reg_size a Ha).
      apply count_pred; [|done]. destruct (size (live a)) eqn:Hz; [|lia]. apply map_size_empty_inv in Hz. by rewrite Hz in E.
  - rewrite Hcase. apply wp_bind, wp_ret, wp_modify. split; cbn -[reg_step]; [done| |done|cbn].
    + intros c p. rewrite reg_watch_destroy, Hwt. split; [|tauto]. intros Hc. split; [done|]. intros ->.
      destruct Hc as (_ & t & Hp & _). by rewrite E in Hp.
    + by rewrite map_size_delete, E.
Qed.

(** Every operation of the executor is the step of the registry. *)
Lemma epoll_run_refines op a w :
  Registry_ok a -> op_ok op a -> epoll_rep a w -> wp (run op) (fun _ => epoll_rep (reg_step op a)) w.
Proof.
  intros Ha Hop Hw. destruct op as [trigger tmp result|other this|this|fd|fd]; cbn [run].
  - destruct (reg_setup_ok trigger tmp result a Ha Hop) as (Ha1 & Hmove & Hdestroy).
    pose proof (epoll_setup_refines trigger tmp result a w Ha Hop Hw) as Hsetup.
    rewrite reg_register by done. apply wp_assoc, wp_bind.
    eapply wp_mono; [by destruct trigger; exact Hsetup|]. intros [] w1 Hw1.
    apply wp_bind. eapply wp_mono; [by apply epoll_move_refines|]. intros [] w2 Hw2.
    apply epoll_destroy_refines; [by apply reg_step_ok|done|done].
  - by apply epoll_move_refines.
  - by apply epoll_destroy_refines.
  - destruct Hop as (Hfd & Hnew & Hun). pose proof (epoll_unwatched a w fd Hw Hun) as Hnone. destruct Hw as [[] Hwt Ho Ht].
    apply wp_modify. split; cbn; [by split| |by rewrite ep_open_watchable, Ho|done].
    intros c p. rewrite ep_open_interest, Hwt. unfold reg_watch. cbn. split; [set_solver|].
    intros (Hc & t & Hp & Et). split; [|by eauto]. apply elem_of_union in Hc as [Hfd'%elem_of_singleton|?]; [|done].
    destruct (Hun p t Hp). by rewrite <- epoll_code_fd, Et.
  - destruct Hw as [[] Hwt Ho Ht]. apply wp_modify. split; cbn; [by split| |by rewrite ep_close_watchable, Ho|done].
    intros c p. rewrite ep_close_interest, lookup_delete_Some, Hwt. unfold reg_watch. cbn. set_solver.
Qed.
End EpollRefines.

Section KqueueRefines.
Import Kqueue.
Context {K : Type} `{KqueueKernelOk K}.
Abbreviation W := (KqueueExecutor K).

Record kqueue_rep (a : Registry) (w : W) : Prop := {
  kr_nodes : nodes_rep kqueue_code a (nodes w);
  kr_watch : forall c p, kq_interest (kern w) !! c = Some p <-> reg_watch kqueue_code a c p;
  kr_opened : kq_watchable (kern w) = opened a;
  kr_total : total_awaitables_ w = Z.of_nat (size (live a));
}.

Lemma wp_kqueue_get_node this n (Q : Z * Z -> W -> Prop) w : nodes w !! this = Some n -> Q n w -> wp (get_node this) Q w.
Proof. intros Hn HQ. unfold get_node. wp_steps. by rewrite Hn. Qed.

Lemma kqueue_setup_refines trigger tmp result a w :
  Registry_ok a -> op_ok (Register trigger tmp result) a -> kqueue_rep a w ->
  wp (kq_node_new tmp;; kq_setup tmp (kqueue_code trigger).1 (kqueue_code trigger).2) (fun _ => kqueue_rep (reg_setup trigger tmp a)) w.
Proof.
  intros Ha (Hfd & Hun & Htmp & _ & _ & Hsize) [Hn Hwt Ho Ht]. apply wp_bind, wp_modify.
  apply wp_bind. eapply wp_kqueue_get_node; [apply lookup_insert_eq|]. do 2 apply wp_bind, wp_modify. apply wp_modify. split; cbn.
  - rewrite <- surjective_pairing. by apply nodes_rep_setup.
  - intros c p. rewrite (reg_watch_setup kqueue_code kqueue_code_fd) by done. rewrite <- Hwt.
    rewrite kq_add_interest, Ho, <- surjective_pairing, kqueue_code_fd, decide_True by done. rewrite lookup_insert_Some.
    split; [naive_solver|]. intros [Hc|[-> ->]]; [right|by left]. split; [|done]. intros <-.
    apply Hwt in Hc as (_ & t & Hp & Et). apply (Hun p t Hp). by rewrite <- !kqueue_code_fd, Et.
  - by rewrite kq_add_watchable.
  - rewrite Ht, count_succ by done. by rewrite map_size_insert_None by by apply reg_fresh.
Qed.

Lemma kqueue_move_refines other this a w :
  Registry_ok a -> op_ok (Move other this) a -> kqueue_rep a w ->
  wp (kq_node_move other this) (fun _ => kqueue_rep (reg_step (Move other this) a)) w.
Proof.
  intros Ha Hop [Hn Hwt Ho Ht]. pose proof Hop as [Hother Hthis]. assert (other <> this) as Hne by set_solver.
  destruct (nodes_rep_lookup kqueue_code kqueue_code_fd a (nodes w) other Ha Hn Hother) as (n & Hnode & Hcase).
  apply wp_bind, (wp_kqueue_get_node other n); [done|]. do 2 apply wp_bind, wp_modify.
  pose proof (nodes_rep_move kqueue_code other this a (nodes w) n Ha Hop Hn Hnode) as Hn'.
  destruct (live a !! other) as [t|] eqn:E.
  - destruct Hcase as [-> ->]. apply wp_bind, wp_modify, wp_modify. split; cbn -[reg_step]; [done| |cbn|cbn].
    + intros c p. rewrite (reg_watch_move kqueue_code other this t) by done.
      rewrite kq_add_interest, kq_delete_interest, kq_delete_watchable, Ho.
      assert (delete (kqueue_code t) (kq_interest (kern w)) !! c = Some p <-> p <> this /\ p <> other /\ reg_watch kqueue_code a c p) as Hrest.
      { rewrite lookup_delete_Some, Hwt. split.
        - intros [Hc Hw]. destruct (id Hw) as (_ & u & Hp & Hu).
          split; [|split; [|done]]; intros ->; [by rewrite (reg_fresh a) in Hp|]. rewrite E in Hp. by injection Hp as <-.
        - intros (_ & Hp & Hw). split; [|done]. intros <-. destruct Hw as (_ & u & Hu & Et). apply Hp.
          apply (reg_one a Ha p other u t Hu E). by rewrite <- !kqueue_code_fd, Et. }
      case_decide as Hfd; rewrite <- Hrest; [|naive_solver]. rewrite lookup_insert_Some, lookup_delete_Some. naive_solver.
    + by rewrite kq_add_watchable, kq_delete_watchable.
    + rewrite E, map_size_insert_None, map_size_delete_Some; [|done|rewrite lookup_delete_ne by done; by apply reg_fresh].
      assert (size (live a) <> 0)%nat; [|lia]. intros Hz. apply map_size_empty_inv in Hz. by rewrite Hz in E.
  - rewrite Hcase. apply wp_ret. split; [exact Hn'| | |]; cbn; rewrite ?E; try done.
Qed.

Lemma kqueue_destroy_refines this a w :
  Registry_ok a -> op_ok (Destroy this) a -> kqueue_rep a w ->
  wp (kq_node_destroy this) (fun _ => kqueue_rep (reg_step (Destroy this) a)) w.
Proof.
  intros Ha Hop [Hn Hwt Ho Ht].
  destruct (nodes_rep_lookup kqueue_code kqueue_code_fd a (nodes w) this Ha Hn Hop) as (n & Hnode & Hcase).
  apply wp_bind, (wp_kqueue_get_node this n); [done|]. pose proof (nodes_rep_destroy kqueue_code this a (nodes w) Hn) as Hn'.
  destruct (live a !! this) as [t|] eqn:E.
  - destruct Hcase as [-> ->]. apply wp_bind, wp_bind, wp_modify. apply wp_modify, wp_modify. split; cbn -[reg_step]; [done| |cbn|cbn].
    + intros c p. rewrite reg_watch_destroy, kq_delete_interest, lookup_delete_Some, Hwt. split; intros [H1 H2].
      * split; [done|]. intros ->. destruct H2 as (_ & u & Hu & Hc). rewrite E in Hu. by injection Hu as <-.
      * split; [|done]. intros <-. apply H2. destruct H1 as (_ & u & Hu & Hc).
        apply (reg_one a Ha p this u t Hu E). by rewrite <- !kqueue_code_fd, Hc.
    + by rewrite kq_delete_watchable.
    + rewrite Ht, map_size_delete_Some by done. pose proof (reg_size a Ha).
      apply count_pred; [|done]. destruct (size (live a)) eqn:Hz; [|lia]. apply map_size_empty_inv in Hz. by rewrite Hz in E.
  - rewrite Hcase. apply wp_bind, wp_ret, wp_modify. split; cbn -[reg_step]; [done| |done|cbn].
    + intros c p. rewrite reg_watch_destroy, Hwt. split; [|tauto]. intros Hc. split; [done|]. intros ->.
      destruct Hc as (_ & t & Hp & _). by rewrite E in Hp.
    + by rewrite map_size_delete, E.
Qed.

Lemma kqueue_run_refines op a w :
  Registry_ok a -> op_ok op a -> kqueue_rep a w -> wp (kq_run op) (fun _ => kqueue_rep (reg_step op a)) w.
Proof.
  intros Ha Hop Hw. destruct op as [trigger tmp result|other this|this|fd|fd]; cbn [kq_run].
  - destruct (reg_setup_ok trigger tmp result a Ha Hop) as (Ha1 & Hmove & Hdestroy).
    pose proof (kqueue_setup_refines trigger tmp result a w Ha Hop Hw) as Hsetup.
    rewrite reg_register by done. apply wp_assoc, wp_bind.
    eapply wp_mono; [by destruct trigger; exact Hsetup|]. intros [] w1 Hw1.
    apply wp_bind. eapply wp_mono; [by apply kqueue_move_refines|]. intros [] w2 Hw2.
    apply kqueue_destroy_refines; [by apply reg_step_ok|done|done].
  - by apply kqueue_move_refines.
  - by apply kqueue_destroy_refines.
  - destruct Hop as (Hfd & Hnew & Hun). destruct Hw as [[] Hwt Ho Ht].
    apply wp_modify. split; cbn; [by split| |by rewrite kq_open_watchable, Ho|done].
    intros c p. rewrite kq_open_interest, Hwt. unfold reg_watch. cbn. split; [set_solver|].
    intros (Hc & t & Hp & Et). split; [|by eauto]. apply elem_of_union in Hc as [Hfd'%elem_of_singleton|?]; [|done].
    destruct (Hun p t Hp). by rewrite <- kqueue_code_fd, Et.
  - destruct Hw as [[] Hwt Ho Ht]. apply wp_modify. split; cbn; [by split| |by rewrite kq_close_watchable, Ho|done].
    intros c p. rewrite kq_close_interest. unfold reg_watch. cbn. case_decide; [set_solver|]. rewrite Hwt. unfold reg_watch. set_solver.
Qed.
End KqueueRefines.

(** ** The theorems *)

(** C28: the executor of Linux implements its specification: every operation has no
    undefined behaviour and is a step of the registry, so the kernel watches
    exactly the live callbacks whose descriptors are open, each at the address
    where it is now, and [total_awaitables_] is their number. *)
Theorem epoll_refines_registry {K} `{EpollKernelOk K} op a (w : Epoll.EpollExecutor K) :
  Registry_ok a -> op_ok op a -> epoll_rep a w ->
  Registry_ok (reg_step op a) /\ wp (Epoll.run op) (fun _ => epoll_rep (reg_step op a)) w.
Proof. intros Ha Hop Hw. split; [by apply reg_step_ok|by apply epoll_run_refines]. Qed.

(** Every operation is allowed where it happens. *)
Fixpoint ops_ok (ops : list Op) (a : Registry) : Prop :=
  match ops with
  | [] => True
  | op :: ops' => op_ok op a /\ ops_ok ops' (reg_step op a)
  end.

#[export] Instance ops_ok_dec ops a : Decision (ops_ok ops a).
Proof. revert a. induction ops as [|op ops IH]; intros a; cbn; apply _. Defined.

Lemma epoll_ops_refine {K} `{EpollKernelOk K} ops a (w : Epoll.EpollExecutor K) :
  Registry_ok a -> ops_ok ops a -> epoll_rep a w ->
  wp (mfor ops Epoll.run) (fun _ => epoll_rep (foldl (fun a op => reg_step op a) a ops)) w.
Proof.
  revert a w. induction ops as [|op ops IH]; intros a w Ha Hops Hw; cbn; [by apply wp_ret|].
  destruct Hops as [Hop Hops]. apply wp_bind. eapply wp_mono; [by apply epoll_run_refines|].
  intros [] w' Hw'. by apply IH; [apply reg_step_ok| |].
Qed.

Lemma kqueue_ops_refine {K} `{KqueueKernelOk K} ops a (w : Kqueue.KqueueExecutor K) :
  Registry_ok a -> ops_ok ops a -> kqueue_rep a w ->
  wp (mfor ops Kqueue.kq_run) (fun _ => kqueue_rep (foldl (fun a op => reg_step op a) a ops)) w.
Proof.
  revert a w. induction ops as [|op ops IH]; intros a w Ha Hops Hw; cbn; [by apply wp_ret|].
  destruct Hops as [Hop Hops]. apply wp_bind. eapply wp_mono; [by apply kqueue_run_refines|].
  intros [] w' Hw'. by apply IH; [apply reg_step_ok| |].
Qed.

(** An executor that was just made, in a process with these descriptors. *)
Definition new_registry (fds : gset Z) : Registry := mkRegistry ∅ ∅ fds.

Lemma new_registry_ok fds : (forall fd, fd ∈ fds -> 0 <= fd) -> Registry_ok (new_registry fds).
Proof. intros Hfds. split; cbn; [by intros ? ? ?%lookup_empty_Some|by intros ? ? ? ? ?%lookup_empty_Some|done|rewrite map_size_empty; lia]. Qed.

Lemma epoll_new_rep {K} `{EpollKernel K} fds (k : K) :
  ep_interest k = ∅ -> ep_watchable k = fds -> epoll_rep (new_registry fds) (Epoll.mkExecutor ∅ 0 [] k).
Proof.
  intros Hi Hf. split; cbn; [split; cbn; [done|by intros ? ? ?%lookup_empty_Some|by intros ? ? ? ?%lookup_empty_Some]| |done|done].
  intros c p. rewrite Hi. unfold reg_watch. cbn. split; [by intros ?%lookup_empty_Some|].
  by intros (_ & t & ?%lookup_empty_Some & _).
Qed.

Lemma kqueue_new_rep {K} `{KqueueKernel K} fds (k : K) :
  kq_interest k = ∅ -> kq_watchable k = fds -> kqueue_rep (new_registry fds) (Kqueue.mkExecutor ∅ 0 [] k).
Proof.
  intros Hi Hf. split; cbn; [split; cbn; [done|by intros ? ? ?%lookup_empty_Some|by intros ? ? ? ?%lookup_empty_Some]| |done|done].
  intros c p. rewrite Hi. unfold reg_watch. cbn. split; [by intros ?%lookup_empty_Some|].
  by intros (_ & t & ?%lookup_empty_Some & _).
Qed.

(** C29: the two executors are equivalent: after the same allowed operations, from
    the start, they count the same callbacks, have the same objects, and the
    kernel watches the same triggers for the same addresses. *)
Theorem executors_equivalent {KE KQ} `{EpollKernelOk KE} `{KqueueKernelOk KQ} ops fds (ke : KE) (kq : KQ) :
  (forall fd, fd ∈ fds -> 0 <= fd) -> ops_ok ops (new_registry fds) ->
  ep_interest ke = ∅ -> ep_watchable ke = fds -> kq_interest kq = ∅ -> kq_watchable kq = fds ->
  wp (mfor ops Epoll.run) (fun _ we =>
    wp (mfor ops Kqueue.kq_run) (fun _ wk =>
      Epoll.total_awaitables_ we = Kqueue.total_awaitables_ wk /\
      dom (Epoll.nodes we) = dom (Kqueue.nodes wk) /\
      forall t p, ep_interest (Epoll.kern we) !! trigger_fd t = Some ((epoll_code t).2, p) <->
                  kq_interest (Kqueue.kern wk) !! kqueue_code t = Some p)
      (Kqueue.mkExecutor ∅ 0 [] kq))
    (Epoll.mkExecutor ∅ 0 [] ke).
Proof.
  intros Hfds Hops Hei Hew Hqi Hqw. pose proof (new_registry_ok fds Hfds) as Ha.
  eapply wp_mono; [by apply (epoll_ops_refine ops (new_registry fds)), epoll_new_rep|]. intros [] we He.
  eapply wp_mono; [by apply (kqueue_ops_refine ops (new_registry fds)), kqueue_new_rep|]. intros [] wk Hk.
  destruct He as [[Hed _ _] Hew' _ Het], Hk as [[Hkd _ _] Hkw _ Hkt]. rewrite Het, Hkt, Hed, Hkd. split; [done|]. split; [done|].
  intros t p. rewrite <- epoll_code_fd, Hew', Hkw. unfold reg_watch. rewrite epoll_code_fd, kqueue_code_fd.
  split; intros (Hfd & u & Hp & Hu); (split; [done|]); exists u; (split; [done|]); destruct t, u; by injection Hu as ->.
Qed.

(** What [schedule_all] does with pointers that are null or live objects. *)
Lemma epoll_schedule_all {K} `{EpollKernelOk K} evs now a (w : Epoll.EpollExecutor K) :
  Registry_ok a -> epoll_rep a w -> Forall (fun p => is_Some (live a !! p)) evs -> 0 ∉ evs ->
  wp (Epoll.schedule_all evs now) (fun _ w' =>
    w' = Epoll.mkExecutor (Epoll.nodes w) (Epoll.total_awaitables_ w) (Epoll.scheduled w ++ ((., now) <$> evs)) (Epoll.kern w)) w.
Proof.
  intros Ha. revert w. induction evs as [|p evs IH]; intros w Hw Hlive Hz; cbn.
  { apply wp_ret. rewrite app_nil_r. by destruct w. }
  apply Forall_cons in Hlive as [[t Hp] Hlive]. rewrite (proj2 (Z.eqb_neq p 0)) by set_solver.
  apply wp_bind, wp_bind. eapply wp_epoll_get_node; [by eapply nr_live; [apply Hw|]|]. apply wp_modify.
  eapply wp_mono; [apply IH; [by destruct Hw|done|set_solver]|]. intros [] w' ->. cbn. by rewrite <- app_assoc.
Qed.

(** A turn of the event loop schedules live callbacks only: whatever is reported,
    [pollAwaitableResourcesFor] never uses the pointer of an object that was
    destroyed or moved away, and what it schedules are callbacks that live,
    at the time it is now; it fails exactly for an endless sleep or an error
    of [epoll_wait] other than [EINTR]. *)
Theorem epoll_poll_schedules_live {K} `{EpollKernelOk K} timeout a (w : Epoll.EpollExecutor K) :
  Registry_ok a -> epoll_rep a w -> 0 ∉ objects a ->
  wp (Epoll.pollAwaitableResourcesFor timeout) (fun failure w' => epoll_rep a w' /\
    (exists ps, Epoll.scheduled w' = Epoll.scheduled w ++ ((., ep_now (Epoll.kern w')) <$> ps) /\
       Forall (fun p => is_Some (live a !! p)) ps) /\
    failure =
      if decide (live a = ∅) then match timeout with None => Some ArgumentError | Some _ => None end
      else match (ep_wait Epoll.MaxEpollEvents (Epoll.clamped_timeout_ms timeout) (Epoll.kern w)).1 with
           | inl err => if err =? Errno.EINTR then None else Some (PlatformError (u32 err))
           | inr _ => None
           end) w.
Proof.
  intros Ha Hw Hz. unfold Epoll.pollAwaitableResourcesFor. do 2 wp_step. rewrite (er_total a w Hw).
  destruct Hw as [Hn Hwt Ho Ht]. case_decide as Hempty.
  - rewrite Hempty, map_size_empty, Z.eqb_refl. destruct timeout as [t|].
    + apply wp_bind, wp_modify, wp_ret. split; [split; cbn; rewrite ?ep_sleep_interest, ?ep_sleep_watchable; done|].
      split; [|done]. exists []. by rewrite app_nil_r.
    + apply wp_ret. split; [by split|]. split; [|done]. exists []. by rewrite app_nil_r.
  - rewrite (proj2 (Z.eqb_neq _ _)) by (intros Hs; apply Hempty, map_size_empty_inv; lia). apply wp_bind, wp_liftF.
    pose proof (ep_wait_reports Epoll.MaxEpollEvents (Epoll.clamped_timeout_ms timeout) (Epoll.kern w)) as Hrep.
    pose proof (ep_wait_interest Epoll.MaxEpollEvents (Epoll.clamped_timeout_ms timeout) (Epoll.kern w)) as Hi.
    pose proof (ep_wait_watchable Epoll.MaxEpollEvents (Epoll.clamped_timeout_ms timeout) (Epoll.kern w)) as Hv.
    destruct (ep_wait _ _ _) as [r k]. cbn in *.
    assert (epoll_rep a (Epoll.mkExecutor (Epoll.nodes w) (Epoll.total_awaitables_ w) (Epoll.scheduled w) k)) as Hk
      by (split; cbn; rewrite ?Hi, ?Hv; done).
    destruct r as [err|evs].
    { destruct (err =? Errno.EINTR); apply wp_ret; (split; [exact Hk|]); (split; [|done]); exists []; by rewrite app_nil_r. }
    do 2 wp_step. apply wp_bind.
    assert (Forall (fun p => is_Some (live a !! p)) evs) as Hlive.
    { apply Forall_forall. intros p Hp. destruct (Hrep evs p eq_refl Hp) as (fd & ev & E).
      apply (Hwt (fd, ev) p) in E as (_ & t & ? & _). by eexists. }
    eapply wp_mono; [apply (epoll_schedule_all evs _ a); try done|].
    + intros Hnull. rewrite Forall_forall in Hlive. destruct (Hlive 0 Hnull) as [t Et]. by apply (reg_live a Ha) in Et as [? _].
    + intros [] w' ->. apply wp_ret. cbn. split; [by destruct Hk|]. split; [|done]. by exists evs.
Qed.

(** How long a turn sleeps: the loops ask for one second at most, and never for
    longer than until the next timed callback; on Linux the request becomes a
    valid number of milliseconds, rounded down, so that [epoll_wait] never
    sleeps past the deadline, and less than a millisecond before it it does not sleep; a
    deadline that has passed does not sleep either. *)
Theorem epoll_timeout_bounds next_exec_time now :
  let timeout := poll_timeout next_exec_time now in
  let ms := Epoll.clamped_timeout_ms (Some timeout) in
  0 <= ms <= 1000 /\ timeout <= 1000000 /\
  (forall t, next_exec_time = Some t -> timeout <= t - now) /\
  (0 <= timeout -> ms * 1000 <= timeout < (ms + 1) * 1000) /\
  (timeout <= 0 -> ms = 0).
Proof.
  cbv zeta. set (timeout := poll_timeout next_exec_time now).
  assert (timeout <= 1000000 /\ forall t, next_exec_time = Some t -> timeout <= t - now) as [Hmax Ht].
  { unfold timeout, poll_timeout. destruct next_exec_time; split; try lia; intros t' [= <-]; lia. }
  unfold Epoll.clamped_timeout_ms. pose proof (Z.quot_rem' timeout 1000) as Hq.
  destruct (Z.le_gt_cases 0 timeout) as [Hpos|Hneg].
  - pose proof (Z.rem_bound_pos timeout 1000 Hpos ltac:(lia)) as Hr.
    rewrite Z.min_l, Z.max_r by lia. repeat split; try done; try lia.
  - assert (Z.quot timeout 1000 <= 0) by (Z.to_euclidean_division_equations; lia).
    rewrite Z.max_l by lia. repeat split; try done; lia.
Qed.

(** What BSD makes of it: only the nanoseconds of the [timespec] are set, so the
    kernel gets a valid one, less than a second, exactly for a timeout below one
    second; but one second is just what the loops ask for when no timed callback is near. *)
Theorem kqueue_timeout_invalid next_exec_time now :
  let timeout := poll_timeout next_exec_time now in
  exists tv_nsec, Kqueue.timeout_spec (Some timeout) = Some tv_nsec /\
    (0 <= tv_nsec < 10 ^ 9 <-> match next_exec_time with Some t => t < now + 1000000 | None => False end).
Proof.
  cbv zeta. eexists. split; [done|]. unfold poll_timeout. destruct next_exec_time as [t|]; lia.
Qed.

(** ** The loops end when they should *)
Section LoopFacts.
Context {E : Type} `{Executor E}.

(** One turn, and [n] of them. *)
Definition spun (e : E) : E := (ex_spinOnce e).2.

Definition turn (e : E) : E :=
  let '(next_exec_time, e) := ex_spinOnce e in (ex_poll (poll_timeout next_exec_time (ex_now e)) e).2.

Definition turns (n : nat) (e : E) : E := Nat.iter n turn e.

Lemma turns_S n e : turns (S n) e = turns n (turn e).
Proof. unfold turns. by rewrite Nat.iter_succ_r. Qed.

(** The places where [waitPollingUntil] looks at its predicate. *)
Definition fulfilled_at (predicate : E -> bool) (e : E) (n : nat) : Prop :=
  predicate (turns n e) = true \/ predicate (spun (turns n e)) = true.

Lemma wait_unfold fuel predicate e :
  waitPollingUntil (S fuel) predicate e =
  if predicate e then Some e else if predicate (spun e) then Some (spun e) else waitPollingUntil fuel predicate (turn e).
Proof. cbn. unfold spun, turn. destruct (predicate e); [done|]. destruct (ex_spinOnce e) as [t e1]. cbn. destruct (predicate e1); [done|]. by destruct (ex_poll _ e1). Qed.

Lemma wait_returns predicate e n :
  fulfilled_at predicate e n -> exists e', waitPollingUntil (S n) predicate e = Some e'.
Proof.
  revert e. induction n as [|n IH]; intros e Hn; rewrite wait_unfold; destruct (predicate e) eqn:E0, (predicate (spun e)) eqn:E1; eauto.
  - destruct Hn as [Hn|Hn]; cbn in Hn; congruence.
  - apply IH. unfold fulfilled_at in *. by rewrite <- turns_S.
Qed.

Lemma wait_sound fuel predicate e e' :
  waitPollingUntil fuel predicate e = Some e' -> predicate e' = true /\ exists n, (n < fuel)%nat /\ fulfilled_at predicate e n.
Proof.
  revert e. induction fuel as [|fuel IH]; intros e; [done|]. rewrite wait_unfold.
  destruct (predicate e) eqn:E0; [intros [= <-]; split; [done|]; exists 0%nat; split; [lia|by left]|].
  destruct (predicate (spun e)) eqn:E1; [intros [= <-]; split; [done|]; exists 0%nat; split; [lia|by right]|].
  intros [Hp (n & Hn & Hf)]%IH. split; [done|]. exists (S n). split; [lia|]. unfold fulfilled_at in *. by rewrite turns_S.
Qed.

(** C30: [waitPollingUntil] returns exactly when its predicate is fulfilled at one of
    the places where it looks, at the first of them (the number of turns, plus
    one, is enough fuel), and the predicate holds then; [Engine::runWhile] returns
    exactly when its predicate fails after some number of turns. *)
Theorem loops_terminate predicate e :
  (forall n, fulfilled_at predicate e n -> exists e', waitPollingUntil (S n) predicate e = Some e' /\ predicate e' = true) /\
  (forall fuel e', waitPollingUntil fuel predicate e = Some e' ->
     predicate e' = true /\ exists n, (n < fuel)%nat /\ fulfilled_at predicate e n) /\
  (forall fuel e', runWhile fuel predicate e = Some e' <->
     exists n, (n < fuel)%nat /\ e' = turns n e /\ predicate e' = false /\ forall m, (m < n)%nat -> predicate (turns m e) = true).
Proof.
  split; [|split].
  - intros n Hn. destruct (wait_returns predicate e n Hn) as [e' He']. exists e'. split; [done|]. by apply wait_sound in He' as [? _].
  - intros fuel e'. apply wait_sound.
  - intros fuel. revert e. induction fuel as [|fuel IH]; intros e e'; cbn [runWhile]; [split; [done|]; intros (n & ? & _); lia|].
    destruct (predicate e) eqn:E0.
    + assert ((let '(t, e1) := ex_spinOnce e in let '(_, e2) := ex_poll (poll_timeout t (ex_now e1)) e1 in
               runWhile fuel predicate e2) = runWhile fuel predicate (turn e)) as ->
        by (unfold turn; destruct (ex_spinOnce e) as [t e1]; by destruct (ex_poll _ e1)).
      rewrite IH. split.
      * intros (n & Hn & -> & Hf & Hm). exists (S n). rewrite turns_S. split; [lia|]. split; [done|]. split; [done|].
        intros [|m] Hlt; [done|]. rewrite turns_S. apply Hm. lia.
      * intros (n & Hn & -> & Hf & Hm). destruct n as [|n]; [by cbn in Hf; congruence|]. exists n. rewrite turns_S in *.
        split; [lia|]. split; [done|]. split; [done|]. intros m Hlt. rewrite <- turns_S. apply Hm. lia.
    + split.
      * intros [= <-]. exists 0%nat. split; [lia|]. split; [done|]. split; [done|]. lia.
      * intros (n & Hn & -> & Hf & Hm). destruct n as [|n]; [done|]. specialize (Hm 0%nat ltac:(lia)). cbn in Hm. congruence.
Qed.
End LoopFacts.

(** ** Examples *)
Module EventLoopExample.

(** A kernel of each kind, with a clock, in which everything that is watched is
    ready at once. *)
Record EpKernel := mkEpKernel { epk_interest : gmap Z (Z * Addr); epk_fds : gset Z; epk_time : Z }.
Record KqKernel := mkKqKernel { kqk_interest : gmap (Z * Z) Addr; kqk_fds : gset Z; kqk_time : Z }.

Definition ep_set (f : gmap Z (Z * Addr) -> gmap Z (Z * Addr)) (k : EpKernel) : EpKernel :=
  mkEpKernel (f (epk_interest k)) (epk_fds k) (epk_time k).

#[export] Instance ep_kernel : EpollKernel EpKernel := {
  ep_interest := epk_interest;
  ep_watchable := epk_fds;
  ep_ctl_add fd e k :=
    if decide (fd ∈ epk_fds k) then match epk_interest k !! fd with Some _ => k | None => ep_set <[fd := e]> k end else k;
  ep_ctl_mod fd e k := match epk_interest k !! fd with Some _ => ep_set <[fd := e]> k | None => k end;
  ep_ctl_del fd k := ep_set (delete fd) k;
  ep_wait n t k := (inr (take n ((fun e => e.2.2) <$> map_to_list (epk_interest k))), k);
  ep_open fd k := mkEpKernel (epk_interest k) ({[fd]} ∪ epk_fds k) (epk_time k);
  ep_close fd k := mkEpKernel (delete fd (epk_interest k)) (epk_fds k ∖ {[fd]}) (epk_time k);
  ep_now := epk_time;
  ep_sleep_for t k := mkEpKernel (epk_interest k) (epk_fds k) (epk_time k + t);
}.

#[export] Instance ep_kernel_ok : EpollKernelOk EpKernel.
Proof.
  split; try done.
  - intros fd e k. cbn. case_decide; [|done]. by destruct (epk_interest k !! fd).
  - intros fd e k. cbn. by destruct (epk_interest k !! fd).
  - intros fd e k. cbn. case_decide; [|done]. by destruct (epk_interest k !! fd).
  - intros fd e k. cbn. by destruct (epk_interest k !! fd).
  - intros n t k evs p [= <-] Hp. apply (subseteq_take n) in Hp.
    apply list_elem_of_fmap in Hp as ([fd [ev q]] & -> & Hin). apply elem_of_map_to_list in Hin. by exists fd, ev.
Qed.

Definition kq_set (f : gmap (Z * Z) Addr -> gmap (Z * Z) Addr) (k : KqKernel) : KqKernel :=
  mkKqKernel (f (kqk_interest k)) (kqk_fds k) (kqk_time k).

#[export] Instance kq_kernel : KqueueKernel KqKernel := {
  kq_interest := kqk_interest;
  kq_watchable := kqk_fds;
  kq_add c p k := if decide (c.1 ∈ kqk_fds k) then kq_set <[c := p]> k else k;
  kq_delete c k := kq_set (delete c) k;
  kq_wait n t k := (inr (take n (snd <$> map_to_list (kqk_interest k))), k);
  kq_open fd k := mkKqKernel (kqk_interest k) ({[fd]} ∪ kqk_fds k) (kqk_time k);
  kq_close fd k := mkKqKernel (filter (fun e => e.1.1 <> fd) (kqk_interest k)) (kqk_fds k ∖ {[fd]}) (kqk_time k);
  kq_now := kqk_time;
  kq_sleep_for t k := mkKqKernel (kqk_interest k) (kqk_fds k) (kqk_time k + t);
}.

#[export] Instance kq_kernel_ok : KqueueKernelOk KqKernel.
Proof.
  split; try done.
  - intros c p k. cbn. by case_decide.
  - intros fd k c. cbn. case_decide as Hc.
    + apply map_lookup_filter_None_2. right. intros p _ Hne. done.
    + destruct (kqk_interest k !! c) as [p|] eqn:E; [by apply map_lookup_filter_Some_2|].
      apply map_lookup_filter_None_2. by left.
  - intros c p k. cbn. by case_decide.
  - intros n t k evs p [= <-] Hp. apply (subseteq_take n) in Hp.
    apply list_elem_of_fmap in Hp as ([c q] & -> & Hin). apply elem_of_map_to_list in Hin. by exists c.
Qed.

(** The life of a connection: a descriptor is opened, watched for writing, then for
    reading by another callback, that callback is moved, and both go. *)
Definition connection : list Op :=
  [OpenFd 5; Register (Writable 5) 100 200; Destroy 200; Register (Readable 5) 100 300; Register (Readable 7) 100 400;
   Move 300 500; Destroy 300].

Definition start_ep : EpKernel := mkEpKernel ∅ {[7]} 0.
Definition start_kq : KqKernel := mkKqKernel ∅ {[7]} 0.

(** One callback that watches a descriptor. *)
Definition one : Registry := mkRegistry {[100]} {[100 := Readable 7]} {[7]}.
Definition one_exec : Epoll.EpollExecutor EpKernel :=
  Epoll.mkExecutor {[100 := (7, Epoll.EPOLLIN)]} 1 [] (mkEpKernel {[7 := (Epoll.EPOLLIN, 100)]} {[7]} 0).

Lemma one_ok : Registry_ok one.
Proof.
  split; cbn.
  - intros p t [<- <-]%lookup_singleton_Some. split; [set_solver|done].
  - by intros p q t u [<- <-]%lookup_singleton_Some [<- <-]%lookup_singleton_Some.
  - intros fd ->%elem_of_singleton. done.
  - vm_compute. done.
Qed.

Lemma one_rep : epoll_rep one one_exec.
Proof.
  split; [split| | |]; cbn; [apply leibniz_equiv; by rewrite dom_singleton| | | |done|by vm_compute].
  - by intros p t [<- <-]%lookup_singleton_Some; rewrite lookup_singleton_eq.
  - intros p n Hp [<- <-]%lookup_singleton_Some. by rewrite lookup_singleton_eq in Hp.
  - intros [fd ev] p. unfold reg_watch. cbn. rewrite lookup_singleton_Some. split.
    + intros [<- [= <- <-]]. split; [set_solver|]. exists (Readable 7). by rewrite lookup_singleton_eq.
    + intros (Hfd & t & [<- <-]%lookup_singleton_Some & Ht). injection Ht as <- <-. done.
Qed.

(** An executor with a clock: a turn takes a tenth of a second. *)
#[export] Instance clock : Executor Z := { ex_spinOnce e := (None, e); ex_now e := e; ex_poll t e := (None, e + 100000) }.
End EventLoopExample.

Section Witnesses.
Import EventLoopExample.

Lemma epoll_refines_registry_witness :
  Registry_ok (reg_step (Destroy 100) one) /\
  wp (Epoll.run (Destroy 100)) (fun _ => epoll_rep (reg_step (Destroy 100) one)) one_exec.
Proof.
  exact (epoll_refines_registry (Destroy 100) one one_exec one_ok (proj2 (elem_of_singleton 100 100) eq_refl) one_rep).
Defined.

Lemma executors_equivalent_witness :
  wp (mfor connection Epoll.run) (fun _ we =>
    wp (mfor connection Kqueue.kq_run) (fun _ wk =>
      Epoll.total_awaitables_ we = Kqueue.total_awaitables_ wk /\
      dom (Epoll.nodes we) = dom (Kqueue.nodes wk) /\
      forall t p, ep_interest (Epoll.kern we) !! trigger_fd t = Some ((epoll_code t).2, p) <->
                  kq_interest (Kqueue.kern wk) !! kqueue_code t = Some p)
      (Kqueue.mkExecutor ∅ 0 [] start_kq))
    (Epoll.mkExecutor ∅ 0 [] start_ep).
Proof.
  apply (executors_equivalent connection {[7]}); try done.
  - by intros fd ->%elem_of_singleton.
  - apply (bool_decide_eq_true_1 (ops_ok connection (new_registry {[7]}))). vm_compute. reflexivity.
Defined.

Lemma epoll_poll_schedules_live_witness :
  wp (Epoll.pollAwaitableResourcesFor (Some 1000)) (fun failure w' => epoll_rep one w' /\
    (exists ps, Epoll.scheduled w' = Epoll.scheduled one_exec ++ ((., ep_now (Epoll.kern w')) <$> ps) /\
       Forall (fun p => is_Some (live one !! p)) ps) /\
    failure =
      if decide (live one = ∅) then match Some 1000 with None => Some ArgumentError | Some _ => None end
      else match (ep_wait Epoll.MaxEpollEvents (Epoll.clamped_timeout_ms (Some 1000)) (Epoll.kern one_exec)).1 with
           | inl err => if err =? Errno.EINTR then None else Some (PlatformError (u32 err))
           | inr _ => None
           end) one_exec.
Proof.
  apply (epoll_poll_schedules_live (Some 1000) one one_exec one_ok one_rep). cbn. set_solver.
Defined.
End Witnesses.
