(* ===== verification/IfaceText.v ===== *)
(** * The text that names the interfaces of a transport

    The configuration lists interfaces with a scheme, such as [socketcan:can0] or
    [udp://192.168.1.1]. [CanTransportBag::make] and [UdpTransportBag::make]
    collect those of their scheme into one comma-separated text, and
    [CanMediaCollection::parse] and [UdpMediaCollection::parse] split it again and
    make a medium for each piece, up to three. Both loops are here, because
    both transports have the same text. *)
From S2P Require Import Prelude.

Local Open Scope Z_scope.

(** ** Collecting *)

(** The loop of [CanTransportBag::make] and [UdpTransportBag::make]. *)
Fixpoint collect_ifaces (prefix : bytes) (ifaces : list bytes) (acc : bytes) : bytes :=
  match ifaces with
  | [] => acc
  | iface :: ifaces =>
      collect_ifaces prefix ifaces (if is_prefix prefix iface then acc ++ drop (length prefix) iface ++ str "," else acc)
  end.

(** ** Splitting *)

(** [std::string_view::npos] *)
Definition npos : Z := 2 ^ 64 - 1.

(** [s.find(',', curr)] *)
Definition find_comma (s : bytes) (curr : Z) : Z :=
  match list_find (fun b => b = x2c) (drop (Z.to_nat curr) s) with
  | Some (i, _) => curr + Z.of_nat i
  | None => npos
  end.

(** [s.substr(pos, n)], which throws if [pos] is beyond the end. *)
Definition substr (s : bytes) (pos n : Z) : outcome bytes :=
  if Z.of_nat (length s) <? pos then Undef else Done (take (Z.to_nat (Z.min n (Z.of_nat (length s) - pos))) (drop (Z.to_nat pos) s)).

(** The loop of [parse], for any way to use a piece ([body]) and to see that there
    are enough of them ([full]). *)
Fixpoint for_each_piece {S St} (fuel : nat) (full : St -> bool) (body : bytes -> St -> M S St) (s : bytes) (curr : Z) (st : St) :
    M S St :=
  match fuel with
  | O => undef
  | Datatypes.S fuel' =>
      if (curr =? npos) || full st then mret st
      else
        let next := find_comma s curr in
        iface_address ← ofOutcome (substr s curr (u64 (next - curr)));
        st ← (if bool_decide (iface_address = []) then mret st else body iface_address st);
        for_each_piece fuel' full body s (Z.max (u64 (next + 1)) next) st
  end.

(** ** What they do *)

(** The text between commas. *)
Fixpoint split_commas (s : bytes) : list bytes :=
  match s with
  | [] => [[]]
  | b :: s => if decide (b = x2c) then [] :: split_commas s
              else match split_commas s with [] => [[b]] | p :: ps => (b :: p) :: ps end
  end.

(** The pieces of a text: the non-empty ones. *)
Definition pieces (s : bytes) : list bytes := filter (fun p => p <> []) (split_commas s).

(** Use pieces until there are enough. *)
Fixpoint run_pieces {S St} (full : St -> bool) (body : bytes -> St -> M S St) (ps : list bytes) (st : St) : M S St :=
  match ps with
  | [] => mret st
  | p :: ps => if full st then mret st else st ← body p st; run_pieces full body ps st
  end.

Lemma split_commas_none s : x2c ∉ s -> split_commas s = [s].
Proof.
  induction s as [|b s IH]; [done|]. intros Hs. cbn. rewrite decide_False by set_solver.
  by rewrite IH by set_solver.
Qed.

Lemma split_commas_some t u : x2c ∉ t -> split_commas (t ++ x2c :: u) = t :: split_commas u.
Proof.
  induction t as [|b t IH]; intros Ht; cbn.
  - by rewrite decide_True.
  - rewrite decide_False by set_solver. by rewrite IH by set_solver.
Qed.

(** What [find_comma] finds. *)
Lemma find_comma_cases s curr :
  0 <= curr <= Z.of_nat (length s) -> Z.of_nat (length s) < npos ->
  let t := drop (Z.to_nat curr) s in
  (x2c ∉ t /\ find_comma s curr = npos) \/
  exists u v, t = u ++ x2c :: v /\ x2c ∉ u /\ find_comma s curr = curr + Z.of_nat (length u) /\
    v = drop (Z.to_nat (curr + Z.of_nat (length u) + 1)) s /\ curr + Z.of_nat (length u) < Z.of_nat (length s).
Proof.
  intros Hc Hlen. cbn zeta. unfold find_comma. destruct (list_find _ _) as [[i b]|] eqn:E.
  - right. apply list_find_Some in E as (Hi & -> & Hbefore). pose proof (lookup_lt_Some _ _ _ Hi) as Hlt.
    rewrite length_drop in Hlt. exists (take i (drop (Z.to_nat curr) s)), (drop (S i) (drop (Z.to_nat curr) s)).
    rewrite length_take, length_drop. split_and!.
    + symmetry. by apply take_drop_middle.
    + intros (j & Hj)%list_elem_of_lookup. pose proof (lookup_lt_Some _ _ _ Hj) as Hjl. rewrite length_take in Hjl.
      rewrite lookup_take_lt in Hj by lia. by apply (Hbefore j x2c); [|lia|].
    + f_equal. lia.
    + rewrite drop_drop. f_equal. lia.
    + lia.
  - left. split; [|done]. apply list_find_None in E. intros Hin. by apply (proj1 (Forall_forall _ _) E x2c).
Qed.

Lemma bind_Done {S A B} (a : A) (f : A -> M S B) (m : S) : (ofOutcome (Done a) ≫= f) m = f a m.
Proof. done. Qed.

Lemma bind_mret {S A B} (a : A) (f : A -> M S B) (m : S) : (mret a ≫= f) m = f a m.
Proof. done. Qed.

(** The loop uses the pieces in order, until there are enough, and terminates. *)
Lemma for_each_piece_run {S St} (full : St -> bool) (body : bytes -> St -> M S St) s st (m : S) :
  Z.of_nat (length s) < npos ->
  for_each_piece (2 + length s) full body s 0 st m = run_pieces full body (pieces s) st m.
Proof.
  intros Hlen. unfold pieces.
  assert (forall fuel curr st (m : S), 0 <= curr <= Z.of_nat (length s) -> (2 + length s <= fuel + Z.to_nat curr)%nat ->
    for_each_piece fuel full body s curr st m
    = run_pieces full body (filter (fun p => p <> []) (split_commas (drop (Z.to_nat curr) s))) st m) as Hgen.
  { clear m st. induction fuel as [|fuel IH]; intros curr st m Hc Hf; [lia|]. cbn [for_each_piece].
    destruct (Z.eqb_spec curr npos); [lia|]. cbn [orb].
    assert (forall ps, full st = true -> run_pieces full body ps st = mret st) as Hfull.
    { intros [|p ps] Hst; [done|]. cbn. by rewrite Hst. }
    destruct (full st) eqn:Hst; [by rewrite Hfull|].
    unfold substr. destruct (Z.ltb_spec (Z.of_nat (length s)) curr); [lia|].
    rewrite bind_Done.
    destruct (find_comma_cases s curr Hc Hlen) as [(Hnone & ->)|(u & v & Ht & Hu & -> & Hv & Hlt)].
    - rewrite take_ge by (rewrite length_drop; unfold npos, wrap in *; rewrite Z.mod_small by lia; lia).
      rewrite split_commas_none by done. change (u64 (npos + 1)) with 0. change (Z.max 0 npos) with npos.
      assert (forall st (m : S), for_each_piece fuel full body s npos st m = Done (st, m)) as Hend.
      { intros st' m'. destruct fuel; [lia|]. cbn [for_each_piece]. by rewrite Z.eqb_refl. }
      destruct (decide (drop (Z.to_nat curr) s = [])) as [Hnil|Hne].
      + rewrite Hnil, bool_decide_eq_true_2, bind_mret by done. apply Hend.
      + rewrite bool_decide_eq_false_2, filter_cons_True by done. cbn. rewrite Hst. unfold mbind, M_bind.
        destruct (body _ st m) as [[st' m']|]; [apply Hend|done].
    - rewrite Ht, split_commas_some by done.
      replace (curr + Z.of_nat (length u) - curr) with (Z.of_nat (length u)) by lia.
      rewrite !wrap_id by (unfold npos in *; lia). rewrite Z.min_l by lia. rewrite Nat2Z.id, take_app_length, Z.max_l by lia.
      assert (forall st (m : S), for_each_piece fuel full body s (curr + Z.of_nat (length u) + 1) st m
        = run_pieces full body (filter (fun p => p <> []) (split_commas v)) st m) as Hnext.
      { intros st' m'. rewrite Hv. apply IH; lia. }
      destruct (decide (u = [])) as [->|Hne].
      + rewrite bool_decide_eq_true_2, filter_cons_False, bind_mret by naive_solver. apply Hnext.
      + rewrite bool_decide_eq_false_2, filter_cons_True by done. cbn. rewrite Hst. unfold mbind, M_bind.
        destruct (body _ st m) as [[st' m']|]; [apply Hnext|done]. }
  apply (Hgen (2 + length s)%nat 0 st m); [lia|]. change (Z.to_nat 0) with 0%nat. lia.
Qed.

(** ** Collecting and splitting together *)

Lemma split_commas_app s t : split_commas (s ++ x2c :: t) = split_commas s ++ split_commas t.
Proof.
  induction s as [|b s IH]; cbn; [by rewrite decide_True|]. destruct (decide (b = x2c)); [by rewrite IH|].
  rewrite IH. destruct (split_commas s) eqn:E; [|done]. by destruct s as [|b' s]; cbn in E; repeat case_match.
Qed.

Lemma pieces_app s t : pieces (s ++ x2c :: t) = pieces s ++ pieces t.
Proof. unfold pieces. by rewrite split_commas_app, filter_app. Qed.

Lemma pieces_nil : pieces [] = [].
Proof. done. Qed.

(** An address without a comma is its own only piece. *)
Lemma pieces_one s : x2c ∉ s -> s <> [] -> pieces s = [s].
Proof. intros Hs Hne. unfold pieces. by rewrite split_commas_none, filter_cons_True. Qed.

(** The addresses of a scheme. *)
Definition addresses_of (prefix : bytes) (ifaces : list bytes) : list bytes :=
  drop (length prefix) <$> filter (fun iface => is_prefix prefix iface = true) ifaces.

Lemma pieces_end s t : pieces (s ++ t ++ str ",") = pieces (s ++ t ++ x2c :: []).
Proof. done. Qed.

(** The pieces of the collected text are those of the addresses of the scheme, in
    the order of the configuration. *)
Lemma pieces_collect prefix ifaces : pieces (collect_ifaces prefix ifaces []) = addresses_of prefix ifaces ≫= pieces.
Proof.
  assert (forall acc, acc = [] \/ (exists acc', acc = acc' ++ [x2c]) ->
    pieces (collect_ifaces prefix ifaces acc) = pieces acc ++ (addresses_of prefix ifaces ≫= pieces)) as Hgen; [|by apply Hgen; left].
  induction ifaces as [|iface ifaces IH]; intros acc Hacc; cbn [collect_ifaces].
  - by rewrite app_nil_r.
  - unfold addresses_of. destruct (is_prefix prefix iface) eqn:E.
    + rewrite filter_cons_True by done. cbn [fmap list_fmap mbind list_bind]. fold (addresses_of prefix ifaces).
      rewrite IH by (right; exists (acc ++ drop (length prefix) iface); by rewrite <- app_assoc).
      rewrite (app_assoc (pieces acc)). f_equal. change (str ",") with [x2c].
      destruct Hacc as [->|[acc' ->]].
      * cbn [app]. rewrite pieces_app. by rewrite pieces_nil, app_nil_r.
      * rewrite <- app_assoc. cbn [app]. rewrite pieces_app, pieces_app, pieces_nil, app_nil_r. rewrite pieces_app.
        by rewrite pieces_nil, app_nil_r.
    + rewrite filter_cons_False by congruence. by apply IH.
Qed.
