(* ===== verification/SocketCan.v ===== *)
(** * CAN sockets: opening, sending and receiving frames, filters

    Models [src/daemon/engine/platform/can/socketcan.c], the adapter between
    libcanard's frames and the raw CAN sockets of Linux. The structures that
    cross the system calls are laid out in memory here ([can_frame] is a prefix
    of [canfd_frame], on a little-endian host). The kernel is the class
    [CanKernel]; what the code relies on is [CanKernelOk]. *)
From S2P Require Import Prelude Errors.

Local Open Scope Z_scope.

(** ** The system calls *)

(** Options of a CAN socket; a filter is an identifier and a mask. *)
Inductive CanOption : Type :=
| FdFrames
| Timestamping
| RecvOwnMsgs
| RawFilter (filters : list (Z * Z)).

(** What [recvmsg] gives: the bytes, [msg_flags], and the control message: level,
    type, and its seconds and microseconds. *)
Record CanMsg := mkCanMsg { msg_data : bytes; msg_flags : Z; msg_control : option (Z * Z * (Z * Z)) }.

(** [can_index] are the indices of the interfaces of the host, [can_opened] the open
    descriptors of the process, [can_bound] the index of the interface that a
    descriptor is bound to. Calls that return -1 set [errno]. [can_poll] also gives [revents]. *)
Class CanKernel (K : Type) := {
  can_index : bytes -> option Z;
  can_opened : K -> gset Z;
  can_bound : K -> gmap Z Z;
  can_errno : K -> Z;
  can_socket : K -> Z * K;
  can_close : Z -> K -> K;
  can_ioctl_ifindex : Z -> bytes -> K -> option Z * K;
  can_bind : Z -> Z -> K -> bool * K;
  can_setsockopt : Z -> CanOption -> K -> bool * K;
  can_poll : Z -> Z -> Z * Z -> K -> Z * Z * K;
  can_write : Z -> bytes -> K -> Z * K;
  can_recvmsg : Z -> K -> option CanMsg * K;
}.

(** POSIX: a new descriptor is not open, [close] closes, the other calls leave the
    open descriptors alone; [errno] is positive after a failure; closing what is not open is [EBADF], and
    closing what is open does not fail. *)
Class CanKernelOk (K : Type) `{CanKernel K} := {
  can_socket_ok k : let '(fd, k') := can_socket k in
    (0 <= fd /\ fd ∉ can_opened k /\ can_opened k' = {[fd]} ∪ can_opened k /\ can_bound k' = can_bound k) \/
    (fd = -1 /\ can_opened k' = can_opened k /\ can_bound k' = can_bound k);
  can_close_ok fd k :
    can_opened (can_close fd k) = can_opened k ∖ {[fd]} /\ can_bound (can_close fd k) = delete fd (can_bound k) /\
    can_errno (can_close fd k) = if decide (fd ∈ can_opened k) then can_errno k else Errno.EBADF;
  can_ioctl_ok fd name k : let '(r, k') := can_ioctl_ifindex fd name k in
    can_opened k' = can_opened k /\ can_bound k' = can_bound k /\ (r = None -> 0 < can_errno k') /\
    (forall i, r = Some i -> can_index name = Some i);
  can_bind_ok fd index k : let '(ok, k') := can_bind fd index k in
    can_opened k' = can_opened k /\ (ok = false -> can_bound k' = can_bound k /\ 0 < can_errno k') /\
    (ok = true -> can_bound k' = <[fd := index]> (can_bound k));
  can_setsockopt_ok fd opt k : let '(ok, k') := can_setsockopt fd opt k in
    can_opened k' = can_opened k /\ can_bound k' = can_bound k /\ (ok = false -> 0 < can_errno k');
  can_nonneg k fd : fd ∈ can_opened k -> 0 <= fd;
}.

(** ** Constants *)
Definition INT16_MIN := - 32768.
Definition IFNAMSIZ := 16.
Definition CAN_MAX_DLEN := 8.
Definition CAN_MTU := 16.
Definition CANFD_MTU := 72.
Definition CANFD_BRS := 1.
Definition CANFD_MAX_DLEN : nat := 64.
Definition CAN_EFF_FLAG := 0x80000000.
Definition CAN_RTR_FLAG := 0x40000000.
Definition CAN_ERR_FLAG := 0x20000000.
Definition CAN_EFF_MASK := 0x1fffffff.
Definition CAN_RAW_FILTER_MAX := 512.
Definition POLLIN := 1.
Definition POLLOUT := 4.
Definition MSG_CONFIRM := 0x800.
Definition SOL_SOCKET := 1.
Definition SO_TIMESTAMP := 29.
Definition MEGA := 1000000.
Definition KILO := 1000.

(** [CanardFrame]; no payload is a null pointer. *)
Record CanardFrame := mkFrame { extended_can_id : Z; frame_payload : option bytes }.

(** [struct canfd_frame], in memory. *)
Record canfd_frame := mkCanfd { cf_can_id : Z; cf_len : Z; cf_flags : Z; cf_data : bytes }.

Definition struct_bytes (cfd : canfd_frame) : bytes :=
  le_bytes 4 (cf_can_id cfd) ++ [byte_of_Z (cf_len cfd); byte_of_Z (cf_flags cfd); x00; x00] ++ cf_data cfd.

(** The structure that was zero before [data] was read into it. *)
Definition struct_of_bytes (data : bytes) : canfd_frame :=
  let mem := data ++ replicate (Z.to_nat CANFD_MTU - length data) x00 in
  mkCanfd (le_value (take 4 mem)) (Z_of_byte (default x00 (mem !! 4%nat))) (Z_of_byte (default x00 (mem !! 5%nat)))
    (drop 8 mem).

Section SocketCan.
Context {K : Type} `{CanKernel K}.

Definition getNegatedErrno : M K Z :=
  errno ← gets can_errno;
  let out := - Z.abs errno in
  if out <? 0 then mret (if INT16_MIN <=? out then out else INT16_MIN)
  else undef.

Definition doPoll (fd mask timeout_usec : Z) : M K Z :=
  let ts := (timeout_usec / MEGA, (timeout_usec mod MEGA) * KILO) in
  '(poll_result, revents) ← liftF (can_poll fd mask ts);
  if poll_result <? 0 then getNegatedErrno
  else if poll_result =? 0 then mret 0
  else if Z.land revents mask =? 0 then mret (- Errno.EIO)
  else mret 1.

Definition socketcanOpen (iface_name : bytes) (can_mtu : Z) : M K Z :=
  let iface_name := c_str iface_name in
  let iface_name_size := Z.of_nat (length iface_name) + 1 in
  if IFNAMSIZ <? iface_name_size then mret (- Errno.ENAMETOOLONG)
  else
    fd ← liftF can_socket;
    let ok := 0 <=? fd in
    ok ← (if ok : bool then
            ifr_ifindex ← liftF (can_ioctl_ifindex fd iface_name);
            match ifr_ifindex with
            | Some ifindex => liftF (can_bind fd ifindex)
            | None => mret false
            end
          else mret ok);
    ok ← (if ok && (CAN_MAX_DLEN <? can_mtu) then liftF (can_setsockopt fd FdFrames) else mret ok);
    ok ← (if ok : bool then liftF (can_setsockopt fd Timestamping) else mret ok);
    ok ← (if ok : bool then liftF (can_setsockopt fd RecvOwnMsgs) else mret ok);
    if ok : bool then mret fd
    else
      modify (can_close fd);;
      getNegatedErrno.

Definition socketcanPush (fd : Z) (frame : CanardFrame) (timeout_usec : Z) : M K Z :=
  match frame_payload frame with
  | None => mret (- Errno.EINVAL)
  | Some payload =>
      let size := Z.of_nat (length payload) in
      if 255 <? size then mret (- Errno.EINVAL)
      else
        poll_result ← doPoll fd POLLOUT timeout_usec;
        if 0 <? poll_result then
          if Z.of_nat CANFD_MAX_DLEN <? size then undef
          else
            let cfd := mkCanfd (Z.lor (extended_can_id frame) CAN_EFF_FLAG) (u8 size) CANFD_BRS
                         (payload ++ replicate (CANFD_MAX_DLEN - length payload) x00) in
            let mtu := if CAN_MAX_DLEN <? size then CANFD_MTU else CAN_MTU in
            written ← liftF (can_write fd (take (Z.to_nat mtu) (struct_bytes cfd)));
            if written <? 0 then getNegatedErrno else mret poll_result
        else mret poll_result
  end.

(** A frame that was received: the frame, its time if it was asked for, and whether
    it is looped back. *)
Record PoppedFrame := mkPopped { pop_frame : CanardFrame; pop_timestamp : option Z; pop_loopback : bool }.

(** [socketcanPop]; the caller may want the time and the loopback flag. *)
Definition socketcanPop (fd : Z) (want_timestamp : bool) (payload_buffer_size timeout_usec : Z) (want_loopback : bool) :
    M K (Z * option PoppedFrame) :=
  poll_result ← doPoll fd POLLIN timeout_usec;
  if 0 <? poll_result then
    msg ← liftF (can_recvmsg fd);
    match msg with
    | None => e ← getNegatedErrno; mret (e, None)
    | Some msg =>
        let read_size := Z.of_nat (length (msg_data msg)) in
        let sockcan_frame := struct_of_bytes (msg_data msg) in
        if negb (read_size =? CAN_MTU) && negb (read_size =? CANFD_MTU) then mret (- Errno.EIO, None)
        else if payload_buffer_size <? cf_len sockcan_frame then mret (- Errno.EFBIG, None)
        else
          let valid := negb (Z.land (cf_can_id sockcan_frame) CAN_EFF_FLAG =? 0)
                    && (Z.land (cf_can_id sockcan_frame) CAN_ERR_FLAG =? 0)
                    && (Z.land (cf_can_id sockcan_frame) CAN_RTR_FLAG =? 0) in
          if negb valid then mret (0, None)
          else
            let loopback_frame := negb (Z.land (msg_flags msg) MSG_CONFIRM =? 0) in
            if negb want_loopback && loopback_frame then mret (0, None)
            else
              timestamp ← (if want_timestamp then
                             match msg_control msg with
                             | Some (cmsg_level, cmsg_type, (tv_sec, tv_usec)) =>
                                 if (cmsg_level =? SOL_SOCKET) && (cmsg_type =? SO_TIMESTAMP)
                                    && (0 <=? tv_sec) && (0 <=? tv_usec)
                                 then mret (Some (u64 (u64 (tv_sec * MEGA) + tv_usec)))
                                 else undef
                             | None => undef
                             end
                           else mret None);
              if Z.of_nat CANFD_MAX_DLEN <? cf_len sockcan_frame then undef
              else
                let payload := take (Z.to_nat (cf_len sockcan_frame)) (cf_data sockcan_frame) in
                mret (poll_result,
                      Some (mkPopped (mkFrame (Z.land (cf_can_id sockcan_frame) CAN_EFF_MASK) (Some payload))
                              timestamp loopback_frame))
    end
  else mret (poll_result, None).

(** One entry of the kernel's filter, for libcanard's. *)
Definition can_filter_of (config : Z * Z) : Z * Z :=
  (Z.lor (Z.land config.1 CAN_EFF_MASK) CAN_EFF_FLAG,
   Z.lor (Z.lor (Z.land config.2 CAN_EFF_MASK) CAN_EFF_FLAG) CAN_RTR_FLAG).

(** [configs] is [None] for a null pointer. *)
Definition socketcanFilter (fd : Z) (configs : option (list (Z * Z))) : M K Z :=
  match configs with
  | None => mret (- Errno.EINVAL)
  | Some configs =>
      if CAN_RAW_FILTER_MAX <? Z.of_nat (length configs) then mret (- Errno.EFBIG)
      else
        ok ← liftF (can_setsockopt fd (RawFilter (can_filter_of <$> configs)));
        if negb ok then getNegatedErrno else mret 0
  end.
End SocketCan.

(** ** Opening *)
Section OpenFacts.
Context {K : Type} `{CanKernelOk K}.

Lemma wp_getNegatedErrno (Q : Z -> K -> Prop) k :
  0 < can_errno k -> (forall e, INT16_MIN <= e < 0 -> Q e k) -> wp getNegatedErrno Q k.
Proof.
  intros He HQ. unfold getNegatedErrno. wp_steps. destruct (Z.ltb_spec (- Z.abs (can_errno k)) 0); [|lia].
  apply wp_ret, HQ. unfold INT16_MIN. destruct (Z.leb_spec (- 32768) (- Z.abs (can_errno k))); lia.
Qed.

(** What the rest of the process sees is as it was. *)
Definition others_kept (k k' : K) : Prop :=
  forall fd, fd ∈ can_opened k -> can_bound k' !! fd = can_bound k !! fd.

(** While a socket is being set up. *)
Definition open_step (k : K) (fd : Z) (name : bytes) (ok : bool) (k' : K) : Prop :=
  can_opened k' = {[fd]} ∪ can_opened k /\ others_kept k k' /\
  if ok then exists i, can_index name = Some i /\ can_bound k' !! fd = Some i else 0 < can_errno k'.

Lemma open_setsockopt k fd name (ok : bool) opt k' (Q : bool -> K -> Prop) :
  open_step k fd name ok k' -> (forall ok' k'', open_step k fd name ok' k'' -> Q ok' k'') ->
  wp (if ok then liftF (can_setsockopt fd opt) else mret ok) Q k'.
Proof.
  intros (Ho & Hk & Hok) HQ. destruct ok; [|by apply wp_ret, HQ].
  apply wp_liftF. pose proof (can_setsockopt_ok fd opt k') as Hs. destruct (can_setsockopt fd opt k') as [ok'' k''].
  destruct Hs as (Ho' & Hb' & He'). cbn. apply HQ. split_and!; [by rewrite Ho'|intros f Hf; by rewrite Hb', Hk|].
  rewrite Hb'. destruct ok''; [done|by apply He'].
Qed.

(** The outcome of opening: a new descriptor that is bound, or an error. *)
Definition opened_for (name : bytes) (k : K) (fd : Z) (k' : K) : Prop :=
  others_kept k k' /\
  ((0 <= fd /\ fd ∉ can_opened k /\ can_opened k' = {[fd]} ∪ can_opened k /\
      exists i, can_index name = Some i /\ can_bound k' !! fd = Some i) \/
   (fd < 0 /\ can_opened k' = can_opened k)).

Lemma open_finish k fd name (ok : bool) k' :
  0 <= fd -> fd ∉ can_opened k -> open_step k fd name ok k' ->
  wp (if ok then mret fd else modify (can_close fd);; getNegatedErrno) (opened_for name k) k'.
Proof.
  intros Hfd Hnew (Ho & Hk & Hok). destruct ok.
  - apply wp_ret. split; [done|]. left. by split_and!.
  - apply wp_bind, wp_modify. destruct (can_close_ok fd k') as (Hc & Hb & He).
    rewrite decide_True in He by (rewrite Ho; set_solver). apply wp_getNegatedErrno; [by rewrite He|]. intros e Hneg.
    split; [|right; split; [lia|]].
    + intros f Hf. rewrite Hb, lookup_delete_ne by (intros ->; done). by apply Hk.
    + rewrite Hc, Ho. set_solver.
Qed.

Lemma wp_socketcanOpen iface_name can_mtu (k : K) :
  wp (socketcanOpen iface_name can_mtu) (opened_for (c_str iface_name) k) k.
Proof.
  unfold socketcanOpen. destruct (_ <? _); [by apply wp_ret; split; [|right]|].
  apply wp_bind, wp_liftF. pose proof (can_socket_ok k) as Hsock. destruct (can_socket k) as [fd k1]. cbn [fst snd].
  destruct Hsock as [(Hfd & Hnew & Ho & Hb)|(-> & Ho & Hb)].
  - rewrite (proj2 (Z.leb_le _ _)) by done.
    assert (forall ok k', open_step k fd (c_str iface_name) ok k' ->
      wp (ok ← (if ok && (CAN_MAX_DLEN <? can_mtu) then liftF (can_setsockopt fd FdFrames) else mret ok);
          ok ← (if ok : bool then liftF (can_setsockopt fd Timestamping) else mret ok);
          ok ← (if ok : bool then liftF (can_setsockopt fd RecvOwnMsgs) else mret ok);
          if ok : bool then mret fd else modify (can_close fd);; getNegatedErrno) (opened_for (c_str iface_name) k) k') as Hrest.
    { intros ok k' Hs. apply wp_bind.
      assert (forall ok' k'', open_step k fd (c_str iface_name) ok' k'' ->
        wp (ok ← (if ok' : bool then liftF (can_setsockopt fd Timestamping) else mret ok');
            ok ← (if ok : bool then liftF (can_setsockopt fd RecvOwnMsgs) else mret ok);
            if ok : bool then mret fd else modify (can_close fd);; getNegatedErrno) (opened_for (c_str iface_name) k) k'') as Hlast.
      { intros ok' k'' Hs'. apply wp_bind. eapply open_setsockopt; [done|]. intros.
        apply wp_bind. eapply open_setsockopt; [done|]. intros. by apply open_finish. }
      destruct (CAN_MAX_DLEN <? can_mtu); [rewrite andb_true_r|rewrite andb_false_r; by apply wp_ret, Hlast].
      by eapply open_setsockopt; [done|]. }
    assert (others_kept k k1) as Hk1 by (intros f _; by rewrite Hb).
    apply wp_bind, wp_bind, wp_liftF. pose proof (can_ioctl_ok fd (c_str iface_name) k1) as Hi.
    destruct (can_ioctl_ifindex fd (c_str iface_name) k1) as [[i|] k2]; destruct Hi as (Ho2 & Hb2 & He2 & Hi2); cbn [fst snd].
    + apply wp_liftF. pose proof (can_bind_ok fd i k2) as Hbd. destruct (can_bind fd i k2) as [ok k3]. cbn [fst snd].
      destruct Hbd as (Ho3 & Hf & Ht). apply Hrest. split; [congruence|]. destruct ok; (split; [intros f Hin|]).
      * rewrite (Ht eq_refl), lookup_insert_ne by (intros ->; done). by rewrite Hb2, Hk1.
      * exists i. split; [by apply Hi2|]. by rewrite (Ht eq_refl), lookup_insert_eq.
      * rewrite (proj1 (Hf eq_refl)). by rewrite Hb2, Hk1.
      * by apply Hf.
    + apply wp_ret. cbn beta. apply Hrest. split; [congruence|]. split; [intros f Hin; by rewrite Hb2, Hk1|by apply He2].
  - change (wp (modify (can_close (-1));; getNegatedErrno) (opened_for (c_str iface_name) k) k1).
    apply wp_bind, wp_modify. destruct (can_close_ok (-1) k1) as (Hc & Hb' & He).
    assert (-1 ∉ can_opened k1) as Hm1 by (intros Hin%can_nonneg; lia).
    rewrite decide_False in He by done. apply wp_getNegatedErrno; [by rewrite He|]. intros e Hneg.
    split; [|right; split; [lia|]].
    + intros f Hf. rewrite Hb', lookup_delete_ne by (intros <-; apply Hm1; by rewrite Ho). by rewrite Hb.
    + rewrite Hc, Ho. rewrite Ho in Hm1. set_solver.
Qed.

(** When there are no sockets left, the error that is reported is not that of
    [socket] but that of closing the descriptor -1. *)
Lemma open_reports_close iface_name can_mtu (k : K) :
  (length (c_str iface_name) < 16)%nat -> (can_socket k).1 = -1 ->
  wp (socketcanOpen iface_name can_mtu) (fun fd _ => fd = - Errno.EBADF) k.
Proof.
  intros Hlen Hs. unfold socketcanOpen, IFNAMSIZ.
  destruct (Z.ltb_spec 16 (Z.of_nat (length (c_str iface_name)) + 1)); [lia|].
  apply wp_bind, wp_liftF. rewrite Hs.
  change (wp (modify (can_close (-1));; getNegatedErrno) (fun fd _ => fd = - Errno.EBADF) (can_socket k).2).
  apply wp_bind, wp_modify. destruct (can_close_ok (-1) (can_socket k).2) as (_ & _ & He).
  rewrite decide_False in He by (intros Hin%can_nonneg; lia).
  unfold getNegatedErrno. wp_steps. by rewrite He.
Qed.
End OpenFacts.

(** ** Bits of identifiers *)

Lemma testbit_above n z m : 0 <= z < 2 ^ n -> n <= m -> Z.testbit z m = false.
Proof.
  intros Hz Hm. destruct (decide (0 <= n)) as [Hn|Hn].
  - rewrite <- (Z.mod_small z (2 ^ n)) by done. by apply Z.mod_pow2_bits_high.
  - rewrite Z.pow_neg_r in Hz by lia. lia.
Qed.

Lemma land_flag n z m : 0 <= z < 2 ^ n -> n <= m -> Z.land z (2 ^ m) = 0.
Proof.
  intros Hz Hm. apply Z.bits_inj'. intros i Hi. rewrite Z.land_spec, Z.bits_0.
  destruct (decide (0 <= m)) as [Hm'|Hm'].
  - rewrite Z.pow2_bits_eqb by done. destruct (Z.eqb_spec m i) as [->|]; [|by rewrite andb_false_r].
    by rewrite (testbit_above n).
  - rewrite (Z.pow_neg_r 2 m) by lia. by rewrite Z.bits_0, andb_false_r.
Qed.

Lemma extended_id id :
  0 <= id < 2 ^ 29 ->
  let can_id := Z.lor id CAN_EFF_FLAG in
  0 <= can_id < 2 ^ 32 /\ Z.land can_id CAN_EFF_FLAG = CAN_EFF_FLAG /\ Z.land can_id CAN_ERR_FLAG = 0 /\
  Z.land can_id CAN_RTR_FLAG = 0 /\ Z.land can_id CAN_EFF_MASK = id.
Proof.
  intros Hid. cbn zeta. change CAN_EFF_FLAG with (2 ^ 31). change CAN_ERR_FLAG with (2 ^ 29). change CAN_RTR_FLAG with (2 ^ 30).
  assert (Z.lor id (2 ^ 31) = id + 2 ^ 31) as Hplus.
  { rewrite <- Z.lxor_lor by by apply (land_flag 29). symmetry. apply Z.add_nocarry_lxor. by apply (land_flag 29). }
  split_and!; rewrite ?Z.land_lor_distr_l, ?(land_flag 29 id) by (done || lia); [rewrite Hplus; lia|rewrite Hplus; lia|done..|].
  change CAN_EFF_MASK with (Z.ones 29). rewrite Z.land_ones by lia. rewrite Z.mod_small by done. apply Z.lor_0_r.
Qed.

(** ** Frames in memory *)

Lemma struct_roundtrip can_id payload :
  (length payload <= CANFD_MAX_DLEN)%nat ->
  let size := Z.of_nat (length payload) in
  let cfd := mkCanfd can_id (u8 size) CANFD_BRS (payload ++ replicate (CANFD_MAX_DLEN - length payload) x00) in
  let mtu := if CAN_MAX_DLEN <? size then CANFD_MTU else CAN_MTU in
  let wire := take (Z.to_nat mtu) (struct_bytes cfd) in
  Z.of_nat (length wire) = mtu /\ struct_of_bytes wire = mkCanfd (u32 can_id) size CANFD_BRS (cf_data cfd).
Proof.
  unfold CANFD_MAX_DLEN. intros Hlen. cbn zeta. set (size := Z.of_nat (length payload)).
  assert (u8 size = size) as Hsize by (apply wrap_id; unfold size; lia).
  set (data := payload ++ replicate (64 - length payload) x00).
  assert (length data = 64%nat) as Hdata by (unfold data; rewrite length_app, length_replicate; lia).
  set (cfd := mkCanfd can_id (u8 size) CANFD_BRS data).
  assert (exists a b c d e, struct_bytes cfd = a :: b :: c :: d :: byte_of_Z size :: e :: x00 :: x00 :: data /\
            [a; b; c; d] = le_bytes 4 can_id /\ e = byte_of_Z CANFD_BRS) as (a & b & c & d & e & -> & Hid & ->).
  { unfold struct_bytes, cfd. cbn [cf_can_id cf_len cf_flags cf_data]. rewrite Hsize. do 5 eexists. split; [reflexivity|done]. }
  assert (forall rest, length rest = 64%nat ->
    mkCanfd (le_value [a; b; c; d]) (Z_of_byte (byte_of_Z size)) (Z_of_byte (byte_of_Z CANFD_BRS)) rest
    = mkCanfd (u32 can_id) size CANFD_BRS rest) as Hfields.
  { intros rest _. rewrite Hid, le_value_bytes, !Z_of_byte_of_Z, Hsize. done. }
  unfold CAN_MAX_DLEN. destruct (Z.ltb_spec 8 size); change (Z.to_nat CANFD_MTU) with 72%nat; change (Z.to_nat CAN_MTU) with 16%nat.
  - rewrite take_ge by (cbn [length]; lia). split; [cbn [length]; unfold CANFD_MTU; lia|].
    unfold struct_of_bytes. change (Z.to_nat CANFD_MTU) with 72%nat. cbn [length]. rewrite Hdata. cbn [Nat.sub replicate].
    rewrite app_nil_r. cbn [take drop cf_data cfd]. by apply Hfields.
  - assert (take 8 data ++ replicate 56 x00 = data) as Hzeros.
    { unfold data. rewrite take_app, take_ge by lia. rewrite take_replicate, <- app_assoc, <- replicate_add. do 2 f_equal. lia. }
    cbn [take]. split; [cbn [length]; rewrite length_take, Hdata; done|].
    unfold struct_of_bytes. change (Z.to_nat CANFD_MTU) with 72%nat. cbn [length]. rewrite length_take, Hdata.
    change (72 - S (S (S (S (S (S (S (S (8 `min` 64)))))))))%nat with 56%nat.
    cbn [app take drop cf_data cfd]. rewrite Hzeros. by apply Hfields.
Qed.

(** ** Sending, receiving and filtering *)
Section FrameFacts.
Context {K : Type} `{CanKernel K}.

Lemma doPoll_ready fd mask timeout_usec k n revents k1 :
  can_poll fd mask (timeout_usec / MEGA, (timeout_usec mod MEGA) * KILO) k = (n, revents, k1) ->
  0 < n -> Z.land revents mask <> 0 -> doPoll fd mask timeout_usec k = Done (1, k1).
Proof.
  intros Hp Hn Hr. unfold doPoll, mbind, M_bind, liftF. rewrite Hp. cbn.
  destruct (Z.ltb_spec n 0), (Z.eqb_spec n 0), (Z.eqb_spec (Z.land revents mask) 0); done || lia.
Qed.

(** What the kernel does with a filter: a frame passes if its identifier, with the
    flags, agrees with that of the filter on the bits of the mask. *)
Definition kernel_accepts (filter : Z * Z) (can_id : Z) : bool := Z.land can_id filter.2 =? Z.land filter.1 filter.2.

(** What libcanard's filter means. *)
Definition canard_accepts (config : Z * Z) (id : Z) : bool :=
  Z.land (Z.land id CAN_EFF_MASK) config.2 =? Z.land (Z.land config.1 CAN_EFF_MASK) config.2.

Lemma bits_of_flags i :
  0 <= i -> Z.testbit CAN_EFF_FLAG i = (31 =? i) /\ Z.testbit CAN_RTR_FLAG i = (30 =? i) /\ Z.testbit CAN_EFF_MASK i = (i <? 29).
Proof.
  intros Hi. change CAN_EFF_FLAG with (2 ^ 31). change CAN_RTR_FLAG with (2 ^ 30). change CAN_EFF_MASK with (Z.ones 29).
  rewrite !Z.pow2_bits_eqb by lia. split_and!; [done..|]. by rewrite Z.testbit_ones_nonneg.
Qed.

Lemma flag_bit z m : 0 <= m -> (Z.land z (2 ^ m) =? 0) = negb (Z.testbit z m).
Proof.
  intros Hm. destruct (Z.testbit z m) eqn:E; cbn [negb].
  - apply Z.eqb_neq. intros H0. apply (f_equal (fun x => Z.testbit x m)) in H0.
    by rewrite Z.land_spec, E, Z.pow2_bits_true, Z.bits_0 in H0.
  - apply Z.eqb_eq, Z.bits_inj'. intros i Hi. rewrite Z.land_spec, Z.bits_0, Z.pow2_bits_eqb by done.
    destruct (Z.eqb_spec m i) as [->|]; [by rewrite E|apply andb_false_r].
Qed.

(** Equality of masked words, bit by bit. *)
Lemma masked_eq a b c d :
  Z.land a b = Z.land c d <->
  forall i, 0 <= i -> Z.testbit a i && Z.testbit b i = Z.testbit c i && Z.testbit d i.
Proof.
  split.
  - intros Heq i Hi. apply (f_equal (fun x => Z.testbit x i)) in Heq. by rewrite !Z.land_spec in Heq.
  - intros Hb. apply Z.bits_inj'. intros i Hi. rewrite !Z.land_spec. by apply Hb.
Qed.

(** The kernel's filter passes the data frames with an extended identifier that
    libcanard's filter passes. *)
Lemma filter_accepts config can_id :
  kernel_accepts (can_filter_of config) can_id =
  negb (Z.land can_id CAN_EFF_FLAG =? 0) && (Z.land can_id CAN_RTR_FLAG =? 0) && canard_accepts config can_id.
Proof.
  change CAN_EFF_FLAG with (2 ^ 31). change CAN_RTR_FLAG with (2 ^ 30). rewrite !flag_bit, negb_involutive by lia.
  apply eq_true_iff_eq. unfold kernel_accepts, canard_accepts, can_filter_of. cbn [fst snd].
  rewrite !andb_true_iff, negb_true_iff, !Z.eqb_eq, !masked_eq.
  assert (forall i, 0 <= i ->
    (Z.testbit can_id i && Z.testbit (Z.lor (Z.lor (Z.land config.2 CAN_EFF_MASK) CAN_EFF_FLAG) CAN_RTR_FLAG) i =
     Z.testbit (Z.lor (Z.land config.1 CAN_EFF_MASK) CAN_EFF_FLAG) i &&
     Z.testbit (Z.lor (Z.lor (Z.land config.2 CAN_EFF_MASK) CAN_EFF_FLAG) CAN_RTR_FLAG) i) <->
    (i = 31 -> Z.testbit can_id i = true) /\ (i = 30 -> Z.testbit can_id i = false) /\
    Z.testbit (Z.land can_id CAN_EFF_MASK) i && Z.testbit config.2 i =
    Z.testbit (Z.land config.1 CAN_EFF_MASK) i && Z.testbit config.2 i) as Hbit.
  { intros i Hi. rewrite !Z.lor_spec, !Z.land_spec. destruct (bits_of_flags i Hi) as (-> & -> & ->).
    destruct (Z.ltb_spec i 29), (Z.eqb_spec 31 i), (Z.eqb_spec 30 i); try lia;
      destruct (Z.testbit can_id i), (Z.testbit config.1 i), (Z.testbit config.2 i); cbn; intuition (congruence || lia). }
  split.
  - intros Heq. split; [split|].
    + by apply (Hbit 31); [|apply Heq|].
    + by apply (Hbit 30); [|apply Heq|].
    + intros i Hi. by apply Hbit, Heq.
  - intros ((Hi31 & Hi30) & Heq) i Hi. apply Hbit; [done|]. split_and!; [by intros ->|by intros ->|by apply Heq].
Qed.

(** The bytes that a frame is on the wire. *)
Definition frame_bytes (frame : CanardFrame) (payload : bytes) : bytes :=
  let size := Z.of_nat (length payload) in
  take (Z.to_nat (if CAN_MAX_DLEN <? size then CANFD_MTU else CAN_MTU))
    (struct_bytes (mkCanfd (Z.lor (extended_can_id frame) CAN_EFF_FLAG) (u8 size) CANFD_BRS
       (payload ++ replicate (CANFD_MAX_DLEN - length payload) x00))).

(** A frame crosses the bus: what [socketcanPush] writes for an extended
    identifier and a payload of up to 64 bytes is one structure, of the classic
    size when the payload fits a classic frame, and [socketcanPop] gets from it
    the same frame, when it has room for the payload. *)
Lemma frame_roundtrip frame payload :
  0 <= extended_can_id frame < 2 ^ 29 -> frame_payload frame = Some payload -> (length payload <= CANFD_MAX_DLEN)%nat ->
  let wire := frame_bytes frame payload in
  Z.of_nat (length wire) = (if CAN_MAX_DLEN <? Z.of_nat (length payload) then CANFD_MTU else CAN_MTU) /\
  (forall fd timeout (k : K) n revents k1,
     can_poll fd POLLOUT (timeout / MEGA, (timeout mod MEGA) * KILO) k = (n, revents, k1) -> 0 < n -> Z.land revents POLLOUT <> 0 ->
     socketcanPush fd frame timeout k =
       (written ← liftF (can_write fd wire); if written <? 0 then getNegatedErrno else mret 1) k1) /\
  (forall fd timeout (k : K) n revents k1 buffer_size flags control k2,
     can_poll fd POLLIN (timeout / MEGA, (timeout mod MEGA) * KILO) k = (n, revents, k1) -> 0 < n -> Z.land revents POLLIN <> 0 ->
     can_recvmsg fd k1 = (Some (mkCanMsg wire flags control), k2) -> Z.of_nat (length payload) <= buffer_size ->
     socketcanPop fd false buffer_size timeout true k =
       Done (1, Some (mkPopped frame None (negb (Z.land flags MSG_CONFIRM =? 0))), k2)).
Proof.
  intros Hid Hp Hlen. cbn zeta. unfold frame_bytes.
  destruct (struct_roundtrip (Z.lor (extended_can_id frame) CAN_EFF_FLAG) payload Hlen) as [Hwire Hback].
  unfold CANFD_MAX_DLEN in *. split; [done|split].
  - intros fd timeout k n revents k1 Hpoll Hn Hr. unfold socketcanPush. rewrite Hp.
    destruct (Z.ltb_spec 255 (Z.of_nat (length payload))); [lia|].
    unfold mbind at 1, M_bind at 1. rewrite (doPoll_ready _ _ _ _ _ _ _ Hpoll Hn Hr). cbn [Z.ltb Z.compare].
    unfold CANFD_MAX_DLEN. destruct (Z.ltb_spec (Z.of_nat 64) (Z.of_nat (length payload))); [lia|done].
  - intros fd timeout k n revents k1 buffer_size flags control k2 Hpoll Hn Hr Hmsg Hbuf. unfold socketcanPop.
    unfold mbind at 1, M_bind at 1. rewrite (doPoll_ready _ _ _ _ _ _ _ Hpoll Hn Hr). cbn [Z.ltb Z.compare].
    unfold mbind at 1, M_bind at 1, liftF at 1. rewrite Hmsg. cbn [msg_data msg_flags msg_control].
    rewrite Hwire, Hback. cbn [cf_len cf_can_id cf_data].
    assert (forall b : bool, negb ((if b then CANFD_MTU else CAN_MTU) =? CAN_MTU) && negb ((if b then CANFD_MTU else CAN_MTU) =? CANFD_MTU) = false) as -> by by intros [].
    destruct (Z.ltb_spec buffer_size (Z.of_nat (length payload))); [lia|].
    destruct (extended_id _ Hid) as (Hbound & Heff & Herr & Hrtr & Hmask). rewrite wrap_id by done.
    rewrite Heff, Herr, Hrtr, Hmask. cbn [Z.eqb negb andb mbind M_bind mret M_ret].
    unfold CANFD_MAX_DLEN. destruct (Z.ltb_spec (Z.of_nat 64) (Z.of_nat (length payload))); [lia|].
    change (CAN_EFF_FLAG =? 0) with false. cbn [negb andb]. rewrite Nat2Z.id, take_app_length. destruct frame as [id data].
    cbn in Hp |- *. by rewrite Hp.
Qed.

(** C37: the filters of the kernel are those of libcanard: with the filters that
    [socketcanFilter] installs, a frame with any identifier and flags passes
    exactly when it has an extended identifier, which one of libcanard's filters
    passes, and is not a remote request. *)
Theorem filters_equivalent fd configs (k : K) :
  Z.of_nat (length configs) <= CAN_RAW_FILTER_MAX ->
  exists installed,
    socketcanFilter fd (Some configs) k =
      (ok ← liftF (can_setsockopt fd (RawFilter installed)); if negb ok then getNegatedErrno else mret 0) k /\
    forall can_id, existsb (fun filter => kernel_accepts filter can_id) installed =
      negb (Z.land can_id CAN_EFF_FLAG =? 0) && (Z.land can_id CAN_RTR_FLAG =? 0) && existsb (fun config => canard_accepts config can_id) configs.
Proof.
  intros Hlen. exists (can_filter_of <$> configs). split.
  - unfold socketcanFilter. by destruct (Z.ltb_spec CAN_RAW_FILTER_MAX (Z.of_nat (length configs))); [lia|].
  - intros can_id. clear Hlen. induction configs as [|c configs IH]; cbn [existsb fmap list_fmap]; [by rewrite andb_false_r|].
    rewrite IH, filter_accepts. by destruct (negb (Z.land can_id CAN_EFF_FLAG =? 0) && (Z.land can_id CAN_RTR_FLAG =? 0)).
Qed.
End FrameFacts.

(** ** A host with two interfaces

    Frames that are written are received by every socket of the host. There are
    [sim_limit] descriptors at most, from 3 on. *)
Module CanSim.
Record Sim := mkSim { sim_opened : gset Z; sim_bound : gmap Z Z; sim_errno : Z; sim_limit : Z; sim_frames : list CanMsg }.

(** Descriptors are not negative. *)
Definition opened_fds (k : Sim) : gset Z := filter (fun fd => 0 <= fd) (sim_opened k).

Definition lowest_free (k : Sim) : Z :=
  default 1024 (list_find (fun fd => fd ∉ sim_opened k) (seqZ 3 1021) ≫= fun r => Some r.2).

Definition sim_index (name : bytes) : option Z :=
  if decide (name = str "can0") then Some 1 else if decide (name = str "can1") then Some 2 else None.

Definition fail {A} (errno : Z) (a : A) (k : Sim) : A * Sim :=
  (a, mkSim (sim_opened k) (sim_bound k) errno (sim_limit k) (sim_frames k)).

#[export] Instance Sim_kernel : CanKernel Sim := {
  can_index := sim_index;
  can_opened := opened_fds;
  can_bound := sim_bound;
  can_errno := sim_errno;
  can_socket k :=
    let fd := lowest_free k in
    if decide (fd < sim_limit k /\ 0 <= fd /\ fd ∉ sim_opened k)
    then (fd, mkSim ({[fd]} ∪ sim_opened k) (sim_bound k) (sim_errno k) (sim_limit k) (sim_frames k))
    else fail 24 (-1) k;
  can_close fd k :=
    mkSim (sim_opened k ∖ {[fd]}) (delete fd (sim_bound k)) (if decide (fd ∈ opened_fds k) then sim_errno k else Errno.EBADF)
      (sim_limit k) (sim_frames k);
  can_ioctl_ifindex fd name k := match sim_index name with Some i => (Some i, k) | None => fail 19 None k end;
  can_bind fd i k := (true, mkSim (sim_opened k) (<[fd := i]> (sim_bound k)) (sim_errno k) (sim_limit k) (sim_frames k));
  can_setsockopt fd opt k := (true, k);
  can_poll fd mask ts k :=
    if (mask =? POLLOUT) || negb (bool_decide (sim_frames k = [])) then (1, mask, k) else (0, 0, k);
  can_write fd bs k :=
    (Z.of_nat (length bs), mkSim (sim_opened k) (sim_bound k) (sim_errno k) (sim_limit k) (sim_frames k ++ [mkCanMsg bs 0 None]));
  can_recvmsg fd k :=
    match sim_frames k with
    | msg :: rest => (Some msg, mkSim (sim_opened k) (sim_bound k) (sim_errno k) (sim_limit k) rest)
    | [] => fail Errno.EAGAIN None k
    end;
}.

Definition host (limit : Z) : Sim := mkSim {[0; 1; 2]} ∅ 0 limit [].

#[export] Instance Sim_kernel_ok : CanKernelOk Sim.
Proof.
  split; unfold can_socket, can_close, can_ioctl_ifindex, can_bind, can_setsockopt, can_opened, can_bound, can_errno, can_index, Sim_kernel.
  - intros k. destruct (decide _) as [(_ & Hfd & Hin)|]; [left|by right].
    unfold opened_fds. cbn. split_and!; [done|set_solver|set_solver|done].
  - intros fd k. unfold opened_fds. cbn. split_and!; [set_solver|done|done].
  - intros fd name k. destruct (sim_index name) as [i|] eqn:E; cbn; (split_and!; [done|done|done|]); [|done].
    by intros ? [= <-].
  - intros fd i k. cbn. by split_and!.
  - intros fd opt k. by split_and!.
  - intros k fd. unfold opened_fds. set_solver.
Qed.
End CanSim.

Section Witnesses.
Import CanSim.

Lemma filters_equivalent_witness :
  exists installed,
    socketcanFilter 3 (Some [(0x12345, 0x1fffff); (7, 0)]) (host 16) = Done (0, host 16) /\
    existsb (fun filter => kernel_accepts filter (Z.lor 0x12345 CAN_EFF_FLAG)) installed = true.
Proof.
  destruct (filters_equivalent (K := Sim) 3 [(0x12345, 0x1fffff); (7, 0)] (host 16)) as (installed & Hf & Ha);
    [vm_compute; congruence|].
  exists installed. split; [rewrite Hf; reflexivity|rewrite Ha; reflexivity].
Defined.
End Witnesses.
