(* ===== verification/CanMedia.v ===== *)
(** * CAN media

    Models [src/daemon/engine/platform/can/can_media.hpp]: [CanMedia], the two
    sockets of an interface as libcyphal's transport uses them, and
    [CanMediaCollection], up to three of them, made from a text.

    A medium is a value: the C++ object is moved and never copied. Its
    destructor and its move constructor are operations here. Memory resources
    are left out. *)
From S2P Require Import Prelude Errors EventLoop SocketCan IfaceText.

Local Open Scope Z_scope.

Definition MaxCanMedia : nat := 3.

(** [CanMedia] *)
Record CanMedia := mkMedia {
  socket_can_rx_fd_ : Z;
  socket_can_tx_fd_ : Z;
  iface_address_ : bytes;
  iface_mtu_ : Z;
}.

(** [PopResult::Metadata], with the bytes that are in the caller's buffer. *)
Record PopMetadata := mkMetadata { pm_timestamp : Z; pm_can_id : Z; pm_payload_size : Z; pm_payload : bytes }.

Section CanMedia.
Context {K : Type} `{CanKernel K}.

(** [CanMedia::make]; the left is the code of a [PlatformError]. *)
Definition can_make (iface_address : bytes) (iface_mtu : Z) : M K (Z + CanMedia) :=
  socket_can_rx_fd ← socketcanOpen iface_address iface_mtu;
  if socket_can_rx_fd <? 0 then mret (inl (- socket_can_rx_fd))
  else
    socket_can_tx_fd ← socketcanOpen iface_address iface_mtu;
    if socket_can_tx_fd <? 0 then
      let error_code := - socket_can_tx_fd in
      modify (can_close socket_can_rx_fd);;
      mret (inl error_code)
    else mret (inr (mkMedia socket_can_rx_fd socket_can_tx_fd iface_address iface_mtu)).

(** The move constructor: the new object, and what is left of the other. *)
Definition can_move (other : CanMedia) : CanMedia * CanMedia :=
  (other, mkMedia (-1) (-1) [] (iface_mtu_ other)).

Definition close_if_open (fd : Z) : M K unit := if 0 <=? fd then modify (can_close fd) else mret tt.

(** [~CanMedia] *)
Definition can_destroy (m : CanMedia) : M K unit :=
  close_if_open (socket_can_rx_fd_ m);;
  close_if_open (socket_can_tx_fd_ m).

Definition tryReopen (m : CanMedia) : M K CanMedia :=
  close_if_open (socket_can_rx_fd_ m);;
  close_if_open (socket_can_tx_fd_ m);;
  socket_can_rx_fd ← socketcanOpen (iface_address_ m) (iface_mtu_ m);
  socket_can_tx_fd ← socketcanOpen (iface_address_ m) (iface_mtu_ m);
  mret (mkMedia (if 0 <=? socket_can_rx_fd then socket_can_rx_fd else -1)
          (if 0 <=? socket_can_tx_fd then socket_can_tx_fd else -1) (iface_address_ m) (iface_mtu_ m)).

(** [getMtu] *)
Definition getMtu (m : CanMedia) : Z := iface_mtu_ m.

(** [setFilters]; the standard leaves open whether [data()] of a vector without elements
    is a null pointer ([null]). *)
Definition setFilters (null : bool) (m : CanMedia) (filters : list (Z * Z)) : M K (option Z) :=
  let data := if bool_decide (filters = []) && null then None else Some filters in
  result ← socketcanFilter (socket_can_rx_fd_ m) data;
  mret (if result <? 0 then Some (- result) else None).

(** [push]: whether the frame was accepted, and what is left of the payload. *)
Definition can_push (m : CanMedia) (can_id : Z) (payload : option bytes) : M K ((Z + bool) * option bytes) :=
  result ← socketcanPush (socket_can_tx_fd_ m) (mkFrame can_id payload) 0;
  if result <? 0 then mret (inl (- result), payload)
  else
    let is_accepted := 0 <? result in
    mret (inr is_accepted, if is_accepted then None else payload).

(** [pop]; [now] is the executor's time. *)
Definition can_pop (now : Z) (m : CanMedia) (payload_buffer_size : Z) : M K (Z + option PopMetadata) :=
  '(result, frame) ← socketcanPop (socket_can_rx_fd_ m) false payload_buffer_size 0 true;
  if result <? 0 then mret (inl (- result))
  else if result =? 0 then mret (inr None)
  else
    let canard_frame := match frame with Some f => pop_frame f | None => mkFrame 0 None end in
    let data := default [] (frame_payload canard_frame) in
    mret (inr (Some (mkMetadata now (extended_can_id canard_frame) (Z.of_nat (length data)) data))).

(** [registerPushCallback], [registerPopCallback]: what is registered, if the
    executor has awaitable callbacks ([posix_executor_ext]). *)
Definition registerAwaitable (posix_executor_ext : bool) (trigger : Trigger) : option Trigger :=
  if posix_executor_ext then Some trigger else None.

Definition registerPushCallback (ext : bool) (m : CanMedia) : option Trigger := registerAwaitable ext (Writable (socket_can_tx_fd_ m)).
Definition registerPopCallback (ext : bool) (m : CanMedia) : option Trigger := registerAwaitable ext (Readable (socket_can_rx_fd_ m)).

(** ** [CanMediaCollection] *)

(** A pointer of [media_ifaces_] is the index of the medium it points to. *)
Record CanMediaCollection := mkCollection {
  media_array_ : list (option CanMedia);
  media_ifaces_ : list (option nat);
}.

Definition new_collection : CanMediaCollection := mkCollection [None; None; None] [None; None; None].

(** [media_array_[i].reset()] *)
Definition reset_media (m : option CanMedia) : M K unit :=
  match m with Some m => can_destroy m | None => mret tt end.

(** The loop's body, for a piece that is not empty. *)
Definition can_parse_body (iface_mtu : Z) (iface_address : bytes) (st : nat * CanMediaCollection) : M K (nat * CanMediaCollection) :=
  let '(index, c) := st in
  maybe_media ← can_make iface_address iface_mtu;
  match maybe_media with
  | inr media =>
      let '(moved, rest) := can_move media in
      can_destroy rest;;
      mret (S index, mkCollection (<[index := Some moved]> (media_array_ c)) (<[index := Some index]> (media_ifaces_ c)))
  | inl _ => mret (index, c)
  end.

(** [parse] *)
Definition can_parse (iface_addresses : bytes) (iface_mtu : Z) (c : CanMediaCollection) : M K CanMediaCollection :=
  mfor (media_array_ c) reset_media;;
  '(_, c) ← for_each_piece (2 + length iface_addresses) (fun '(index, _) => negb (index <? MaxCanMedia)%nat)
              (can_parse_body iface_mtu) iface_addresses 0 (O, new_collection);
  mret c.

(** [count] *)
Definition can_count (c : CanMediaCollection) : nat := length (filter (fun iface => iface <> None) (media_ifaces_ c)).

(** The destructor of the array. *)
Definition can_destroy_collection (c : CanMediaCollection) : M K unit := mfor (media_array_ c) reset_media.
End CanMedia.

(** ** Who owns which descriptors *)
Section Ownership.
Context {K : Type} `{CanKernelOk K}.

(** The descriptors of a medium. *)
Definition fds_of (m : CanMedia) : list Z := filter (fun fd => 0 <= fd) [socket_can_rx_fd_ m; socket_can_tx_fd_ m].

(** A descriptor is bound to the interface that an address names. *)
Definition bound_to (k : K) (name : bytes) (fd : Z) : Prop :=
  exists i, can_index (c_str name) = Some i /\ can_bound k !! fd = Some i.

(** The open descriptors are those of [base] and of the media [ms], each of one
    medium, and bound to its interface. *)
Definition owns (base : gset Z) (ms : list CanMedia) (k : K) : Prop :=
  NoDup (ms ≫= fds_of) /\
  (forall fd, fd ∈ ms ≫= fds_of -> fd ∉ base) /\
  can_opened k = base ∪ list_to_set (ms ≫= fds_of) /\
  forall m fd, m ∈ ms -> fd ∈ fds_of m -> bound_to k (iface_address_ m) fd.

(** Changing the order of the media changes nothing. *)
Lemma owns_perm base ms ms' k : ms ≡ₚ ms' -> owns base ms k -> owns base ms' k.
Proof.
  intros Hp (Hn & Hb & Ho & Hbd).
  assert (ms ≫= fds_of ≡ₚ ms' ≫= fds_of) as Hp' by by rewrite Hp.
  split_and!.
  - by rewrite <- Hp'.
  - intros fd. rewrite <- Hp'. apply Hb.
  - rewrite Ho. f_equal. apply set_eq. intros fd. by rewrite !elem_of_list_to_set, Hp'.
  - intros m fd. rewrite <- Hp. apply Hbd.
Qed.

(** A medium without descriptors. *)
Definition closed_media (address : bytes) (mtu : Z) : CanMedia := mkMedia (-1) (-1) address mtu.

Lemma owns_closed base address mtu ms k : owns base (closed_media address mtu :: ms) k <-> owns base ms k.
Proof.
  unfold owns. cbn [mbind list_bind]. change (fds_of (closed_media address mtu)) with (@nil Z). cbn [app].
  split; intros (Hn & Hb & Ho & Hbd); (split_and!; [done..|]); intros m fd Hm Hfd.
  - by apply Hbd; [right|].
  - apply elem_of_cons in Hm as [->|Hm]; [|by apply Hbd]. by apply not_elem_of_nil in Hfd.
Qed.

(** A descriptor is opened for a medium. *)
Lemma owns_open base m m' ms fd (k k' : K) :
  owns base (m :: ms) k -> opened_for (c_str (iface_address_ m')) k fd k' -> 0 <= fd ->
  fds_of m' ≡ₚ fd :: fds_of m -> iface_address_ m' = iface_address_ m -> owns base (m' :: ms) k'.
Proof.
  intros (Hn & Hb & Ho & Hbd) (Hk & [(_ & Hnew & Ho' & Hi)|[? _]]) Hfd Hp Ha; [|lia].
  unfold owns in *. cbn [mbind list_bind] in *.
  assert (fd ∉ fds_of m ++ (ms ≫= fds_of)) as Hin.
  { intros Hin. apply Hnew. rewrite Ho. set_solver. }
  split_and!.
  - rewrite Hp. cbn. by constructor.
  - intros f Hf Hf'. rewrite Hp in Hf. cbn in Hf. apply elem_of_cons in Hf as [->|Hf]; [|by apply (Hb f)].
    apply Hnew. rewrite Ho. set_solver.
  - rewrite Ho', Ho. apply set_eq. intros f. rewrite !elem_of_union, !elem_of_list_to_set, Hp. cbn.
    rewrite !elem_of_cons, elem_of_singleton. tauto.
  - intros x f Hx Hf. apply elem_of_cons in Hx as [->|Hx].
    + rewrite Hp in Hf. apply elem_of_cons in Hf as [->|Hf]; [done|]. rewrite Ha. unfold bound_to.
      rewrite Hk by (rewrite Ho; set_solver). apply (Hbd m); [by left|done].
    + unfold bound_to. rewrite Hk; [by apply (Hbd x); [right|]|]. rewrite Ho. apply elem_of_union_r, elem_of_list_to_set, elem_of_app.
      right. apply list_elem_of_bind. by exists x.
Qed.

(** Opening failed. *)
Lemma owns_not_opened base ms name fd (k k' : K) :
  owns base ms k -> opened_for name k fd k' -> fd < 0 -> owns base ms k'.
Proof.
  intros (Hn & Hb & Ho & Hbd) (Hk & [(? & _)|[_ Ho']]) Hfd; [lia|]. split_and!; [done|done|congruence|].
  intros m f Hm Hf. unfold bound_to. rewrite Hk; [by apply Hbd|]. rewrite Ho.
  apply elem_of_union_r, elem_of_list_to_set, list_elem_of_bind. by exists m.
Qed.

(** A descriptor of a medium is closed, if it has it. *)
Lemma wp_close base m m' ms fd (k : K) (Q : unit -> K -> Prop) :
  owns base (m :: ms) k -> fds_of m ≡ₚ filter (fun fd => 0 <= fd) [fd] ++ fds_of m' -> iface_address_ m' = iface_address_ m ->
  (forall k', owns base (m' :: ms) k' -> Q tt k') -> wp (close_if_open fd) Q k.
Proof.
  intros (Hn & Hb & Ho & Hbd) Hp Ha HQ. unfold close_if_open. destruct (Z.leb_spec 0 fd).
  - rewrite filter_cons_True, filter_nil in Hp by done. cbn in Hp. apply wp_modify, HQ.
    destruct (can_close_ok fd k) as (Ho' & Hb' & _). unfold owns in *. cbn [mbind list_bind] in *.
    rewrite Hp in Hn. cbn in Hn. apply NoDup_cons in Hn as [Hnew Hn].
    assert (fd ∉ base) as Hbase by (intros Hin; apply (Hb fd); [rewrite Hp; cbn; by left|done]).
    split_and!; [done|intros f Hf; apply Hb; rewrite Hp; cbn; by right|..].
    + rewrite Ho', Ho. apply set_eq. intros f.
      rewrite elem_of_difference, !elem_of_union, !elem_of_list_to_set, Hp, elem_of_singleton. cbn. rewrite elem_of_cons.
      split; [tauto|]. intros [Hf|Hf]; (split; [tauto|]); by intros ->.
    + intros x f Hx Hf. unfold bound_to. rewrite Hb', lookup_delete_ne.
      * apply elem_of_cons in Hx as [->|Hx]; [|by apply (Hbd x); [right|]]. rewrite Ha. apply (Hbd m); [by left|]. rewrite Hp. by right.
      * intros <-. apply Hnew, elem_of_app. apply elem_of_cons in Hx as [->|Hx]; [by left|right]. apply list_elem_of_bind. by exists x.
  - rewrite filter_cons_False, filter_nil in Hp by lia. apply wp_ret, HQ. unfold owns in *. cbn [mbind list_bind] in *.
    cbn [app] in Hp. split_and!.
    + by rewrite <- Hp.
    + intros f. rewrite <- Hp. apply Hb.
    + rewrite Ho. f_equal. apply set_eq. intros f. by rewrite !elem_of_list_to_set, Hp.
    + intros x f Hx Hf. apply elem_of_cons in Hx as [->|Hx]; [|by apply (Hbd x); [right|]].
      rewrite Ha. apply (Hbd m); [by left|]. by rewrite Hp.
Qed.

(** Both sockets of a medium are open, and different. *)
Definition both_open (m : CanMedia) : Prop :=
  0 <= socket_can_rx_fd_ m /\ 0 <= socket_can_tx_fd_ m /\ socket_can_rx_fd_ m <> socket_can_tx_fd_ m.

Lemma fds_both m : both_open m -> fds_of m = [socket_can_rx_fd_ m; socket_can_tx_fd_ m].
Proof. intros (Hr & Ht & _). unfold fds_of. by rewrite !filter_cons_True. Qed.

Lemma fds_rx fd address mtu : 0 <= fd -> fds_of (mkMedia fd (-1) address mtu) = [fd].
Proof. intros Hfd. unfold fds_of. cbn [socket_can_rx_fd_ socket_can_tx_fd_]. by rewrite filter_cons_True, filter_cons_False by lia. Qed.

Lemma wp_destroy base m ms (k : K) : owns base (m :: ms) k -> wp (can_destroy m) (fun _ k' => owns base ms k') k.
Proof.
  intros Ho. unfold can_destroy. apply wp_bind.
  apply (wp_close base m (mkMedia (-1) (socket_can_tx_fd_ m) (iface_address_ m) (iface_mtu_ m)) ms); [done| |done|].
  { unfold fds_of. cbn [socket_can_rx_fd_ socket_can_tx_fd_]. by rewrite !filter_cons, filter_nil, (decide_False (P := 0 <= -1)) by lia; case_decide. }
  intros k1 Ho1. eapply (wp_close base _ (closed_media (iface_address_ m) (iface_mtu_ m)) ms); [done| |done|].
  { unfold fds_of. cbn [socket_can_rx_fd_ socket_can_tx_fd_ closed_media].
    by rewrite !filter_cons, filter_nil, !(decide_False (P := 0 <= -1)) by lia; case_decide. }
  intros k2 Ho2. by eapply owns_closed.
Qed.

Lemma wp_can_make base address mtu ms (k : K) :
  owns base ms k ->
  wp (can_make address mtu) (fun r k' =>
    match r with
    | inr m => owns base (m :: ms) k' /\ both_open m /\ iface_address_ m = address /\ iface_mtu_ m = mtu
    | inl code => 0 < code /\ owns base ms k'
    end) k.
Proof.
  intros Ho. unfold can_make. apply wp_bind. eapply wp_mono; [apply wp_socketcanOpen|]. intros rx k1 Hop1. cbn beta in Hop1.
  destruct (Z.ltb_spec rx 0); [apply wp_ret; split; [lia|by eapply owns_not_opened]|].
  assert (owns base (mkMedia rx (-1) address mtu :: ms) k1) as Ho1.
  { eapply (owns_open _ (closed_media address mtu)); [by apply owns_closed|done|done|by rewrite fds_rx|done]. }
  apply wp_bind. eapply wp_mono; [apply wp_socketcanOpen|]. intros tx k2 Hop2. cbn beta in Hop2.
  destruct (Z.ltb_spec tx 0).
  - apply wp_bind. change (modify (can_close rx)) with (if true then modify (can_close (K := K) rx) else mret tt).
    replace true with (0 <=? rx) by lia.
    apply (wp_close base (mkMedia rx (-1) address mtu) (closed_media address mtu) ms rx);
      [by eapply owns_not_opened|by rewrite fds_rx, filter_cons_True|done|].
    intros k3 Ho3. apply wp_ret. split; [lia|by eapply owns_closed].
  - apply wp_ret.
    assert (both_open (mkMedia rx tx address mtu)) as Hboth.
    { split_and!; [done|done|]. destruct Hop2 as (_ & [(_ & Hnew & _)|[? _]]); [|lia]. destruct Ho1 as (_ & _ & Ho1 & _).
      intros Heq. cbn in Heq. apply Hnew. rewrite Ho1, <- Heq. cbn [mbind list_bind]. rewrite fds_rx by done. set_solver. }
    split_and!; [|done|done|done].
    eapply (owns_open _ (mkMedia rx (-1) address mtu)); [done|done|done| |done].
    rewrite fds_both, fds_rx by done. cbn. by apply perm_swap.
Qed.

(** [tryReopen] closes and opens again. *)
Lemma wp_tryReopen base m ms (k : K) :
  owns base (m :: ms) k ->
  wp (tryReopen m) (fun m' k' => owns base (m' :: ms) k' /\ iface_address_ m' = iface_address_ m /\ iface_mtu_ m' = iface_mtu_ m) k.
Proof.
  intros Ho. unfold tryReopen. apply (wp_assoc (close_if_open (socket_can_rx_fd_ m)) (fun _ => close_if_open (socket_can_tx_fd_ m))). apply wp_bind.
  eapply wp_mono; [apply (wp_destroy base m ms k Ho)|]. cbn beta. intros [] k1 Ho1.
  apply wp_bind. eapply wp_mono; [apply wp_socketcanOpen|]. intros rx k2 Hop2. cbn beta in Hop2.
  assert (owns base (mkMedia (if 0 <=? rx then rx else -1) (-1) (iface_address_ m) (iface_mtu_ m) :: ms) k2) as Ho2.
  { destruct (Z.leb_spec 0 rx).
    - eapply (owns_open _ (closed_media (iface_address_ m) (iface_mtu_ m)));
        [by apply owns_closed|done|done|by rewrite fds_rx|done].
    - apply owns_closed. eapply owns_not_opened; [done|done|lia]. }
  apply wp_bind. eapply wp_mono; [apply wp_socketcanOpen|]. intros tx k3 Hop3. cbn beta in Hop3. apply wp_ret. split_and!; [|done|done].
  destruct (Z.leb_spec 0 tx); [|eapply owns_not_opened; [done|done|lia]].
  eapply (owns_open _ (mkMedia (if 0 <=? rx then rx else -1) (-1) _ _)); [done|done|done| |done].
  unfold fds_of. cbn [socket_can_rx_fd_ socket_can_tx_fd_].
  rewrite !filter_cons, filter_nil, (decide_False (P := 0 <= -1)), (decide_True (P := 0 <= tx)) by lia.
  case_decide; [apply perm_swap|done].
Qed.

(** ** The collection *)

(** The collection of given media. *)
Definition collection_of (ms : list CanMedia) : CanMediaCollection :=
  mkCollection ((Some <$> ms) ++ replicate (MaxCanMedia - length ms) None)
    ((Some <$> seq 0 (length ms)) ++ replicate (MaxCanMedia - length ms) None).

(** The media of a collection. *)
Definition media_of (c : CanMediaCollection) : list CanMedia := omap id (media_array_ c).

Lemma insert_middle {A} (l : list A) x y rest n : n = length l -> <[n := y]> (l ++ x :: rest) = l ++ y :: rest.
Proof. intros ->. rewrite <- (Nat.add_0_r (length l)). by rewrite insert_app_r. Qed.

Lemma collection_add ms m :
  (length ms < MaxCanMedia)%nat ->
  collection_of (ms ++ [m]) =
  mkCollection (<[length ms := Some m]> (media_array_ (collection_of ms)))
    (<[length ms := Some (length ms)]> (media_ifaces_ (collection_of ms))).
Proof.
  intros Hlen. unfold collection_of. cbn [media_array_ media_ifaces_]. rewrite length_app. cbn [length].
  replace (MaxCanMedia - length ms)%nat with (S (MaxCanMedia - (length ms + 1))) by lia.
  rewrite seq_app, !fmap_app. cbn [seq fmap list_fmap replicate].
  rewrite !insert_middle by (by rewrite length_fmap, ?length_seq). by rewrite <- !app_assoc.
Qed.

Lemma media_of_collection ms : media_of (collection_of ms) = ms.
Proof.
  unfold media_of, collection_of. cbn [media_array_]. rewrite omap_app. replace (omap id (replicate _ None)) with (@nil CanMedia).
  - rewrite app_nil_r. induction ms as [|m ms IH]; [done|]. cbn. by f_equal.
  - by induction (MaxCanMedia - length ms)%nat.
Qed.

Lemma wp_reset_all base array (k : K) :
  owns base (omap id array) k -> wp (mfor array reset_media) (fun _ k' => owns base [] k') k.
Proof.
  revert k. induction array as [|[m|] array IH]; intros k Ho; cbn [mfor reset_media]; [by apply wp_ret| |].
  - apply wp_bind. eapply wp_mono; [by apply (wp_destroy base m (omap id array))|]. intros [] k1 Ho1. by apply IH.
  - apply wp_bind, wp_ret. by apply IH.
Qed.

(** What a text is made into: the pieces that were used, and whether a medium was
    made of each; one that was not is one whose sockets did not open. *)
Definition made_of (base : gset Z) (mtu : Z) (ps : list bytes) (ms : list CanMedia) : Prop :=
  exists used rest, ps = used.*1 ++ rest /\ iface_address_ <$> ms = (filter (fun u => u.2 = true) used).*1 /\
    (rest = [] \/ length ms = MaxCanMedia) /\
    forall p, (p, false) ∈ used -> exists k k' code ms', owns base ms' k /\ can_make p mtu k = Done (inl code, k').

Lemma wp_parse_pieces base mtu ps used ms (k : K) :
  owns base ms k -> Forall both_open ms -> Forall (fun m => iface_mtu_ m = mtu) ms -> (length ms <= MaxCanMedia)%nat ->
  iface_address_ <$> ms = (filter (fun u => u.2 = true) used).*1 ->
  (forall p, (p, false) ∈ used -> exists k k' code ms', owns base ms' k /\ can_make p mtu k = Done (inl code, k')) ->
  wp (run_pieces (fun '(index, _) => negb (index <? MaxCanMedia)%nat) (can_parse_body mtu) ps (length ms, collection_of ms))
    (fun st k' => exists ms', st = (length ms', collection_of ms') /\ owns base ms' k' /\ Forall both_open ms' /\
       Forall (fun m => iface_mtu_ m = mtu) ms' /\ (length ms' <= MaxCanMedia)%nat /\ made_of base mtu (used.*1 ++ ps) ms') k.
Proof.
  revert used ms k. induction ps as [|p ps IH]; intros used ms k Ho Hb Hm Hl Hu Hf; cbn [run_pieces].
  - apply wp_ret. exists ms. split_and!; [done..|]. exists used, []. split_and!; [done|done|by left|done].
  - destruct (Nat.ltb_spec (length ms) MaxCanMedia); cbn [negb].
    + apply wp_bind. unfold can_parse_body at 1. apply wp_bind.
      pose proof (wp_can_make base p mtu ms k Ho) as Hmake. unfold wp in Hmake |- * at 1.
      destruct (can_make p mtu k) as [[[code|m] k1]|] eqn:E; [| |done].
      * destruct Hmake as [_ Ho1]. apply wp_ret. replace (used.*1 ++ p :: ps) with ((used ++ [(p, false)]).*1 ++ ps) by by rewrite fmap_app, <- app_assoc.
        apply IH; [done..| |].
        -- rewrite filter_app, filter_cons_False, filter_nil, app_nil_r by done. done.
        -- intros q [Hq|Hq]%elem_of_app; [by apply Hf|]. apply list_elem_of_singleton in Hq as [= ->]. by exists k, k1, code, ms.
      * destruct Hmake as (Ho1 & Hboth & Ha & Hmtu). cbn [can_move].
        apply wp_bind. unfold can_destroy. apply wp_bind. cbn [socket_can_rx_fd_ socket_can_tx_fd_]. unfold close_if_open. cbn [Z.leb Z.compare].
        apply wp_ret, wp_ret, wp_ret. replace (used.*1 ++ p :: ps) with ((used ++ [(p, true)]).*1 ++ ps) by by rewrite fmap_app, <- app_assoc.
        rewrite <- collection_add by done. replace (S (length ms)) with (length (ms ++ [m])) by (rewrite length_app; cbn; lia).
        apply IH.
        -- eapply owns_perm; [|done]. apply Permutation_cons_append.
        -- apply Forall_app. split; [done|by apply Forall_singleton].
        -- apply Forall_app. split; [done|by apply Forall_singleton].
        -- rewrite length_app. cbn. lia.
        -- rewrite filter_app, filter_cons_True, filter_nil, !fmap_app, Hu by done. cbn. by rewrite Ha.
        -- intros q [Hq|Hq]%elem_of_app; [by apply Hf|]. by apply list_elem_of_singleton in Hq.
    + apply wp_ret. exists ms. split_and!; [done..|]. exists used, (p :: ps). split_and!; [done|done|right; lia|done].
Qed.

Lemma count_collection ms : can_count (collection_of ms) = length ms.
Proof.
  unfold can_count, collection_of. cbn [media_ifaces_]. rewrite filter_app, length_app.
  replace (filter _ (replicate _ _)) with (@nil (option nat)).
  - rewrite Nat.add_0_r. rewrite <- (length_seq (length ms) 0) at 2. generalize (seq 0 (length ms)) as l.
    induction l as [|i l IH]; [done|]. cbn [fmap list_fmap]. rewrite filter_cons_True by done. cbn. by f_equal.
  - by induction (MaxCanMedia - length ms)%nat.
Qed.

(** Destroying a collection leaves what was open before. *)
Lemma wp_destroy_collection base ms (k : K) :
  owns base ms k -> wp (can_destroy_collection (collection_of ms)) (fun _ k' => can_opened k' = base) k.
Proof.
  intros Ho. unfold can_destroy_collection. eapply wp_mono; [apply (wp_reset_all base)|].
  - change (owns base (media_of (collection_of ms)) k). by rewrite media_of_collection.
  - intros [] k3 (_ & _ & Hend & _). rewrite Hend. cbn. set_solver.
Qed.

(** The media that a text names: whatever the collection held, [parse] closes what
    it held, and then holds at most three media, made of the pieces between
    commas in their order, where a piece is left out only if its sockets did
    not open or there are three media already; each medium has two open
    sockets of its own, bound to the interface that it names; the pointers are
    to these media; and of all descriptors that were opened exactly these are
    left open, so that destroying the collection leaves what was open before. *)
Lemma wp_can_parse base text mtu c (k : K) :
  Z.of_nat (length text) < npos -> owns base (media_of c) k ->
  wp (can_parse text mtu c) (fun c' k' => exists ms,
    c' = collection_of ms /\ (length ms <= MaxCanMedia)%nat /\ can_count c' = length ms /\
    made_of base mtu (pieces text) ms /\
    Forall both_open ms /\ Forall (fun m => iface_mtu_ m = mtu) ms /\
    owns base ms k' /\
    wp (can_destroy_collection c') (fun _ k'' => can_opened k'' = base) k') k.
Proof.
  intros Hlen Ho. unfold can_parse. apply wp_bind. eapply wp_mono; [by apply wp_reset_all|]. intros [] k1 Ho1. cbn beta in Ho1.
  apply wp_bind. unfold wp. rewrite for_each_piece_run by done.
  apply (wp_mono _ _ _ _ (wp_parse_pieces base mtu (pieces text) [] [] k1 Ho1 (Forall_nil_2 _) (Forall_nil_2 _) (Nat.le_0_l _) eq_refl
    ltac:(by intros p []%not_elem_of_nil))).
  intros [index c'] k2 (ms & [= -> ->] & Ho2 & Hb & Hm & Hl & Hmade). apply wp_ret. exists ms.
  rewrite count_collection. split_and!; [done..|]. by apply wp_destroy_collection.
Qed.

(** Reopening keeps the ownership, whichever sockets open again. *)
Lemma tryReopen_owns base m ms (k : K) : owns base (m :: ms) k -> wp (tryReopen m) (fun m' k' => owns base (m' :: ms) k') k.
Proof. intros Ho. eapply wp_mono; [by apply wp_tryReopen|]. by intros m' k' [? _]. Qed.

(** What is sent and received is told to libcyphal as it is: the accepted frame's
    payload is released, a refused one is kept, and the error is the code. *)
Lemma can_push_spec m can_id payload (k : K) :
  can_push m can_id payload k =
  (result ← socketcanPush (socket_can_tx_fd_ m) (mkFrame can_id payload) 0;
   mret (if result <? 0 then inl (- result) else inr (0 <? result), if 0 <? result then None else payload)) k.
Proof.
  unfold can_push, mbind, M_bind. destruct (socketcanPush _ _ _ k) as [[result k']|]; [|done].
  destruct (Z.ltb_spec result 0), (Z.ltb_spec 0 result); done || lia.
Qed.

(** C36: frames pass between media: when the kernel takes what [push] writes, the frame
    is accepted and its payload released, and [pop] of a medium that reads
    what was written gives the same identifier and payload, for any
    extended identifier and any payload of a CAN FD frame, with the executor's time. *)
Theorem media_roundtrip m m' can_id payload now (k : K) n n' revents revents' k1 k2 k3 k4 k5 wire flags control written :
  0 <= can_id < 2 ^ 29 -> (length payload <= CANFD_MAX_DLEN)%nat -> wire = frame_bytes (mkFrame can_id (Some payload)) payload ->
  can_poll (socket_can_tx_fd_ m) POLLOUT (0, 0) k = (n, revents, k1) -> 0 < n -> Z.land revents POLLOUT <> 0 ->
  can_write (socket_can_tx_fd_ m) wire k1 = (written, k2) -> 0 <= written ->
  can_poll (socket_can_rx_fd_ m') POLLIN (0, 0) k3 = (n', revents', k4) -> 0 < n' -> Z.land revents' POLLIN <> 0 ->
  can_recvmsg (socket_can_rx_fd_ m') k4 = (Some (mkCanMsg wire flags control), k5) ->
  can_push m can_id (Some payload) k = Done ((inr true, None), k2) /\
  can_pop now m' (Z.of_nat CANFD_MAX_DLEN) k3 =
    Done (inr (Some (mkMetadata now can_id (Z.of_nat (length payload)) payload)), k5).
Proof.
  intros Hid Hlen -> Hpo Hn Hr Hw Hwr Hpi Hn' Hr' Hmsg.
  destruct (frame_roundtrip (K := K) (mkFrame can_id (Some payload)) payload Hid eq_refl Hlen) as (_ & Hpush & Hpop).
  split.
  - unfold can_push, mbind, M_bind. rewrite (Hpush _ 0 k n revents k1) by done. unfold mbind, M_bind, liftF. rewrite Hw.
    by destruct (Z.ltb_spec written 0); [lia|].
  - unfold can_pop, mbind, M_bind. rewrite (Hpop _ 0 k3 n' revents' k4 _ flags control k5) by (done || lia). done.
Qed.
End Ownership.

Section Witnesses.
Import CanSim.

Lemma host_owns limit : owns (can_opened (host limit)) [] (host limit).
Proof. split_and!; [constructor|by intros fd []%not_elem_of_nil|set_solver|]. by intros m fd []%not_elem_of_nil. Qed.

Lemma media_roundtrip_witness :
  let m := mkMedia 3 4 (str "can0") 8 in
  let wire := frame_bytes (mkFrame 0x1f0000a5 (Some (str "hello"))) (str "hello") in
  let k2 := mkSim {[0; 1; 2]} ∅ 0 16 [mkCanMsg wire 0 None] in
  can_push m 0x1f0000a5 (Some (str "hello")) (host 16) = Done ((inr true, None), k2) /\
  can_pop 77 m 64 k2 = Done (inr (Some (mkMetadata 77 0x1f0000a5 5 (str "hello"))), host 16).
Proof.
  intros m wire k2.
  apply (media_roundtrip m m 0x1f0000a5 (str "hello") 77 (host 16) 1 1 POLLOUT POLLIN (host 16) k2 k2 k2 (host 16) wire 0 None 16);
    (reflexivity || done || (vm_compute; intuition congruence) || (vm_compute; lia)).
Defined.
End Witnesses.
