(* ===== verification/UdpMedia.v ===== *)
(** * UDP sockets and media

    Models [src/daemon/engine/platform/udp/udp.c], the sockets that libudpard
    needs; [udp_sockets.hpp], the objects of libcyphal's transport that own them;
    and [udp_media.hpp], the media that make them, up to three, from a text.

    The kernel is the class [UdpKernel]: every call that sets up a socket is a
    [UdpCall], and the kernel knows which were done, in order. Addresses and
    ports are in memory in network byte order, on a little-endian host. *)
From S2P Require Import Prelude Errors EventLoop IfaceText.

Local Open Scope Z_scope.

(** ** The system calls *)

(** [s_addr] and [sin_port] as they are in memory. *)
Inductive UdpCall : Type :=
| Bind (sin_addr sin_port : Z)
| SetNonBlock
| MulticastTtl (ttl : Z)
| MulticastIf (sin_addr : Z)
| ReuseAddr
| ReusePort
| AddMembership (group iface : Z)
| Tos (tos : Z).

Class UdpKernel (K : Type) := {
  udp_opened : K -> gset Z;
  udp_calls : K -> gmap Z (list UdpCall);
  udp_errno : K -> Z;
  udp_socket : K -> Z * K;
  udp_close : Z -> K -> K;
  udp_call : Z -> UdpCall -> K -> bool * K;
  udp_sendto : Z -> bytes -> Z -> Z -> K -> Z * K;
  udp_recv : Z -> nat -> K -> option bytes * K;
  udp_poll : list (Z * Z) -> Z -> K -> Z * list Z * K;
}.

(** POSIX: a new descriptor is not open and has no calls done, [close] closes, the other calls leave
    the open descriptors alone; [errno] is the number of an error after a failure. *)
Class UdpKernelOk (K : Type) `{UdpKernel K} := {
  udp_socket_ok k : let '(fd, k') := udp_socket k in
    (0 <= fd /\ fd ∉ udp_opened k /\ udp_opened k' = {[fd]} ∪ udp_opened k /\ udp_calls k' = <[fd := []]> (udp_calls k)) \/
    (fd = -1 /\ udp_opened k' = udp_opened k /\ udp_calls k' = udp_calls k /\ 0 < udp_errno k' < 2 ^ 15);
  udp_close_ok fd k :
    udp_opened (udp_close fd k) = udp_opened k ∖ {[fd]} /\ udp_calls (udp_close fd k) = delete fd (udp_calls k);
  udp_call_ok fd c k : let '(ok, k') := udp_call fd c k in
    udp_opened k' = udp_opened k /\
    (ok = true -> udp_calls k' = alter (fun cs => cs ++ [c]) fd (udp_calls k)) /\
    (ok = false -> udp_calls k' = udp_calls k /\ 0 < udp_errno k' < 2 ^ 15);
  udp_nonneg k fd : fd ∈ udp_opened k -> 0 <= fd;
}.

Definition OVERRIDE_TTL := 16.
Definition DSCP_MAX := 63.
Definition UDP_POLLIN := 1.
Definition UDP_POLLOUT := 4.
Definition EWOULDBLOCK := Errno.EAGAIN.
Definition INT_MAX := 2 ^ 31 - 1.

(** The conversion to [int16_t]. *)
Definition i16 (z : Z) : Z := let r := wrap 16 z in if r <? 2 ^ 15 then r else r - 2 ^ 16.

(** [htonl], [htons]; they are their own inverses. *)
Definition htonl (z : Z) : Z := le_value (rev (le_bytes 4 z)).
Definition htons (z : Z) : Z := le_value (rev (le_bytes 2 z)).

Definition isMulticast (address : Z) : bool := Z.land address 0xF0000000 =? 0xE0000000.

Section Udp.
Context {K : Type} `{UdpKernel K}.

(** [ok = ok && call(...) == 0] *)
Definition and_call (fd : Z) (c : UdpCall) (ok : bool) : M K bool :=
  if ok then liftF (udp_call fd c) else mret false.

(** The end of [udpTxInit] and [udpRxInit]: the result, and the descriptor of the
    handle. *)
Definition init_end (fd : Z) (ok : bool) : M K (Z * Z) :=
  if ok then mret (0, fd)
  else
    errno ← gets udp_errno;
    modify (udp_close fd);;
    mret (i16 (- errno), -1).

(** [udpTxInit]; [fd] is the descriptor of the handle. *)
Definition udpTxInit (fd local_iface_address : Z) : M K (Z * Z) :=
  if 0 <? local_iface_address then
    fd ← liftF udp_socket;
    let local_iface_be := htonl local_iface_address in
    ok ← and_call fd (Bind local_iface_be 0) (0 <=? fd);
    ok ← and_call fd SetNonBlock ok;
    ok ← and_call fd (MulticastTtl OVERRIDE_TTL) ok;
    ok ← and_call fd (MulticastIf local_iface_be) ok;
    init_end fd ok
  else mret (- Errno.EINVAL, fd).

(** The result of a call that failed: not ready, or an error. *)
Definition not_ready_or_errno : M K Z :=
  errno ← gets udp_errno;
  mret (if (errno =? Errno.EAGAIN) || (errno =? EWOULDBLOCK) then 0 else i16 (- errno)).

(** [udpTxSend]; no payload is a null pointer. *)
Definition udpTxSend (fd remote_address remote_port dscp : Z) (payload : option bytes) : M K Z :=
  match payload with
  | Some payload =>
      if (0 <=? fd) && (0 <? remote_address) && (0 <? remote_port) && (dscp <=? DSCP_MAX) then
        let dscp_int := Z.shiftl dscp 2 in
        liftF (udp_call fd (Tos dscp_int));;
        send_result ← liftF (udp_sendto fd payload (htonl remote_address) (htons remote_port));
        if send_result =? Z.of_nat (length payload) then mret 1
        else not_ready_or_errno
      else mret (- Errno.EINVAL)
  | None => mret (- Errno.EINVAL)
  end.

(** [udpTxClose], [udpRxClose]: what is left of the handle. *)
Definition udp_close_handle (fd : Z) : M K Z :=
  if 0 <=? fd then modify (udp_close fd);; mret (-1) else mret fd.

(** [udpRxInit], where [SO_REUSEPORT] exists. *)
Definition udpRxInit (fd local_iface_address multicast_group remote_port : Z) : M K (Z * Z) :=
  if (0 <? local_iface_address) && isMulticast multicast_group && (0 <? remote_port) then
    fd ← liftF udp_socket;
    ok ← and_call fd SetNonBlock (0 <=? fd);
    ok ← and_call fd ReuseAddr ok;
    ok ← and_call fd ReusePort ok;
    ok ← and_call fd (Bind (htonl multicast_group) (htons remote_port)) ok;
    ok ← and_call fd (AddMembership (htonl multicast_group) (htonl local_iface_address)) ok;
    init_end fd ok
  else mret (- Errno.EINVAL, fd).

(** [udpRxReceive]: the result, and the data with its size. *)
Definition udpRxReceive (fd : Z) (inout_payload_size : nat) : M K (Z * option bytes) :=
  if 0 <=? fd then
    recv_result ← liftF (udp_recv fd inout_payload_size);
    match recv_result with
    | Some data => mret (1, Some data)
    | None => res ← not_ready_or_errno; mret (res, None)
    end
  else mret (- Errno.EINVAL, None).

(** [udpWait]: the result, and the flags [ready]. A variable-length array of no
    elements is undefined. *)
Definition udpWait (timeout_usec : Z) (tx rx : option (list Z)) : M K (Z * list bool * list bool) :=
  let total_count := (length (default [] tx) + length (default [] rx))%nat in
  if (total_count =? 0)%nat then undef
  else
    match tx, rx with
    | Some tx, Some rx =>
        if Z.of_nat total_count <=? INT_MAX then
          let fds := ((fun fd => (fd, UDP_POLLOUT)) <$> tx) ++ ((fun fd => (fd, UDP_POLLIN)) <$> rx) in
          let timeout_ms := timeout_usec / 1000 in
          '(poll_result, revents) ← liftF (udp_poll fds (if INT_MAX <? timeout_ms then INT_MAX else timeout_ms));
          if 0 <=? poll_result then
            mret (0, (fun r => negb (Z.land r UDP_POLLOUT =? 0)) <$> take (length tx) revents,
                     (fun r => negb (Z.land r UDP_POLLIN =? 0)) <$> drop (length tx) revents)
          else errno ← gets udp_errno; mret (i16 (- errno), [], [])
        else mret (- Errno.EINVAL, [], [])
    | _, _ => mret (- Errno.EINVAL, [], [])
    end.

(** [udpParseIfaceAddress], for any [inet_pton]. *)
Definition udpParseIfaceAddress (inet_pton : bytes -> option Z) (address : bytes) : Z :=
  match inet_pton (c_str address) with Some s_addr => htonl s_addr | None => 0 end.
End Udp.

(** ** The sockets of a transport ([udp_sockets.hpp]) *)

Inductive UdpFailure : Type :=
| PlatformError (code : Z)
| MemoryError.

(** [UdpTxSocket], [UdpRxSocket]: the descriptor of the handle. *)
Record UdpTxSocket := mkTxSocket { tx_fd : Z; tx_iface_mtu_ : Z }.
Record UdpRxSocket := mkRxSocket { rx_fd : Z }.

(** [IpEndpoint] *)
Record IpEndpoint := mkEndpoint { ip_address : Z; udp_port : Z }.

Section Sockets.
Context {K : Type} `{UdpKernel K} (inet_pton : bytes -> option Z).

(** [UdpTxSocket::make]; [allocated]: was there memory for the object? *)
Definition tx_make (allocated : bool) (iface_address : bytes) (iface_mtu : Z) : M K (UdpFailure + UdpTxSocket) :=
  '(result, handle) ← udpTxInit (-1) (udpParseIfaceAddress inet_pton iface_address);
  if result <? 0 then mret (inl (PlatformError (- result)))
  else if allocated then mret (inr (mkTxSocket handle iface_mtu))
  else udp_close_handle handle;; mret (inl MemoryError).

(** [~UdpTxSocket] *)
Definition tx_destroy (s : UdpTxSocket) : M K unit := udp_close_handle (tx_fd s);; mret tt.

(** [UdpTxSocket::send]: only the first fragment is used. *)
Definition tx_send (s : UdpTxSocket) (multicast_endpoint : IpEndpoint) (dscp : Z) (payload_fragments : list (option bytes)) :
    M K (UdpFailure + bool) :=
  match payload_fragments with
  | payload :: _ =>
      result ← udpTxSend (tx_fd s) (ip_address multicast_endpoint) (udp_port multicast_endpoint) dscp payload;
      mret (if result <? 0 then inl (PlatformError (- result)) else inr (result =? 1))
  | [] => undef
  end.

(** [registerCallback] of both sockets. *)
Definition tx_registerCallback (posix_executor_ext : bool) (s : UdpTxSocket) : option Trigger :=
  if posix_executor_ext then Some (Writable (tx_fd s)) else None.
Definition rx_registerCallback (posix_executor_ext : bool) (s : UdpRxSocket) : option Trigger :=
  if posix_executor_ext then Some (Readable (rx_fd s)) else None.

(** [UdpRxSocket::make] *)
Definition rx_make (allocated : bool) (address : bytes) (endpoint : IpEndpoint) : M K (UdpFailure + UdpRxSocket) :=
  '(result, handle) ← udpRxInit (-1) (udpParseIfaceAddress inet_pton address) (ip_address endpoint) (udp_port endpoint);
  if result <? 0 then mret (inl (PlatformError (- result)))
  else if allocated then mret (inr (mkRxSocket handle))
  else udp_close_handle handle;; mret (inl MemoryError).

(** [~UdpRxSocket] *)
Definition rx_destroy (s : UdpRxSocket) : M K unit := udp_close_handle (rx_fd s);; mret tt.

Definition BufferSize : nat := 2000.

(** [UdpRxSocket::receive]: nothing, or a datagram with the executor's time. *)
Definition rx_receive (allocated : bool) (now : Z) (s : UdpRxSocket) : M K (UdpFailure + option (Z * bytes)) :=
  '(result, buffer) ← udpRxReceive (rx_fd s) BufferSize;
  mret (if result <? 0 then inl (PlatformError (- result))
        else if result =? 0 then inr None
        else if allocated then inr (Some (now, default [] buffer))
        else inl MemoryError).
End Sockets.

(** ** Media ([udp_media.hpp]) *)

Definition MaxUdpMedia : nat := 3.

(** [UdpMedia] *)
Record UdpMedia := mkUdpMedia { iface_address_ : bytes; iface_mtu_ : Z }.

Definition setAddress (iface_address : bytes) (m : UdpMedia) : UdpMedia := mkUdpMedia iface_address (iface_mtu_ m).
Definition setMtu (mtu : Z) (m : UdpMedia) : UdpMedia := mkUdpMedia (iface_address_ m) mtu.

Definition makeTxSocket {K} `{UdpKernel K} inet_pton (allocated : bool) (m : UdpMedia) : M K (UdpFailure + UdpTxSocket) :=
  tx_make inet_pton allocated (iface_address_ m) (iface_mtu_ m).
Definition makeRxSocket {K} `{UdpKernel K} inet_pton (allocated : bool) (m : UdpMedia) (multicast_endpoint : IpEndpoint) :
    M K (UdpFailure + UdpRxSocket) :=
  rx_make inet_pton allocated (iface_address_ m) multicast_endpoint.

(** [UdpMediaCollection]; a pointer of [media_ifaces_] is the index of its medium. *)
Record UdpMediaCollection := mkUdpCollection { media_array_ : list UdpMedia; media_ifaces_ : list (option nat) }.

(** The constructor; libudpard's header defines [UDPARD_MTU_DEFAULT]. *)
Definition new_udp_collection (UDPARD_MTU_DEFAULT : Z) : UdpMediaCollection :=
  mkUdpCollection (replicate MaxUdpMedia (mkUdpMedia [] UDPARD_MTU_DEFAULT)) (replicate MaxUdpMedia None).

Definition udp_parse_body {S} (opt_iface_mtu : option Z) (iface_address : bytes) (st : nat * list UdpMedia) :
    M S (nat * list UdpMedia) :=
  let '(index, media) := st in
  mret (Datatypes.S index,
        alter (fun m => let m := setAddress iface_address m in
                        match opt_iface_mtu with Some mtu => setMtu mtu m | None => m end) index media).

(** [parse] *)
Definition udp_parse {S} (iface_addresses : bytes) (opt_iface_mtu : option Z) (c : UdpMediaCollection) : M S UdpMediaCollection :=
  '(index, media) ← for_each_piece (2 + length iface_addresses) (fun '(index, _) => negb (index <? MaxUdpMedia)%nat)
                      (udp_parse_body opt_iface_mtu) iface_addresses 0 (O, media_array_ c);
  mret (mkUdpCollection media ((Some <$> seq 0 index) ++ replicate (MaxUdpMedia - index) None)).

(** [count] *)
Definition udp_count (c : UdpMediaCollection) : nat := length (filter (fun iface => iface <> None) (media_ifaces_ c)).

(** ** Sockets are set up completely or not at all *)
Section SocketFacts.
Context {K : Type} `{UdpKernelOk K}.

(** While a socket is being set up: [done] are the calls that were made. *)
Definition init_step (k : K) (fd : Z) (done : list UdpCall) (ok : bool) (k' : K) : Prop :=
  udp_opened k' = {[fd]} ∪ udp_opened k /\
  (forall f, f <> fd -> udp_calls k' !! f = udp_calls k !! f) /\
  if ok then udp_calls k' !! fd = Some done else 0 < udp_errno k' < 2 ^ 15.

Lemma wp_and_call k fd done ok c k' (Q : bool -> K -> Prop) :
  init_step k fd done ok k' -> (forall ok' k'', init_step k fd (done ++ [c]) ok' k'' -> Q ok' k'') ->
  wp (and_call fd c ok) Q k'.
Proof.
  intros (Ho & Hk & Hok) HQ. unfold and_call. destruct ok; [|by apply wp_ret, HQ].
  apply wp_liftF. pose proof (udp_call_ok fd c k') as Hc. destruct (udp_call fd c k') as [ok' k'']. destruct Hc as (Ho' & Ht & Hf).
  apply HQ. cbn. split; [congruence|]. destruct ok'; (split; [intros f Hne|]).
  - rewrite (Ht eq_refl), lookup_alter_ne by done. by apply Hk.
  - by rewrite (Ht eq_refl), lookup_alter_eq, Hok.
  - rewrite (proj1 (Hf eq_refl)). by apply Hk.
  - by apply Hf.
Qed.

(** A handle that was set up by the calls [cs], or none; nothing else is opened. *)
Definition set_up (cs : list UdpCall) (k : K) (res fd : Z) (k' : K) : Prop :=
  (forall f, f ∈ udp_opened k -> udp_calls k' !! f = udp_calls k !! f) /\
  ((res = 0 /\ 0 <= fd /\ fd ∉ udp_opened k /\ udp_opened k' = {[fd]} ∪ udp_opened k /\ udp_calls k' !! fd = Some cs) \/
   (res < 0 /\ fd = -1 /\ udp_opened k' = udp_opened k)).

Lemma i16_neg_errno e : 0 < e < 2 ^ 15 -> i16 (- e) = - e.
Proof.
  intros He. unfold i16, wrap. replace ((- e) mod 2 ^ 16) with (2 ^ 16 - e).
  - destruct (Z.ltb_spec (2 ^ 16 - e) (2 ^ 15)); lia.
  - rewrite <- (Z.mod_add (- e) 1) by lia. rewrite Z.mod_small; lia.
Qed.

Lemma wp_init_end k fd cs ok k' :
  0 <= fd -> fd ∉ udp_opened k -> init_step k fd cs ok k' -> wp (init_end fd ok) (fun '(res, fd) => set_up cs k res fd) k'.
Proof.
  intros Hfd Hnew (Ho & Hk & Hok). unfold init_end.
  assert (forall f, f ∈ udp_opened k -> f <> fd) as Hne by (intros f Hf ->; done). destruct ok.
  - apply wp_ret. split; [intros f Hf; apply Hk; auto|]. left. by split_and!.
  - wp_steps. destruct (udp_close_ok fd k') as [Ho' Hc]. split.
    + intros f Hf. rewrite Hc, lookup_delete_ne by (intros <-; by apply (Hne fd)). apply Hk; auto.
    + right. rewrite i16_neg_errno by done. split_and!; [lia|done|]. rewrite Ho', Ho. set_solver.
Qed.

(** When there is no socket. *)
Lemma wp_no_socket (k k1 : K) cs :
  udp_opened k1 = udp_opened k -> udp_calls k1 = udp_calls k -> 0 < udp_errno k1 < 2 ^ 15 ->
  wp (init_end (-1) false) (fun '(res, fd) => set_up cs k res fd) k1.
Proof.
  intros Ho Hc He. unfold init_end. wp_steps. destruct (udp_close_ok (-1) k1) as [Ho' Hc'].
  assert (-1 ∉ udp_opened k1) as Hm1 by (intros Hin%udp_nonneg; lia). split.
  - intros f Hf. rewrite Hc', lookup_delete_ne, Hc; [done|]. intros <-. by rewrite <- Ho in Hf.
  - right. rewrite i16_neg_errno by done. split_and!; [lia|done|]. rewrite Ho', Ho. rewrite Ho in Hm1. set_solver.
Qed.

Lemma init_start (k : K) fd k1 :
  udp_opened k1 = {[fd]} ∪ udp_opened k -> udp_calls k1 = <[fd := []]> (udp_calls k) -> init_step k fd [] true k1.
Proof.
  intros Ho Hc. split; [done|]. rewrite Hc. split; [|by rewrite lookup_insert_eq].
  intros f Hf. by rewrite lookup_insert_ne.
Qed.

(** The calls that set up a socket for sending, and one for receiving. *)
Definition tx_calls (iface : Z) : list UdpCall :=
  [Bind (htonl iface) 0; SetNonBlock; MulticastTtl OVERRIDE_TTL; MulticastIf (htonl iface)].
Definition rx_calls (iface group port : Z) : list UdpCall :=
  [SetNonBlock; ReuseAddr; ReusePort; Bind (htonl group) (htons port); AddMembership (htonl group) (htonl iface)].

Lemma wp_udpTxInit iface (k : K) : wp (udpTxInit (-1) iface) (fun '(res, fd) => set_up (tx_calls iface) k res fd) k.
Proof.
  unfold udpTxInit. destruct (0 <? iface); [|by apply wp_ret; split; [|right]].
  apply wp_bind, wp_liftF. pose proof (udp_socket_ok k) as Hs. destruct (udp_socket k) as [fd k1]. cbn [fst snd].
  destruct Hs as [(Hfd & Hnew & Ho & Hc)|(-> & Ho & Hc & He)]; [|by apply wp_no_socket].
  rewrite (proj2 (Z.leb_le _ _)) by done. pose proof (init_start k fd k1 Ho Hc) as Hstep. clear Ho Hc.
  do 4 (apply wp_bind; eapply wp_and_call; [eassumption|clear Hstep; intros ? ? Hstep; cbn [app] in Hstep]).
  by apply wp_init_end.
Qed.

Lemma wp_udpRxInit iface group port (k : K) :
  wp (udpRxInit (-1) iface group port) (fun '(res, fd) => set_up (rx_calls iface group port) k res fd) k.
Proof.
  unfold udpRxInit. destruct ((0 <? iface) && isMulticast group && (0 <? port)); [|by apply wp_ret; split; [|right]].
  apply wp_bind, wp_liftF. pose proof (udp_socket_ok k) as Hs. destruct (udp_socket k) as [fd k1]. cbn [fst snd].
  destruct Hs as [(Hfd & Hnew & Ho & Hc)|(-> & Ho & Hc & He)]; [|by apply wp_no_socket].
  rewrite (proj2 (Z.leb_le _ _)) by done. pose proof (init_start k fd k1 Ho Hc) as Hstep. clear Ho Hc.
  do 5 (apply wp_bind; eapply wp_and_call; [eassumption|clear Hstep; intros ? ? Hstep; cbn [app] in Hstep]).
  by apply wp_init_end.
Qed.

Lemma wp_close_handle fd (k : K) (Q : Z -> K -> Prop) :
  0 <= fd -> (forall k', udp_opened k' = udp_opened k ∖ {[fd]} -> (forall f, f <> fd -> udp_calls k' !! f = udp_calls k !! f) -> Q (-1) k') ->
  wp (udp_close_handle fd) Q k.
Proof.
  intros Hfd HQ. unfold udp_close_handle. rewrite (proj2 (Z.leb_le _ _)) by done. wp_steps.
  destruct (udp_close_ok fd k) as [Ho Hc]. apply HQ; [done|]. intros f Hf. by rewrite Hc, lookup_delete_ne.
Qed.

(** A socket object: its descriptor is new and set up by [cs]; destroying it, with
    [destroy], leaves the open descriptors that were there before. *)
Definition owned_socket (cs : list UdpCall) (destroy : M K unit) (k : K) (fd : Z) (k' : K) : Prop :=
  fd ∉ udp_opened k /\ udp_opened k' = {[fd]} ∪ udp_opened k /\ udp_calls k' !! fd = Some cs /\
  wp destroy (fun _ k'' => udp_opened k'' = udp_opened k) k'.

Lemma set_up_owned cs (k : K) fd k' (destroy : M K unit) :
  set_up cs k 0 fd k' -> destroy = (udp_close_handle fd;; mret tt) -> owned_socket cs destroy k fd k'.
Proof.
  intros (_ & [(_ & Hfd & Hnew & Ho & Hc)|[? _]]) ->; [|lia]. split_and!; [done..|].
  apply wp_bind, wp_close_handle; [done|]. intros k'' Ho'' _. apply wp_ret. rewrite Ho'', Ho. set_solver.
Qed.

Lemma set_up_dropped cs (k : K) fd k' A (a : A) (Q : A -> K -> Prop) :
  set_up cs k 0 fd k' -> (forall k'', udp_opened k'' = udp_opened k -> Q a k'') -> wp (udp_close_handle fd;; mret a) Q k'.
Proof.
  intros (_ & [(_ & Hfd & Hnew & Ho & Hc)|[? _]]) HQ; [|lia]. apply wp_bind, wp_close_handle; [done|].
  intros k'' Ho'' _. apply wp_ret, HQ. rewrite Ho'', Ho. set_solver.
Qed.

(** A UDP socket exists completely or not at all: [make] of either kind gives an
    object whose descriptor is new, and on which exactly the calls for
    its interface were made, in the order that the kernel needs (the address is made reusable before it is
    bound); or a failure, and then nothing is left open; and nothing is left open
    after the object was destroyed. *)
Theorem udp_sockets_set_up inet_pton allocated address mtu endpoint (k : K) :
  let iface := udpParseIfaceAddress inet_pton address in
  wp (tx_make inet_pton allocated address mtu) (fun r k' =>
    match r with
    | inr s => tx_iface_mtu_ s = mtu /\ owned_socket (tx_calls iface) (tx_destroy s) k (tx_fd s) k'
    | inl _ => udp_opened k' = udp_opened k
    end) k /\
  wp (rx_make inet_pton allocated address endpoint) (fun r k' =>
    match r with
    | inr s => owned_socket (rx_calls iface (ip_address endpoint) (udp_port endpoint)) (rx_destroy s) k (rx_fd s) k'
    | inl _ => udp_opened k' = udp_opened k
    end) k.
Proof.
  split; apply wp_bind.
  - eapply wp_mono; [apply wp_udpTxInit|]. intros [res fd] k' Hs. cbn beta iota in *.
    destruct (Z.ltb_spec res 0); [apply wp_ret; by destruct Hs as (_ & [(? & _)|(_ & _ & ->)]); [lia|]|].
    assert (res = 0) as -> by (destruct Hs as (_ & [(? & _)|[? _]]); lia).
    destruct allocated; [apply wp_ret; split; [done|by eapply set_up_owned]|by eapply set_up_dropped].
  - eapply wp_mono; [apply wp_udpRxInit|]. intros [res fd] k' Hs. cbn beta iota in *.
    destruct (Z.ltb_spec res 0); [apply wp_ret; by destruct Hs as (_ & [(? & _)|(_ & _ & ->)]); [lia|]|].
    assert (res = 0) as -> by (destruct Hs as (_ & [(? & _)|[? _]]); lia).
    destruct allocated; [apply wp_ret; by eapply set_up_owned|by eapply set_up_dropped].
Qed.
End SocketFacts.

(** ** Datagrams *)

(** Addresses are in network byte order in memory. *)
Lemma htonl_bytes a : le_bytes 4 (htonl a) = rev (le_bytes 4 a).
Proof.
  unfold htonl. assert (forall bs, length bs = 4%nat -> le_bytes 4 (le_value bs) = bs) as Hb.
  { intros bs Hlen. destruct bs as [|b0 [|b1 [|b2 [|b3 [|? ?]]]]]; try done. clear Hlen. cbn [le_bytes le_value].
    pose proof (Z_of_byte_bound b0). pose proof (Z_of_byte_bound b1). pose proof (Z_of_byte_bound b2). pose proof (Z_of_byte_bound b3).
    assert (forall b q, byte_of_Z (Z_of_byte b + 256 * q) = b /\ (Z_of_byte b + 256 * q) / 256 = q) as Hstep.
    { intros b q. pose proof (Z_of_byte_bound b). split.
      - rewrite <- (byte_of_Z_of_byte b) at 2. unfold byte_of_Z. do 3 f_equal. unfold wrap. change (2 ^ 8) with 256.
        rewrite (Z.mul_comm 256 q). by rewrite Z.mod_add.
      - rewrite (Z.mul_comm 256 q), Z.div_add by lia. rewrite Z.div_small by lia. lia. }
    destruct (Hstep b0 (Z_of_byte b1 + 256 * (Z_of_byte b2 + 256 * (Z_of_byte b3 + 256 * 0)))) as [-> ->].
    destruct (Hstep b1 (Z_of_byte b2 + 256 * (Z_of_byte b3 + 256 * 0))) as [-> ->].
    destruct (Hstep b2 (Z_of_byte b3 + 256 * 0)) as [-> ->]. by destruct (Hstep b3 0) as [-> _]. }
  apply Hb. by rewrite length_rev, length_le_bytes.
Qed.

Section DatagramFacts.
Context {K : Type} `{UdpKernel K}.

(** A datagram is sent whole, to the endpoint, or it was not sent: then the socket was not ready, or
    there is an error. *)
Lemma tx_send_spec s endpoint dscp payload fragments (k : K) ok k1 n k2 :
  0 <= tx_fd s -> 0 < ip_address endpoint -> 0 < udp_port endpoint -> dscp <= DSCP_MAX ->
  udp_call (tx_fd s) (Tos (Z.shiftl dscp 2)) k = (ok, k1) ->
  udp_sendto (tx_fd s) payload (htonl (ip_address endpoint)) (htons (udp_port endpoint)) k1 = (n, k2) ->
  (n <> Z.of_nat (length payload) -> 0 < udp_errno k2 < 2 ^ 15) ->
  tx_send s endpoint dscp (Some payload :: fragments) k =
    Done (if n =? Z.of_nat (length payload) then inr true
          else if udp_errno k2 =? Errno.EAGAIN then inr false else inl (PlatformError (udp_errno k2)), k2).
Proof.
  intros Hfd Ha Hp Hd Htos Hsend Herr. unfold tx_send, udpTxSend, mbind, M_bind, liftF.
  rewrite (proj2 (Z.leb_le 0 _)), (proj2 (Z.ltb_lt 0 _)), (proj2 (Z.ltb_lt 0 _)), (proj2 (Z.leb_le _ _)) by done. cbn [andb].
  rewrite Htos, Hsend. destruct (Z.eqb_spec n (Z.of_nat (length payload))) as [->|Hn]; [done|].
  unfold not_ready_or_errno, mbind, M_bind, gets, EWOULDBLOCK. rewrite orb_diag.
  destruct (Z.eqb_spec (udp_errno k2) Errno.EAGAIN); [done|]. cbn. specialize (Herr Hn). rewrite i16_neg_errno by done.
  destruct (Z.ltb_spec (- udp_errno k2) 0); [|lia]. by rewrite Z.opp_involutive.
Qed.

(** A datagram is received whole, if it fits the buffer, with the executor's time. *)
Lemma rx_receive_spec now s (k : K) data k1 :
  0 <= rx_fd s -> udp_recv (rx_fd s) BufferSize k = (Some data, k1) -> rx_receive true now s k = Done (inr (Some (now, data)), k1).
Proof.
  intros Hfd Hr. unfold rx_receive, udpRxReceive, mbind, M_bind, liftF. rewrite (proj2 (Z.leb_le 0 _)) by done. by rewrite Hr.
Qed.
End DatagramFacts.

(** ** The media that a text names *)

Definition named_media (opt_iface_mtu : option Z) (iface_address : bytes) (m : UdpMedia) : UdpMedia :=
  mkUdpMedia iface_address (default (iface_mtu_ m) opt_iface_mtu).

Lemma udp_parse_body_eq {S} opt_mtu p index media :
  udp_parse_body (S := S) opt_mtu p (index, media) = mret (Datatypes.S index, alter (named_media opt_mtu p) index media).
Proof. unfold udp_parse_body. do 2 f_equal. by destruct opt_mtu. Qed.

Lemma udp_run_pieces {S} opt_mtu ps media rest (m : S) :
  (length (media ++ rest) = MaxUdpMedia)%nat ->
  run_pieces (fun '(index, _) => negb (index <? MaxUdpMedia)%nat) (udp_parse_body opt_mtu) ps (length media, media ++ rest) m =
  let used := take (length rest) ps in
  Done ((length media + length used)%nat, media ++ zip_with (named_media opt_mtu) used rest ++ drop (length used) rest, m).
Proof.
  revert media rest. induction ps as [|p ps IH]; intros media rest Hlen; cbn [run_pieces].
  - rewrite take_nil. cbn. by rewrite Nat.add_0_r, drop_0.
  - rewrite length_app in Hlen. destruct rest as [|x rest]; cbn [length] in Hlen.
    + destruct (Nat.ltb_spec (length media) MaxUdpMedia); [lia|]. cbn. by rewrite Nat.add_0_r.
    + destruct (Nat.ltb_spec (length media) MaxUdpMedia); [|lia]. cbn [negb]. rewrite udp_parse_body_eq, bind_mret.
      rewrite <- (Nat.add_0_r (length media)) at 2. rewrite alter_app_r. cbn [alter list_alter].
      replace (Datatypes.S (length media)) with (length (media ++ [named_media opt_mtu p x])) by (rewrite length_app; cbn; lia).
      replace (media ++ _ :: rest) with ((media ++ [named_media opt_mtu p x]) ++ rest) by (by rewrite <- app_assoc).
      rewrite IH by (rewrite !length_app; cbn; lia). rewrite length_app. cbn. rewrite <- app_assoc. cbn. do 3 f_equal. lia.
Qed.

Lemma udp_count_ifaces i media : udp_count (mkUdpCollection media ((Some <$> seq 0 i) ++ replicate (MaxUdpMedia - i) None)) = i.
Proof.
  unfold udp_count. cbn [media_ifaces_]. rewrite filter_app, length_app.
  replace (filter _ (replicate _ _)) with (@nil (option nat)) by by induction (MaxUdpMedia - i)%nat.
  rewrite Nat.add_0_r. rewrite <- (length_seq i 0) at 2. generalize (seq 0 i) as l.
  induction l as [|j l IH]; [done|]. cbn [fmap list_fmap]. rewrite filter_cons_True by done. cbn. by f_equal.
Qed.

(** The media are made of the first three pieces of the text, in order, with the
    given transfer unit if there is one; the pointers are to these media. *)
Lemma udp_parse_media {S} text opt_mtu c (m : S) :
  Z.of_nat (length text) < npos -> length (media_array_ c) = MaxUdpMedia ->
  let used := take MaxUdpMedia (pieces text) in
  exists c', udp_parse text opt_mtu c m = Done (c', m) /\ udp_count c' = length used /\
    media_array_ c' = zip_with (named_media opt_mtu) used (media_array_ c) ++ drop (length used) (media_array_ c) /\
    media_ifaces_ c' = (Some <$> seq 0 (length used)) ++ replicate (MaxUdpMedia - length used) None.
Proof.
  intros Hlen Hc. cbn zeta. eexists. split; [|split; [|split]].
  - unfold udp_parse, mbind, M_bind. rewrite for_each_piece_run by done.
    pose proof (udp_run_pieces opt_mtu (pieces text) [] (media_array_ c) m Hc) as Hr. cbn [length app Nat.add] in Hr.
    rewrite Hr, Hc. reflexivity.
  - apply udp_count_ifaces.
  - done.
  - done.
Qed.

(** ** A host *)
Module UdpSim.
(** There are [us_limit] descriptors at most; calls on what is open succeed. *)
Record Sim := mkSim { us_sockets : gmap Z (list UdpCall); us_errno : Z; us_limit : Z }.

Definition us_opened (k : Sim) : gset Z := filter (fun fd => 0 <= fd) (dom (us_sockets k)).

Definition us_free (k : Sim) : Z :=
  default 1024 (list_find (fun fd => us_sockets k !! fd = None) (seqZ 3 1021) ≫= fun r => Some r.2).

#[export] Instance Sim_udp : UdpKernel Sim := {
  udp_opened := us_opened;
  udp_calls := us_sockets;
  udp_errno k := if decide (0 < us_errno k < 2 ^ 15) then us_errno k else 1;
  udp_socket k :=
    let fd := us_free k in
    if decide (fd < us_limit k /\ 0 <= fd /\ us_sockets k !! fd = None)
    then (fd, mkSim (<[fd := []]> (us_sockets k)) (us_errno k) (us_limit k))
    else (-1, mkSim (us_sockets k) 24 (us_limit k));
  udp_close fd k := mkSim (delete fd (us_sockets k)) (us_errno k) (us_limit k);
  udp_call fd c k :=
    if decide (is_Some (us_sockets k !! fd))
    then (true, mkSim (alter (fun cs => cs ++ [c]) fd (us_sockets k)) (us_errno k) (us_limit k))
    else (false, mkSim (us_sockets k) Errno.EBADF (us_limit k));
  udp_sendto fd data addr port k := (Z.of_nat (length data), k);
  udp_recv fd n k := (None, mkSim (us_sockets k) Errno.EAGAIN (us_limit k));
  udp_poll fds timeout k := (0, [], k);
}.

Definition host (limit : Z) : Sim := mkSim ∅ 0 limit.

#[export] Instance Sim_udp_ok : UdpKernelOk Sim.
Proof.
  split; unfold udp_socket, udp_close, udp_call, udp_opened, udp_calls, udp_errno, Sim_udp.
  - intros k. destruct (decide _) as [(_ & Hfd & Hnew)|]; cbn; [left|right].
    + unfold us_opened. cbn. split_and!; [done| | |done].
      * rewrite elem_of_filter, elem_of_dom, Hnew. by intros [_ [? ?]].
      * rewrite dom_insert_L. set_solver.
    + split_and!; [done..|]. by case_decide.
  - intros fd k. unfold us_opened. cbn. split; [|done]. rewrite dom_delete_L. set_solver.
  - intros fd c k. destruct (decide (is_Some _)); cbn; (split_and!; [|done|done]).
    + unfold us_opened. cbn. by rewrite dom_alter_L.
    + done.
  - intros k fd. unfold us_opened. set_solver.
Qed.
End UdpSim.

Section Witnesses.
Import UdpSim.

(** 127.0.0.1 and a group of Cyphal/UDP. *)
Definition loopback (address : bytes) : option Z := if decide (address = str "127.0.0.1") then Some 0x0100007f else None.

Lemma udp_sockets_set_up_witness :
  let iface := udpParseIfaceAddress loopback (str "127.0.0.1") in
  iface = 0x7f000001 /\
  (exists s k', tx_make loopback true (str "127.0.0.1") 1408 (host 16) = Done (inr s, k') /\
     udp_calls k' !! tx_fd s = Some (tx_calls iface)) /\
  (exists s k', rx_make loopback true (str "127.0.0.1") (mkEndpoint 0xef000001 9382) (host 16) = Done (inr s, k') /\
     udp_calls k' !! rx_fd s = Some (rx_calls iface 0xef000001 9382)).
Proof.
  intros iface. split; [vm_compute; reflexivity|].
  destruct (udp_sockets_set_up loopback true (str "127.0.0.1") 1408 (mkEndpoint 0xef000001 9382) (host 16)) as [Htx Hrx].
  unfold wp in Htx, Hrx. split.
  - destruct (tx_make loopback true (str "127.0.0.1") 1408 (host 16)) as [[[e|s] k']|] eqn:E; [vm_compute in E; congruence| |destruct Htx].
    exists s, k'. split; [reflexivity|]. destruct Htx as (_ & _ & _ & Hc & _). exact Hc.
  - destruct (rx_make loopback true (str "127.0.0.1") (mkEndpoint 0xef000001 9382) (host 16)) as [[[e|s] k']|] eqn:E;
      [vm_compute in E; congruence| |destruct Hrx].
    exists s, k'. split; [reflexivity|]. destruct Hrx as (_ & _ & Hc & _). exact Hc.
Defined.
End Witnesses.
