(* ===== verification/TransportBags.v ===== *)
(** * Transports from the configuration

    Models [src/daemon/engine/cyphal/udp_transport_bag.hpp] and
    [can_transport_bag.hpp]: a transport of libcyphal together with the media that
    it uses, made of the interfaces that the configuration lists. libcyphal's
    [makeTransport] is a parameter, as are the two numbers that its headers
    define; logging and the handler of transient errors, which ignores them, are left out. *)
From S2P Require Import Prelude Errors IfaceText SocketCan CanMedia UdpMedia Config.

Local Open Scope Z_scope.

Definition can_prefix : bytes := str "socketcan:".
Definition udp_prefix : bytes := str "udp://".

(** [TxQueueCapacity] of the two. *)
Definition CanTxQueueCapacity : Z := 2 * (313 + 8) / 7.
Definition UdpTxQueueCapacity : Z := 16.

(** [CanTransportBag], [UdpTransportBag]. *)
Record TransportBag (Media Transport : Type) := mkBag { media_collection_ : Media; transport_ : Transport }.
Arguments mkBag {Media Transport}.
Arguments media_collection_ {Media Transport}.
Arguments transport_ {Media Transport}.

Section Bags.
Context {T : Type} `{Toml T} {Transport : Type}.

(** [CanTransportBag::make]. A bag that is not returned is destroyed. *)
Section Can.
Context {K : Type} `{CanKernel K} (CANARD_MTU_CAN_CLASSIC : Z)
  (makeTransport : CanMediaCollection -> Z -> K -> (CyError + Transport) * K).

Definition can_bag_make (config : Config T) : M K (option (TransportBag CanMediaCollection Transport)) :=
  let can_ifaces := collect_ifaces can_prefix (getCyphalTransportInterfaces config) [] in
  let can_mtu := default CANARD_MTU_CAN_CLASSIC (getCyphalTransportMtu config) in
  media_collection ← can_parse can_ifaces can_mtu new_collection;
  if (can_count media_collection =? 0)%nat then
    can_destroy_collection media_collection;;
    mret None
  else
    maybe_transport ← liftF (makeTransport media_collection CanTxQueueCapacity);
    match maybe_transport with
    | inl failure =>
        can_destroy_collection media_collection;;
        mret None
    | inr transport => mret (Some (mkBag media_collection transport))
    end.
End Can.

(** [UdpTransportBag::make] *)
Section Udp.
Context {K : Type} (UDPARD_MTU_DEFAULT : Z)
  (makeTransport : UdpMediaCollection -> Z -> K -> (CyError + Transport) * K).

Definition udp_bag_make (config : Config T) : M K (option (TransportBag UdpMediaCollection Transport)) :=
  let udp_ifaces := collect_ifaces udp_prefix (getCyphalTransportInterfaces config) [] in
  let opt_udp_mtu := getCyphalTransportMtu config in
  media_collection ← udp_parse udp_ifaces opt_udp_mtu (new_udp_collection UDPARD_MTU_DEFAULT);
  if (udp_count media_collection =? 0)%nat then mret None
  else
    maybe_transport ← liftF (makeTransport media_collection UdpTxQueueCapacity);
    match maybe_transport with
    | inl failure => mret None
    | inr transport => mret (Some (mkBag media_collection transport))
    end.
End Udp.
End Bags.

(** ** What they hold *)

(** The addresses of a scheme that the configuration lists. *)
Definition configured {T} `{Toml T} (prefix : bytes) (config : Config T) : list bytes :=
  addresses_of prefix (getCyphalTransportInterfaces config) ≫= pieces.

Lemma length_collect prefix ifaces acc :
  (length (collect_ifaces prefix ifaces acc) <= length acc + length (mjoin ifaces) + length ifaces)%nat.
Proof.
  revert acc. induction ifaces as [|i l IH]; intros acc; cbn [collect_ifaces]; [cbn; lia|].
  change (mjoin (i :: l)) with (i ++ mjoin l). rewrite length_app. cbn [length].
  destruct (is_prefix prefix i); rewrite IH; [|lia]. rewrite !length_app, length_drop. change (length (str ",")) with 1%nat. lia.
Qed.

(** The configuration is not larger than memory. *)
Definition fits {T} `{Toml T} (config : Config T) : Prop :=
  Z.of_nat (length (mjoin (getCyphalTransportInterfaces config)) + length (getCyphalTransportInterfaces config)) < npos.

Lemma fits_collect {T} `{Toml T} prefix (config : Config T) :
  fits config -> Z.of_nat (length (collect_ifaces prefix (getCyphalTransportInterfaces config) [])) < npos.
Proof. intros Hf. unfold fits in Hf. pose proof (length_collect prefix (getCyphalTransportInterfaces config) []) as Hl. cbn in Hl. lia. Qed.

Section BagFacts.
Context {T : Type} `{Toml T} {Transport : Type}.

(** The interfaces of the daemon are those of its configuration: the media of the UDP transport are the first
    three of the UDP addresses that the configuration lists, in its order, each
    with the configured transfer unit; there is none exactly if no such
    address is listed or libcyphal refused the media. *)
Theorem udp_bag_media {K} mtu_default (makeTransport : UdpMediaCollection -> Z -> K -> (CyError + Transport) * K)
    (config : Config T) (k : K) :
  fits config ->
  let used := take MaxUdpMedia (configured udp_prefix config) in
  exists c, udp_count c = length used /\
    take (length used) (UdpMedia.media_array_ c) =
      (fun address => mkUdpMedia address (default mtu_default (getCyphalTransportMtu config))) <$> used /\
    udp_bag_make mtu_default makeTransport config k =
      if decide (configured udp_prefix config = []) then Done (None, k)
      else match makeTransport c UdpTxQueueCapacity k with
           | (inl _, k') => Done (None, k')
           | (inr transport, k') => Done (Some (mkBag c transport), k')
           end.
Proof.
  intros Hf. cbn zeta.
  destruct (udp_parse_media (collect_ifaces udp_prefix (getCyphalTransportInterfaces config) []) (getCyphalTransportMtu config)
              (new_udp_collection mtu_default) k (fits_collect udp_prefix config Hf) eq_refl) as (c & Hparse & Hcount & Harr & _).
  rewrite pieces_collect in Hcount, Harr. fold (configured udp_prefix config) in Hcount, Harr.
  exists c. split; [done|]. split.
  - rewrite Harr. set (used := take MaxUdpMedia (configured udp_prefix config)).
    assert (length used <= 3)%nat as Hlen by (unfold used, MaxUdpMedia; rewrite length_take; lia).
    unfold new_udp_collection. cbn [UdpMedia.media_array_]. rewrite zip_with_replicate_r by done.
    rewrite take_app_length' by by rewrite length_fmap. apply list_fmap_ext. by intros i a _.
  - unfold udp_bag_make, mbind, M_bind. rewrite Hparse, Hcount.
    destruct (configured udp_prefix config) as [|a l]; [by rewrite decide_True|]. rewrite decide_False by done.
    change (length (take MaxUdpMedia (a :: l)) =? 0)%nat with false. unfold liftF. by destruct (makeTransport c UdpTxQueueCapacity k) as [[e|tr] k'].
Qed.

(** The same for CAN, where a medium is a pair of sockets: the media of the
    CAN transport are made of the first of the configured addresses whose sockets open, at most
    three; each has its own two sockets, bound to its interface; and if there is no
    transport in the end, no socket is left open. *)
Theorem can_bag_media {K} `{CanKernelOk K} mtu_classic
    (makeTransport : CanMediaCollection -> Z -> K -> (CyError + Transport) * K) (config : Config T) base (k : K) :
  fits config -> owns base [] k ->
  (forall c n ms k, owns base ms k -> owns base ms (makeTransport c n k).2) ->
  wp (can_bag_make mtu_classic makeTransport config) (fun r k' =>
    match r with
    | Some bag => exists ms, media_collection_ bag = collection_of ms /\ ms <> [] /\ (length ms <= MaxCanMedia)%nat /\
        made_of base (default mtu_classic (getCyphalTransportMtu config)) (configured can_prefix config) ms /\
        Forall both_open ms /\ owns base ms k'
    | None => can_opened k' = base
    end) k.
Proof.
  intros Hf Ho Hmake. unfold can_bag_make.
  set (text := collect_ifaces can_prefix (getCyphalTransportInterfaces config) []).
  set (mtu := default mtu_classic (getCyphalTransportMtu config)).
  apply wp_bind. eapply wp_mono; [by apply (wp_can_parse base text mtu new_collection k (fits_collect can_prefix config Hf))|].
  intros c k1 (ms & -> & Hlen & Hcount & Hmade & Hboth & _ & Ho1 & Hd1). rewrite Hcount.
  unfold text in Hmade. rewrite pieces_collect in Hmade. fold (configured can_prefix config) in Hmade.
  destruct (Nat.eqb_spec (length ms) 0) as [Hz|Hz].
  - apply wp_bind. eapply wp_mono; [exact Hd1|]. intros [] k2 Hk2. by apply wp_ret.
  - apply wp_bind, wp_liftF. pose proof (Hmake (collection_of ms) CanTxQueueCapacity ms k1 Ho1) as Ho2.
    destruct (makeTransport (collection_of ms) CanTxQueueCapacity k1) as [[e|tr] k2]; cbn [fst snd] in *.
    + apply wp_bind. eapply wp_mono; [by apply (wp_destroy_collection base ms)|]. intros [] k3 Hk3. by apply wp_ret.
    + apply wp_ret. exists ms. split_and!; try done. by intros ->.
Qed.
End BagFacts.

(** ** An example *)
Module BagExample.
(** Of the document only the interfaces and the transfer unit. *)
Record Doc := mkDoc { doc_ifaces : list bytes; doc_mtu : option Z }.

#[export] Instance Doc_toml : Toml Doc := {
  find_strings d k := if decide (k = k_interfaces) then Some (doc_ifaces d) else None;
  find_string d k := None;
  find_u16 d k := None;
  find_size d k := if decide (k = k_mtu) then doc_mtu d else None;
  find_bytes16 d k := None;
  set_strings k l d := None;
  set_bytes16 k u d := None;
  set_time k now d := None;
  toml_format d := [];
  toml_parse s := None;
  representable d := True;
}.

Definition config : Config Doc :=
  mkConfig [] (mkDoc [str "udp://10.0.0.1"; str "socketcan:can7"; str "socketcan:can0"; str "udp://"; str "socketcan:can1"; str "udp://10.0.0.2"]
    (Some 64)) false.

(** libcyphal takes any media. *)
Definition takes_all {C K} (c : C) (n : Z) (k : K) : (CyError + Z) * K := (inr n, k).
End BagExample.

Section Witnesses.
Import BagExample CanSim.

Lemma udp_bag_media_witness :
  configured udp_prefix config = [str "10.0.0.1"; str "10.0.0.2"] /\
  exists c, udp_count c = 2%nat /\ take 2 (UdpMedia.media_array_ c) = [mkUdpMedia (str "10.0.0.1") 64; mkUdpMedia (str "10.0.0.2") 64] /\
    udp_bag_make 1408 takes_all config tt = Done (Some (mkBag c 16), tt).
Proof.
  assert (configured udp_prefix config = [str "10.0.0.1"; str "10.0.0.2"]) as Hu by (vm_compute; reflexivity).
  assert (fits config) as Hfits by (vm_compute; reflexivity).
  assert (getCyphalTransportMtu config = Some 64) as Hmtu by (vm_compute; reflexivity).
  split; [exact Hu|].
  destruct (udp_bag_media (K := unit) (Transport := Z) 1408 takes_all config tt Hfits) as (c & Hc & Hm & He).
  rewrite Hu in Hc, Hm, He. rewrite Hmtu in Hm.
  exists c. split; [exact Hc|split; [exact Hm|exact He]].
Defined.

Lemma can_bag_media_witness :
  exists bag k', can_bag_make 8 takes_all config (host 16) = Done (Some bag, k') /\
    exists ms, media_collection_ bag = collection_of ms /\ Forall both_open ms /\
      made_of (K := Sim) (can_opened (host 16)) 64 [str "can7"; str "can0"; str "can1"] ms.
Proof.
  assert (forall (c : CanMediaCollection) (n : Z) (ms : list CanMedia) (k : Sim),
    owns (can_opened (host 16)) ms k -> owns (can_opened (host 16)) ms (takes_all c n k).2) as Hkeep by (intros c n ms k Hk; exact Hk).
  assert (fits config) as Hfits by (vm_compute; reflexivity).
  pose proof (can_bag_media (K := Sim) (Transport := Z) 8 takes_all config (can_opened (host 16)) (host 16)
    Hfits (host_owns 16) Hkeep) as Hw.
  assert (match can_bag_make 8 takes_all config (host 16) with Done (Some _, _) => true | _ => false end = true) as Hmade
    by (vm_compute; reflexivity).
  unfold wp in Hw. destruct (can_bag_make 8 takes_all config (host 16)) as [[[bag|] k']|] eqn:E; [|discriminate Hmade|destruct Hw].
  clear Hmade.
  exists bag, k'. split; [reflexivity|]. destruct Hw as (ms & Hc & _ & _ & Hmade & Hb & _). exists ms. split; [exact Hc|split; [exact Hb|]]. exact Hmade.
Defined.
End Witnesses.
