(* ===== verification/Execution.v ===== *)
(** * Senders, receivers, and waiting for a result

    Models [include/ocvsmd/sdk/execution.hpp]: a sender is an operation that is
    submitted with a receiver of its result; [just], [then] and [sync_wait]; and
    the typed operations that are built of them in [node_pub_sub.hpp] and
    [node_rpc_client.hpp].

    A sender is a computation that takes the receiver. [sync_wait] submits a sender
    and turns the executor ([EventLoop]) until its receiver was called, or a
    timed callback fired; what the turns of the executor call is part of the
    environment. *)
From S2P Require Import Prelude Errors SocketBuffer Gateway WireExample NodeService EventLoop NodeClients RelayClients.

Local Open Scope Z_scope.

(** ** Senders *)

(** [SenderOf<Result>], in a world [S]. *)
Definition SenderOf (S Result : Type) : Type := (Result -> M S unit) -> M S unit.

(** [SenderOf::submit] *)
Definition submit {S Result} (sender : SenderOf S Result) (receiver : Result -> M S unit) : M S unit :=
  sender (fun result => receiver result).

(** [just] *)
Definition just {S Result} (result : Result) : SenderOf S Result := fun receiver => receiver result.

(** [then] *)
Definition then_ {S Input Result} (input_sender : SenderOf S Input) (transform_func : Input -> Result) : SenderOf S Result :=
  fun rc => submit input_sender (fun input => rc (transform_func input)).

(** [tryPerformOnSerialized]; [allocated]: was there memory for the buffer? *)
Definition performOnSerialized {S Message Result} `{Codec Message} (failure : Error -> Result) (allocated : bool)
    (msg : Message) (action : bytes -> SenderOf S Result) : SenderOf S Result :=
  if allocated then
    match serialize msg SerializationBufferSizeBytes with
    | Some payload => action payload
    | None => just (failure (Err Code.InvalidArgument))
    end
  else just (failure (Err Code.OutOfMemory)).

(** ** Waiting *)
Section SyncWait.
Context {Result Env : Type}.

(** [StateOf], and the rest of the process. *)
Record Waiting := mkWaiting { maybe_result_ : option Result; wt_env : Env }.

Definition completed (w : Waiting) : bool := match maybe_result_ w with Some _ => true | None => false end.

Definition state_complete (result : Result) (w : Waiting) : Waiting :=
  match maybe_result_ w with
  | None => mkWaiting (Some result) (wt_env w)
  | Some _ => w
  end.

(** [makeReceiver]: [ReceiverOf::operator()]. *)
Definition makeReceiver (result : Result) : M Waiting unit := modify (state_complete result).

Definition get : M Waiting Result :=
  r ← gets maybe_result_;
  match r with Some result => mret result | None => undef end.

(** What a turn of the executor calls: a receiver that a client holds, or the
    callback that [sync_wait] registered. *)
Inductive Call : Type :=
| ReceiverCall (result : Result)
| TimeoutCall.

Record Executing := mkExecuting {
  out_spin : Env -> list Call * option Z * Env;
  out_now : Env -> Z;
  out_poll : Z -> Env -> option CyError * Env;
  out_schedule : Z -> Env -> Env;
}.
Context (O : Executing) (from_error : Error -> Result).

Definition call_result (c : Call) : Result :=
  match c with
  | ReceiverCall result => result
  | TimeoutCall => from_error (Err Code.TimedOut)
  end.

Definition run_call (w : Waiting) (c : Call) : Waiting := state_complete (call_result c) w.

#[export] Instance waiting_executor : Executor Waiting := {
  ex_spinOnce w :=
    let '(calls, next_exec_time, env) := out_spin O (wt_env w) in
    (next_exec_time, foldl run_call (mkWaiting (maybe_result_ w) env) calls);
  ex_now w := out_now O (wt_env w);
  ex_poll timeout w := let '(failure, env) := out_poll O timeout (wt_env w) in (failure, mkWaiting (maybe_result_ w) env);
}.

(** [platform::waitPollingUntil(executor, [state] { return state->completed(); })] *)
Definition wait_completed (fuel : nat) : M Waiting (option unit) := fun w =>
  match waitPollingUntil fuel completed w with
  | Some w' => Done (Some tt, w')
  | None => Done (None, w)
  end.

(** [sync_wait(executor, sender)]; [None] when the fuel is used up. *)
Definition sync_wait (fuel : nat) (sender : SenderOf Waiting Result) : M Waiting (option Result) :=
  modify (fun w => mkWaiting None (wt_env w));;
  submit sender makeReceiver;;
  waited ← wait_completed fuel;
  match waited with
  | Some _ => result ← get; mret (Some result)
  | None => mret None
  end.

(** [sync_wait(executor, sender, timeout)] *)
Definition sync_wait_for (fuel : nat) (sender : SenderOf Waiting Result) (timeout : Z) : M Waiting (option Result) :=
  modify (fun w => mkWaiting None (wt_env w));;
  submit sender makeReceiver;;
  now ← gets (fun w => out_now O (wt_env w));
  deadline ← ofOutcome (add_time now timeout);
  modify (fun w => mkWaiting (maybe_result_ w) (out_schedule O deadline (wt_env w)));;
  waited ← wait_completed fuel;
  match waited with
  | Some _ => result ← get; mret (Some result)
  | None => mret None
  end.
End SyncWait.
Arguments Waiting : clear implicits.
Arguments Call : clear implicits.
Arguments Executing : clear implicits.

(** ** Typed operations *)

(** [Subscriber::Receive::Success], [NodeRpcClient::Call::Success] *)
Record Received (Message : Type) := mkReceived { message : Message; rc_priority : Z; rc_publisher_node_id : option Z }.
Arguments mkReceived {Message}.
Record Called (Response : Type) := mkCalled { response : Response; cl_priority : Z; cl_server_node_id : Z }.
Arguments mkCalled {Response}.

Section Typed.
Context {S : Type}.

(** [Publisher::publish] *)
Definition publish {Message} `{Codec Message} (rawPublish : bytes -> Z -> SenderOf S OptError) (allocated : bool)
    (message : Message) (timeout : Z) : SenderOf S OptError :=
  performOnSerialized Some allocated message (fun raw_payload => rawPublish raw_payload timeout).

(** The function that [Subscriber::receive] gives to [then]. *)
Definition receive_transform {Message} `{Codec Message} (raw_result : SubClient.RawReceive + Error) : Received Message + Error :=
  match raw_result with
  | inr failure => inr failure
  | inl raw_msg =>
      match deserialize (SubClient.rcv_payload raw_msg) with
      | Some message => inl (mkReceived message (SubClient.rcv_priority raw_msg) (SubClient.publisher_node_id raw_msg))
      | None => inr (Err Code.InvalidArgument)
      end
  end.

(** [Subscriber::receive] *)
Definition receive {Message} `{Codec Message} (rawReceive : SenderOf S (SubClient.RawReceive + Error))
    : SenderOf S (Received Message + Error) := then_ rawReceive receive_transform.

(** The function that [NodeRpcClient::call] gives to [then]. *)
Definition call_transform {Response} `{Codec Response} (raw_result : RpcClient.RawCall + Error) : Called Response + Error :=
  match raw_result with
  | inr failure => inr failure
  | inl called =>
      match deserialize (RpcClient.raw_response called) with
      | Some response => inl (mkCalled response (RpcClient.call_priority called) (RpcClient.server_node_id called))
      | None => inr (Err Code.InvalidArgument)
      end
  end.

(** [NodeRpcClient::call] *)
Definition call {Request Response} `{Codec Request} `{Codec Response}
    (rawCall : bytes -> Z -> Z -> SenderOf S (RpcClient.RawCall + Error)) (allocated : bool)
    (request : Request) (request_timeout response_timeout : Z) : SenderOf S (Called Response + Error) :=
  let raw_call_sender := performOnSerialized inr allocated request (fun raw_request => rawCall raw_request request_timeout response_timeout) in
  then_ raw_call_sender call_transform.
End Typed.

(** ** The first result wins *)

(** What a [StateOf] holds after these results. *)
Definition first_of {R} (maybe_result : option R) (results : list R) : option R :=
  match maybe_result with Some r => Some r | None => head results end.

Lemma first_of_app {R} m (a b : list R) : first_of (first_of m a) b = first_of m (a ++ b).
Proof. by destruct m, a. Qed.

Lemma first_of_mono {R} m (a b : list R) r : first_of m a = Some r -> first_of m (a ++ b) = Some r.
Proof. by destruct m, a. Qed.

Section FirstResult.
Context {Result Env : Type} (O : Executing Result Env) (from_error : Error -> Result).
Abbreviation W := (Waiting Result Env).
Implicit Types (w : W) (env : Env).

Lemma complete_all w rs : foldl (fun w r => state_complete r w) w rs = mkWaiting (first_of (maybe_result_ w) rs) (wt_env w).
Proof.
  revert w. induction rs as [|r rs IH]; intros w; cbn; [destruct w as [[]]; done|]. rewrite IH.
  unfold state_complete. by destruct w as [[]].
Qed.

Lemma run_calls w cs :
  foldl (run_call from_error) w cs = mkWaiting (first_of (maybe_result_ w) (call_result from_error <$> cs)) (wt_env w).
Proof. rewrite <- complete_all. revert w. induction cs as [|c cs IH]; intros w; cbn; [done|]. apply IH. Qed.

(** A turn as the environment sees it, and the results of the first [n] turns. *)
Definition env_turn env : Env :=
  let '(_, next_exec_time, env) := out_spin O env in (out_poll O (poll_timeout next_exec_time (out_now O env)) env).2.

Fixpoint calls (n : nat) env : list (Call Result) :=
  match n with
  | 0%nat => []
  | S n => (out_spin O env).1.1 ++ calls n (env_turn env)
  end.

Lemma calls_S n env : calls (S n) env = (out_spin O env).1.1 ++ calls n (env_turn env).
Proof. reflexivity. Qed.

Definition results (n : nat) env : list Result := call_result from_error <$> calls n env.

Lemma results_S n env : results (S n) env = (call_result from_error <$> (out_spin O env).1.1) ++ results n (env_turn env).
Proof. unfold results. cbn. apply fmap_app. Qed.

Lemma results_prefix n k env : exists more, results (n + k) env = results n env ++ more.
Proof.
  revert env. induction n as [|n IH]; intros env; [by eexists|]. cbn [Nat.add]. rewrite !results_S.
  destruct (IH (env_turn env)) as [more ->]. exists more. apply app_assoc.
Qed.

(** There is one first result, however many turns are looked at. *)
Lemma first_unique m n1 n2 env r1 r2 :
  first_of m (results n1 env) = Some r1 -> first_of m (results n2 env) = Some r2 -> r1 = r2.
Proof.
  intros H1 H2. destruct (results_prefix n1 n2 env) as [a Ha], (results_prefix n2 n1 env) as [b Hb].
  rewrite Nat.add_comm in Hb. apply (first_of_mono m _ a) in H1. apply (first_of_mono m _ b) in H2. congruence.
Qed.

#[local] Existing Instance waiting_executor.
Abbreviation wait := (@waitPollingUntil W (waiting_executor O from_error)).
Abbreviation w_turn := (@turn W (waiting_executor O from_error)).
Abbreviation w_spun := (@spun W (waiting_executor O from_error)).

Lemma spun_waiting w : w_spun w = mkWaiting (first_of (maybe_result_ w) (call_result from_error <$> (out_spin O (wt_env w)).1.1)) (out_spin O (wt_env w)).2.
Proof. unfold spun. cbn. destruct (out_spin O (wt_env w)) as [[cs t] env]. cbn. by rewrite run_calls. Qed.

Lemma turn_waiting w :
  w_turn w = mkWaiting (first_of (maybe_result_ w) (call_result from_error <$> (out_spin O (wt_env w)).1.1)) (env_turn (wt_env w)).
Proof.
  unfold turn, env_turn. cbn. destruct (out_spin O (wt_env w)) as [[cs t] env]. cbn. rewrite run_calls. cbn.
  by destruct (out_poll O _ env).
Qed.

(** The loop ends with the first result that the turns give. *)
Lemma wait_sound_first fuel w w' :
  wait fuel completed w = Some w' -> exists n r, maybe_result_ w' = Some r /\ first_of (maybe_result_ w) (results n (wt_env w)) = Some r.
Proof.
  revert w. induction fuel as [|fuel IH]; intros w; [done|]. rewrite wait_unfold.
  destruct (completed w) eqn:E0.
  { intros [= <-]. unfold completed in E0. destruct (maybe_result_ w) as [r|] eqn:E; [|done]. by exists 0%nat, r. }
  destruct (completed (w_spun w)) eqn:E1.
  { intros [= <-]. rewrite spun_waiting in E1 |- *. unfold completed in E1. cbn in *.
    destruct (first_of _ _) as [r|] eqn:E; [|done]. exists 1%nat, r. split; [done|].
    rewrite results_S. change (results 0 _) with (@nil Result). by rewrite app_nil_r. }
  intros (n & r & Hr & Hf)%IH. exists (S n), r. split; [done|]. rewrite turn_waiting in Hf. cbn in Hf.
  by rewrite results_S, <- first_of_app.
Qed.

Lemma wait_complete_first n w r :
  first_of (maybe_result_ w) (results n (wt_env w)) = Some r -> exists w', wait (S n) completed w = Some w'.
Proof.
  revert w. induction n as [|n IH]; intros w Hf; rewrite wait_unfold; destruct (completed w) eqn:E0; eauto.
  { unfold completed in E0. by destruct (maybe_result_ w). }
  destruct (completed (w_spun w)) eqn:E1; eauto. apply IH. rewrite turn_waiting. cbn. by rewrite first_of_app, <- results_S.
Qed.

Lemma wait_mono k fuel w : (k <= fuel)%nat -> wait fuel completed w = None -> wait k completed w = None.
Proof.
  revert k w. induction fuel as [|fuel IH]; intros k w Hk; [by destruct k; [|lia]|]. destruct k as [|k]; [done|].
  rewrite !wait_unfold. destruct (completed w); [done|]. destruct (completed (w_spun w)); [done|]. apply IH. lia.
Qed.

(** ** What [sync_wait] returns *)

(** A sender that, when it is submitted, calls its receiver with these results. *)
Definition emits (sender : SenderOf W Result) env (rs : list Result) env' : Prop :=
  forall m, submit sender makeReceiver (mkWaiting m env) = Done (tt, mkWaiting (first_of m rs) env').

Lemma emits_just result env : emits (just result) env [result] env.
Proof. intros m. unfold submit, just, makeReceiver, modify, state_complete. cbn. by destruct m. Qed.

(** The loop and what follows it, from any state. *)
Lemma wait_and_get fuel w :
  let m := waited ← wait_completed O from_error fuel;
           match waited with Some _ => result ← get; mret (Some result) | None => mret None end in
  (forall r w', m w = Done (Some r, w') -> exists n, first_of (maybe_result_ w) (results n (wt_env w)) = Some r) /\
  (forall n r, first_of (maybe_result_ w) (results n (wt_env w)) = Some r -> (n < fuel)%nat -> exists w', m w = Done (Some r, w')) /\
  m w <> Undef.
Proof.
  cbv zeta. unfold wait_completed, get, gets, mbind, M_bind, mret, M_ret.
  assert (forall w', wait fuel completed w = Some w' -> exists n r, maybe_result_ w' = Some r /\
            first_of (maybe_result_ w) (results n (wt_env w)) = Some r) as Hs by (intros w'; apply wait_sound_first).
  destruct (wait fuel completed w) as [w'|] eqn:E.
  - destruct (Hs w' eq_refl) as (n & r & Hr & Hf). rewrite Hr. split; [|split; [|done]].
    + intros r' w'' [= <- <-]. by exists n.
    + intros n' r' Hf' _. rewrite (first_unique _ _ _ _ _ _ Hf Hf'). by eexists.
  - split; [done|]. split; [|done]. intros n r Hf Hn. destruct (wait_complete_first n w r Hf) as [w' Hw'].
    by rewrite (wait_mono (S n) fuel w) in Hw' by (done || lia).
Qed.
End FirstResult.

(** ** The theorems *)
Section Theorems.
Context {Result Env : Type} (O : Executing Result Env) (from_error : Error -> Result).
Abbreviation W := (Waiting Result Env).

(** [sync_wait] returns the first result, and only that: with a sender that
    calls its receiver with [rs] when it is submitted, [sync_wait] returns [r]
    (for some fuel: after finitely many turns) exactly when [r] is the first of
    [rs] and of the results that turns of the executor give; later calls of the
    receiver, of which clients make several, are harmless; without any result it
    never returns. *)
Theorem sync_wait_returns_first sender rs m env env' :
  emits sender env rs env' ->
  (forall r, (exists fuel w', sync_wait O from_error fuel sender (mkWaiting m env) = Done (Some r, w')) <->
             exists n, head (rs ++ results O from_error n env') = Some r) /\
  forall fuel, sync_wait O from_error fuel sender (mkWaiting m env) <> Undef.
Proof.
  intros Hemits. unfold sync_wait.
  assert (forall fuel, (modify (fun w : W => mkWaiting None (wt_env w));; submit sender makeReceiver;;
     waited ← wait_completed O from_error fuel;
     match waited with Some _ => result ← get; mret (Some result) | None => mret None end) (mkWaiting m env) =
     (waited ← wait_completed O from_error fuel;
      match waited with Some _ => result ← get; mret (Some result) | None => mret None end) (mkWaiting (first_of None rs) env')) as Heq.
  { intros fuel. cbn. unfold mbind, M_bind, modify. cbn. by rewrite Hemits. }
  split.
  - intros r. split.
    + intros (fuel & w' & Hw). rewrite Heq in Hw. apply (wait_and_get O from_error fuel) in Hw as [n Hn]. exists n.
      cbn [maybe_result_ wt_env] in Hn. by rewrite first_of_app in Hn.
    + intros [n Hn]. exists (S n). destruct (wait_and_get O from_error (S n) (mkWaiting (first_of None rs) env')) as (_ & Hr & _).
      destruct (Hr n r) as [w' Hw']; [cbn [maybe_result_ wt_env]; by rewrite first_of_app|lia|]. exists w'. by rewrite Heq.
  - intros fuel. rewrite Heq. by apply wait_and_get.
Qed.

(** libcyphal's executor: a callback that is scheduled for a time is called in the
    first turn that starts after it; and the clock does not stand still. *)
Definition timer_fires : Prop := forall env d n,
  d <= out_now O (Nat.iter n (env_turn O) (out_schedule O d env)) -> TimeoutCall ∈ calls O (S n) (out_schedule O d env).

Definition time_passes : Prop := forall env d, exists n, d <= out_now O (Nat.iter n (env_turn O) env).

Lemma head_elem {A} (l : list A) x : x ∈ l -> exists r, head l = Some r /\ r ∈ l.
Proof. destruct l as [|r l]; [by intros ?%elem_of_nil|]. intros _. exists r. split; [done|]. apply list_elem_of_here. Qed.

(** C31: [sync_wait] with a timeout always returns, after finitely many turns,
    whatever the sender and the clients do: with the first result that its
    receiver is called with, or with [TimedOut] when the timed callback was first. *)
Theorem sync_wait_for_returns sender rs m env env' timeout :
  timer_fires -> time_passes -> emits sender env rs env' ->
  - 2 ^ 63 <= out_now O env' + timeout < 2 ^ 63 ->
  let env'' := out_schedule O (out_now O env' + timeout) env' in
  exists fuel r w', sync_wait_for O from_error fuel sender timeout (mkWaiting m env) = Done (Some r, w') /\
    (exists n, head (rs ++ results O from_error n env'') = Some r) /\
    (r ∈ rs \/ r = from_error (Err Code.TimedOut) \/ exists n, ReceiverCall r ∈ calls O n env'').
Proof.
  intros Hfires Htime Hemits Hd. cbv zeta. set (d := out_now O env' + timeout). set (env'' := out_schedule O d env').
  destruct (Htime env'' d) as [n Hn]. pose proof (Hfires env' d n Hn) as Hcall. fold env'' in Hcall.
  destruct (head_elem (rs ++ results O from_error (S n) env'') (from_error (Err Code.TimedOut))) as (r & Hr & Hin).
  { apply elem_of_app. right. apply list_elem_of_fmap. by exists TimeoutCall. }
  exists (S (S n)), r. destruct (wait_and_get O from_error (S (S n)) (mkWaiting (first_of None rs) env'')) as (_ & Hw & _).
  destruct (Hw (S n) r) as [w' Hw']; [cbn [maybe_result_ wt_env]; by rewrite first_of_app|lia|]. exists w'. split; [|split].
  - unfold sync_wait_for. unfold mbind at 1 2 3 4 5, M_bind, modify. rewrite Hemits. cbn. unfold ofOutcome, add_time. fold d.
    rewrite (proj2 (Z.leb_le _ _)), (proj2 (Z.ltb_lt _ _)) by lia. exact Hw'.
  - by exists (S n).
  - apply elem_of_app in Hin as [Hin|Hin]; [by left|right]. apply list_elem_of_fmap in Hin as ([r'|] & -> & Hin); [right|by left].
    by exists (S n).
Qed.
End Theorems.

(** Typed operations carry the message: what [publish] gives to [rawPublish] (and
    [call] to [rawCall]) are bytes from which [receive] (and the rest of [call])
    gets the message back, whatever bytes follow, with its priority and its
    node; bytes that are not a message give [InvalidArgument], and failures
    stay what they are; a message that cannot be serialised is never sent. *)
Theorem typed_operations_roundtrip {S Message} `{Codec Message} {valid : Message -> Prop} `{!CodecOk Message valid}
    (rawPublish : bytes -> Z -> SenderOf S OptError) msg timeout (receiver : OptError -> M S unit) :
  (valid msg -> exists bs,
    submit (publish rawPublish true msg timeout) receiver = submit (rawPublish bs timeout) receiver /\
    (forall rest p n, receive_transform (inl (SubClient.mkReceive (bs ++ rest) p n)) = inl (mkReceived msg p n)) /\
    (forall rest p n, call_transform (inl (RpcClient.mkCall (bs ++ rest) p n)) = inl (mkCalled msg p n))) /\
  (serialize msg SerializationBufferSizeBytes = None ->
    submit (publish rawPublish true msg timeout) receiver = receiver (Some (Err Code.InvalidArgument))) /\
  submit (publish rawPublish false msg timeout) receiver = receiver (Some (Err Code.OutOfMemory)) /\
  (forall bs p n, deserialize (T := Message) bs = None ->
    receive_transform (Message := Message) (inl (SubClient.mkReceive bs p n)) = inr (Err Code.InvalidArgument)) /\
  (forall e, receive_transform (Message := Message) (inr e) = inr e /\ call_transform (Response := Message) (inr e) = inr e).
Proof.
  split; [|split; [|split; [|split]]].
  - intros Hv. destruct (serialize_total msg Hv) as (bs & Hbs & _). exists bs. split; [|split].
    + unfold submit, publish, performOnSerialized. by rewrite Hbs.
    + intros rest p n. cbn. by rewrite (deserialize_serialize msg bs rest Hv Hbs).
    + intros rest p n. cbn. by rewrite (deserialize_serialize msg bs rest Hv Hbs).
  - intros Hnone. unfold submit, publish, performOnSerialized, just. by rewrite Hnone.
  - done.
  - intros bs p n Hnone. cbn. by rewrite Hnone.
  - done.
Qed.

(** ** Examples *)
Module ExecutionExample.

(** A clock and the time for which the timed callback is scheduled; a receiver is
    called, with the number of the turn, from the third turn on. *)
Record Clock := mkClock { cl_time : Z; cl_timer : option Z; cl_turn : Z }.

Definition tick : Executing (Z + Error) Clock := {|
  out_spin c :=
    let due := match cl_timer c with Some d => d <=? cl_time c | None => false end in
    ((if due then [TimeoutCall] else []) ++ (if 3 <=? cl_turn c then [ReceiverCall (inl (cl_turn c))] else []), cl_timer c,
     mkClock (cl_time c) (if due then None else cl_timer c) (cl_turn c + 1));
  out_now := cl_time;
  out_poll timeout c := (None, mkClock (cl_time c + 100) (cl_timer c) (cl_turn c));
  out_schedule d c := mkClock (cl_time c) (Some d) (cl_turn c);
|}.

Lemma turn_time n c : cl_time (Nat.iter n (env_turn tick) c) = cl_time c + 100 * Z.of_nat n.
Proof. induction n as [|n IH]; [cbn; lia|]. cbn [Nat.iter nat_rect]. unfold env_turn at 1. cbn. unfold Nat.iter in IH. lia. Qed.

Lemma tick_passes : time_passes tick.
Proof. intros c d. exists (Z.to_nat (Z.max 0 (d - cl_time c))). cbn [out_now tick]. rewrite turn_time. lia. Qed.

Lemma tick_calls d n c : cl_timer c = Some d -> d <= cl_time c + 100 * Z.of_nat n -> TimeoutCall ∈ calls tick (S n) c.
Proof.
  revert c. induction n as [|n IH]; intros c Hc Hd; rewrite calls_S; apply elem_of_app; cbn [tick out_spin fst]; rewrite Hc;
    destruct (Z.leb_spec d (cl_time c)); try lia; try (left; set_solver).
  right. apply (IH (env_turn tick c)); unfold env_turn; cbn; [|lia]. by rewrite Hc, (proj2 (Z.leb_gt _ _)) by lia.
Qed.

Lemma tick_fires : timer_fires tick.
Proof. intros c d n Hn. cbn [out_now tick] in Hn. rewrite turn_time in Hn. by apply (tick_calls d). Qed.

Definition start : Clock := mkClock 0 None 0.

(** A client that keeps the receiver for later. *)
Definition later : SenderOf (Waiting (Z + Error) Clock) (Z + Error) := fun receiver => mret tt.

Lemma later_emits env : emits later env [] env.
Proof. intros m. by destruct m. Qed.
End ExecutionExample.

Lemma sync_wait_returns_first_witness :
  (forall r, (exists fuel w', sync_wait ExecutionExample.tick inr fuel ExecutionExample.later (mkWaiting None ExecutionExample.start) = Done (Some r, w')) <->
             exists n, head ([] ++ results ExecutionExample.tick inr n ExecutionExample.start) = Some r) /\
  forall fuel, sync_wait ExecutionExample.tick inr fuel ExecutionExample.later (mkWaiting None ExecutionExample.start) <> Undef.
Proof.
  exact (sync_wait_returns_first ExecutionExample.tick inr ExecutionExample.later [] None ExecutionExample.start
           ExecutionExample.start (ExecutionExample.later_emits ExecutionExample.start)).
Defined.

Lemma sync_wait_for_returns_witness :
  let env'' := out_schedule ExecutionExample.tick (out_now ExecutionExample.tick ExecutionExample.start + 250) ExecutionExample.start in
  exists fuel r w', sync_wait_for ExecutionExample.tick inr fuel ExecutionExample.later 250 (mkWaiting None ExecutionExample.start) = Done (Some r, w') /\
    (exists n, head ([] ++ results ExecutionExample.tick inr n env'') = Some r) /\
    (r ∈ [] \/ r = inr (Err Code.TimedOut) \/ exists n, ReceiverCall r ∈ calls ExecutionExample.tick n env'').
Proof.
  apply (sync_wait_for_returns ExecutionExample.tick inr ExecutionExample.later [] None ExecutionExample.start
           ExecutionExample.start 250 ExecutionExample.tick_fires ExecutionExample.tick_passes
           (ExecutionExample.later_emits ExecutionExample.start)). cbn. lia.
Defined.

Import WireExample.

(** With the codec of [WireExample], for a message of a channel. *)
Lemma typed_operations_roundtrip_witness :
  let connect := Route_channel_msg 1 0 77 5 in
  let sent : bytes -> Z -> SenderOf (list bytes) OptError := fun bs _ rc => modify (fun out => out ++ [bs]);; rc None in
  exists bs, submit (publish sent true connect 7) (fun _ => mret tt) = submit (sent bs 7) (fun _ => mret tt) /\
    receive_transform (inl (SubClient.mkReceive (bs ++ str "more") 3 None)) = inl (mkReceived connect 3 None).
Proof.
  intros connect sent.
  destruct (proj1 (typed_operations_roundtrip sent connect 7 (fun _ => mret tt))) as (bs & H1 & H2 & _); [by repeat split|].
  exists bs. split; [exact H1|apply H2].
Defined.

(** With 250 microseconds there is a timeout in the fourth turn, before the
    client's first result in the same turn; with more time that result is first. *)
Example sync_wait_times_out :
  (sync_wait_for ExecutionExample.tick inr 9 ExecutionExample.later 250 (mkWaiting None ExecutionExample.start) ≫= fun r => Done r.1)
  = Done (Some (inr (Err Code.TimedOut))).
Proof. vm_compute. reflexivity. Qed.

Example sync_wait_succeeds :
  (sync_wait_for ExecutionExample.tick inr 9 ExecutionExample.later 1000 (mkWaiting None ExecutionExample.start) ≫= fun r => Done r.1)
  = Done (Some (inl 3)).
Proof. vm_compute. reflexivity. Qed.
