(* ===== verification/NodeSenders.v ===== *)
(** * The operations of the SDK on nodes

    Models [include/ocvsmd/sdk/node_registry_client.hpp] and
    [node_command_client.hpp] with their implementations in [src/sdk/], and the senders in
    [src/sdk/svc/client_helpers.hpp]: an operation makes a client of [NodeClients] and a
    sender around it; the operations for one node use [then_] of [Execution] to
    take its part of the result.

    A sender is submitted in the world of its client, where the channel then brings
    [inputs] and is completed with [opt_error]. *)
From S2P Require Import Prelude Errors NodeService ListRegisters ExecCmd AccessRegisters NodeClients Execution.

Local Open Scope Z_scope.

Section Senders.
Context {Req Res R Env Fin : Type} (channel : Outgoing Req -> Env -> OptError * Env).
Context (add : Res -> gmap NodeId R -> gmap NodeId R) (inputs : list Res) (opt_error : OptError).
Abbreviation W := (Client Req R Env Fin).
Abbreviation Result := (Error + gmap NodeId R)%type.

(** [std::make_shared] of a client with these requests. *)
Definition make_client (requests : list Req) : M W unit := modify (fun w =>
  mkClient requests ∅ (received w) (cl_out w) (cl_env w)).

(** [submit] of a client. *)
Definition svc_client_submit : SenderOf W Result := fun receiver =>
  session channel (fun result => receiver result) add inputs opt_error.

(** [AsSender::submitImpl] *)
Definition as_sender : SenderOf W Result := fun receiver => svc_client_submit (fun result => receiver result).
End Senders.

(** [NodeRegistryClient::Failure], [Success] of one node; the lambda that
    the operations for one node give to [then]. *)
Definition single_result {A} (node_id : NodeId) (result : Error + gmap NodeId (NodeResult A)) : NodeResult A :=
  match result with
  | inl failure => inl failure
  | inr list =>
      match list !! node_id with
      | Some node_result => node_result
      | None => inl (Err Code.NoEntry)
      end
  end.

(** ** [NodeCommandClient] *)
Module CommandClient.
Section Command.
Context {Env Fin : Type} (channel : Outgoing ExecCmd.Request -> Env -> OptError * Env).
Context (inputs : list ExecCmd.Response) (opt_error : OptError).
Abbreviation Responses := (gmap NodeId (NodeResult ExecCmd.ResponsePayload)).
Abbreviation W := (Client ExecCmd.Request (NodeResult ExecCmd.ResponsePayload) Env Fin).

(** [CommandSender::transform]: the pairs go to a new map, in the order of the old one. *)
Definition transform (result : Error + Responses) : Error + Responses :=
  match result with
  | inr svc_success => inr (foldl (fun cmd_success pair => emplace pair.1 pair.2 cmd_success) ∅ (map_to_list svc_success))
  | inl failure => inl failure
  end.

(** [CommandSender::submitImpl] *)
Definition command_sender : SenderOf W (Error + Responses) := fun receiver =>
  svc_client_submit channel ExecClient.execInput inputs opt_error (fun result => receiver (transform result)).

Definition sendCommand (node_ids : list NodeId) (node_request : ExecCmd.RequestPayload) (timeout : Z)
    : M W (SenderOf W (Error + Responses)) :=
  make_client (ExecClient.buildExecRequests node_ids node_request timeout);;
  mret command_sender.

(** [COMMAND_RESTART], [COMMAND_BEGIN_SOFTWARE_UPDATE] of [uavcan.node.ExecuteCommand.1.3] *)
Definition restart (node_ids : list NodeId) (timeout : Z) : M W (SenderOf W (Error + Responses)) :=
  sendCommand node_ids (ExecCmd.mkReqPayload 65535 []) timeout.

Definition beginSoftwareUpdate (node_ids : list NodeId) (file_path : bytes) (timeout : Z) : M W (SenderOf W (Error + Responses)) :=
  sendCommand node_ids (ExecCmd.mkReqPayload 65533 file_path) timeout.
End Command.
End CommandClient.

(** ** [NodeRegistryClient] *)
Module RegistryClient.
Section List.
Context {Env Fin : Type} (channel : Outgoing ListRegs.Request -> Env -> OptError * Env).
Context (inputs : list ListRegs.Response) (opt_error : OptError).
Abbreviation ListW := (Client ListRegs.Request (NodeResult (list bytes)) Env Fin).

Definition list_registers (node_ids : list NodeId) (timeout : Z) : M ListW (SenderOf ListW (Error + gmap NodeId (NodeResult (list bytes)))) :=
  make_client (ListClient.buildRequests node_ids timeout);;
  mret (as_sender channel ListClient.listInput inputs opt_error).

(** The [list] for one node. *)
Definition list_node (node_id : NodeId) (timeout : Z) : M ListW (SenderOf ListW (NodeResult (list bytes))) :=
  sender ← list_registers [node_id] timeout;
  mret (then_ sender (single_result node_id)).
End List.

Section Access.
Context {Val Env Fin : Type} (empty_value : Val) (channel : Outgoing (AccessRegs.Request Val) -> Env -> OptError * Env).
Context (inputs : list (AccessRegs.Response Val)) (opt_error : OptError).
(** The capacity of the generated [uavcan.register.Name.1.0]. *)
Context (ArrayCapacity_name : Z).
Abbreviation Values := (list (bytes * (Val + Error))).
Abbreviation AccessW := (Client (AccessRegs.Request Val) (NodeResult Values) Env Fin).
Abbreviation AccessResult := (Error + gmap NodeId (NodeResult Values))%type.

Definition read (node_ids : list NodeId) (registers : list bytes) (timeout : Z) : M AccessW (SenderOf AccessW AccessResult) :=
  if existsb (fun reg_key => ArrayCapacity_name <? Z.of_nat (length reg_key)) registers
  then mret (just (inl (Err Code.InvalidArgument)))
  else
    make_client (AccessClient.make_read empty_value node_ids registers timeout);;
    mret (as_sender channel AccessClient.accessInput inputs opt_error).

Definition write (node_ids : list NodeId) (registers : list (AccessRegs.RegKeyValue Val)) (timeout : Z) : M AccessW (SenderOf AccessW AccessResult) :=
  if existsb (fun reg => ArrayCapacity_name <? Z.of_nat (length (AccessRegs.key reg))) registers
  then mret (just (inl (Err Code.InvalidArgument)))
  else
    make_client (AccessClient.make_write node_ids registers timeout);;
    mret (as_sender channel AccessClient.accessInput inputs opt_error).

(** The [read] and the [write] for one node. *)
Definition read_node (node_id : NodeId) (registers : list bytes) (timeout : Z) : M AccessW (SenderOf AccessW (NodeResult Values)) :=
  sender ← read [node_id] registers timeout;
  mret (then_ sender (single_result node_id)).

Definition write_node (node_id : NodeId) (registers : list (AccessRegs.RegKeyValue Val)) (timeout : Z) : M AccessW (SenderOf AccessW (NodeResult Values)) :=
  sender ← write [node_id] registers timeout;
  mret (then_ sender (single_result node_id)).
End Access.
End RegistryClient.

(** ** Theory *)

(** The new map of [CommandSender] has what the old one had. *)
Lemma transform_id result : CommandClient.transform result = result.
Proof.
  destruct result as [e|m]; [done|]. unfold CommandClient.transform. f_equal.
  assert (forall l (acc : gmap NodeId (NodeResult ExecCmd.ResponsePayload)),
    NoDup l.*1 -> (forall k, k ∈ l.*1 -> acc !! k = None) ->
    foldl (fun cmd_success pair => emplace pair.1 pair.2 cmd_success) acc l = list_to_map l ∪ acc) as H.
  { induction l as [|[k v] l IH]; intros acc Hnd Hacc; cbn in *; [by rewrite (left_id_L ∅ (∪))|].
    apply NoDup_cons in Hnd as [Hk Hnd]. unfold emplace at 2. rewrite Hacc by apply list_elem_of_here. rewrite IH; [|done|].
    - rewrite <- insert_union_r by (by apply not_elem_of_list_to_map). by rewrite insert_union_l.
    - intros k' Hk'. rewrite lookup_insert_ne by (intros ->; done). apply Hacc. by apply list_elem_of_further. }
  rewrite H; [|apply NoDup_fst_map_to_list|intros; apply lookup_empty].
  by rewrite list_to_map_to_list, (right_id_L ∅ (∪)).
Qed.

Section Submit.
Context {Req Res R Env Fin : Type} (channel : Outgoing Req -> Env -> OptError * Env).
Context (add : Res -> gmap NodeId R -> gmap NodeId R) (inputs : list Res) (opt_error : OptError).
Abbreviation W := (Client Req R Env Fin).

(** What a client has when its channel is completed. *)
Definition collected : Error + gmap NodeId R :=
  match opt_error with Some e => inl e | None => inr (foldl (fun m i => add i m) ∅ inputs) end.

(** What the channel took, and what the user got. *)
Definition served (requests : list Req) (result : Fin) (w : W) : Prop :=
  cl_out w = (OutRequest <$> requests) ++ [OutComplete true] /\ received w = [result].

Context (Hall : takes_all channel).

Lemma wp_as_sender receiver (f : Error + gmap NodeId R -> Fin) requests env :
  hands receiver f ->
  wp (sender ← (make_client requests;; mret (as_sender channel add inputs opt_error)); submit sender receiver)
     (fun _ w => served requests (f collected) w) (new_client [] env).
Proof.
  intros Hf. apply wp_bind, wp_bind, wp_modify, wp_ret. unfold served, collected.
  by apply (wp_session channel add Hall receiver f requests inputs opt_error env).
Qed.

(** The same through [then_]. *)
Lemma wp_then_sender {Mid} (g : Error + gmap NodeId R -> Mid) (f : Mid -> Fin) requests env :
  wp (sender ← (sender ← (make_client requests;; mret (as_sender channel add inputs opt_error)); mret (then_ sender g));
      submit sender (fun result => user_receiver (f result)))
     (fun _ w => served requests (f (g collected)) w) (new_client [] env).
Proof.
  pose proof (wp_as_sender (fun result => user_receiver (f (g result))) (fun result => f (g result)) requests env) as H.
  apply H. by intros result.
Qed.
End Submit.

(** A command: the sender gives what its client has. *)
Lemma wp_send_command {Env : Type} (channel : Outgoing ExecCmd.Request -> Env -> OptError * Env) inputs opt_error
    node_ids node_request timeout env :
  takes_all channel ->
  wp (sender ← CommandClient.sendCommand channel inputs opt_error node_ids node_request timeout; submit sender user_receiver)
     (fun _ w => served (ExecClient.buildExecRequests node_ids node_request timeout)
                        (collected ExecClient.execInput inputs opt_error) w) (new_client [] env).
Proof.
  intros Hall. apply wp_bind, wp_bind, wp_modify, wp_ret. unfold served, collected.
  apply (wp_session channel ExecClient.execInput Hall (fun result => user_receiver (CommandClient.transform result)) (fun r => r)).
  intros result. by rewrite transform_id.
Qed.

(** A key that does not fit a request is refused at once: no request is made. *)
Theorem long_key_refused {Val Env : Type} (empty_value : Val) (channel : Outgoing (AccessRegs.Request Val) -> Env -> OptError * Env)
    inputs opt_error capacity node_ids (registers : list bytes) timeout env :
  Exists (fun key => capacity < Z.of_nat (length key)) registers ->
  wp (sender ← RegistryClient.read empty_value channel inputs opt_error capacity node_ids registers timeout; submit sender user_receiver)
     (fun _ w => w = mkClient [] ∅ [inl (Err Code.InvalidArgument)] [] env) (new_client [] env).
Proof.
  intros Hex. unfold RegistryClient.read. rewrite (proj2 (existsb_exists _ registers)).
  - apply wp_bind, wp_ret. unfold submit, just. by apply wp_modify.
  - apply Exists_exists in Hex as (key & Hin & Hk). exists key. split; [by apply list_elem_of_In|]. by apply Z.ltb_lt.
Qed.

Lemma long_key_refused_witness :
  wp (sender ← RegistryClient.read false (fun _ e => (None, e)) [] None 2 [42] [str "abc"] 1000000; submit sender user_receiver)
     (fun _ w => w = mkClient [] ∅ [inl (Err Code.InvalidArgument)] [] tt) (new_client [] tt).
Proof. apply long_key_refused. left. vm_compute. reflexivity. Defined.
