(* ===== verification/NodeEndToEnd.v ===== *)
(** * A command from the SDK to the nodes and back

    The client of [NodeClients] and the service of [ExecCmd] together: the requests
    that the client builds are what the service receives on its channel, and
    the responses that the service sends are what the client collects. *)
From S2P Require Import Prelude Errors NodeService NodeServiceFacts ListRegisters ExecCmd AccessRegisters NodeClients Execution NodeSenders.

Local Open Scope Z_scope.

(** ** What a client sends, at the service *)
Section Delivery.
Context {P X Req Resp Env Request : Type}.
Abbreviation Machine := (Fsm P X Req).
Abbreviation W := (Service P X Req Resp Env).
Context (data : X) (handleInput : Request -> FsmId -> M W unit) (handleCompletedEvent : FsmId -> bool -> M W unit).

(** A new channel with its first request, its other requests, and the end of the
    requests. *)
Definition deliver (id : FsmId) (requests : list Request) : M W unit :=
  match requests with
  | [] => mret tt
  | request :: requests' =>
      newNodeChannel data (handleInput request);;
      mfor requests' (fun request => handleInput request id);;
      handleCompletedEvent id true
  end.

Context (machine_ok : Machine -> Prop) (request_ok : Machine -> Request -> Prop).
(** What a machine has collected, and what one request adds. *)
Context {V : Type} (view : Machine -> V) (collect : Request -> V -> V).

(** A machine that collects. *)
Definition collecting id (v : V) (sent : list (FsmId * Resp)) (completed : list (FsmId * OptError)) (w : W) : Prop :=
  Service_ok machine_ok w /\ sv_sent w = sent /\ sv_completed w = completed /\
  exists m, id_to_fsm_ w !! id = Some m /\ processing_ m = false /\ view m = v.

Definition collects : Prop := forall id m request w,
  Service_ok machine_ok w -> id_to_fsm_ w !! id = Some m -> request_ok m request -> processing_ m = false ->
  wp (handleInput request id) (fun _ => collecting id (collect request (view m)) (sv_sent w) (sv_completed w)) w.

Context (Hcollects : collects) (Hnew : machine_ok (new_machine data)).

(** The requests fit machines that have collected what came before them. *)
Fixpoint requests_ok (v : V) (requests : list Request) : Prop :=
  match requests with
  | [] => True
  | request :: requests' => (forall m, view m = v -> request_ok m request) /\ requests_ok (collect request v) requests'
  end.

Lemma requests_ok_app v requests requests' :
  requests_ok v requests -> requests_ok (foldl (fun v r => collect r v) v requests) requests' ->
  requests_ok v (requests ++ requests').
Proof.
  revert v. induction requests as [|r rs IH]; intros v; [done|]. intros [Hr Hrs] H'. split; [done|]. by apply IH.
Qed.

Lemma wp_collect_all id v sent completed requests (w : W) :
  collecting id v sent completed w -> requests_ok v requests ->
  wp (mfor requests (fun request => handleInput request id))
     (fun _ => collecting id (foldl (fun v r => collect r v) v requests) sent completed) w.
Proof.
  revert v w. induction requests as [|r rs IH]; intros v w Hw Hr; cbn [mfor foldl]; [by apply wp_ret|].
  destruct Hr as [Hr Hrs]. destruct Hw as (Hok & Hs & Hc & m & Hm & Hp & Hv).
  apply wp_bind. eapply wp_mono; [by apply Hcollects; eauto|]. rewrite Hs, Hc, Hv. intros [] w1 Hw1. by apply IH.
Qed.

(** Before the end of the requests the machine of the channel has collected them all. *)
Lemma wp_deliver requests (Q : unit -> W -> Prop) (w : W) :
  let id := next_fsm_id_ w in
  Service_ok machine_ok w -> next_fsm_id_ w < 2 ^ 64 - 1 -> requests <> [] -> requests_ok (view (new_machine data)) requests ->
  (forall w', collecting id (foldl (fun v r => collect r v) (view (new_machine data)) requests) (sv_sent w) (sv_completed w) w' ->
     wp (handleCompletedEvent id true) Q w') ->
  wp (deliver id requests) Q w.
Proof.
  intros id Hok Hn Hne Hreq HQ. destruct requests as [|r rs]; [done|]. destruct Hreq as [Hr Hrs]. cbn [deliver].
  pose proof (with_new_ok machine_ok (new_machine data) w Hok Hnew Hn) as Hok1.
  apply wp_bind. unfold newNodeChannel. apply wp_newChannel. eapply wp_mono.
  { apply (Hcollects _ (new_machine data)); [exact Hok1|cbn; apply lookup_insert_eq|by apply Hr|done]. }
  intros [] w1 Hw1. apply wp_bind. eapply wp_mono; [by eapply wp_collect_all|]. intros [] w2 Hw2. by apply HQ.
Qed.
End Delivery.

(** ** Nodes that are asked for one index after the other *)
Section Asking.
Context {X Req Resp Env : Type} (limit : NodeId -> nat).
Abbreviation W := (Service Z X Req Resp Env).
Implicit Types (w : W) (id : FsmId) (n : NodeId).

(** How many answers the nodes of a machine can give, with these limits. *)
Definition to_ask (cs : gmap NodeId (NodeContext Z Req)) : nat :=
  map_fold (fun n c acc => limit n - Z.to_nat (cn_data c) + acc)%nat 0%nat cs.

Definition answers_left id w : nat :=
  match id_to_fsm_ w !! id with Some m => to_ask (node_id_to_cnxt_ m) | None => 0%nat end.

Lemma to_ask_delete cs n c : cs !! n = Some c -> to_ask cs = (limit n - Z.to_nat (cn_data c) + to_ask (delete n cs))%nat.
Proof. intros Hc. unfold to_ask. rewrite (map_fold_delete_L _ _ n c cs); [done|intros; lia|exact Hc]. Qed.

(** A node that moves on, or is released, leaves fewer. *)
Lemma answers_left_decrease id n w w' m c :
  id_to_fsm_ w !! id = Some m -> node_id_to_cnxt_ m !! n = Some c -> 0 <= cn_data c -> (Z.to_nat (cn_data c) < limit n)%nat ->
  match left_of id n w' with Some c' => cn_data c < cn_data c' | None => True end ->
  (forall n', n' <> n -> left_of id n' w' = left_of id n' w) -> (answers_left id w' < answers_left id w)%nat.
Proof.
  intros Hm Hc H0 Hk Hl Hl'. unfold answers_left. rewrite Hm, (to_ask_delete _ n c Hc).
  destruct (id_to_fsm_ w' !! id) as [m'|] eqn:Hm'; [|lia].
  assert (delete n (node_id_to_cnxt_ m') = delete n (node_id_to_cnxt_ m)) as He.
  { apply map_eq. intros n'. destruct (decide (n' = n)) as [->|Hne]; [by rewrite !lookup_delete_eq|].
    rewrite !lookup_delete_ne by done. specialize (Hl' n' Hne). unfold left_of in Hl'. by rewrite Hm, Hm' in Hl'. }
  unfold left_of in Hl. rewrite Hm' in Hl. cbn in Hl. destruct (node_id_to_cnxt_ m' !! n) as [c'|] eqn:Hc'.
  - rewrite (to_ask_delete _ n c' Hc'), He. lia.
  - rewrite <- He, delete_id by done. lia.
Qed.
End Asking.

(** Requests for chunks of nodes. *)
Lemma foldl_chunks {P Request} (tp : Z * P) (make : list NodeId -> Request) (add : Request -> gmap NodeId (Z * P) -> gmap NodeId (Z * P)) node_ids pl :
  (forall ids pl, add (make ids) pl = pl ∪ gset_to_gmap tp (list_to_set ids)) ->
  foldl (fun pl r => add r pl) pl (make <$> node_chunks node_ids) = pl ∪ gset_to_gmap tp (list_to_set node_ids).
Proof.
  intros Hadd. rewrite <- (node_chunks_concat node_ids) at 2. revert pl.
  induction (node_chunks node_ids) as [|ids chunks IH]; intros pl; cbn [fmap list_fmap foldl concat].
  - by rewrite list_to_set_nil, gset_to_gmap_empty, (right_id_L ∅ (∪)).
  - rewrite IH, Hadd, list_to_set_app_L, <- (assoc_L (∪)). f_equal. apply map_eq. intros n.
    apply option_eq. intros x. rewrite lookup_union_Some_raw, !lookup_gset_to_gmap_Some, lookup_gset_to_gmap_None, elem_of_union.
    destruct (decide (n ∈ (list_to_set ids : gset NodeId))); naive_solver.
Qed.

Lemma chunks_ne {Request} (make : list NodeId -> Request) node_ids : node_ids <> [] -> make <$> node_chunks node_ids <> [].
Proof. intros Hn Hnil. apply fmap_nil_inv in Hnil. apply Hn. by rewrite <- (node_chunks_concat node_ids), Hnil. Qed.

(** A command. *)
Section ExecEndToEnd.
Import ExecCmd.
Context {Env : Type} (O : Oracles RequestPayload RequestPayload Response Env).
Abbreviation W := (Service RequestPayload unit RequestPayload Response Env).
Implicit Types (w : W) (id : FsmId) (n : NodeId).

Definition submit (id : FsmId) (requests : list Request) : M W unit :=
  deliver tt handleInput (handleCompletedEvent O) id requests.

(** A promise of the channel, and the result that came for it. *)
Abbreviation Answer := (CyPromise RequestPayload * PromiseResult)%type.

(** Pending promises of the channel get their results, one after the other. *)
Inductive answers (id : FsmId) : W -> list Answer -> W -> Prop :=
| answers_refl w : answers id w [] w
| answers_step w n p result m c log w1 w2 :
    id_to_fsm_ w !! id = Some m -> node_id_to_cnxt_ m !! n = Some c -> promise c = Some p ->
    handleNodeResponse O id n result w = Done (tt, w1) -> answers id w1 log w2 -> answers id w ((p, result) :: log) w2.

Context (Hclock : ec_clock_ok O) (Horder : ec_order_ok O).
Abbreviation Ec_ok := (NodeService_ok (fun _ => True) ec_fresh (ec_good O)).

Abbreviation plan_of := (fun m : Fsm RequestPayload unit RequestPayload => plan (node_id_to_cnxt_ m)).
Definition add_nodes (request : Request) (pl : gmap NodeId (Z * RequestPayload)) : gmap NodeId (Z * RequestPayload) :=
  pl ∪ gset_to_gmap (timeout_us request, req_payload request) (list_to_set (node_ids request)).
Abbreviation exec_collecting := (collecting (machine_ok (fun _ => True) ec_fresh (ec_good O)) plan_of).

Lemma exec_collects :
  collects (handleInput (Env := Env)) (machine_ok (fun _ => True) ec_fresh (ec_good O)) (fun _ => ec_request_ok) plan_of add_nodes.
Proof.
  intros id m request w Hok Hm Hr Hp. unfold wp. pose proof (ec_input_ok O id m request w Hok Hm Hr) as Hw.
  unfold wp in Hw. destruct (handleInput request id w) as [[[] w']|] eqn:E; [|done]. split; [done|].
  unfold handleInput, get_fsm, gets, mbind, M_bind in E. rewrite Hm in E. cbn in E. rewrite Hp in E.
  rewrite (update_cnxts_run id m) in E by done. injection E as <-. cbn.
  split; [done|]. split; [done|]. eexists. split; [apply lookup_insert_eq|]. split; [done|].
  etransitivity; [apply emplace_nodes_plan|]. cbn [timeout cn_data]. unfold ec_request_ok in Hr. by rewrite i64_id by lia.
Qed.

Lemma keys_elements {P Req} (cs : gmap NodeId (NodeContext P Req)) : keys cs ≡ₚ elements (dom cs).
Proof.
  apply NoDup_Permutation; [apply NoDup_fst_map_to_list|apply NoDup_elements|]. intros n.
  rewrite elem_of_elements, elem_of_dom. unfold keys. rewrite list_elem_of_fmap. split.
  - intros ([n' c] & -> & Hc%elem_of_map_to_list). eauto.
  - intros [c Hc]. exists (n, c). split; [done|]. by apply elem_of_map_to_list.
Qed.

(** The responses for a node that could not be asked, and for one that answered. *)
Definition refusal (x : NodeId * CyError) : Response := error_payload x.1 (cyFailureToOptError x.2).
Definition forwarded (a : Answer) : Response := result_response (pr_node_id a.1) a.2.

(** Each node could not be asked, or has answered what it was asked for, or waits. *)
Definition in_progress id (nodes : gset NodeId) timeout (node_request : RequestPayload)
    (sent : list (FsmId * Response)) (completed : list (FsmId * OptError)) (failed : list (NodeId * CyError)) (log : list Answer) w : Prop :=
  Ec_ok w /\ sv_sent w = sent ++ (pair id <$> (refusal <$> failed) ++ (forwarded <$> log)) /\
  failed.*1 ++ (pr_node_id ∘ fst <$> log) ++ remaining id w ≡ₚ elements nodes /\
  Forall (fun x => cy_refuses O x.1 x.2) failed /\
  Forall (fun a => asked O (pr_node_id a.1) timeout node_request a.1) log /\
  match id_to_fsm_ w !! id with
  | Some m => processing_ m = true /\ sv_completed w = completed /\
      forall n c, node_id_to_cnxt_ m !! n = Some c -> exists p, promise c = Some p /\ asked O n timeout node_request p
  | None => sv_completed w = completed ++ [(id, None)]
  end.

(** What was done for the nodes: those that could not be asked. *)
Lemma exec_begun out timeout node_request (cs : gmap NodeId Cnxt) :
  Forall (fun x => exists c, cs !! x.1.1 = Some c /\ make_rel O error_payload (ec_sends O) tt x.1.1 c x.1.2 x.2) out ->
  (forall n c, cs !! n = Some c -> (NodeService.timeout c, cn_data c) = (timeout, node_request)) ->
  exists failed, concat (snd <$> (fst <$> out)) = refusal <$> failed /\ Forall (fun x => cy_refuses O x.1 x.2) failed /\
    forall x c', x ∈ out -> x.2 = Some c' -> exists p, promise c' = Some p /\ asked O x.1.1 timeout node_request p.
Proof.
  intros Hall Hcs. induction Hall as [|[[n rs] o] out (c & Hc & Hr) _ (failed & Hs & Hf & Ho)].
  { exists []. split; [done|]. split; [done|]. by intros x c' Hx%not_elem_of_nil. }
  cbn in Hc, Hr. cbn [fmap list_fmap fst snd concat].
  assert (forall P : Prop, ((exists cy, cy_refuses O n cy /\ rs = [error_payload n (cyFailureToOptError cy)] /\ o = None) -> P) ->
          (rs = [] /\ (exists p c', o = Some c' /\ promise c' = Some p /\ asked O n timeout node_request p) -> P) -> P) as Hcase.
  { intros P H1 H2. destruct Hr as [H|[H|(-> & p & -> & _ & Hp)]]; [by apply H1|by apply H1|]. apply H2. split; [done|].
    exists p. eexists. split; [done|]. split; [done|]. pose proof (Hcs n c Hc) as E. injection E as <- <-. exact Hp. }
  apply Hcase; clear Hcase Hr.
  - intros (cy & Hcy & -> & ->). exists ((n, cy) :: failed). rewrite Hs. split; [done|]. split; [by apply Forall_cons|].
    intros x c' [->|Hx]%elem_of_cons; [done|by apply Ho].
  - intros (-> & p & c0 & -> & Hp & Ha). exists failed. split; [exact Hs|]. split; [done|].
    intros x c' [->|Hx]%elem_of_cons; [|by apply Ho]. intros [= <-]. by exists p.
Qed.

Lemma refusal_nodes failed : res_node_id <$> (refusal <$> failed) = failed.*1.
Proof. induction failed as [|x l IH]; [done|]. cbn [fmap list_fmap]. by rewrite IH. Qed.

Lemma wp_begin id nodes timeout node_request sent completed w :
  exec_collecting id (gset_to_gmap (timeout, node_request) nodes) sent completed w -> nodes <> ∅ ->
  wp (handleCompletedEvent O id true)
     (fun _ w' => exists failed, in_progress id nodes timeout node_request sent completed failed [] w') w.
Proof.
  intros (Hok & Hs & Hc & m & Hm & Hp & Hd) Hn. cbn beta in Hd. eapply wp_mono.
  { apply (ec_start_ok O Hclock id m w Horder Hok Hm Hp). intros He. apply Hn. by rewrite <- (plan_dom _ _ _ Hd), He, dom_empty_L. }
  intros [] w' (Hok' & Hpr).
  destruct (processed_remaining O error_payload res_node_id (ec_sends O) id m w w') as (new & Hs' & Hperm & _ & _);
    [apply ec_sends_once|exact Hpr|].
  destruct Hpr as (w0 & out & _ & Hc0 & Hs0 & Hf & Hpm & Hall).
  destruct (exec_begun out timeout node_request (node_id_to_cnxt_ m)) as (failed & Hcat & Href & Hask); [by destruct (fsm_data m)| |].
  { intros n c Hcn. by eapply plan_lookup. }
  assert (new = refusal <$> failed) as ->.
  { rewrite (fin_sent _ _ _ _ _ Hf), Hs0, Hcat in Hs'. apply app_inv_head in Hs'. by apply (inj (fmap (pair id))) in Hs'. }
  exists failed. split; [done|]. split; [by rewrite Hs', Hs, app_nil_r|].
  split; [by rewrite <- (plan_dom _ _ _ Hd), <- keys_elements, <- Hperm, refusal_nodes|].
  split; [done|]. split; [done|]. destruct Hf as [_ _ _ Hfm]. case_decide; destruct Hfm as [-> Hcm'].
  - by rewrite Hcm', Hc0, Hc.
  - split; [done|]. split; [by rewrite Hcm', Hc0|]. intros n c. cbn [begun set_cnxts node_id_to_cnxt_].
    rewrite apply_done_lookup by (rewrite Hpm; apply NoDup_fst_map_to_list). destruct (list_find _ out) as [[i x]|] eqn:E.
    + apply list_find_Some in E as (Hi & <- & _). apply list_elem_of_lookup_2 in Hi. by apply Hask.
    + intros Hcn. destruct (done_found out _ n c Hpm Hcn) as (i & x & Hx & _). congruence.
Qed.

(** One more result. *)
Lemma in_progress_answer id nodes timeout node_request sent completed failed log w n p result m c w1 :
  in_progress id nodes timeout node_request sent completed failed log w ->
  id_to_fsm_ w !! id = Some m -> node_id_to_cnxt_ m !! n = Some c -> promise c = Some p ->
  handleNodeResponse O id n result w = Done (tt, w1) ->
  in_progress id nodes timeout node_request sent completed failed (log ++ [(p, result)]) w1 /\
  S (length (remaining id w1)) = length (remaining id w).
Proof.
  intros (Hok & Hs & Hperm & Href & Hask & Hst) Hm Hc Hpr Hrun. rewrite Hm in Hst. destruct Hst as (Hp & Hcm & Hall).
  pose proof (ec_wp_handleNodeResponse O id m n c result w Hm Hc) as Hf. unfold wp in Hf. rewrite Hrun in Hf.
  destruct (Hall n c Hc) as (p' & Hp' & Ha). rewrite Hpr in Hp'. injection Hp' as <-. pose proof Ha as (Hn & _).
  assert (n :: remaining id w1 ≡ₚ remaining id w) as Hrem.
  { rewrite (finished_remaining _ _ _ _ _ Hf). unfold remaining. rewrite Hm. by apply keys_delete with c. }
  split; [|by rewrite <- Hrem].
  split; [by eapply response_ok; [exact Hok|exact Hm|exact Hp|exact Hf|]|].
  split.
  { rewrite (fin_sent _ _ _ _ _ Hf), Hs. cbn. unfold forwarded. rewrite !fmap_app, <- !app_assoc. cbn. by rewrite Hn. }
  split; [rewrite fmap_app, <- app_assoc; cbn; by rewrite Hn, Hrem|].
  split; [done|]. split; [apply Forall_app; split; [done|]; apply Forall_singleton; cbn; by rewrite Hn|].
  destruct Hf as [_ _ _ Hfm]. case_decide; destruct Hfm as [-> Hcm']; [by rewrite Hcm', Hcm|].
  split; [done|]. split; [by rewrite Hcm', Hcm|]. intros n' c'. cbn [set_cnxts node_id_to_cnxt_ apply_done foldl fst snd].
  rewrite lookup_partial_alter. case_decide; [done|apply Hall].
Qed.

Lemma answers_progress id nodes timeout node_request sent completed failed w log' w' :
  answers id w log' w' -> forall log, in_progress id nodes timeout node_request sent completed failed log w ->
  in_progress id nodes timeout node_request sent completed failed (log ++ log') w'.
Proof.
  induction 1 as [|w n p result m c log' w1 w2 Hm Hc Hpr Hrun _ IH]; intros log Hin; [by rewrite app_nil_r|].
  rewrite cons_middle, app_assoc. apply IH. by eapply in_progress_answer.
Qed.

(** While the machine exists, some node is waiting, and any result for it is a
    step to fewer waiting nodes. *)
Lemma in_progress_step id nodes timeout node_request sent completed failed log w m :
  in_progress id nodes timeout node_request sent completed failed log w -> id_to_fsm_ w !! id = Some m ->
  (exists n c, node_id_to_cnxt_ m !! n = Some c) /\
  forall n c, node_id_to_cnxt_ m !! n = Some c -> exists p, promise c = Some p /\ asked O n timeout node_request p /\
    forall result, exists w', handleNodeResponse O id n result w = Done (tt, w') /\
                              S (length (remaining id w')) = length (remaining id w).
Proof.
  intros Hin Hm. pose proof Hin as (Hok & _ & _ & _ & _ & Hst). rewrite Hm in Hst. destruct Hst as (Hp & _ & Hall). split.
  { destruct (Service_machine_ok _ id m w Hok Hm) as [_ Hmo]. rewrite Hp in Hmo. destruct Hmo as [Hne _].
    destruct (map_choose _ Hne) as (n & c & Hc). by exists n, c. }
  intros n c Hc. destruct (Hall n c Hc) as (p & Hpr & Ha). exists p. split; [done|]. split; [done|]. intros result.
  pose proof (ec_wp_handleNodeResponse O id m n c result w Hm Hc) as Hf. apply wp_Done in Hf as ([] & w' & Hrun & _).
  exists w'. split; [done|]. by eapply in_progress_answer.
Qed.

(** ** What the user gets *)

(** The result for a node that gave this result. *)
Definition node_result (result : PromiseResult) : NodeResult ResponsePayload :=
  match result with
  | Success status output => inr (mkResPayload status output)
  | Failure cy => inl (on_wire (cyErrorToSdkError cy))
  end.

(** The result for each node. *)
Definition command_results (failed : list (NodeId * CyError)) (log : list Answer) : list (NodeId * NodeResult ResponsePayload) :=
  ((fun '(n, cy) => (n, inl (on_wire (cyErrorToSdkError cy)))) <$> failed) ++
  ((fun '(p, result) => (pr_node_id p, node_result result)) <$> log).

Lemma command_results_nodes failed log : (command_results failed log).*1 = failed.*1 ++ (pr_node_id ∘ fst <$> log).
Proof.
  unfold command_results. rewrite fmap_app, <- !list_fmap_compose. f_equal; apply list_fmap_ext; by intros i [].
Qed.

Lemma exec_collects_all l rs (m : gmap NodeId (NodeResult ResponsePayload)) :
  Forall2 (fun x r => forall m, ExecClient.execInput r m = emplace x.1 x.2 m) l rs -> NoDup l.*1 ->
  (forall n, n ∈ l.*1 -> m !! n = None) ->
  foldl (fun m r => ExecClient.execInput r m) m rs = list_to_map l ∪ m.
Proof.
  intros Hall. revert m. induction Hall as [|x r l rs Hx _ IH]; intros m Hnd Hm; cbn [foldl fmap list_fmap] in *.
  { by rewrite list_to_map_nil, (left_id_L ∅ (∪)). }
  apply NoDup_cons in Hnd as [Hn Hnd]. rewrite Hx. clear Hx. unfold emplace. rewrite Hm by apply list_elem_of_here. rewrite IH; [|done|].
  - destruct x as [n v]. rewrite list_to_map_cons. cbn [fst snd]. rewrite <- insert_union_r by (by apply not_elem_of_list_to_map). by rewrite insert_union_l.
  - intros n' Hn'. rewrite lookup_insert_ne by (intros E; by rewrite E in Hn). apply Hm. by apply list_elem_of_further.
Qed.

Lemma exec_collects_results failed log :
  NoDup (failed.*1 ++ (pr_node_id ∘ fst <$> log)) ->
  foldl (fun m r => ExecClient.execInput r m) ∅ ((refusal <$> failed) ++ (forwarded <$> log)) = list_to_map (command_results failed log).
Proof.
  intros Hnd. rewrite (exec_collects_all (command_results failed log)).
  - by rewrite (right_id_L ∅ (∪)).
  - unfold command_results. apply Forall2_app; apply Forall2_fmap, Forall_Forall2_diag, Forall_forall.
    + intros [n cy] _ m. unfold ExecClient.execInput, refusal, error_payload. cbn [fst snd res_node_id res_error response].
      by rewrite cy_failure_seen.
    + intros [p [st out|cy]] _ m; unfold ExecClient.execInput, forwarded, result_response; cbn [fst snd res_node_id res_error res_payload response node_result]; [done|].
      change (Some (cyErrorToSdkError cy)) with (cyFailureToOptError cy). by rewrite cy_failure_seen.
  - by rewrite command_results_nodes.
  - intros n _. apply lookup_empty.
Qed.

Lemma exec_requests node_ids payload timeout :
  0 <= timeout < 2 ^ 62 ->
  let requests := ExecClient.buildExecRequests node_ids payload timeout in
  (forall pl, requests_ok (fun _ => ec_request_ok) plan_of add_nodes pl requests) /\
  (forall pl, foldl (fun pl r => add_nodes r pl) pl requests = pl ∪ gset_to_gmap (timeout, payload) (list_to_set node_ids)) /\
  (node_ids <> [] -> requests <> []).
Proof.
  intros Ht requests. unfold requests, ExecClient.buildExecRequests. rewrite timeout_to_us_id by lia. split; [|split].
  - induction (node_chunks node_ids) as [|ids chunks IH]; intros pl; [done|]. split; [|apply IH]. intros _ _. exact Ht.
  - intros pl. by apply foldl_chunks.
  - apply chunks_ne.
Qed.

Context {CEnv : Type} (channel : Outgoing Request -> CEnv -> OptError * CEnv) (Hall : takes_all channel).

(** C7: a command, from the SDK to the nodes and back. The SDK client asks for a
    command on some nodes, at least one, with a timeout below 2^62 microseconds;
    nodes may be listed more than once and be more than fit one message; the channel takes
    what the SDK sends. The daemon
    takes its requests, and the promises of its nodes get any results, in any order.
    While the machine of the channel exists, some node is waiting; every node that is
    waiting has a promise for exactly the command of the user, with the timeout of the user,
    and any result for it leaves fewer nodes waiting; so the machine goes. Then the
    channel was completed exactly once and without error; every node either could not
    be asked, with a failure that the Cyphal layer gave for it, or has answered its
    command, and exactly one of the two, once. The sender of the SDK, which gets the
    responses that were sent, gives the user one result: a map of exactly the nodes
    that were asked for, with the status and the output that the node answered, or
    the error of its promise, or the error for which it could not be asked. *)
Theorem exec_cmd_end_to_end (nodes : list NodeId) (node_request : RequestPayload) timeout w cenv :
  Ec_ok w -> next_fsm_id_ w < 2 ^ 64 - 1 -> nodes <> [] -> 0 <= timeout < 2 ^ 62 ->
  let id := next_fsm_id_ w in
  let requests := ExecClient.buildExecRequests nodes node_request timeout in
  wp (submit id requests) (fun _ w1 =>
    exists failed, Forall (fun x => cy_refuses O x.1 x.2) failed /\ forall log w2, answers id w1 log w2 ->
      match id_to_fsm_ w2 !! id with
      | Some m => (exists n c, node_id_to_cnxt_ m !! n = Some c) /\
          forall n c, node_id_to_cnxt_ m !! n = Some c -> exists p, promise c = Some p /\ asked O n timeout node_request p /\
            forall result, exists w3, handleNodeResponse O id n result w2 = Done (tt, w3) /\
                                      S (length (remaining id w3)) = length (remaining id w2)
      | None => failed.*1 ++ (pr_node_id ∘ fst <$> log) ≡ₚ elements (list_to_set nodes : gset NodeId) /\
          Forall (fun a => asked O (pr_node_id a.1) timeout node_request a.1) log /\
          sv_completed w2 = sv_completed w ++ [(id, None)] /\
          exists rs, sv_sent w2 = sv_sent w ++ (pair id <$> rs) /\
            wp (sender ← CommandClient.sendCommand channel rs None nodes node_request timeout; Execution.submit sender user_receiver)
               (fun _ client => cl_out client = (OutRequest <$> requests) ++ [OutComplete true] /\
                                received client = [inr (list_to_map (command_results failed log))]) (new_client [] cenv)
      end) w.
Proof.
  intros Hok Hnx Hn Ht id requests. destruct (exec_requests nodes node_request timeout Ht) as (Hreq & Hset & Hne).
  eapply (wp_deliver tt handleInput _ _ (fun _ => ec_request_ok) plan_of add_nodes exec_collects);
    [by apply new_machine_ok|done|done|by apply Hne|apply Hreq|]. cbn [new_machine node_id_to_cnxt_].
  intros w1 H1. rewrite Hset in H1. unfold plan in H1. rewrite fmap_empty, (left_id_L ∅ (∪)) in H1.
  eapply wp_mono; [apply wp_begin; [exact H1|]|].
  { destruct nodes as [|n nodes]; [done|]. cbn. clear. set_solver. }
  intros [] w2 (failed & H2). exists failed. split; [apply H2|]. intros log w3 Ha.
  pose proof (answers_progress _ _ _ _ _ _ _ _ _ _ Ha [] H2) as H3. cbn [app] in H3.
  destruct (id_to_fsm_ w3 !! id) as [m|] eqn:Hm; [by eapply in_progress_step|].
  destruct H3 as (_ & Hs & Hperm & _ & Hask & Hst). rewrite Hm in Hst. unfold remaining in Hperm. rewrite Hm, app_nil_r in Hperm.
  split; [exact Hperm|]. split; [exact Hask|]. split; [exact Hst|]. eexists. split; [exact Hs|].
  eapply wp_mono; [by apply (wp_send_command channel _ None)|]. intros [] cl [Hout Hrec].
  split; [exact Hout|]. rewrite Hrec. unfold collected. by rewrite exec_collects_results by (rewrite Hperm; apply NoDup_elements).
Qed.
End ExecEndToEnd.

Lemma exec_cmd_end_to_end_witness :
  let O := ExecCmdExample.oracles in
  let restart := ExecCmd.mkReqPayload 65535 [] in
  let requests := ExecClient.buildExecRequests [42; 43; 42] restart 1000000 in
  wp (submit O 0 requests) (fun _ w1 =>
    exists failed, Forall (fun x => cy_refuses O x.1 x.2) failed /\ forall log w2, answers O 0 w1 log w2 ->
      match id_to_fsm_ w2 !! 0 with
      | Some m => (exists n c, node_id_to_cnxt_ m !! n = Some c) /\
          forall n c, node_id_to_cnxt_ m !! n = Some c -> exists p, promise c = Some p /\ asked O n 1000000 restart p /\
            forall result, exists w3, ExecCmd.handleNodeResponse O 0 n result w2 = Done (tt, w3) /\
                                      S (length (remaining 0 w3)) = length (remaining 0 w2)
      | None => failed.*1 ++ (pr_node_id ∘ fst <$> log) ≡ₚ elements (list_to_set [42; 43; 42] : gset NodeId) /\
          Forall (fun a => asked O (pr_node_id a.1) 1000000 restart a.1) log /\
          sv_completed w2 = [] ++ [(0, None)] /\
          exists rs, sv_sent w2 = [] ++ (pair 0 <$> rs) /\
            wp (sender ← CommandClient.sendCommand (fun _ e => (None, e)) rs None [42; 43; 42] restart 1000000;
                Execution.submit sender user_receiver)
               (fun _ client => cl_out client = (OutRequest <$> requests) ++ [OutComplete true] /\
                                received client = [inr (list_to_map (command_results failed log))]) (new_client [] tt)
      end) (mkService ∅ 0 [] [] tt).
Proof.
  apply (exec_cmd_end_to_end ExecCmdExample.oracles ExecCmdExample.ec_clock ltac:(by intros cs) (fun _ e => (None, e))
           ltac:(by intros o e) [42; 43; 42] (ExecCmd.mkReqPayload 65535 []) 1000000 (mkService ∅ 0 [] [] tt) tt).
  - apply no_machine_ok.
  - vm_compute. reflexivity.
  - discriminate.
  - lia.
Defined.
