(* ===== verification/ListEndToEnd.v ===== *)
(** * The registers of nodes, from the SDK to the nodes and back

    [NodeRegistryClient::list] of [NodeSenders], the client of [NodeClients] and the
    service of [ListRegisters] together: nodes that have registers with some names
    answer the daemon's requests in any order; the map that the user gets says for
    each node what it has. *)
From S2P Require Import Prelude Errors NodeService NodeServiceFacts ListRegisters NodeClients NodeEndToEnd Execution NodeSenders.

Local Open Scope Z_scope.

Section ListEndToEnd.
Import ListRegs.
Context {Env : Type} (O : Oracles Z Z Response Env).
(** The registers of the nodes; a failure that comes in place of the end of the list;
    the time that the user gives each node for each answer. *)
Context (names : NodeId -> list bytes) (fails : NodeId -> option CyError) (timeout : Z).
Abbreviation W := (Service Z unit Z Response Env).
Abbreviation Lr_ok := (NodeService_ok (fun _ => True) lr_fresh (lr_good O)).
Implicit Types (w : W) (id : FsmId) (n : NodeId).

(** What a node answers to the request with an index. *)
Definition node_answer n (index : Z) : PromiseResult :=
  match names n !! Z.to_nat index with
  | Some name => Success name
  | None => match fails n with Some cy => Failure cy | None => Success [] end
  end.

(** The nodes answer what they were asked, one after the other. *)
Inductive conversation id : W -> W -> Prop :=
| conversation_refl w : conversation id w w
| conversation_step w n m c p w1 w2 :
    id_to_fsm_ w !! id = Some m -> node_id_to_cnxt_ m !! n = Some c -> promise c = Some p ->
    handleNodeResponse O id n (node_answer (pr_node_id p) (pr_request p)) w = Done (tt, w1) ->
    conversation id w1 w2 -> conversation id w w2.

(** The responses for a node after [k] names, and maybe an error. *)
Definition told n (k : nat) (err : option CyError) : list Response :=
  ((fun name => response n name None) <$> take k (names n)) ++
  match err with Some cy => [error_item n (cyFailureToOptError cy)] | None => [] end.

(** How the list of a node may end. *)
Definition ended n (k : nat) (err : option CyError) : Prop :=
  match err with
  | None => k = length (names n) /\ fails n = None
  | Some cy => (k = length (names n) /\ fails n = Some cy) \/ cy_refuses O n cy
  end.

Abbreviation own_of := (own res_node_id).

Definition told_so_far id (nodes : gset NodeId) (rs : list Response) w : Prop := forall n,
  if decide (n ∈ nodes) then
    exists k err, (k <= length (names n))%nat /\ own_of n rs = told n k err /\
      match left_of id n w with
      | Some c => err = None /\ cn_data c = Z.of_nat k /\ NodeService.timeout c = timeout
      | None => ended n k err
      end
  else own_of n rs = [] /\ left_of id n w = None.

Definition listing id (nodes : gset NodeId) (sent : list (FsmId * Response)) (completed : list (FsmId * OptError)) w : Prop :=
  Lr_ok w /\ (exists rs, sv_sent w = sent ++ (pair id <$> rs) /\ told_so_far id nodes rs w) /\
  match id_to_fsm_ w !! id with
  | Some m => processing_ m = true /\ sv_completed w = completed
  | None => sv_completed w = completed ++ [(id, None)]
  end.

(** ** Collecting the nodes *)
Abbreviation list_plan := (fun m : Fsm Z unit Z => plan (node_id_to_cnxt_ m)).
Definition add_list_nodes (request : Request) (pl : gmap NodeId (Z * Z)) : gmap NodeId (Z * Z) :=
  pl ∪ gset_to_gmap (timeout_us request, 0) (list_to_set (node_ids request)).
Abbreviation list_collecting := (collecting (machine_ok (fun _ => True) lr_fresh (lr_good O)) list_plan).

Lemma list_collects_nodes :
  collects (handleInput (Env := Env)) (machine_ok (fun _ => True) lr_fresh (lr_good O)) (fun _ => lr_request_ok) list_plan add_list_nodes.
Proof.
  intros id m request w Hok Hm Hr Hp. unfold wp. pose proof (lr_input_ok O id m request w Hok Hm Hr) as Hw.
  unfold wp in Hw. destruct (handleInput request id w) as [[[] w']|] eqn:E; [|done]. split; [done|].
  unfold handleInput, get_fsm, gets, mbind, M_bind in E. rewrite Hm in E. cbn in E. rewrite Hp in E.
  rewrite (update_cnxts_run id m) in E by done. injection E as <-. cbn.
  split; [done|]. split; [done|]. eexists. split; [apply lookup_insert_eq|]. split; [done|].
  etransitivity; [apply emplace_nodes_plan|]. cbn [NodeService.timeout cn_data]. unfold lr_request_ok in Hr. by rewrite i64_id by lia.
Qed.

Lemma list_requests node_ids :
  0 <= timeout < 2 ^ 62 ->
  let requests := ListClient.buildRequests node_ids timeout in
  (forall pl, requests_ok (fun _ => lr_request_ok) list_plan add_list_nodes pl requests) /\
  (forall pl, foldl (fun pl r => add_list_nodes r pl) pl requests = pl ∪ gset_to_gmap (timeout, 0) (list_to_set node_ids)) /\
  (node_ids <> [] -> requests <> []).
Proof.
  intros Ht requests. unfold requests, ListClient.buildRequests. rewrite timeout_to_us_id by lia. split; [|split].
  - induction (node_chunks node_ids) as [|ids chunks IH]; intros pl; [done|]. split; [|apply IH]. intros _ _. exact Ht.
  - intros pl. by apply foldl_chunks.
  - apply chunks_ne.
Qed.

(** ** The steps *)
Context (Hclock : lr_clock_ok O) (Horder : lr_order_ok O).
Context (Hnames : forall n, Forall (fun name => name <> []) (names n) /\ Z.of_nat (length (names n)) < 2 ^ 16 - 1).

Lemma asks_nodes x n c rs o : make_rel O error_item (lr_asks O) x n c rs o -> Forall (fun r => res_node_id r = n) rs.
Proof.
  intros [(cy & _ & -> & _)|[(cy & _ & -> & _)|(-> & _)]]; [by repeat constructor|by repeat constructor|by apply Forall_nil].
Qed.

Lemma finished_state id m out w0 w w' completed :
  finished id m out w0 w' -> processing_ m = true -> sv_completed w0 = completed ->
  match id_to_fsm_ w' !! id with
  | Some m => processing_ m = true /\ sv_completed w' = completed
  | None => sv_completed w' = completed ++ [(id, None)]
  end.
Proof. intros [_ _ _ Hm] Hp <-. case_decide; destruct Hm as [-> Hc]; done. Qed.

Lemma wp_list_begin id nodes sent completed w :
  list_collecting id (gset_to_gmap (timeout, 0) nodes) sent completed w -> nodes <> ∅ ->
  wp (handleCompletedEvent O id true) (fun _ => listing id nodes sent completed) w.
Proof.
  intros (Hok & Hs & Hc & m & Hm & Hp & Hpl) Hn. destruct (Service_machine_ok _ id m w Hok Hm) as [_ Hmo]. rewrite Hp in Hmo.
  cbn beta in Hpl. pose proof (plan_dom _ _ _ Hpl) as Hd.
  eapply wp_mono; [apply (lr_wp_completed O Hclock id m w Horder Hok Hm Hp)|].
  { intros He. apply Hn. by rewrite <- Hd, He, dom_empty_L. }
  intros [] w' (Hok' & w0 & out & _ & Hc0 & Hs0 & Hf & Hperm & Hall). split; [done|]. split.
  2:{ eapply (finished_state id (begun m)); [exact w|exact Hf|done|by rewrite Hc0]. }
  exists (concat (snd <$> (fst <$> out))). split; [by rewrite (fin_sent _ _ _ _ _ Hf), Hs0, Hs|].
  assert (NoDup (fst <$> (fst <$> out))) as Hnd by (rewrite Hperm; apply NoDup_fst_map_to_list).
  intros n. rewrite (finished_left _ _ n _ _ _ Hf), apply_done_lookup by done. rewrite own_concat; [|done|].
  2:{ eapply Forall_impl; [exact Hall|]. intros y (cy & _ & Hy). by eapply asks_nodes. }
  cbn [begun node_id_to_cnxt_]. case_decide as Hin; rewrite <- Hd in Hin.
  - apply elem_of_dom in Hin as [c Hcn]. destruct (done_found out _ n c Hperm Hcn) as (i & x & -> & Hx & He).
    rewrite Forall_forall in Hall. destruct (Hall x Hx) as (cx & Hcx & Hr). rewrite He in Hcx, Hr.
    rewrite Hcn in Hcx. injection Hcx as <-. destruct (plan_lookup _ _ _ _ _ Hpl Hcn) as [_ [= Hto Hz]]. exists 0%nat. unfold told. rewrite take_0.
    destruct Hr as [(cy & Hcy & -> & ->)|[(cy & Hcy & -> & ->)|(-> & p & -> & _)]].
    + exists (Some cy). split; [lia|]. split; [done|]. by right.
    + exists (Some cy). split; [lia|]. split; [done|]. by right.
    + exists None. split; [lia|]. do 2 (split; [done|]). by split; cbn.
  - apply not_elem_of_dom in Hin. destruct (list_find _ out) as [[i x]|] eqn:E; [|done].
    apply list_find_Some in E as (Hi & He & _). apply list_elem_of_lookup_2 in Hi.
    rewrite Forall_forall in Hall. destruct (Hall x Hi) as (cx & Hcx & _). rewrite He in Hcx. congruence.
Qed.

Lemma told_next n k name : names n !! k = Some name -> told n k None ++ [response n name None] = told n (S k) None.
Proof. intros Hk. unfold told. rewrite (take_S_r _ _ name) by done. by rewrite fmap_app, !app_nil_r. Qed.

Lemma told_err n k cy : told n k None ++ [error_item n (cyFailureToOptError cy)] = told n k (Some cy).
Proof. unfold told. by rewrite app_nil_r. Qed.

(** One answer of a node. *)
Lemma answer_told n k c rs o :
  cn_data c = Z.of_nat k -> NodeService.timeout c = timeout -> (k <= length (names n))%nat -> lr_answers O c (node_answer n (Z.of_nat k)) n rs o ->
  Forall (fun r => res_node_id r = n) rs /\
  exists k' err, (k' <= length (names n))%nat /\ told n k None ++ rs = told n k' err /\
    match o with
    | Some c' => err = None /\ (cn_data c' = Z.of_nat k' /\ NodeService.timeout c' = timeout) /\ k' = S k
    | None => ended n k' err
    end.
Proof.
  intros Hd Hto Hk. unfold node_answer. rewrite Nat2Z.id. destruct (Hnames n) as [Hne Hlen].
  destruct (names n !! k) as [name|] eqn:E; cbn [lr_answers].
  - rewrite decide_False by (by eapply Forall_lookup_1 in Hne). pose proof (lookup_lt_Some _ _ _ E) as Hlt.
    intros (rs' & -> & Ha). rewrite cons_middle, app_assoc, (told_next n k name E).
    destruct Ha as [(cy & Hcy & -> & ->)|(-> & p & -> & _)].
    + split; [by repeat constructor|]. exists (S k), (Some cy). split; [lia|]. split; [apply told_err|]. by right.
    + split; [by repeat constructor|]. exists (S k), None. split; [lia|]. split; [by rewrite app_nil_r|].
      split; [done|]. split; [|done]. split; [|exact Hto]. cbn. rewrite Hd, wrap_id by lia. lia.
  - apply lookup_ge_None in E. assert (k = length (names n)) as Hkl by lia. destruct (fails n) as [cy|] eqn:Ef; cbn [lr_answers].
    + intros [-> ->]. split; [by repeat constructor|]. exists k, (Some cy). split; [done|]. split; [apply told_err|]. by left.
    + intros [-> ->]. split; [by apply Forall_nil|]. exists k, None. split; [done|]. split; [apply app_nil_r|]. done.
Qed.

(** A node that waits is asked for the register after the names that it gave. *)
Lemma listing_waits id nodes sent completed w m n c :
  listing id nodes sent completed w -> id_to_fsm_ w !! id = Some m -> node_id_to_cnxt_ m !! n = Some c ->
  processing_ m = true /\ client c = true /\ lr_timeout_ok c /\ n ∈ nodes /\
  exists rs k p, promise c = Some p /\ asked O n timeout (Z.of_nat k) p /\ sv_sent w = sent ++ (pair id <$> rs) /\ told_so_far id nodes rs w /\
    (k <= length (names n))%nat /\ own_of n rs = told n k None /\ cn_data c = Z.of_nat k /\ NodeService.timeout c = timeout.
Proof.
  intros (Hok & (rs & Hs & Ht) & Hst) Hm Hc. rewrite Hm in Hst. destruct Hst as [Hp _].
  destruct (Service_machine_ok _ id m w Hok Hm) as [_ Hmo]. rewrite Hp in Hmo. destruct Hmo as [_ Hall].
  destruct (Hall n c Hc) as (Hcl & _ & Hto & p & Hpr & Hask). do 3 (split; [done|]).
  assert (left_of id n w = Some c) as Hl by (unfold left_of; by rewrite Hm).
  pose proof (Ht n) as Hn. case_decide as Hin; [|destruct Hn; congruence]. split; [done|].
  destruct Hn as (k & err & Hk & Ho & Hx). rewrite Hl in Hx. destruct Hx as (-> & Hd & Ht').
  exists rs, k, p. rewrite Hd, Ht' in Hask. done.
Qed.

Lemma listing_answer id nodes sent completed w m n c :
  listing id nodes sent completed w -> id_to_fsm_ w !! id = Some m -> node_id_to_cnxt_ m !! n = Some c ->
  wp (handleNodeResponse O id n (node_answer n (cn_data c))) (fun _ w' =>
    listing id nodes sent completed w' /\
    match left_of id n w' with Some c' => cn_data c' = cn_data c + 1 | None => True end /\
    forall n', n' <> n -> left_of id n' w' = left_of id n' w) w.
Proof.
  intros Hw Hm Hc. destruct (listing_waits _ _ _ _ _ _ _ _ Hw Hm Hc) as (Hp & Hcl & Hto & Hin & rs & k & p & _ & _ & Hs & Ht & Hk & Ho & Hd & Htm).
  destruct Hw as (Hok & _ & Hst). rewrite Hm in Hst. destruct Hst as [_ Hcm].
  eapply wp_mono; [by eapply lr_wp_handleNodeResponse|]. intros [] w' (rs' & o & Hf & Ha).
  assert (Lr_ok w') as Hok'.
  { eapply response_ok; [exact Hok|exact Hm|done|exact Hf|]. intros c' ->. destruct (fsm_data m). by eapply lr_answers_pending. }
  rewrite Hd in Ha. destruct (answer_told n k c rs' o Hd Htm Hk Ha) as (Hrs' & k' & err & Hk' & Ho' & Hend).
  assert (left_of id n w' = o) as Hl by (rewrite (finished_left _ _ n _ _ _ Hf); apply lookup_partial_alter_eq).
  assert (forall n', n' <> n -> left_of id n' w' = left_of id n' w) as Hl'.
  { intros n' Hne. rewrite (finished_left _ _ n' _ _ _ Hf). cbn. rewrite lookup_partial_alter_ne by done.
    unfold left_of. by rewrite Hm. }
  split; [|split; [|done]].
  2:{ rewrite Hl. destruct o; [|done]. destruct Hend as (_ & [-> _] & ->). lia. }
  split; [done|]. split; [|by eapply finished_state].
  exists (rs ++ rs'). split.
  { rewrite (fin_sent _ _ _ _ _ Hf), Hs. cbn. by rewrite app_nil_r, fmap_app, <- app_assoc. }
  intros n'. destruct (decide (n' = n)) as [->|Hne].
  - rewrite decide_True by done. exists k', err. split; [done|]. rewrite own_app, Ho, own_all by done. split; [done|].
    rewrite Hl. destruct o; [|done]. by destruct Hend as (? & ? & _).
  - specialize (Ht n'). rewrite own_app, (own_none _ n' n rs') by (done || congruence). rewrite app_nil_r, Hl' by done. exact Ht.
Qed.

Lemma listing_conversation id nodes sent completed w w' :
  conversation id w w' -> listing id nodes sent completed w -> listing id nodes sent completed w'.
Proof.
  induction 1 as [|w n m c p w1 w2 Hm Hc Hpr Hrun _ IH]; [done|]. intros Hw. apply IH.
  destruct (listing_waits _ _ _ _ _ _ _ _ Hw Hm Hc) as (_ & _ & _ & _ & rs & k & p' & Hpr' & (Hn & Hq & _) & _ & _ & _ & _ & Hd & _).
  rewrite Hpr' in Hpr. injection Hpr as ->. rewrite Hn, Hq, <- Hd in Hrun.
  pose proof (listing_answer _ _ _ _ _ _ _ _ Hw Hm Hc) as H. unfold wp in H. rewrite Hrun in H. apply H.
Qed.

(** ** The conversation ends *)

(** A node gives its names, and then an end. *)
Definition name_limit n : nat := S (length (names n)).

(** Node [n] was asked for a register; the answer is a step to fewer answers to come. *)
Definition list_awaits id (node_ids : gset NodeId) n (c : Cnxt) w : Prop :=
  n ∈ node_ids /\ exists p k, promise c = Some p /\ asked O n timeout (Z.of_nat k) p /\ (k <= length (names n))%nat /\
    exists w', handleNodeResponse O id n (node_answer (pr_node_id p) (pr_request p)) w = Done (tt, w') /\
               (answers_left name_limit id w' < answers_left name_limit id w)%nat.

(** While the machine exists, some node is asked for a register, and every answer
    leaves fewer answers to come. *)
Lemma listing_step id nodes sent completed w m :
  listing id nodes sent completed w -> id_to_fsm_ w !! id = Some m ->
  node_id_to_cnxt_ m <> ∅ /\ forall n c, node_id_to_cnxt_ m !! n = Some c -> list_awaits id nodes n c w.
Proof.
  intros Hw Hm. pose proof Hw as (Hok & _ & Hst). rewrite Hm in Hst. destruct Hst as [Hp _].
  destruct (Service_machine_ok _ id m w Hok Hm) as [_ Hmo]. rewrite Hp in Hmo. destruct Hmo as [Hne _].
  split; [done|]. intros n c Hc.
  destruct (listing_waits _ _ _ _ _ _ _ _ Hw Hm Hc) as (_ & _ & _ & Hin & rs & k & p & Hpr & Hask & _ & _ & Hk & _ & Hd & _).
  split; [done|]. exists p, k. do 3 (split; [done|]). destruct Hask as (-> & -> & _). rewrite <- Hd.
  pose proof (listing_answer _ _ _ _ _ _ _ _ Hw Hm Hc) as H. apply wp_Done in H as ([] & w' & Hrun & _ & Hl & Hl').
  exists w'. split; [done|]. eapply answers_left_decrease; [done|done|lia|unfold name_limit; lia| |done].
  destruct (left_of id n w'); [lia|done].
Qed.

(** ** What the user gets *)

(** The result for a node after these names and this error: an error is seen only
    if it came first, and a node that gave nothing is not in the result. *)
Definition list_outcome (listed : list bytes) (err : option CyError) : option (NodeResult (list bytes)) :=
  match listed, err with
  | [], None => None
  | [], Some cy => Some (inl (on_wire (cyErrorToSdkError cy)))
  | _, _ => Some (inr listed)
  end.

Lemma listed_told n k err rs : own_of n rs = told n k err -> listed_of n rs = list_outcome (take k (names n)) err.
Proof.
  intros Ho. unfold listed_of. change (filter _ rs) with (own_of n rs). rewrite Ho. unfold told.
  assert (forall l, ListRegs.res_item <$> filter (fun r => dsdlErrorToOptError (res_error r) = None)
            (((fun name => response n name None) <$> l) ++ match err with Some cy => [error_item n (cyFailureToOptError cy)] | None => [] end) = l) as Hg.
  { induction l as [|a l IH]; cbn [fmap list_fmap app].
    - destruct err as [cy|]; [|done]. rewrite filter_cons_False; [done|]. cbn [res_error error_item response].
      by rewrite cy_failure_seen.
    - rewrite filter_cons_True by done. cbn [fmap list_fmap]. by rewrite IH. }
  rewrite Hg. destruct (take k (names n)) as [|a l]; cbn [fmap list_fmap app]; [|done].
  destruct err as [cy|]; [|done]. cbn [res_error error_item response]. by rewrite cy_failure_seen.
Qed.

(** ** From the SDK to the nodes and back *)
Context {CEnv : Type} (channel : Outgoing Request -> CEnv -> OptError * CEnv) (Hall : takes_all channel).

(** The list of node [n] is [listed], and the error [err] came after it. *)
Definition lists n (listed : list bytes) (err : option CyError) : Prop :=
  exists k, (k <= length (names n))%nat /\ listed = take k (names n) /\ ended n k err.

Lemma listing_end id nodes sent completed w :
  listing id nodes sent completed w -> id_to_fsm_ w !! id = None ->
  exists rs, sv_sent w = sent ++ (pair id <$> rs) /\ sv_completed w = completed ++ [(id, None)] /\
    forall n, if decide (n ∈ nodes) then exists listed err, lists n listed err /\ listed_of n rs = list_outcome listed err
              else listed_of n rs = None.
Proof.
  intros (_ & (rs & Hs & Ht) & Hst) Hgone. rewrite Hgone in Hst. exists rs. split; [done|]. split; [done|]. intros n.
  specialize (Ht n). assert (left_of id n w = None) as Hl by (unfold left_of; by rewrite Hgone). rewrite Hl in Ht. case_decide.
  - destruct Ht as (k & err & Hk & Ho & He). exists (take k (names n)), err. split; [by exists k|by apply listed_told].
  - destruct Ht as [Ho _]. unfold listed_of. change (filter _ rs) with (own_of n rs). by rewrite Ho.
Qed.

Lemma wp_listing (node_ids : list NodeId) w (Q : W -> Prop) :
  Lr_ok w -> next_fsm_id_ w < 2 ^ 64 - 1 -> node_ids <> [] -> 0 <= timeout < 2 ^ 62 ->
  let id := next_fsm_id_ w in
  (forall w1, listing id (list_to_set node_ids) (sv_sent w) (sv_completed w) w1 -> Q w1) ->
  wp (deliver tt handleInput (handleCompletedEvent O) id (ListClient.buildRequests node_ids timeout)) (fun _ => Q) w.
Proof.
  intros Hok Hnx Hn Ht id HQ. destruct (list_requests node_ids Ht) as (Hreq & Hset & Hne).
  eapply (wp_deliver tt handleInput _ _ (fun _ => lr_request_ok) list_plan add_list_nodes list_collects_nodes);
    [by apply new_machine_ok|done|done|by apply Hne|apply Hreq|]. cbn [new_machine node_id_to_cnxt_].
  intros w2 H2. rewrite Hset in H2. unfold plan in H2. rewrite fmap_empty, (left_id_L ∅ (∪)) in H2. eapply wp_mono; [apply wp_list_begin; [exact H2|]|].
  - destruct node_ids as [|n node_ids]; [done|]. cbn. clear. set_solver.
  - intros [] w1. apply HQ.
Qed.

(** C8: listing registers, from the SDK to the nodes and back. The SDK client asks for
    the registers of some nodes, at least one, with a timeout below 2^62 microseconds,
    and no node has 2^16 - 1 registers or more, nor one with an empty name. The daemon
    takes its requests, and the nodes answer what they are asked, in any order. While
    the machine of the channel exists, some node is waiting; every node that waits was
    asked for the register of one index, with the timeout of the user, and its answer leaves
    fewer answers to come; so the machine goes. Then the channel was completed exactly
    once and without error, and when its responses arrive, the sender of [list] gives the
    user one result. If nothing fails, that is a map in which each node that was asked
    for and has registers has their names, in order. If a node fails, or the Cyphal layer
    refuses to go on, before the first name, the map has that error for it; a failure after
    that is not reported: the map has the first names of that node, as if they were all. A node
    without registers is not in the map. The header of the SDK promises errors in
    these last two cases; no node that was not asked for is in the map. *)
Theorem list_end_to_end (node_ids : list NodeId) w cenv :
  Lr_ok w -> next_fsm_id_ w < 2 ^ 64 - 1 -> node_ids <> [] -> 0 <= timeout < 2 ^ 62 ->
  let id := next_fsm_id_ w in
  let requests := ListClient.buildRequests node_ids timeout in
  wp (deliver tt handleInput (handleCompletedEvent O) id requests) (fun _ w1 => forall w2, conversation id w1 w2 ->
    match id_to_fsm_ w2 !! id with
    | Some m => node_id_to_cnxt_ m <> ∅ /\
        forall n c, node_id_to_cnxt_ m !! n = Some c -> list_awaits id (list_to_set node_ids) n c w2
    | None => exists rs, sv_sent w2 = sv_sent w ++ (pair id <$> rs) /\ sv_completed w2 = sv_completed w ++ [(id, None)] /\
        wp (sender ← RegistryClient.list_registers channel rs None node_ids timeout; Execution.submit sender user_receiver)
           (fun _ client => cl_out client = (OutRequest <$> requests) ++ [OutComplete true] /\
              exists m, received client = [inr m] /\
                forall n, if decide (n ∈ node_ids) then exists listed err, lists n listed err /\ m !! n = list_outcome listed err
                          else m !! n = None) (new_client [] cenv)
    end) w.
Proof.
  intros Hok Hnx Hn Ht id requests. apply wp_listing; [done..|]. intros w1 H1 w2 Hcv.
  pose proof (listing_conversation _ _ _ _ _ _ Hcv H1) as H2.
  destruct (id_to_fsm_ w2 !! id) as [m|] eqn:Hm; [by eapply listing_step|].
  destruct (listing_end _ _ _ _ _ H2 Hm) as (rs & Hs & Hc & Hlist). exists rs. split; [done|]. split; [done|].
  eapply wp_mono; [by apply (wp_as_sender channel ListClient.listInput rs None Hall user_receiver (fun r => r))|].
  intros [] cl [Hout Hrec]. split; [exact Hout|]. eexists. split; [exact Hrec|]. intros n. rewrite list_collects.
  specialize (Hlist n). destruct (decide (n ∈ node_ids)) as [Hi|Hi].
  - by rewrite decide_True in Hlist by (by apply elem_of_list_to_set).
  - by rewrite decide_False in Hlist by (by rewrite elem_of_list_to_set).
Qed.

(** The same for one node, through [then]: the names, or the error; and [NoEntry]
    for a node that has no registers. *)
Theorem list_node_end_to_end (node_id : NodeId) w cenv :
  Lr_ok w -> next_fsm_id_ w < 2 ^ 64 - 1 -> 0 <= timeout < 2 ^ 62 ->
  let id := next_fsm_id_ w in
  wp (deliver tt handleInput (handleCompletedEvent O) id (ListClient.buildRequests [node_id] timeout)) (fun _ w1 =>
    forall w2, conversation id w1 w2 -> id_to_fsm_ w2 !! id = None ->
      exists rs listed err, sv_sent w2 = sv_sent w ++ (pair id <$> rs) /\ lists node_id listed err /\
        wp (sender ← RegistryClient.list_node channel rs None node_id timeout; Execution.submit sender user_receiver)
           (fun _ client => received client = [default (inl (Err Code.NoEntry)) (list_outcome listed err)]) (new_client [] cenv)) w.
Proof.
  intros Hok Hnx Ht id. apply wp_listing; [done..|]. intros w1 H1 w2 Hcv Hgone.
  pose proof (listing_conversation _ _ _ _ _ _ Hcv H1) as H2.
  destruct (listing_end _ _ _ _ _ H2 Hgone) as (rs & Hs & _ & Hlist). specialize (Hlist node_id).
  rewrite decide_True in Hlist by (by apply elem_of_list_to_set, list_elem_of_here).
  destruct Hlist as (listed & err & Hl & Hof). exists rs, listed, err. split; [done|]. split; [done|].
  eapply wp_mono; [by apply (wp_then_sender channel ListClient.listInput rs None Hall (single_result node_id) (fun r => r))|].
  intros [] cl [_ ->]. unfold collected, single_result. rewrite list_collects, Hof. by destruct (list_outcome listed err).
Qed.
End ListEndToEnd.

(** Two nodes with registers: the second fails after its first register. *)
Module ListEndToEndExample.
Definition names (n : NodeId) : list bytes :=
  if decide (n = 42) then [str "uavcan.node.id"; str "m.x"] else if decide (n = 43) then [str "a"] else [].
Definition fails (n : NodeId) : option CyError := if decide (n = 43) then Some ResponsePromiseExpired else None.
Definition channel : Outgoing ListRegs.Request -> unit -> OptError * unit := fun _ e => (None, e).

Lemma names_ok n : Forall (fun name => name <> []) (names n) /\ Z.of_nat (length (names n)) < 2 ^ 16 - 1.
Proof. unfold names. repeat case_decide; (split; [by repeat constructor|cbn; lia]). Qed.
End ListEndToEndExample.

Lemma list_end_to_end_witness :
  wp (deliver tt ListRegs.handleInput (ListRegs.handleCompletedEvent ListRegsExample.oracles) 0
       (ListClient.buildRequests [42; 43] 1000000)) (fun _ w1 =>
    forall w2, conversation ListRegsExample.oracles ListEndToEndExample.names ListEndToEndExample.fails 0 w1 w2 ->
    match id_to_fsm_ w2 !! 0 with
    | Some m => node_id_to_cnxt_ m <> ∅ /\
        forall n c, node_id_to_cnxt_ m !! n = Some c ->
          list_awaits ListRegsExample.oracles ListEndToEndExample.names ListEndToEndExample.fails 1000000 0 (list_to_set [42; 43]) n c w2
    | None => exists rs, sv_sent w2 = [] ++ (pair 0 <$> rs) /\ sv_completed w2 = [] ++ [(0, None)] /\
        wp (sender ← RegistryClient.list_registers ListEndToEndExample.channel rs None [42; 43] 1000000;
            Execution.submit sender user_receiver)
           (fun _ client => cl_out client = (OutRequest <$> ListClient.buildRequests [42; 43] 1000000) ++ [OutComplete true] /\
              exists m, received client = [inr m] /\
                forall n, if decide (n ∈ [42; 43]) then exists listed err,
                            lists ListRegsExample.oracles ListEndToEndExample.names ListEndToEndExample.fails n listed err /\
                            m !! n = list_outcome listed err
                          else m !! n = None) (new_client [] tt)
    end) (mkService ∅ 0 [] [] tt).
Proof.
  apply (list_end_to_end ListRegsExample.oracles ListEndToEndExample.names ListEndToEndExample.fails 1000000 ListRegsExample.lr_clock
           ltac:(by intros cs) ListEndToEndExample.names_ok ListEndToEndExample.channel ltac:(by intros o e)
           [42; 43] (mkService ∅ 0 [] [] tt) tt).
  - apply no_machine_ok.
  - vm_compute. reflexivity.
  - discriminate.
  - lia.
Defined.
