(* ===== verification/AccessEndToEnd.v ===== *)
(** * Values of registers, from the SDK to the nodes and back

    [NodeRegistryClient::read] and [write] of [NodeSenders], the client of [NodeClients]
    and the service of [AccessRegisters] together: nodes answer for each of the
    registers in any order; the map that the user gets says for each node and register
    what the answer was. *)
From S2P Require Import Prelude Errors NodeService NodeServiceFacts AccessRegisters NodeClients NodeEndToEnd Execution NodeSenders.

Local Open Scope Z_scope.

(** ** What the client collects *)
Section Collect.
Import AccessRegs.
Context {Val : Type}.
Abbreviation Values := (gmap NodeId (NodeResult (list (bytes * (Val + Error))))).
Abbreviation collect_all := (foldl (fun m i => AccessClient.accessInput (Val := Val) i m)).
Implicit Types (n : NodeId) (rs : list (Response Val)) (m : Values).

(** The key and value, or error, of a response. *)
Definition access_item (r : Response Val) : bytes * (Val + Error) :=
  (key (res_register r), match dsdlErrorToOptError (res_error r) with
                         | Some e => inr e
                         | None => inl (value (res_register r))
                         end).

(** Only a node's own responses decide its result. *)
Lemma access_add_other r m n : res_node_id r <> n -> AccessClient.accessInput r m !! n = m !! n.
Proof.
  intros Hne. unfold AccessClient.accessInput, emplace.
  destruct (dsdlErrorToOptError (res_error r)) as [e|]; [destruct (decide _)|].
  - destruct (m !! res_node_id r); [done|by rewrite lookup_insert_ne].
  - destruct (m !! res_node_id r) as [[x|x]|] eqn:E; rewrite ?E; [done|by rewrite lookup_insert_ne|].
    by rewrite lookup_insert_eq, !lookup_insert_ne.
  - destruct (m !! res_node_id r) as [[x|x]|] eqn:E; rewrite ?E; [done|by rewrite lookup_insert_ne|].
    by rewrite lookup_insert_eq, !lookup_insert_ne.
Qed.

Lemma access_add_own r m : key (res_register r) <> [] ->
  AccessClient.accessInput r m !! res_node_id r =
  match m !! res_node_id r with
  | Some (inr regs) => Some (inr (regs ++ [access_item r]))
  | Some failed => Some failed
  | None => Some (inr [access_item r])
  end.
Proof.
  intros Hk. unfold AccessClient.accessInput, access_item, emplace.
  destruct (dsdlErrorToOptError (res_error r)) as [e|]; [destruct (decide _); [done|]|];
    (destruct (m !! res_node_id r) as [[x|x]|] eqn:E; rewrite ?E; [done|by rewrite lookup_insert_eq|]);
    by rewrite lookup_insert_eq, lookup_insert_eq.
Qed.

Lemma access_collects_own n rs m :
  collect_all m rs !! n = collect_all m (own res_node_id n rs) !! n.
Proof.
  assert (forall rs m m', m !! n = m' !! n -> collect_all m (own res_node_id n rs) !! n = collect_all m' (own res_node_id n rs) !! n) as Hext.
  { clear rs m. induction rs as [|r rs IH]; intros m m' Hm; [done|]. unfold own. rewrite filter_cons. fold (own res_node_id n rs).
    case_decide as Hr; [|by apply IH]. cbn [foldl]. apply IH. subst n.
    unfold AccessClient.accessInput, emplace. rewrite Hm.
    destruct (dsdlErrorToOptError (res_error r)) as [e|]; [destruct (decide _)|];
      destruct (m' !! res_node_id r) as [[x|x]|] eqn:E; rewrite ?Hm, ?E, ?lookup_insert_eq; rewrite ?Hm, ?E; done. }
  revert m. induction rs as [|r rs IH]; intros m; [done|]. unfold own. rewrite filter_cons. fold (own res_node_id n rs).
  cbn [foldl]. rewrite IH. case_decide as Hr; [done|]. apply Hext. by apply access_add_other.
Qed.

(** A node that answered for some registers, which have names. *)
Lemma access_collects n rs :
  Forall (fun r => res_node_id r = n /\ key (res_register r) <> []) rs -> rs <> [] ->
  collect_all ∅ rs !! n = Some (inr (access_item <$> rs)).
Proof.
  intros Hall Hne.
  assert (forall rs m l, Forall (fun r => res_node_id r = n /\ key (res_register r) <> []) rs -> m !! n = Some (inr l) ->
            collect_all m rs !! n = Some (inr (l ++ (access_item <$> rs)))) as H.
  { clear. induction rs as [|r rs IH]; intros m l Hall Hm; cbn [foldl fmap list_fmap]; [by rewrite app_nil_r|].
    apply Forall_cons in Hall as [[Hr Hk] Hall]. rewrite (cons_middle (access_item r)), app_assoc.
    apply IH; [done|]. rewrite <- Hr, access_add_own, Hr, Hm by done. done. }
  destruct rs as [|r rs]; [done|]. apply Forall_cons in Hall as [[Hr Hk] Hall]. cbn [foldl fmap list_fmap].
  apply (H rs _ [access_item r]); [done|]. rewrite <- Hr, access_add_own by done. by rewrite lookup_empty.
Qed.
End Collect.

Section AccessEndToEnd.
Import AccessRegs.
Context {Val : Type} (empty_value : Val) {Env : Type} (O : Oracles Z (RegKeyValue Val) (Response Val) Env).
(** The time that the user gives each node for each answer. *)
Context (timeout : Z).
Abbreviation W := (Service Z (list (RegKeyValue Val)) (RegKeyValue Val) (Response Val) Env).
Abbreviation Machine := (Fsm Z (list (RegKeyValue Val)) (RegKeyValue Val)).
Abbreviation Ar_ok := (NodeService_ok ar_data_ok ar_fresh (ar_good O)).
Abbreviation own_of := (own res_node_id).
Abbreviation collect_all := (foldl (fun m i => AccessClient.accessInput (Val := Val) i m)).

(** A promise of the channel, which has the request that was sent, and the result that
    came for it. *)
Abbreviation Answer := (CyPromise (RegKeyValue Val) * PromiseResult Val)%type.
Implicit Types (w : W) (id : FsmId) (n : NodeId) (x : list (RegKeyValue Val)) (rs : list (Response Val)) (log : list Answer).

(** Pending promises of the channel get their results, one after the other. *)
Inductive access_conversation id : W -> list Answer -> W -> Prop :=
| access_refl w : access_conversation id w [] w
| access_step w n m c p result log w1 w2 :
    id_to_fsm_ w !! id = Some m -> node_id_to_cnxt_ m !! n = Some c -> promise c = Some p ->
    handleNodeResponse empty_value O id n result w = Done (tt, w1) ->
    access_conversation id w1 log w2 -> access_conversation id w ((p, result) :: log) w2.

(** The answers of one node. *)
Definition from n log : list Answer := filter (fun a => pr_node_id a.1 = n) log.

Lemma from_snoc n log p result : from n (log ++ [(p, result)]) = from n log ++ (if decide (pr_node_id p = n) then [(p, result)] else []).
Proof. unfold from. by rewrite filter_app. Qed.

(** The responses for some registers of a node: each is for its answer to the request for
    that register, or says why it was not asked. *)
Inductive accessed n : list (RegKeyValue Val) -> list Answer -> list (Response Val) -> Prop :=
| accessed_none : accessed n [] [] []
| accessed_answered reg x p result log rs :
    asked O n timeout reg p -> accessed n x log rs ->
    accessed n (reg :: x) ((p, result) :: log) (ar_result empty_value n reg result :: rs)
| accessed_refused reg x cy log rs :
    cy_refuses O n cy -> accessed n x log rs ->
    accessed n (reg :: x) log (response n (mkReg (key reg) empty_value) (cyFailureToOptError cy) :: rs).

Lemma accessed_app n x x' log log' rs rs' :
  accessed n x log rs -> accessed n x' log' rs' -> accessed n (x ++ x') (log ++ log') (rs ++ rs').
Proof. intros Ha Ha'. induction Ha; [done|by constructor..]. Qed.

Lemma accessed_length n x log rs : accessed n x log rs -> length rs = length x.
Proof. induction 1; cbn; congruence. Qed.

(** Requests that were refused. *)
Lemma refused_accessed n x rs :
  (key ∘ res_register <$> rs) = key <$> x -> Forall (ar_refused empty_value O n) rs -> accessed n x [] rs.
Proof.
  revert x. induction rs as [|r rs IH]; intros [|reg x] Hk Hall; try done; [constructor|].
  apply Forall_cons in Hall as [(k & cy & Hcy & ->) Hall]. cbn in Hk. injection Hk as -> Hk. by constructor; [|apply IH].
Qed.

Definition accessed_so_far id (nodes : gset NodeId) x log rs w : Prop := forall n,
  if decide (n ∈ nodes) then
    (exists cy, cy_refuses O n cy /\ from n log = [] /\
       own_of n rs = [error_reg empty_value n (cyFailureToOptError cy)] /\ left_of id n w = None) \/
    (exists k, (k <= length x)%nat /\ accessed n (take k x) (from n log) (own_of n rs) /\
       match left_of id n w with
       | Some c => cn_data c = Z.of_nat k /\ NodeService.timeout c = timeout
       | None => k = length x
       end)
  else from n log = [] /\ own_of n rs = [] /\ left_of id n w = None.

Definition accessing id (nodes : gset NodeId) x (sent : list (FsmId * Response Val)) (completed : list (FsmId * OptError)) log w : Prop :=
  Ar_ok w /\ (exists rs, sv_sent w = sent ++ (pair id <$> rs) /\ accessed_so_far id nodes x log rs w) /\
  match id_to_fsm_ w !! id with
  | Some m => processing_ m = true /\ fsm_data m = x /\ sv_completed w = completed
  | None => sv_completed w = completed ++ [(id, None)]
  end.

(** ** Collecting nodes and registers *)
Abbreviation View := (gmap NodeId (Z * Z) * list (RegKeyValue Val))%type.
Definition access_view (m : Machine) : View := (plan (node_id_to_cnxt_ m), fsm_data m).
Definition add_request (request : Request Val) (v : View) : View :=
  match request with
  | Req_empty => v
  | Req_scope timeout_us ids => (v.1 ∪ gset_to_gmap (timeout_us, 0) (list_to_set ids), v.2)
  | Req_register reg => (v.1, v.2 ++ [reg])
  end.
Abbreviation access_collecting := (collecting (machine_ok ar_data_ok ar_fresh (ar_good O)) access_view).

Lemma access_view_new : access_view (new_machine []) = (∅, []).
Proof. unfold access_view, plan. cbn. by rewrite fmap_empty. Qed.

Lemma access_collects_requests :
  collects (handleInput (Env := Env)) (machine_ok ar_data_ok ar_fresh (ar_good O)) ar_request_ok access_view add_request.
Proof.
  intros id m request w Hok Hm Hr Hp. unfold wp. pose proof (ar_input_ok O id m request w Hok Hm Hr) as Hw.
  unfold wp in Hw. destruct (handleInput request id w) as [[[] w']|] eqn:E; [|done]. split; [done|].
  unfold handleInput, get_fsm, gets, mbind, M_bind in E. rewrite Hm in E. cbn in E. rewrite Hp in E.
  destruct request as [|t ids|reg].
  - injection E as <-. split; [done|]. split; [done|]. by exists m.
  - rewrite (update_cnxts_run id m) in E by done. injection E as <-. cbn.
    split; [done|]. split; [done|]. eexists. split; [apply lookup_insert_eq|]. split; [done|].
    unfold access_view; cbn [set_cnxts node_id_to_cnxt_ fsm_data]. f_equal. etransitivity; [apply emplace_nodes_plan|].
    cbn [NodeService.timeout cn_data]. cbn in Hr. by rewrite i64_id by lia.
  - rewrite (put_fsm_run id m) in E by done. injection E as <-. cbn. split; [done|]. split; [done|].
    eexists. split; [apply lookup_insert_eq|]. done.
Qed.

Lemma access_requests node_ids (registers : list (RegKeyValue Val)) :
  0 <= timeout < 2 ^ 62 -> Z.of_nat (length registers) < 2 ^ 16 ->
  let requests := AccessClient.make_write node_ids registers timeout in
  requests_ok ar_request_ok access_view add_request (∅, []) requests /\
  foldl (fun v r => add_request r v) (∅, []) requests = (gset_to_gmap (timeout, 0) (list_to_set node_ids), registers).
Proof.
  intros Ht Hx requests.
  assert (forall chunks pl, requests_ok ar_request_ok access_view add_request (pl, [])
            (Req_scope (Val := Val) (timeout_to_us timeout) <$> chunks)) as Hscope.
  { induction chunks as [|ids chunks IH]; intros pl; [done|]. split; [|apply IH].
    intros m _. cbn. rewrite timeout_to_us_id by lia. done. }
  assert (forall pl, foldl (fun v r => add_request r v) (pl, []) (AccessClient.buildScopeRequests (Val := Val) node_ids timeout)
            = (pl ∪ gset_to_gmap (timeout, 0) (list_to_set node_ids), [])) as Hnodes.
  { intros pl. unfold AccessClient.buildScopeRequests. rewrite timeout_to_us_id by lia.
    rewrite <- (foldl_chunks (timeout, 0) (Req_scope (Val := Val) timeout) (fun r pl => (add_request r (pl, [])).1) node_ids pl) by done.
    revert pl. induction (node_chunks node_ids) as [|ids chunks IH]; intros pl; [done|]. cbn [fmap list_fmap foldl]. by rewrite <- IH. }
  assert (forall registers pl x, Z.of_nat (length x + length registers) < 2 ^ 16 ->
            requests_ok ar_request_ok access_view add_request (pl, x) (Req_register <$> registers) /\
            foldl (fun v r => add_request r v) (pl, x) (Req_register <$> registers) = (pl, x ++ registers)) as Hregs.
  { clear. induction registers as [|reg registers IH]; intros pl x Hx; cbn [fmap list_fmap foldl requests_ok]; [by rewrite app_nil_r|].
    destruct (IH pl (x ++ [reg])) as [Ho He].
    { rewrite length_app; cbn in *. lia. }
    cbn [add_request fst snd]. split; [split; [|done]|by rewrite He, <- app_assoc].
    intros m Hv. injection Hv as _ Hd. cbn in *. rewrite Hd. lia. }
  unfold requests, AccessClient.make_write, AccessClient.buildWriteRegisterRequests.
  destruct (Hregs registers (∅ ∪ gset_to_gmap (timeout, 0) (list_to_set node_ids)) []) as [Ho He]; [cbn; lia|]. split.
  - apply requests_ok_app; [apply Hscope|]. by rewrite Hnodes.
  - rewrite foldl_app, Hnodes, He, (left_id_L ∅ (∪)). done.
Qed.

(** ** The steps *)
Context (Hclock : ar_clock_ok O) (Horder : ar_order_ok O).

Lemma wp_access_begin id nodes x sent completed w :
  access_collecting id (gset_to_gmap (timeout, 0) nodes, x) sent completed w -> nodes <> ∅ -> x <> [] ->
  wp (handleCompletedEvent empty_value O id true) (fun _ => accessing id nodes x sent completed []) w.
Proof.
  intros (Hok & Hs & Hc & m & Hm & Hp & Hd) Hn Hx. injection Hd as Hpl Hdata. pose proof (plan_dom _ _ _ Hpl) as Hdom.
  eapply wp_mono; [apply (ar_wp_completed empty_value O Hclock id m w Horder Hok Hm Hp)|].
  { apply orb_false_iff. split; [apply bool_decide_eq_false|apply Nat.eqb_neq; rewrite Hdata; by destruct x].
    intros He. apply Hn. by rewrite <- Hdom, He, dom_empty_L. }
  intros [] w' (Hok' & w0 & out & _ & Hc0 & Hs0 & Hf & Hperm & Hall). split; [done|]. split.
  2:{ destruct Hf as [_ _ _ Hfm]. case_decide; destruct Hfm as [-> Hcm]; [by rewrite Hcm, Hc0, Hc|]. by rewrite Hcm, Hc0. }
  exists (concat (snd <$> (fst <$> out))). split; [by rewrite (fin_sent _ _ _ _ _ Hf), Hs0, Hs|].
  assert (NoDup (fst <$> (fst <$> out))) as Hnd by (rewrite Hperm; apply NoDup_fst_map_to_list).
  intros n. rewrite (finished_left _ _ n _ _ _ Hf), apply_done_lookup by done. rewrite own_concat; [|done|].
  2:{ eapply Forall_impl; [exact Hall|]. intros y (cy & _ & [(e & _ & -> & _)|[Ha _]]); [by repeat constructor|apply Ha]. }
  cbn [begun node_id_to_cnxt_]. case_decide as Hin; rewrite <- Hdom in Hin.
  - apply elem_of_dom in Hin as [c Hcn]. destruct (done_found out _ n c Hperm Hcn) as (i & y & -> & Hy & He).
    rewrite Forall_forall in Hall. destruct (Hall y Hy) as (cx & Hcx & Hr). rewrite He in Hcx, Hr.
    rewrite Hcn in Hcx. injection Hcx as <-. destruct (plan_lookup _ _ _ _ _ Hpl Hcn) as [_ [= Hto Hz]]. rewrite Hdata in Hr.
    destruct Hr as [(cy & Hcy & -> & ->)|[(_ & Hle & _ & Hk & Ho) Href]]; [left; by exists cy|right].
    change (cn_data (cn_set_client c)) with (cn_data c) in *. change (NodeService.timeout (cn_set_client c)) with (NodeService.timeout c) in Ho.
    rewrite Hz in Hle, Ho, Hk. exists (length y.1.2). split; [exact Hle|]. split.
    + apply refused_accessed; [|exact Href]. rewrite Hk. cbn. by rewrite fmap_take.
    + destruct y.2; [|exact Ho]. destruct Ho as (_ & ? & _ & Ht & _). by rewrite Ht.
  - apply not_elem_of_dom in Hin. destruct (list_find _ out) as [[i y]|] eqn:E; [|done].
    apply list_find_Some in E as (Hi & He & _). apply list_elem_of_lookup_2 in Hi.
    rewrite Forall_forall in Hall. destruct (Hall y Hi) as (cx & Hcx & _). rewrite He in Hcx. congruence.
Qed.

(** A node that waits is asked for the register after those it was answered for. *)
Lemma accessing_waits id nodes x sent completed log w m n c :
  accessing id nodes x sent completed log w -> id_to_fsm_ w !! id = Some m -> node_id_to_cnxt_ m !! n = Some c ->
  processing_ m = true /\ fsm_data m = x /\ client c = true /\ ar_good O x n c /\ n ∈ nodes /\ Z.of_nat (length x) < 2 ^ 16 /\
  exists rs k reg p, sv_sent w = sent ++ (pair id <$> rs) /\ accessed_so_far id nodes x log rs w /\
    x !! k = Some reg /\ promise c = Some p /\ asked O n timeout reg p /\
    accessed n (take k x) (from n log) (own_of n rs) /\ cn_data c = Z.of_nat k /\ NodeService.timeout c = timeout.
Proof.
  intros (Hok & (rs & Hs & Ht) & Hst) Hm Hc. rewrite Hm in Hst. destruct Hst as (Hp & Hx & _).
  destruct (Service_machine_ok _ id m w Hok Hm) as [Hlen Hmo]. rewrite Hp in Hmo. destruct Hmo as [_ Hall].
  destruct (Hall n c Hc) as (Hcl & _ & Hg). rewrite Hx in Hg, Hlen. do 4 (split; [done|]).
  assert (left_of id n w = Some c) as Hl by (unfold left_of; by rewrite Hm).
  pose proof (Ht n) as Hn. case_decide as Hin; [|destruct Hn as (_ & _ & ?); congruence]. split; [done|]. split; [exact Hlen|].
  destruct Hn as [(cy & _ & _ & _ & ?)|(k & Hk & Ho & Hd)]; [congruence|]. rewrite Hl in Hd. destruct Hd as [Hd Hto].
  destruct Hg as (_ & Hi & reg & p & Hreg & Hpr & Ha). rewrite Hd, Nat2Z.id in Hreg. rewrite Hto in Ha. by exists rs, k, reg, p.
Qed.

(** One more result. *)
Lemma accessing_answer id nodes x sent completed log w m n c p result :
  accessing id nodes x sent completed log w -> id_to_fsm_ w !! id = Some m -> node_id_to_cnxt_ m !! n = Some c -> promise c = Some p ->
  wp (handleNodeResponse empty_value O id n result) (fun _ w' =>
    accessing id nodes x sent completed (log ++ [(p, result)]) w' /\
    match left_of id n w' with Some c' => cn_data c < cn_data c' | None => True end /\
    forall n', n' <> n -> left_of id n' w' = left_of id n' w) w.
Proof.
  intros Hw Hm Hc Hpr.
  destruct (accessing_waits _ _ _ _ _ _ _ _ _ _ Hw Hm Hc) as (Hp & Hx & Hcl & Hg & Hin & Hlen & rs & k & reg & p' & Hs & Ht & Hreg & Hpr' & Hask & Ho & Hd & Hto).
  rewrite Hpr in Hpr'. injection Hpr' as <-. pose proof Hask as (Hpn & _).
  destruct Hw as (Hok & _ & Hst). rewrite Hm in Hst. destruct Hst as (_ & _ & Hcm). subst x.
  assert (Z.to_nat (cn_data c) = k) as Hdk by (rewrite Hd; apply Nat2Z.id).
  eapply wp_mono; [by apply (ar_wp_handleNodeResponse empty_value O Hclock id m n c reg result w Hm Hc Hcl Hg Hlen); rewrite Hdk|].
  intros [] w' (rs' & o & Hf & Ha & rs'' & -> & Href).
  assert (left_of id n w' = o) as Hl by (rewrite (finished_left _ _ n _ _ _ Hf); apply lookup_partial_alter_eq).
  assert (forall n', n' <> n -> left_of id n' w' = left_of id n' w) as Hl'.
  { intros n' Hne. rewrite (finished_left _ _ n' _ _ _ Hf). cbn. rewrite lookup_partial_alter_ne by done.
    unfold left_of. by rewrite Hm. }
  set (rs' := ar_result empty_value n reg result :: rs'') in *. pose proof Ha as (_ & Hle & Hnode & Hkeys & Hend). rewrite Hdk in Hle, Hkeys, Hend.
  split; [|split; [|done]].
  2:{ rewrite Hl. destruct o; [|done]. destruct Hend as (_ & -> & _). rewrite Hd. unfold rs'. cbn [length]. lia. }
  split; [|split].
  - eapply response_ok; [exact Hok|exact Hm|done|exact Hf|]. intros c' ->. by eapply ar_accesses_pending.
  - exists (rs ++ rs'). split.
    { rewrite (fin_sent _ _ _ _ _ Hf), Hs. cbn [fmap list_fmap fst snd concat]. by rewrite app_nil_r, fmap_app, <- app_assoc. }
    intros n'. rewrite from_snoc. destruct (decide (n' = n)) as [->|Hne].
    + rewrite (decide_True (P := n ∈ nodes)), (decide_True (P := pr_node_id p = n)) by done. right.
      exists (k + length rs')%nat. split; [exact Hle|].
      rewrite own_app, (own_all _ n rs') by exact Hnode. split.
      * rewrite <- take_take_drop. apply accessed_app; [exact Ho|]. rewrite (drop_S _ reg) by done. unfold rs' in *. cbn [length take] in *.
        apply accessed_answered; [done|]. apply refused_accessed; [|exact Href].
        rewrite <- fmap_drop, (drop_S _ reg) in Hkeys by done. cbn in Hkeys. injection Hkeys as _ Hkeys. by rewrite fmap_take.
      * rewrite Hl. destruct o; [|exact Hend]. destruct Hend as (_ & ? & _ & Ht' & _). by rewrite Ht'.
    + rewrite (decide_False (P := pr_node_id p = n')) by congruence. rewrite app_nil_r.
      specialize (Ht n'). rewrite own_app, (own_none _ n' n rs') by (done || congruence). rewrite app_nil_r, Hl' by done. exact Ht.
  - destruct Hf as [_ _ _ Hfm]. case_decide; destruct Hfm as [-> Hcm']; [by rewrite Hcm', Hcm|]. by rewrite Hcm'.
Qed.

Lemma accessing_conversation id nodes x sent completed w log' w' :
  access_conversation id w log' w' -> forall log, accessing id nodes x sent completed log w -> accessing id nodes x sent completed (log ++ log') w'.
Proof.
  induction 1 as [|w n m c p result log' w1 w2 Hm Hc Hpr Hrun _ IH]; intros log Hw; [by rewrite app_nil_r|].
  rewrite cons_middle, app_assoc. apply IH.
  pose proof (accessing_answer _ _ _ _ _ _ _ _ _ _ _ result Hw Hm Hc Hpr) as H. unfold wp in H. rewrite Hrun in H. apply H.
Qed.

(** Node [n] was asked for a register; any result is a step to fewer answers to come. *)
Definition access_awaits id (nodes : gset NodeId) x n (c : NodeContext Z (RegKeyValue Val)) w : Prop :=
  n ∈ nodes /\ exists p reg, promise c = Some p /\ reg ∈ x /\ asked O n timeout reg p /\
    forall result, exists w', handleNodeResponse empty_value O id n result w = Done (tt, w') /\
      (answers_left (fun _ => length x) id w' < answers_left (fun _ => length x) id w)%nat.

(** While the machine exists, some node is asked for a register, and every answer
    leaves fewer answers to come. *)
Lemma accessing_step id nodes x sent completed log w m :
  accessing id nodes x sent completed log w -> id_to_fsm_ w !! id = Some m ->
  node_id_to_cnxt_ m <> ∅ /\ forall n c, node_id_to_cnxt_ m !! n = Some c -> access_awaits id nodes x n c w.
Proof.
  intros Hw Hm. pose proof Hw as (Hok & _ & Hst). rewrite Hm in Hst. destruct Hst as (Hp & _ & _).
  destruct (Service_machine_ok _ id m w Hok Hm) as [_ Hmo]. rewrite Hp in Hmo. destruct Hmo as [Hne _].
  split; [done|]. intros n c Hc.
  destruct (accessing_waits _ _ _ _ _ _ _ _ _ _ Hw Hm Hc) as (_ & _ & _ & _ & Hin & _ & rs & k & reg & p & _ & _ & Hreg & Hpr & Ha & _ & Hd & _).
  split; [done|]. exists p, reg. split; [done|]. split; [by eapply list_elem_of_lookup_2|]. split; [done|]. intros result.
  pose proof (accessing_answer _ _ _ _ _ _ _ _ _ _ _ result Hw Hm Hc Hpr) as H. apply wp_Done in H as ([] & w' & Hrun & _ & Hl & Hl').
  apply lookup_lt_Some in Hreg. exists w'. split; [done|]. eapply answers_left_decrease; [done|done|lia|lia|exact Hl|done].
Qed.

(** ** What the user gets *)

(** The value or the error for a result. *)
Definition access_value (result : PromiseResult Val) : Val + Error :=
  match result with Success v => inl v | Failure cy => inr (on_wire (cyErrorToSdkError cy)) end.

(** The items for some registers of a node, with its answers: each has what the node
    answered to the request for that register, or why it was not asked. *)
Inductive items_of n : list (RegKeyValue Val) -> list Answer -> list (bytes * (Val + Error)) -> Prop :=
| items_none : items_of n [] [] []
| items_answered reg x p result log items :
    asked O n timeout reg p -> items_of n x log items ->
    items_of n (reg :: x) ((p, result) :: log) ((key reg, access_value result) :: items)
| items_refused reg x cy log items :
    cy_refuses O n cy -> items_of n x log items ->
    items_of n (reg :: x) log ((key reg, inr (on_wire (cyErrorToSdkError cy))) :: items).

(** The result for a node: that there is no client for it, or all the registers, in order. *)
Definition accesses n x log (result : NodeResult (list (bytes * (Val + Error)))) : Prop :=
  match result with
  | inl e => log = [] /\ exists cy, cy_refuses O n cy /\ e = on_wire (cyErrorToSdkError cy)
  | inr items => items_of n x log items
  end.

Lemma accessed_items n x log rs :
  accessed n x log rs -> items_of n x log (access_item <$> rs) /\ Forall2 (fun reg r => res_node_id r = n /\ key (res_register r) = key reg) x rs.
Proof.
  induction 1 as [|reg x p result log rs Ha _ [IH IH']|reg x cy log rs Hcy _ [IH IH']]; [by split; constructor|..].
  - split; [|constructor; [by destruct result|done]]. cbn [fmap list_fmap].
    assert (access_item (ar_result empty_value n reg result) = (key reg, access_value result)) as ->; [|by constructor].
    unfold access_item, ar_result. destruct result as [v|cy]; cbn [res_register res_error response key value]; [done|].
    change (Some (cyErrorToSdkError cy)) with (cyFailureToOptError cy). by rewrite cy_failure_seen.
  - split; [|by constructor]. cbn [fmap list_fmap]. unfold access_item at 1. cbn [res_register res_error response key value].
    rewrite cy_failure_seen. by constructor.
Qed.

Lemma accessed_collects n x log rs :
  x <> [] -> Forall (fun reg => key reg <> []) x -> accessed n x log (own_of n rs) ->
  exists result, collect_all ∅ rs !! n = Some result /\ accesses n x log result.
Proof.
  intros Hx Hkeys Ha. rewrite access_collects_own. pose proof (accessed_length _ _ _ _ Ha) as Hlen.
  apply accessed_items in Ha as [Hi Ha]. exists (inr (access_item <$> own_of n rs)). split; [|done].
  apply access_collects; [|intros Hnil; rewrite Hnil in Hlen; by destruct x].
  clear Hx Hlen Hi. induction Ha as [|reg r x' rs' [Hn Hk] _ IH]; [by constructor|]. apply Forall_cons in Hkeys as [Hk' Hkeys].
  constructor; [|by apply IH]. by rewrite Hk.
Qed.

Lemma accessing_end id nodes x sent completed log w :
  accessing id nodes x sent completed log w -> id_to_fsm_ w !! id = None -> x <> [] -> Forall (fun reg => key reg <> []) x ->
  exists rs, sv_sent w = sent ++ (pair id <$> rs) /\ sv_completed w = completed ++ [(id, None)] /\
    forall n, if decide (n ∈ nodes) then exists result, collect_all ∅ rs !! n = Some result /\ accesses n x (from n log) result
              else from n log = [] /\ collect_all ∅ rs !! n = None.
Proof.
  intros (_ & (rs & Hs & Ht) & Hst) Hgone Hx Hkeys. rewrite Hgone in Hst. exists rs. split; [done|]. split; [done|]. intros n.
  specialize (Ht n). assert (left_of id n w = None) as Hl by (unfold left_of; by rewrite Hgone). rewrite Hl in Ht. case_decide.
  - destruct Ht as [(cy & Hcy & Hlog & Ho & _)|(k & _ & Ho & ->)]; [|by rewrite firstn_all in Ho; apply accessed_collects].
    exists (inl (on_wire (cyErrorToSdkError cy))). split; [|split; [done|by exists cy]]. rewrite access_collects_own, Ho. cbn [foldl].
    unfold AccessClient.accessInput, error_reg. cbn [res_node_id res_register res_error response key]. rewrite cy_failure_seen.
    destruct (decide _) as [_|Hk]; [|done]. unfold emplace. rewrite lookup_empty. apply lookup_insert_eq.
  - destruct Ht as (Hlog & Ho & _). by rewrite access_collects_own, Ho.
Qed.

(** ** From the SDK to the nodes and back *)
Context {CEnv : Type} (channel : Outgoing (Request Val) -> CEnv -> OptError * CEnv) (Hall : takes_all channel).
(** The capacity of the name of a register. *)
Context (capacity : Z).

(** Names that a request can carry. *)
Definition names_fit (keys : list bytes) : Prop := Forall (fun key => key <> [] /\ Z.of_nat (length key) <= capacity) keys.

Lemma names_fit_refused {A} (name : A -> bytes) (l : list A) :
  names_fit (name <$> l) -> existsb (fun a => capacity <? Z.of_nat (length (name a))) l = false.
Proof.
  induction l as [|a l IH]; intros Hf; [done|]. apply Forall_cons in Hf as [[_ Ha] Hf]. cbn [existsb].
  rewrite (proj2 (Z.ltb_ge _ _)) by done. by apply IH.
Qed.

(** What the user of a sender gets: one result, with the outcome for each node. *)
Definition user_gets (node_ids : list NodeId) x (requests : list (Request Val)) log
    (client : Client (Request Val) (NodeResult (list (bytes * (Val + Error)))) CEnv
                (Error + gmap NodeId (NodeResult (list (bytes * (Val + Error)))))) : Prop :=
  cl_out client = (OutRequest <$> requests) ++ [OutComplete true] /\
  exists m, received client = [inr m] /\
    forall n, if decide (n ∈ node_ids) then exists result, m !! n = Some result /\ accesses n x (from n log) result
              else from n log = [] /\ m !! n = None.

(** C9: writing and reading registers, from the SDK to the nodes and back. The SDK
    client asks for some registers of some nodes, at least one of each, fewer than 2^16
    registers with names that are not empty and fit a request, with a timeout below 2^62
    microseconds. The daemon takes its requests, and its promises get any results, in any
    order. While the machine of the channel exists, some node is waiting; every node that
    waits was asked for one of the registers, with exactly the name and the value of the
    user and the timeout of the user, and any result for it leaves fewer answers to come;
    so the machine goes. Then the channel was completed
    exactly once and without error, and when its responses arrive, the sender of
    [write] (or of [read], when the values are empty) gives the user one result:
    a map of exactly the nodes that were asked for, each with all the registers in the
    order of the request, and for each of them what the node answered to the request for
    that register, with that value, or why it was not
    asked; or with the error for which there is no client of that node. *)
Theorem access_end_to_end (node_ids : list NodeId) (registers : list (RegKeyValue Val)) w cenv :
  Ar_ok w -> next_fsm_id_ w < 2 ^ 64 - 1 -> node_ids <> [] -> registers <> [] -> 0 <= timeout < 2 ^ 62 ->
  Z.of_nat (length registers) < 2 ^ 16 -> names_fit (key <$> registers) ->
  let id := next_fsm_id_ w in
  let requests := AccessClient.make_write node_ids registers timeout in
  wp (deliver [] handleInput (handleCompletedEvent empty_value O) id requests) (fun _ w1 => forall log w2, access_conversation id w1 log w2 ->
    match id_to_fsm_ w2 !! id with
    | Some m => node_id_to_cnxt_ m <> ∅ /\
        forall n c, node_id_to_cnxt_ m !! n = Some c -> access_awaits id (list_to_set node_ids) registers n c w2
    | None => exists rs, sv_sent w2 = sv_sent w ++ (pair id <$> rs) /\ sv_completed w2 = sv_completed w ++ [(id, None)] /\
        wp (sender ← RegistryClient.write channel rs None capacity node_ids registers timeout; Execution.submit sender user_receiver)
           (fun _ => user_gets node_ids registers requests log) (new_client [] cenv) /\
        forall keys, registers = (fun key => mkReg key empty_value) <$> keys ->
          wp (sender ← RegistryClient.read empty_value channel rs None capacity node_ids keys timeout; Execution.submit sender user_receiver)
             (fun _ => user_gets node_ids registers requests log) (new_client [] cenv)
    end) w.
Proof.
  intros Hok Hnx Hn Hx Ht Hlen Hkeys id requests. destruct (access_requests node_ids registers Ht Hlen) as [Hreq Hview].
  eapply (wp_deliver [] handleInput _ _ ar_request_ok access_view add_request access_collects_requests);
    [by apply new_machine_ok|done|done| |rewrite access_view_new; exact Hreq|].
  { unfold requests, AccessClient.make_write. intros Hnil. apply app_eq_nil in Hnil as [Hnil _]. by eapply chunks_ne in Hnil. }
  intros w0 H0. rewrite access_view_new in H0.
  fold requests in Hview. rewrite Hview in H0. eapply wp_mono; [apply wp_access_begin; [exact H0| |done]|].
  { destruct node_ids as [|n node_ids]; [done|]. cbn. clear. set_solver. }
  intros [] w1 H1 log w2 Hcv. pose proof (accessing_conversation _ _ _ _ _ _ _ _ Hcv [] H1) as H2. cbn [app] in H2.
  destruct (id_to_fsm_ w2 !! id) as [m|] eqn:Hm; [by eapply accessing_step|].
  assert (Forall (fun reg => key reg <> []) registers) as Hne.
  { unfold names_fit in Hkeys. apply Forall_fmap in Hkeys. eapply Forall_impl; [exact Hkeys|]. by intros reg []. }
  destruct (accessing_end _ _ _ _ _ _ _ H2 Hm Hx Hne) as (rs & Hs & Hc & Hall'). exists rs. split; [done|]. split; [done|].
  assert (forall n, if decide (n ∈ node_ids) then exists result, collect_all ∅ rs !! n = Some result /\ accesses n registers (from n log) result
                    else from n log = [] /\ collect_all ∅ rs !! n = None) as Hres.
  { intros n. specialize (Hall' n). destruct (decide (n ∈ node_ids)) as [Hi|Hi].
    - by rewrite decide_True in Hall' by (by apply elem_of_list_to_set).
    - by rewrite decide_False in Hall' by (by rewrite elem_of_list_to_set). }
  pose proof (wp_as_sender channel AccessClient.accessInput rs None Hall user_receiver (fun r => r) requests cenv ltac:(done)) as Hw.
  assert (forall client, served requests (collected AccessClient.accessInput rs None) client -> user_gets node_ids registers requests log client) as Hgets.
  { intros client [Hout Hrec]. split; [exact Hout|]. eexists. split; [exact Hrec|exact Hres]. }
  split.
  - unfold RegistryClient.write. rewrite (names_fit_refused key) by exact Hkeys.
    eapply wp_mono; [exact Hw|]. intros [] client. apply Hgets.
  - intros keys ->. rewrite <- list_fmap_compose in Hkeys. unfold RegistryClient.read.
    rewrite (names_fit_refused (fun key => key) keys).
    + assert (AccessClient.make_read empty_value node_ids keys timeout = requests) as ->
        by (unfold requests, AccessClient.make_read, AccessClient.make_write, AccessClient.buildReadRegisterRequests, AccessClient.buildWriteRegisterRequests;
            by rewrite <- list_fmap_compose).
      eapply wp_mono; [exact Hw|]. intros [] client. apply Hgets.
    + rewrite list_fmap_id. erewrite list_fmap_ext in Hkeys; [rewrite list_fmap_id in Hkeys; exact Hkeys|]. done.
Qed.
End AccessEndToEnd.

(** Two registers, and a channel that takes everything. *)
Module AccessEndToEndExample.
Definition channel : Outgoing (AccessRegs.Request bool) -> unit -> OptError * unit := fun _ e => (None, e).
Definition registers : list (AccessRegs.RegKeyValue bool) := [AccessRegsExample.reg_a; AccessRegsExample.reg_b].
End AccessEndToEndExample.

Lemma access_end_to_end_witness :
  let O := AccessRegsExample.oracles in
  let registers := AccessEndToEndExample.registers in
  let requests := AccessClient.make_write [42; 43] registers 1000000 in
  wp (deliver [] AccessRegs.handleInput (AccessRegs.handleCompletedEvent false O) 0 requests) (fun _ w1 =>
    forall log w2, access_conversation false O 0 w1 log w2 ->
    match id_to_fsm_ w2 !! 0 with
    | Some m => node_id_to_cnxt_ m <> ∅ /\
        forall n c, node_id_to_cnxt_ m !! n = Some c -> access_awaits false O 1000000 0 (list_to_set [42; 43]) registers n c w2
    | None => exists rs, sv_sent w2 = [] ++ (pair 0 <$> rs) /\ sv_completed w2 = [] ++ [(0, None)] /\
        wp (sender ← RegistryClient.write AccessEndToEndExample.channel rs None 255 [42; 43] registers 1000000;
            Execution.submit sender user_receiver)
           (fun _ => user_gets O 1000000 [42; 43] registers requests log) (new_client [] tt) /\
        forall keys, registers = (fun key => AccessRegs.mkReg key false) <$> keys ->
          wp (sender ← RegistryClient.read false AccessEndToEndExample.channel rs None 255 [42; 43] keys 1000000;
              Execution.submit sender user_receiver)
             (fun _ => user_gets O 1000000 [42; 43] registers requests log) (new_client [] tt)
    end) (mkService ∅ 0 [] [] tt).
Proof.
  apply (access_end_to_end false AccessRegsExample.oracles 1000000 AccessRegsExample.ar_clock
           ltac:(by intros cs) AccessEndToEndExample.channel ltac:(by intros o e) 255
           [42; 43] AccessEndToEndExample.registers (mkService ∅ 0 [] [] tt) tt).
  - apply no_machine_ok.
  - vm_compute. reflexivity.
  - discriminate.
  - discriminate.
  - lia.
  - cbn. lia.
  - repeat constructor; try discriminate; cbn; lia.
Defined.
