(* ===== verification/Startup.v ===== *)
(** * Starting the daemon's engine, and the SDK's connection to it

    Models [Engine::init] of [src/daemon/engine/engine.cpp] with the registration
    of the services ([src/daemon/engine/svc/*/services.cpp], and the names in
    [src/common/svc]), and [DaemonImpl::start] of [src/sdk/daemon.cpp]: in which
    order the parts are made, and what happens when one cannot be made.

    The parts themselves are modelled in their own files; here each is an
    operation of the environment that may fail. Log messages, and the texts of
    the failures, are left out. *)
From S2P Require Import Prelude Errors SocketBuffer SocketAddress Gateway WireExample ServerRouter Channel Config.

Local Open Scope Z_scope.

(** ** The services *)
Inductive Service : Type :=
| ExecCmd | ListRegisters | AccessRegisters
| RawPublisher | RawRpcClient | RawSubscriber
| ListRoots | PopRoot | PushRoot.

#[export] Instance Service_eq_dec : EqDecision Service.
Proof. solve_decision. Defined.

(** [Spec::svc_full_name]: the daemon and the SDK use the same. *)
Definition svc_full_name (s : Service) : bytes :=
  match s with
  | ExecCmd => str "ocvsmd.svc.node.exec_cmd"
  | ListRegisters => str "ocvsmd.svc.node.list_registers"
  | AccessRegisters => str "ocvsmd.svc.node.access_registers"
  | RawPublisher => str "ocvsmd.svc.relay.raw_publisher"
  | RawRpcClient => str "ocvsmd.svc.relay.raw_rpc_client"
  | RawSubscriber => str "ocvsmd.svc.relay.raw_subscriber"
  | ListRoots => str "ocvsmd.svc.file_server.list_roots"
  | PopRoot => str "ocvsmd.svc.file_server.pop_root"
  | PushRoot => str "ocvsmd.svc.file_server.push_root"
  end.

(** [registerAllServices] of the three groups. *)
Definition node_services : list Service := [ExecCmd; ListRegisters; AccessRegisters].
Definition relay_services : list Service := [RawPublisher; RawRpcClient; RawSubscriber].
Definition file_server_services : list Service := [ListRoots; PopRoot; PushRoot].

(** The identifier that a channel of a service carries, on either side. *)
Definition service_id (crc64 : bytes -> Z) (s : Service) : Z := sd_id (getServiceDesc crc64 [] (svc_full_name s)).

Definition registerAllServices {Hd Env} `{Codec Route} (crc64 : bytes -> Z) (services : list Service) :
    M (Server.Router Hd Service Env) unit :=
  mfor services (fun s => Server.registerChannelFactory (service_id crc64 s) s).

Inductive TransportKind : Type := Udp | Can.

(** Why [init] failed. *)
Inductive InitError : Type :=
| TransportFailed
| NodeFailed (failure : CyError)
| ProviderFailed
| NoIpcConnections
| ConnectionInvalid (failure : Error)
| RouterFailed (error : Error).

Section Engine.
Context {T : Type} `{Toml T} {Hd REnv E : Type} `{Codec Route}.

(** The parts that the engine makes. *)
Record Parts := mkParts {
  make_udp_transport : Config T -> E -> bool * E;
  make_can_transport : Config T -> E -> bool * E;
  set_local_node_id : Z -> E -> E;
  make_node : E -> option CyError * E;
  random_id : E -> bytes * E;
  make_file_provider : Config T -> E -> bool * E;
  start_router : SocketAddress -> E -> OptError * E;
}.

(** [Engine], and the rest of the world. *)
Record Engine := mkEngine {
  config_ : Config T;
  disk : gmap bytes bytes;
  any_transport_bag_ : option TransportKind;
  local_node_id : option Z;
  node_ : bool;
  unique_id : option bytes;
  file_provider_ : bool;
  ipc_router_ : Server.Router Hd Service REnv;
  socket_address : option SocketAddress;
  started : bool;
  en_env : E;
}.

Context (parts : Parts) (inet_pton : Z -> bytes -> PtonResult) (crc64 : bytes -> Z)
  (now : Z) (write : bytes -> bytes -> option bytes).
Abbreviation W := Engine.

Definition en_call {A} (f : E -> A * E) : M W A := fun w =>
  let '(a, e) := f (en_env w) in
  Done (a, mkEngine (config_ w) (disk w) (any_transport_bag_ w) (local_node_id w) (node_ w) (unique_id w) (file_provider_ w)
             (ipc_router_ w) (socket_address w) (started w) e).

Definition set_transport (k : TransportKind) (w : W) : W :=
  mkEngine (config_ w) (disk w) (Some k) (local_node_id w) (node_ w) (unique_id w) (file_provider_ w)
    (ipc_router_ w) (socket_address w) (started w) (en_env w).
Definition set_node_id (id : Z) (w : W) : W :=
  mkEngine (config_ w) (disk w) (any_transport_bag_ w) (Some id) (node_ w) (unique_id w) (file_provider_ w)
    (ipc_router_ w) (socket_address w) (started w) (set_local_node_id parts id (en_env w)).
Definition set_node (w : W) : W :=
  mkEngine (config_ w) (disk w) (any_transport_bag_ w) (local_node_id w) true (unique_id w) (file_provider_ w)
    (ipc_router_ w) (socket_address w) (started w) (en_env w).
Definition set_unique_id (c : Config T) (d : gmap bytes bytes) (id : bytes) (w : W) : W :=
  mkEngine c d (any_transport_bag_ w) (local_node_id w) (node_ w) (Some id) (file_provider_ w)
    (ipc_router_ w) (socket_address w) (started w) (en_env w).
Definition set_provider (w : W) : W :=
  mkEngine (config_ w) (disk w) (any_transport_bag_ w) (local_node_id w) (node_ w) (unique_id w) true
    (ipc_router_ w) (socket_address w) (started w) (en_env w).
Definition set_address (a : SocketAddress) (w : W) : W :=
  mkEngine (config_ w) (disk w) (any_transport_bag_ w) (local_node_id w) (node_ w) (unique_id w) (file_provider_ w)
    (ipc_router_ w) (Some a) (started w) (en_env w).
Definition set_router (r : Server.Router Hd Service REnv) (w : W) : W :=
  mkEngine (config_ w) (disk w) (any_transport_bag_ w) (local_node_id w) (node_ w) (unique_id w) (file_provider_ w)
    r (socket_address w) (started w) (en_env w).
Definition set_started (w : W) : W :=
  mkEngine (config_ w) (disk w) (any_transport_bag_ w) (local_node_id w) (node_ w) (unique_id w) (file_provider_ w)
    (ipc_router_ w) (socket_address w) true (en_env w).

(** A computation of the router. *)
Definition on_router {A} (m : M (Server.Router Hd Service REnv) A) : M W A := fun w =>
  match m (ipc_router_ w) with Done (a, r) => Done (a, set_router r w) | Undef => Undef end.

(** 1. The transport: UDP if it can be made, or else CAN. *)
Definition init_transport : M W bool :=
  config ← gets config_;
  maybe_udp_transport_bag ← en_call (make_udp_transport parts config);
  if maybe_udp_transport_bag : bool then modify (set_transport Udp);; mret true
  else
    maybe_can_transport_bag ← en_call (make_can_transport parts config);
    if maybe_can_transport_bag : bool then modify (set_transport Can);; mret true
    else mret false.

(** 6. The router, its services and its address. *)
Definition init_ipc : M W (option InitError) :=
  ipc_connections ← gets (fun w => getIpcConnections (config_ w));
  match ipc_connections with
  | [] => mret (Some NoIpcConnections)
  | front :: _ =>
      match SocketAddress.parse inet_pton front 0 with
      | inr failure => mret (Some (ConnectionInvalid failure))
      | inl address =>
          modify (set_address address);;
          on_router (registerAllServices crc64 node_services);;
          on_router (registerAllServices crc64 relay_services);;
          on_router (registerAllServices crc64 file_server_services);;
          opt_error ← en_call (start_router parts address);
          match opt_error with
          | Some error => mret (Some (RouterFailed error))
          | None => modify set_started;; mret None
          end
      end
  end.

(** The node identifier, if one is configured; whether the transport takes it is not looked at. *)
Definition init_node_id : M W unit :=
  node_id ← gets (fun w => getCyphalAppNodeId (config_ w));
  match node_id with Some id => modify (set_node_id id) | None => mret tt end.

(** 2, 3, 4. The node, with its unique identifier. *)
Definition init_node : M W (option InitError) :=
  maybe_node ← en_call (make_node parts);
  match maybe_node with
  | Some failure => mret (Some (NodeFailed failure))
  | None =>
      modify set_node;;
      random ← en_call (random_id parts);
      w ← gets (fun w => w);
      '(id, c, d) ← ofOutcome (getUniqueId random now write (config_ w) (disk w));
      modify (set_unique_id c d id);;
      mret None
  end.

(** 5. The file provider. *)
Definition init_provider : M W (option InitError) :=
  config ← gets config_;
  file_provider ← en_call (make_file_provider parts config);
  if negb file_provider then mret (Some ProviderFailed)
  else modify set_provider;; mret None.

(** [return], if a part failed. *)
Definition or_else (m : M W (option InitError)) (k : M W (option InitError)) : M W (option InitError) :=
  opt_error ← m;
  match opt_error with Some error => mret (Some error) | None => k end.

(** [Engine::init] *)
Definition init : M W (option InitError) :=
  has_transport ← init_transport;
  if negb has_transport then mret (Some TransportFailed)
  else
    init_node_id;;
    or_else init_node (or_else init_provider init_ipc).
End Engine.
Arguments Parts : clear implicits.
Arguments Engine : clear implicits.

(** ** The services are ready before a client is served *)

Lemma service_names_distinct s s' : svc_full_name s = svc_full_name s' -> s = s'.
Proof. destruct s, s'; vm_compute; congruence. Qed.

(** Every service of the SDK's clients. *)
Lemma all_services s : s ∈ node_services ++ relay_services ++ file_server_services.
Proof. destruct s; set_solver. Qed.
Section InitFacts.
Context {T : Type} `{Toml T} {Hd REnv E : Type} `{Codec Route}
  (parts : Parts T E) (inet_pton : Z -> bytes -> PtonResult) (crc64 : bytes -> Z)
  (now : Z) (write : bytes -> bytes -> option bytes).
Abbreviation W := (Engine T Hd REnv E).
Abbreviation R := (Server.Router Hd Service REnv).

(** The checksum tells the names apart. *)
Context (Hcrc : forall s s', crc64 (svc_full_name s) = crc64 (svc_full_name s') -> s = s').

(** The services [l] are registered: their channels are given to them. *)
Definition registered (l : list Service) (r : R) : Prop :=
  forall s, s ∈ l -> Server.service_id_to_channel_factory_ r !! service_id crc64 s = Some s.

Lemma service_id_inj s s' : service_id crc64 s = service_id crc64 s' -> s = s'.
Proof. intros Heq. apply Hcrc. by destruct s, s'. Qed.

Lemma wp_registerAll l l' (r : R) :
  registered l r -> wp (registerAllServices crc64 l') (fun _ r' => registered (l ++ l') r') r.
Proof.
  unfold registerAllServices. revert l r. induction l' as [|s l' IH]; intros l r Hr; cbn [mfor].
  - apply wp_ret. by rewrite app_nil_r.
  - apply wp_bind. unfold Server.registerChannelFactory. apply wp_modify. eapply wp_mono; [apply (IH (l ++ [s]))|].
    + intros s' Hs'. cbn. destruct (decide (s' = s)) as [->|Hne]; [apply lookup_insert_eq|].
      rewrite lookup_insert_ne by (intros Heq; by apply Hne, service_id_inj). apply Hr.
      apply elem_of_app in Hs' as [Hs'|Hs']; [done|]. by apply list_elem_of_singleton in Hs'.
    + intros [] r' Hr'. by rewrite <- app_assoc in Hr'.
Qed.

Lemma wp_en_call {A} (f : E -> A * E) (Q : A -> W -> Prop) w :
  (forall a e, f (en_env w) = (a, e) -> Q a (mkEngine (config_ w) (disk w) (any_transport_bag_ w) (local_node_id w) (node_ w) (unique_id w)
     (file_provider_ w) (ipc_router_ w) (socket_address w) (started w) e)) -> wp (en_call f) Q w.
Proof. intros HQ. unfold wp, en_call. destruct (f (en_env w)) as [a e]. by apply HQ. Qed.

Lemma wp_on_router {A} (m : M R A) (Q : A -> W -> Prop) (Qr : A -> R -> Prop) w :
  wp m Qr (ipc_router_ w) -> (forall a r, Qr a r -> Q a (set_router r w)) -> wp (on_router m) Q w.
Proof. unfold wp, on_router. destruct (m (ipc_router_ w)) as [[a r]|]; auto. Qed.

(** *** How an initialisation may end
    Starting with the configuration [config], the disk [d] and the world [e]. *)

(** A transport could be made. *)
Inductive transport_made (config : Config T) (e : E) : TransportKind -> E -> Prop :=
| made_udp e1 : make_udp_transport parts config e = (true, e1) -> transport_made config e Udp e1
| made_can e1 e2 :
    make_udp_transport parts config e = (false, e1) -> make_can_transport parts config e1 = (true, e2) -> transport_made config e Can e2.

(** The world once the transport has been given its node identifier, if there is one. *)
Definition identified (config : Config T) (e : E) : E :=
  match getCyphalAppNodeId config with Some id => set_local_node_id parts id e | None => e end.

(** The node was made, and has its unique identifier, which may be a new one in the configuration. *)
Definition node_made (config : Config T) (d : gmap bytes bytes) (e : E) (c : Config T) (e2 : E) : Prop :=
  exists e1 random id d', make_node parts e = (None, e1) /\ random_id parts e1 = (random, e2) /\
    getUniqueId random now write config d = Done (id, c, d').

(** Everything that the router needs was made. *)
Definition provided (config : Config T) (d : gmap bytes bytes) (e : E) (c : Config T) (e3 : E) : Prop :=
  exists k e1 e2, transport_made config e k e1 /\ node_made config d (identified config e1) c e2 /\
    make_file_provider parts c e2 = (true, e3).

(** The result, and the world that is left: the failure is that of the first part
    that could not be made, and all are made when there is none. *)
Inductive init_ends (config : Config T) (d : gmap bytes bytes) (e : E) : option InitError -> E -> Prop :=
| ends_transport e1 e2 :
    make_udp_transport parts config e = (false, e1) -> make_can_transport parts config e1 = (false, e2) ->
    init_ends config d e (Some TransportFailed) e2
| ends_node k e1 failure e2 :
    transport_made config e k e1 -> make_node parts (identified config e1) = (Some failure, e2) ->
    init_ends config d e (Some (NodeFailed failure)) e2
| ends_provider k e1 c e2 e3 :
    transport_made config e k e1 -> node_made config d (identified config e1) c e2 -> make_file_provider parts c e2 = (false, e3) ->
    init_ends config d e (Some ProviderFailed) e3
| ends_no_connection c e1 :
    provided config d e c e1 -> getIpcConnections c = [] -> init_ends config d e (Some NoIpcConnections) e1
| ends_connection c e1 front others failure :
    provided config d e c e1 -> getIpcConnections c = front :: others -> SocketAddress.parse inet_pton front 0 = inr failure ->
    init_ends config d e (Some (ConnectionInvalid failure)) e1
| ends_router c e1 front others address error e2 :
    provided config d e c e1 -> getIpcConnections c = front :: others -> SocketAddress.parse inet_pton front 0 = inl address ->
    start_router parts address e1 = (Some error, e2) -> init_ends config d e (Some (RouterFailed error)) e2
| ends_ready c e1 front others address e2 :
    provided config d e c e1 -> getIpcConnections c = front :: others -> SocketAddress.parse inet_pton front 0 = inl address ->
    start_router parts address e1 = (None, e2) -> init_ends config d e None e2.

(** What the engine is when its initialisation ended with [r]. *)
Definition engine_state (config : Config T) (d : gmap bytes bytes) (e : E) (r : option InitError) (w : W) : Prop :=
  init_ends config d e r (en_env w) /\
  (started w = true <-> r = None) /\
  match r with
  | Some TransportFailed => any_transport_bag_ w = None
  | _ => exists k e1, transport_made config e k e1 /\ any_transport_bag_ w = Some k /\ local_node_id w = getCyphalAppNodeId config
  end /\
  match r with
  | None | Some (RouterFailed _) =>
      registered (node_services ++ relay_services ++ file_server_services) (ipc_router_ w) /\
      node_ w = true /\ file_provider_ w = true /\ is_Some (unique_id w) /\
      exists front others address, getIpcConnections (config_ w) = front :: others /\
        SocketAddress.parse inet_pton front 0 = inl address /\ socket_address w = Some address
  | Some NoIpcConnections | Some (ConnectionInvalid _) => file_provider_ w = true /\ socket_address w = None
  | Some (NodeFailed _) => node_ w = false /\ file_provider_ w = false
  | Some _ => file_provider_ w = false
  end.

(** *** The states in between *)

(** The transport was made. *)
Definition with_transport (config : Config T) (e : E) (w : W) : Prop :=
  exists k e1, transport_made config e k e1 /\ any_transport_bag_ w = Some k /\ en_env w = identified config e1 /\
    local_node_id w = getCyphalAppNodeId config /\ started w = false /\ node_ w = false /\ file_provider_ w = false /\ socket_address w = None.

(** So was the node. *)
Definition with_node (config : Config T) (d : gmap bytes bytes) (e : E) (w : W) : Prop :=
  exists k e1, transport_made config e k e1 /\ any_transport_bag_ w = Some k /\ node_made config d (identified config e1) (config_ w) (en_env w) /\
    local_node_id w = getCyphalAppNodeId config /\ started w = false /\ node_ w = true /\ file_provider_ w = false /\ socket_address w = None /\
    is_Some (unique_id w).

(** So was the file provider. *)
Definition with_provider (config : Config T) (d : gmap bytes bytes) (e : E) (w : W) : Prop :=
  provided config d e (config_ w) (en_env w) /\ (exists k e1, transport_made config e k e1 /\ any_transport_bag_ w = Some k /\
    local_node_id w = getCyphalAppNodeId config) /\ started w = false /\ node_ w = true /\ file_provider_ w = true /\ socket_address w = None /\
    is_Some (unique_id w).

Lemma wp_init_ipc config d e w :
  with_provider config d e w -> wp (init_ipc parts inet_pton crc64) (engine_state config d e) w.
Proof.
  intros (Hp & Ht & Hs & Hn & Hf & Ha & Hu). unfold init_ipc. wp_steps.
  destruct (getIpcConnections (config_ w)) as [|front others] eqn:Ec.
  { apply wp_ret. split; [by eapply ends_no_connection|]. split; [by rewrite Hs|]. done. }
  destruct (parse inet_pton front 0) as [address|failure] eqn:Ep.
  2: { apply wp_ret. split; [by eapply ends_connection|]. split; [by rewrite Hs|]. done. }
  apply wp_bind, wp_modify. apply wp_bind. eapply wp_on_router; [apply (wp_registerAll []); by intros s ?%not_elem_of_nil|].
  intros [] r1 H1. apply wp_bind. eapply wp_on_router; [by apply wp_registerAll|].
  intros [] r2 Hr2. apply wp_bind. eapply wp_on_router; [by apply wp_registerAll|]. intros [] r3 Hr3. cbn [app] in Hr3.
  assert (registered (node_services ++ relay_services ++ file_server_services) r3) as Hall by (by rewrite app_assoc).
  apply wp_bind, wp_en_call. intros [error|] e2 Hstart.
  - apply wp_ret. split; [by eapply ends_router|]. cbn. rewrite Hs. split; [done|]. split; [done|].
    split; [done|]. do 3 (split; [done|]). by exists front, others, address.
  - wp_steps. split; [by eapply ends_ready|]. cbn. split; [done|]. split; [done|].
    split; [done|]. do 3 (split; [done|]). by exists front, others, address.
Qed.

Lemma wp_or_else (m k : M W (option InitError)) (Q : option InitError -> W -> Prop) (P : W -> Prop) w :
  wp m (fun r w' => match r with Some e => Q (Some e) w' | None => P w' end) w -> (forall w', P w' -> wp k Q w') -> wp (or_else m k) Q w.
Proof.
  intros Hm Hk. unfold or_else. apply wp_bind. eapply wp_mono; [exact Hm|]. intros [e|] w'; [by intros; apply wp_ret|apply Hk].
Qed.

Lemma wp_init_node config e (w : W) :
  with_transport config e w -> config_ w = config ->
  (is_Some (getCyphalAppUniqueId config) \/ forall id, exists c, setCyphalAppUniqueId id config = Done c) ->
  wp (init_node parts now write) (fun r w' =>
    match r with
    | Some error => engine_state config (disk w) e (Some error) w'
    | None => with_node config (disk w) e w'
    end) w.
Proof.
  intros (k & e1 & Ht & Hk & He & Hl & Hs & Hn & Hf & Ha) Hc Hid. unfold init_node. apply wp_bind, wp_en_call.
  intros [failure|] e2 Hnode; rewrite He in Hnode.
  { apply wp_ret. split; [by eapply ends_node|]. cbn. rewrite Hs. split; [done|]. split; [by exists k, e1|done]. }
  apply wp_bind, wp_modify. apply wp_bind, wp_en_call. intros random e3 Hrandom. cbn [en_env set_node] in Hrandom.
  apply wp_bind, wp_gets. apply wp_bind. cbn [config_ disk set_node]. rewrite Hc.
  assert (exists r, getUniqueId random now write config (disk w) = Done r) as [[[id c] d'] Hg].
  { unfold getUniqueId. destruct Hid as [[id ->]|Hid]; [by eexists|]. destruct (getCyphalAppUniqueId config); [by eexists|].
    destruct (Hid random) as [c ->]. destruct (save now write c (disk w)). by eexists. }
  eapply wp_ofOutcome; [exact Hg|]. cbn beta iota. apply wp_bind, wp_modify, wp_ret. exists k, e1.
  split; [done|]. split; [done|]. split; [by exists e2, random, id, d'|]. do 5 (split; [done|]). by eexists.
Qed.

Lemma wp_init_provider config d e (w : W) :
  with_node config d e w ->
  wp (init_provider parts) (fun r w' =>
    match r with
    | Some error => engine_state config d e (Some error) w'
    | None => with_provider config d e w'
    end) w.
Proof.
  intros (k & e1 & Ht & Hk & Hnode & Hl & Hs & Hn & Hf & Ha & Hu). unfold init_provider.
  apply wp_bind, wp_gets, wp_bind, wp_en_call. intros [] e3 Hp; cbn [negb].
  - apply wp_bind, wp_modify, wp_ret. split; [by exists k, e1, (en_env w)|]. by split; [exists k, e1|].
  - apply wp_ret. split; [by eapply ends_provider|]. cbn. rewrite Hs. split; [done|]. split; [by exists k, e1|done].
Qed.

Lemma wp_init_transport (w : W) :
  wp (init_transport parts) (fun r w' =>
    config_ w' = config_ w /\ disk w' = disk w /\ started w' = started w /\ local_node_id w' = local_node_id w /\ node_ w' = node_ w /\
    file_provider_ w' = file_provider_ w /\ socket_address w' = socket_address w /\
    if r : bool then exists k, transport_made (config_ w) (en_env w) k (en_env w') /\ any_transport_bag_ w' = Some k
    else any_transport_bag_ w' = any_transport_bag_ w /\
         forall d, init_ends (config_ w) d (en_env w) (Some TransportFailed) (en_env w')) w.
Proof.
  unfold init_transport. apply wp_bind, wp_gets. apply wp_bind, wp_en_call. intros [] e1 Hudp.
  { wp_steps. do 7 (split; [done|]). exists Udp. split; [by constructor|done]. }
  apply wp_bind, wp_en_call. intros [] e2 Hcan; wp_steps; do 7 (split; [done|]); cbn in Hcan.
  - exists Can. split; [by eapply made_can|done].
  - split; [done|]. intros d. by eapply ends_transport.
Qed.

(** C35: the engine is ready or it is not started. The parts are made in order: a
    transport (UDP if that can be made, and CAN otherwise, with the configured node
    identifier), the node with its unique identifier, the file provider, and the router
    with the nine services; the failure of [init] is that of the first part that could
    not be made, and later parts are not tried. [init] succeeds exactly when all could be
    made. Then the nine services were registered under the identifiers that
    the SDK's clients use before the router was started on the first configured
    connection. When it fails, nothing is started. That the names of the services have
    different checksums is a hypothesis, and so is that a new unique identifier can be
    stored in the configuration, if it has none. *)
Theorem engine_ready (w : W) :
  started w = false -> any_transport_bag_ w = None -> local_node_id w = None -> node_ w = false -> file_provider_ w = false ->
  socket_address w = None ->
  (is_Some (getCyphalAppUniqueId (config_ w)) \/ forall id, exists c, setCyphalAppUniqueId id (config_ w) = Done c) ->
  wp (init parts inet_pton crc64 now write) (engine_state (config_ w) (disk w) (en_env w)) w.
Proof.
  intros Hs Ht Hl Hn Hf Ha Hid. unfold init. apply wp_bind. eapply wp_mono; [apply wp_init_transport|].
  intros [] w1 (Hc1 & Hd1 & Hs1 & Hl1 & Hn1 & Hf1 & Ha1 & Ht1); cbn [negb].
  2: { apply wp_ret. destruct Ht1 as [Ht1 Hend]. split; [apply Hend|]. split; [by rewrite Hs1, Hs|]. by rewrite Ht1, Hf1. }
  destruct Ht1 as (k & Hmade & Hk). apply wp_bind.
  apply (wp_mono _ (fun _ w2 => with_transport (config_ w) (en_env w) w2 /\ config_ w2 = config_ w /\ disk w2 = disk w)).
  { unfold init_node_id. apply wp_bind, wp_gets. rewrite Hc1.
    destruct (getCyphalAppNodeId (config_ w)) as [id|] eqn:Eid; [apply wp_modify|apply wp_ret];
      (split; [exists k, (en_env w1); unfold identified; rewrite Eid|]); cbn; split_and!; congruence. }
  intros [] w2 (Hw2 & Hc2 & Hd2). rewrite <- Hd2. eapply wp_or_else; [by apply wp_init_node|]. intros w3 Hw3.
  eapply wp_or_else; [by apply wp_init_provider|]. intros w4 Hw4. by apply wp_init_ipc.
Qed.
End InitFacts.

(** ** The SDK's side *)
Section Sdk.
Context {E : Type} (start_client_router : SocketAddress -> E -> OptError * E) (inet_pton : Z -> bytes -> PtonResult).

(** [DaemonImpl]: the address of its router, and whether it has the clients of
    the file server, of commands and of registers. *)
Record DaemonImpl := mkDaemonImpl {
  sdk_router : option SocketAddress;
  file_server_ : bool;
  node_command_client_ : bool;
  node_registry_client_ : bool;
  sdk_env : E;
}.

(** [DaemonImpl::start] *)
Definition sdk_start (connection : bytes) : M DaemonImpl OptError :=
  match SocketAddress.parse inet_pton connection 0 with
  | inr failure => mret (Some failure)
  | inl address =>
      modify (fun d => mkDaemonImpl (Some address) true true true (sdk_env d));;
      liftF (fun d => let '(opt_error, e) := start_client_router address (sdk_env d) in
                      (opt_error, mkDaemonImpl (sdk_router d) (file_server_ d) (node_command_client_ d) (node_registry_client_ d) e))
  end.

(** [Daemon::make] *)
Definition Daemon_make (connection : bytes) (env : E) : outcome (option DaemonImpl) :=
  '(opt_error, d) ← sdk_start connection (mkDaemonImpl None false false false env);
  mret (match opt_error with Some _ => None | None => Some d end).

(** A daemon that is given to the user has all its clients, and its router was
    started on the address that the connection names. *)
Lemma daemon_make_complete connection env :
  match Daemon_make connection env with
  | Done (Some d) => exists address, SocketAddress.parse inet_pton connection 0 = inl address /\
      (start_client_router address env).1 = None /\ d = mkDaemonImpl (Some address) true true true (start_client_router address env).2
  | Done None => forall address, SocketAddress.parse inet_pton connection 0 = inl address -> is_Some (start_client_router address env).1
  | Undef => False
  end.
Proof.
  unfold Daemon_make, sdk_start. destruct (parse inet_pton connection 0) as [address|failure]; [|done].
  unfold mbind, outcome_bind, M_bind, modify, liftF. cbn [sdk_env].
  destruct (start_client_router address env) as [[error|] e] eqn:Es; cbn.
  - intros a [= <-]. by rewrite Es.
  - exists address. by rewrite Es.
Qed.
End Sdk.

(** ** An example *)
Module StartupExample.
(** Of the document only the connections and the identifier. *)
Record Doc := mkDoc { doc_connections : list bytes; doc_uid : bytes }.

#[export] Instance Doc_toml : Toml Doc := {
  find_strings d k := if decide (k = k_connections) then Some (doc_connections d) else None;
  find_string d k := None;
  find_u16 d k := if decide (k = k_node_id) then Some 42 else None;
  find_size d k := None;
  find_bytes16 d k := if decide (k = k_unique_id) then Some (doc_uid d) else None;
  set_strings k l d := None;
  set_bytes16 k u d := None;
  set_time k now d := None;
  toml_format d := [];
  toml_parse s := None;
  representable d := True;
}.

(** There is no UDP; everything else can be made. *)
Definition parts : Parts Doc unit :=
  mkParts (fun _ e => (false, e)) (fun _ e => (true, e)) (fun _ e => e) (fun e => (None, e)) (fun e => ([], e)) (fun _ e => (true, e))
    (fun _ e => (None, e)).

Definition pton (family : Z) (text : bytes) : PtonResult := PtonInvalid.

Definition engine : Engine Doc unit unit unit :=
  mkEngine (mkConfig [] (mkDoc [str "unix-abstract:ocvsmd"] (repeat x2a 16)) false) ∅ None None false None false
    (Server.mkRouter (mkHeap ∅ O []) ∅ ∅ [] tt) None false tt.
End StartupExample.

Section Witnesses.
Import WireExample StartupExample.

Lemma engine_ready_witness :
  wp (init parts pton le_value 0 (fun _ _ => None)) (engine_state parts pton le_value 0 (fun _ _ => None) (config_ engine) (disk engine) (en_env engine)) engine /\
  match init parts pton le_value 0 (fun _ _ => None) engine with Done (r, w) => (r, started w, local_node_id w) | Undef => (None, false, None) end
  = (None, true, Some 42).
Proof.
  split; [|vm_compute; reflexivity].
  assert (forall s s', le_value (svc_full_name s) = le_value (svc_full_name s') -> s = s') as Hcrc
    by (intros [] []; vm_compute; congruence).
  refine (engine_ready parts pton le_value 0 (fun _ _ => None) Hcrc engine eq_refl eq_refl eq_refl eq_refl eq_refl eq_refl _).
  left. vm_compute. by eexists.
Defined.
End Witnesses.
