(* ===== verification/DaemonMain.v ===== *)
(** * The daemon's process: becoming a daemon, telling the parent, and running

    Models [src/daemon/main.cpp] and the parts of [src/daemon/setup_logging.hpp]
    that report failures. A process is a computation that may end with [exit];
    its world has the table of descriptors, what was written to the pipe and to
    the standard error, and the operating system, which is a record of functions
    ([Sys]). [fork] returns in both processes: a run follows one of them,
    according to what [sys_fork] returns. Log messages are left out. *)
From S2P Require Import Prelude Errors.

Local Open Scope Z_scope.

Definition EXIT_SUCCESS := 0.
Definition EXIT_FAILURE := 1.
Definition INT_MAX := 2 ^ 31 - 1.

(** What a descriptor is. *)
Inductive Desc : Type :=
| PipeRead
| PipeWrite
| DevNull
| PidFile
| Stdio (n : Z)
| OtherFile.

#[export] Instance Desc_eq_dec : EqDecision Desc.
Proof. solve_decision. Defined.

(** How the initialisation of the engine ends. *)
Inductive InitResult : Type :=
| InitOk
| InitFailed (failure_str : bytes)
| InitThrew.

(** The operating system and the rest of the daemon: a call that can fail says
    whether it succeeded. [sys_load_config] and [sys_setup_logging] give the text
    of an exception; the former also nothing, for what is not a [std::exception]. The results of
    [sigaction] and [umask] are not used. *)
Record Sys (E : Type) := mkSys {
  sys_rlimit : E -> option Z * E;
  sys_pipe : E -> bool * E;
  sys_fork : E -> Z * E;
  sys_setsid : E -> bool * E;
  sys_open : bytes -> E -> bool * E;
  sys_chdir : bytes -> E -> bool * E;
  sys_lockf : E -> bool * E;
  sys_ftruncate : E -> bool * E;
  sys_write_pid : E -> bool * E;
  sys_read : E -> option bytes * E;
  sys_strerror : E -> bytes;
  sys_load_config : bytes -> E -> (option bytes + unit) * E;
  sys_logging_file : E -> option bytes;
  sys_setup_logging : bytes -> E -> option bytes * E;
  sys_engine_init : E -> InitResult * E;
  sys_sigaction : Z -> E -> E;
  sys_umask : Z -> E -> E;
}.
Arguments sys_rlimit {E}. Arguments sys_pipe {E}. Arguments sys_fork {E}. Arguments sys_setsid {E}.
Arguments sys_open {E}. Arguments sys_chdir {E}. Arguments sys_lockf {E}. Arguments sys_ftruncate {E}.
Arguments sys_write_pid {E}. Arguments sys_read {E}. Arguments sys_strerror {E}. Arguments sys_load_config {E}.
Arguments sys_logging_file {E}. Arguments sys_setup_logging {E}. Arguments sys_engine_init {E}. Arguments sys_sigaction {E}.
Arguments sys_umask {E}. Arguments mkSys {E}.

(** A process. *)
Record Process (E : Type) := mkProcess {
  table : gmap Z Desc;
  pipe_out : list bytes;
  err_out : list bytes;
  pr_env : E;
}.
Arguments mkProcess {E}. Arguments table {E}. Arguments pipe_out {E}. Arguments err_out {E}. Arguments pr_env {E}.

(** A computation of a process: it ends with a value, or the process exits. *)
Abbreviation Proc E := (Stops (Process E) Z).

(** The lowest descriptor that is free. *)
Definition lowest_free (t : gmap Z Desc) : Z :=
  default 0 (list_find (fun fd => t !! fd = None) (Z.of_nat <$> seq 0 (S (size t))) ≫= fun r => Some r.2).

(** ** Signals *)

Definition SIGINT := 2.
Definition SIGTERM := 15.

(** [signalHandler], on [g_running]. *)
Definition signalHandler (sig g_running : Z) : Z :=
  if (sig =? SIGTERM) || (sig =? SIGINT) then 0 else g_running.

(** What [runWhile] asks after every turn of the executor. *)
Definition keeps_running (g_running : Z) : bool := g_running =? 1.

Section Process.
Context {E : Type} (sys : Sys E).
Abbreviation P := (Proc E).

Definition exit {A} (code : Z) : P A := stop code.
Definition call {A} (f : E -> A * E) : P A := fun w =>
  let '(a, e) := f (pr_env w) in Done (inr a, mkProcess (table w) (pipe_out w) (err_out w) e).
Definition pgets {A} (f : Process E -> A) : P A := fun w => Done (inr (f w), w).
Definition update (f : Process E -> Process E) : P unit := fun w => Done (inr tt, f w).
Definition punde {A} : P A := fun _ => Undef.

Definition set_table (t : gmap Z Desc) (w : Process E) : Process E := mkProcess t (pipe_out w) (err_out w) (pr_env w).

Definition close (fd : Z) : P unit := update (fun w => set_table (delete fd (table w)) w).

(** A message on the standard error ([std::cerr]). *)
Definition cerr (msg : bytes) : P unit :=
  update (fun w => mkProcess (table w) (pipe_out w) (err_out w ++ [msg]) (pr_env w)).

(** [open]: the lowest free descriptor, or -1. *)
Definition open_file (path : bytes) (d : Desc) : P Z :=
  ok ← call (sys_open sys path);
  if ok : bool then
    t ← pgets table;
    let fd := lowest_free t in
    update (set_table (<[fd := d]> t));;
    mret fd
  else mret (-1).

(** [dup2] *)
Definition dup2 (fd fd2 : Z) : P unit :=
  update (fun w => match table w !! fd with Some d => set_table (<[fd2 := d]> (table w)) w | None => w end).

(** [writeString]: where the bytes go is in the table; its result is never used. *)
Definition writeString (fd : Z) (s : bytes) : P unit :=
  update (fun w =>
    let s := c_str s in
    if bool_decide (s = []) then w
    else match table w !! fd with
         | Some PipeWrite => mkProcess (table w) (pipe_out w ++ [s]) (err_out w) (pr_env w)
         | Some (Stdio _) => mkProcess (table w) (pipe_out w) (err_out w ++ [s]) (pr_env w)
         | _ => w
         end).

Definition s_init_complete : bytes := str "init_complete".

Definition exitWithFailure {A} (fd : Z) (msg : bytes) : P A :=
  err_txt ← pgets (fun w => sys_strerror sys (pr_env w));
  writeString fd msg;;
  writeString fd err_txt;;
  exit EXIT_FAILURE.

(** The loop of [step_01]: [fd] is an [int], the limit an unsigned 64-bit number. *)
Fixpoint close_from (fuel : nat) (fd rlim_cur : Z) : P unit :=
  match fuel with
  | O => mret tt
  | S fuel' =>
      if fd <=? rlim_cur then
        close fd;;
        if fd =? INT_MAX then punde else close_from fuel' (fd + 1) rlim_cur
      else mret tt
  end.

Definition step_01_close_all_file_descriptors : P (Z * Z) :=
  rlimit_files ← call (sys_rlimit sys);
  match rlimit_files with
  | None => cerr (str "Failed to getrlimit(RLIMIT_NOFILE): ");; exit EXIT_FAILURE
  | Some rlim_cur =>
      close_from (Z.to_nat (Z.min rlim_cur INT_MAX)) 3 rlim_cur;;
      ok ← call (sys_pipe sys);
      if ok : bool then
        t ← pgets table;
        let fd0 := lowest_free t in
        let t := <[fd0 := PipeRead]> t in
        let fd1 := lowest_free t in
        update (set_table (<[fd1 := PipeWrite]> t));;
        mret (fd0, fd1)
      else cerr (str "Failed to create pipe: ");; exit EXIT_FAILURE
  end.

(** [step_05]: whether this is the child, and the descriptors that are left. *)
Definition step_05_fork_to_background (pipe_fds : Z * Z) : P (bool * (Z * Z)) :=
  parent_pid ← call (sys_fork sys);
  if parent_pid <? 0 then cerr (str "Failed to fork: ");; exit EXIT_FAILURE
  else if parent_pid =? 0 then close pipe_fds.1;; mret (true, (-1, pipe_fds.2))
  else close pipe_fds.2;; mret (false, (pipe_fds.1, -1)).

Definition step_06_create_new_session (pipe_write_fd : Z) : P unit :=
  ok ← call (sys_setsid sys);
  if ok : bool then mret tt else exitWithFailure pipe_write_fd (str "Failed to setsid: ").

Definition step_07_08_fork_and_exit_again (pipe_write_fd : Z) : P unit :=
  pid ← call (sys_fork sys);
  if pid <? 0 then exitWithFailure pipe_write_fd (str "Failed to fork: ")
  else if 0 <? pid then close pipe_write_fd;; exit EXIT_SUCCESS
  else mret tt.

Definition step_09_redirect_stdio_to_devnull (pipe_write_fd : Z) : P unit :=
  fd ← open_file (str "/dev/null") DevNull;
  if fd =? -1 then exitWithFailure pipe_write_fd (str "Failed to open(/dev/null): ")
  else
    dup2 fd 0;;
    dup2 fd 1;;
    dup2 fd 2;;
    if 2 <? fd then close fd else mret tt.

Definition step_11_change_curr_dir (pipe_write_fd : Z) : P unit :=
  ok ← call (sys_chdir sys (str "/"));
  if ok : bool then mret tt else exitWithFailure pipe_write_fd (str "Failed to chdir(/): ").

Definition step_12_create_pid_file (pipe_write_fd : Z) : P unit :=
  fd ← open_file (str "/var/run/ocvsmd.pid") PidFile;
  if fd =? -1 then exitWithFailure pipe_write_fd (str "Failed to create on PID file: ")
  else
    ok ← call (sys_lockf sys);
    if negb ok then exitWithFailure pipe_write_fd (str "Failed to lock PID file: ")
    else
      ok ← call (sys_ftruncate sys);
      if negb ok then exitWithFailure pipe_write_fd (str "Failed to ftruncate PID file: ")
      else
        ok ← call (sys_write_pid sys);
        if negb ok then exitWithFailure pipe_write_fd (str "Failed to write to PID file: ")
        else mret tt.

Definition step_14_notify_init_complete (pipe_write_fd : Z) : P unit :=
  writeString pipe_write_fd s_init_complete;;
  close pipe_write_fd.

(** [step_15]: one [read] of at most 1023 bytes; the text ends at the first NUL. *)
Definition step_15_exit_org_process (pipe_read_fd : Z) : P unit :=
  res ← call (sys_read sys);
  match res with
  | None => cerr (str "Failed to read pipe: ");; exit EXIT_FAILURE
  | Some data =>
      let msg_from_child := c_str (take 1023 data) in
      if bool_decide (msg_from_child <> s_init_complete) then
        cerr (str "Child init failed: " ++ msg_from_child);; exit EXIT_FAILURE
      else close pipe_read_fd;; exit EXIT_SUCCESS
  end.

(** [setupSignalHandlers]: [signalHandler] becomes the handler of two signals; the results of
    [sigaction] are ignored. *)
Definition setupSignalHandlers : P unit :=
  call (fun e => (tt, sys_sigaction sys SIGINT e));;
  call (fun e => (tt, sys_sigaction sys SIGTERM e)).

Definition step_02_03_setup_signal_handlers : P unit := setupSignalHandlers.

Definition step_10_reset_umask : P unit := call (fun e => (tt, sys_umask sys 0 e)).

(** [daemonize]: the descriptor to report on. The steps that do nothing (environment, privileges)
    are left out. *)
Definition daemonize : P Z :=
  pipe_fds ← step_01_close_all_file_descriptors;
  step_02_03_setup_signal_handlers;;
  '(child, pipe_fds) ← step_05_fork_to_background pipe_fds;
  if child : bool then
    let pipe_write_fd := pipe_fds.2 in
    step_06_create_new_session pipe_write_fd;;
    step_07_08_fork_and_exit_again pipe_write_fd;;
    step_09_redirect_stdio_to_devnull pipe_write_fd;;
    step_10_reset_umask;;
    step_11_change_curr_dir pipe_write_fd;;
    step_12_create_pid_file pipe_write_fd;;
    mret pipe_write_fd
  else
    step_15_exit_org_process pipe_fds.1;;
    mret (-1).

Definition config_file_prefix : bytes := str "--config-file=".

(** The file that is loaded: the last one that is named wins. *)
Definition config_path (is_daemonized : bool) (args : list bytes) : bytes :=
  foldl (fun path arg => if is_prefix config_file_prefix arg then drop (length config_file_prefix) arg else path)
    ((if is_daemonized then str "/etc/ocvsmd/" else str "./") ++ str "ocvsmd.toml") args.

Definition loadConfig (err_fd : Z) (is_daemonized : bool) (args : list bytes) : P unit :=
  let cfg_file_path := config_path is_daemonized args in
  r ← call (sys_load_config sys cfg_file_path);
  match r with
  | inr _ => mret tt
  | inl (Some what) =>
      writeString err_fd (str "Failed to load configuration file (path='" ++ cfg_file_path ++ str "')." ++ [x0a] ++ what);;
      exit EXIT_FAILURE
  | inl None => writeString err_fd (str "Failed to load configuration file.");; exit EXIT_FAILURE
  end.

(** The file for the log: the configured one, if there is one. *)
Definition log_path (is_daemonized : bool) (logging_file : option bytes) : bytes :=
  default ((if is_daemonized then str "/var/log/" else str "./") ++ str "ocvsmd.log") logging_file.

(** [setupLogging]: making the loggers is the logging library's; here is what happens
    when it throws. *)
Definition setupLogging (err_fd : Z) (is_daemonized : bool) : P unit :=
  logging_file ← pgets (fun w => sys_logging_file sys (pr_env w));
  r ← call (sys_setup_logging sys (log_path is_daemonized logging_file));
  match r with
  | Some what =>
      writeString err_fd (str "Failed to setup logging: ");;
      writeString err_fd what;;
      exit EXIT_FAILURE
  | None => mret tt
  end.

Definition should_daemonize (args : list bytes) : bool :=
  negb (existsb (fun arg => bool_decide (arg = str "--no-daemon")) args).

(** [main] until the engine runs; [args] are [argv] without the program. An
    exception of the engine ends [main] with [EXIT_FAILURE]. *)
Definition main_start (args : list bytes) : P unit :=
  let daemon := should_daemonize args in
  pipe_write_fd ← (if daemon then daemonize else setupSignalHandlers;; mret 2);
  loadConfig pipe_write_fd daemon args;;
  setupLogging pipe_write_fd daemon;;
  r ← call (sys_engine_init sys);
  match r with
  | InitFailed failure_str =>
      writeString pipe_write_fd (str "Failed to init engine: ");;
      writeString pipe_write_fd failure_str;;
      exit EXIT_FAILURE
  | InitThrew => exit EXIT_FAILURE
  | InitOk => if daemon then step_14_notify_init_complete pipe_write_fd else mret tt
  end.
End Process.

(** The rest of [main]: the engine runs while no signal came ([EventLoop.runWhile]), then the
    configuration is saved ([Config.save]); both may throw ([what()]). *)
Section MainEnd.
Context {E : Type} (sys : Sys E) (engine_runWhile config_save : E -> option bytes * E).

Definition main (args : list bytes) : Proc E Z :=
  main_start sys args;;
  run_failure ← call engine_runWhile;
  match run_failure with
  | Some _ => mret EXIT_FAILURE
  | None =>
      save_failure ← call config_save;
      match save_failure with Some _ => mret EXIT_FAILURE | None => mret EXIT_SUCCESS end
  end.
End MainEnd.

(** ** Reasoning about processes *)
Section Rules.
Context {E : Type}.
Abbreviation P := (Proc E).
Abbreviation W := (Process E).

Lemma wpx_call {A} (f : E -> A * E) (Q : A -> W -> Prop) X w :
  Q (f (pr_env w)).1 (mkProcess (table w) (pipe_out w) (err_out w) (f (pr_env w)).2) -> wpx (call f) Q X w.
Proof. unfold wpx, call. by destruct (f (pr_env w)). Qed.

Lemma wpx_update f (Q : unit -> W -> Prop) X w : Q tt (f w) -> wpx (update f) Q X w.
Proof. done. Qed.

Lemma wpx_pgets {A} (f : W -> A) (Q : A -> W -> Prop) X w : Q (f w) w -> wpx (pgets f) Q X w.
Proof. done. Qed.

Lemma wpx_exit {A} c (Q : A -> W -> Prop) (X : Z -> W -> Prop) w : X c w -> wpx (exit c) Q X w.
Proof. done. Qed.

Lemma lowest_free_spec (t : gmap Z Desc) : t !! lowest_free t = None /\ 0 <= lowest_free t.
Proof.
  unfold lowest_free. destruct (list_find _ _) as [[i fd]|] eqn:Hf; cbn.
  - apply list_find_Some in Hf as (Hi & Hn & _). split; [done|]. apply list_elem_of_lookup_2, list_elem_of_fmap in Hi as (n & -> & _). lia.
  - exfalso. apply list_find_None in Hf.
    assert (list_to_set (Z.of_nat <$> seq 0 (S (size t))) ⊆ dom t) as Hsub.
    { intros fd Hfd%elem_of_list_to_set. pose proof (proj1 (Forall_forall _ _) Hf fd Hfd) as Hs.
      cbn in Hs. apply elem_of_dom. by apply not_eq_None_Some. }
    apply subseteq_size in Hsub. rewrite size_list_to_set, length_fmap, length_seq, size_dom in Hsub; [lia|].
    apply NoDup_fmap_2; [intros x y; apply Nat2Z.inj|apply NoDup_seq].
Qed.

(** Closing a range of descriptors. *)
Lemma wpx_close_from fuel fd rlim_cur (Q : unit -> W -> Prop) X w :
  rlim_cur < INT_MAX ->
  (forall t, (forall f, f < fd -> t !! f = table w !! f) -> Q tt (mkProcess t (pipe_out w) (err_out w) (pr_env w))) ->
  wpx (close_from fuel fd rlim_cur) Q X w.
Proof.
  intros Hr. revert fd w. induction fuel as [|fuel IH]; intros fd w HQ; cbn [close_from].
  - apply wpx_ret. destruct w. by apply HQ.
  - destruct (Z.leb_spec fd rlim_cur); [|apply wpx_ret; destruct w; by apply HQ].
    apply wpx_bind, wpx_update. destruct (Z.eqb_spec fd INT_MAX); [lia|]. apply IH. cbn. intros t Ht. apply HQ.
    intros f Hf. rewrite Ht by lia. rewrite lookup_delete_ne by lia. done.
Qed.

(** With no limit on the descriptors, the loop counts beyond the largest [int]. *)
Lemma close_from_overflow fuel fd rlim_cur (w : W) :
  0 <= fd <= INT_MAX -> INT_MAX <= rlim_cur -> (Z.to_nat (INT_MAX - fd) < fuel)%nat -> close_from fuel fd rlim_cur w = Undef.
Proof.
  revert fd w. induction fuel as [|fuel IH]; intros fd w Hfd Hr Hf; [lia|]. cbn [close_from].
  destruct (Z.leb_spec fd rlim_cur); [|lia]. unfold mbind, Stops_bind, close, update. cbn.
  destruct (Z.eqb_spec fd INT_MAX); [done|]. apply IH; lia.
Qed.
End Rules.

Ltac px_step :=
  lazymatch goal with
  | |- wpx (mret _) _ _ _ => apply wpx_ret
  | |- wpx (_ ≫= _) _ _ _ => apply wpx_bind
  | |- wpx (call _) _ _ _ => apply wpx_call
  | |- wpx (update _) _ _ _ => apply wpx_update
  | |- wpx (pgets _) _ _ _ => apply wpx_pgets
  | |- wpx (exit _) _ _ _ => apply wpx_exit
  end.
Ltac px_steps := repeat (px_step; cbn beta).

(** The daemon returns a success only when it ran to its end and the configuration was then
    saved; the configuration is not saved when the engine threw. *)
Theorem main_saves {E} (sys : Sys E) engine_runWhile config_save args (w w' : Process E) code :
  main sys engine_runWhile config_save args w = Done (inr code, w') ->
  exists w1, main_start sys args w = Done (inr tt, w1) /\
    (code = EXIT_SUCCESS /\ (engine_runWhile (pr_env w1)).1 = None /\
       config_save (engine_runWhile (pr_env w1)).2 = (None, pr_env w') \/
     code = EXIT_FAILURE /\ ((engine_runWhile (pr_env w1)).1 <> None /\ pr_env w' = (engine_runWhile (pr_env w1)).2 \/
       (config_save (engine_runWhile (pr_env w1)).2).1 <> None)).
Proof.
  unfold main, mbind, Stops_bind, call. destruct (main_start sys args w) as [[[c|[]] w1]|]; [done| |done]. intros Hr. exists w1. split; [done|].
  destruct (engine_runWhile (pr_env w1)) as [[what|] e]; cbn in Hr |- *; [injection Hr as <- <-; right; eauto|].
  destruct (config_save e) as [[what|] e'] eqn:Hs; cbn in Hr |- *; injection Hr as <- <-; [right; eauto|by left].
Qed.

(** ** The daemon's side *)
(** The daemon runs until the first signal that asks it to end, and other signals do not matter. *)
Lemma signals_end_it (sigs : list Z) :
  keeps_running (foldl (fun g_running sig => signalHandler sig g_running) 1 sigs) = true <-> SIGINT ∉ sigs /\ SIGTERM ∉ sigs.
Proof.
  assert (forall l, foldl (fun g_running sig => signalHandler sig g_running) 0 l = 0) as Hzero.
  { intros l. induction l as [|sig l IH]; [done|]. cbn [foldl]. unfold signalHandler at 2. by destruct (_ || _). }
  induction sigs as [|sig l IH]; [split; [split; apply not_elem_of_nil|done]|]. cbn [foldl]. unfold signalHandler at 2.
  destruct (Z.eqb_spec sig SIGTERM) as [->|Ht]; cbn [orb]; [rewrite Hzero; split; [done|]; intros [_ Hn]; set_solver|].
  destruct (Z.eqb_spec sig SIGINT) as [->|Hi]; [rewrite Hzero; split; [done|]; intros [Hn _]; set_solver|].
  rewrite IH, !not_elem_of_cons. split; [intros []; by repeat split|by intros [[] []]].
Qed.

Section Child.
Context {E : Type} (sys : Sys E).
Abbreviation W := (Process E).

(** While the daemon starts: it can report, and has reported nothing. *)
Definition starting (fd : Z) (w : W) : Prop := 2 < fd /\ table w !! fd = Some PipeWrite /\ pipe_out w = [].

(** The first report of a failure begins with the letter F. *)
Definition failed_report (ws : list bytes) : Prop := ws = [] \/ exists s rest, ws = (x46 :: s) :: rest.

Definition exit_failed (code : Z) (w : W) : Prop := code = EXIT_FAILURE /\ failed_report (pipe_out w).

Lemma report_write fd s t p e v s' :
  t !! fd = Some PipeWrite -> s = x46 :: s' -> p = [] ->
  (fun w : W =>
    let s := c_str s in
    if bool_decide (s = []) then w
    else match table w !! fd with
         | Some PipeWrite => mkProcess (table w) (pipe_out w ++ [s]) (err_out w) (pr_env w)
         | Some (Stdio _) => mkProcess (table w) (pipe_out w) (err_out w ++ [s]) (pr_env w)
         | _ => w
         end) (mkProcess t p e v) = mkProcess t [x46 :: c_str s'] e v.
Proof. intros Ht -> ->. cbn. by rewrite Ht. Qed.

(** A failure is reported: the first message is what matters. *)
Lemma wpx_report {A} fd msg (k : Proc E A) s w (Q : A -> W -> Prop) :
  starting fd w -> msg = x46 :: s ->
  (forall w', pipe_out w' = [x46 :: c_str s] -> table w' = table w -> wpx k Q exit_failed w') ->
  wpx (writeString fd msg;; k) Q exit_failed w.
Proof.
  intros (Hfd & Ht & Hp) Hmsg Hk. destruct w as [t p e v]. cbn in Ht, Hp. apply wpx_bind, wpx_update.
  rewrite (report_write fd msg t p e v s) by done. by apply Hk.
Qed.

(** More may follow. *)
Lemma wpx_report_more {A} fd msg (k : Proc E A) s w (Q : A -> W -> Prop) :
  (exists rest, pipe_out w = (x46 :: s) :: rest) -> table w !! fd = Some PipeWrite ->
  (forall w', (exists rest, pipe_out w' = (x46 :: s) :: rest) -> wpx k Q exit_failed w') ->
  wpx (writeString fd msg;; k) Q exit_failed w.
Proof.
  intros (rest & Hp) Ht Hk. apply wpx_bind, wpx_update. cbn zeta. case_bool_decide; [apply Hk; by exists rest|].
  rewrite Ht. apply Hk. exists (rest ++ [c_str msg]). cbn. by rewrite Hp.
Qed.

Lemma exit_reported {A} s w (Q : A -> W -> Prop) :
  (exists rest, pipe_out w = (x46 :: s) :: rest) -> wpx (exit EXIT_FAILURE) Q exit_failed w.
Proof. intros (rest & Hp). apply wpx_exit. split; [done|]. right. by exists s, rest. Qed.

Lemma wpx_exitWithFailure {A} fd msg s w (Q : A -> W -> Prop) :
  starting fd w -> msg = x46 :: s -> wpx (exitWithFailure sys fd msg) Q exit_failed w.
Proof.
  intros Hw Hmsg. unfold exitWithFailure. apply wpx_bind, wpx_pgets. eapply wpx_report; [done|done|]. intros w' Hp Ht.
  eapply (wpx_report_more _ _ _ (c_str s)); [by exists []|rewrite Ht; by apply Hw|]. intros w'' Hp'. by eapply exit_reported.
Qed.

(** The environment changes, nothing else. *)
Lemma starting_env fd w v : starting fd w -> starting fd (mkProcess (table w) (pipe_out w) (err_out w) v).
Proof. done. Qed.

Lemma starting_table fd w t : starting fd w -> t !! fd = Some PipeWrite -> starting fd (set_table t w).
Proof. by intros (? & ? & ?) Ht. Qed.

(** A file that is opened does not take the place of the pipe. *)
Lemma wpx_open_file fd path d w (Q : Z -> W -> Prop) X :
  starting fd w -> d <> PipeWrite -> (forall fd' w', starting fd w' -> fd' <> fd -> (fd' = -1 \/ table w' !! fd' = Some d) -> Q fd' w') ->
  wpx (open_file sys path d) Q X w.
Proof.
  intros Hw Hd HQ. unfold open_file. apply wpx_bind, wpx_call. destruct (sys_open sys path (pr_env w)) as [[] e]; cbn [fst snd].
  - apply wpx_bind, wpx_pgets. cbn [table]. destruct (lowest_free_spec (table w)) as [Hfree Hpos].
    assert (lowest_free (table w) <> fd) as Hne by (intros Heq; destruct Hw as (_ & Ht & _); congruence).
    apply wpx_bind, wpx_update, wpx_ret, HQ; [|done|right; apply lookup_insert_eq].
    apply starting_table; [by apply starting_env|]. rewrite lookup_insert_ne by done. by destruct Hw as (_ & Ht & _).
  - apply wpx_ret, HQ; [by apply starting_env| |by left]. destruct Hw as [? _]. lia.
Qed.

Lemma wpx_dup2 fd fd1 fd2 w (Q : unit -> W -> Prop) X :
  starting fd w -> fd2 <= 2 -> (forall w', starting fd w' -> Q tt w') -> wpx (dup2 fd1 fd2) Q X w.
Proof.
  intros Hw Hfd HQ. unfold dup2. apply wpx_update. destruct (table w !! fd1); [|by apply HQ].
  apply HQ, starting_table; [done|]. destruct Hw as (? & Ht & _). by rewrite lookup_insert_ne by lia.
Qed.

(** The hypotheses of a start: this run follows the children, the number of
    descriptors is limited, and the standard ones are open. *)
Context (Hfork : forall e, (sys_fork sys e).1 = 0)
  (Hlimit : forall e r, (sys_rlimit sys e).1 = Some r -> r < INT_MAX).

Definition stdio_open (w : W) : Prop := forall fd, 0 <= fd <= 2 -> is_Some (table w !! fd).

Lemma exit_silent {A} w (Q : A -> W -> Prop) : pipe_out w = [] -> wpx (exit EXIT_FAILURE) Q exit_failed w.
Proof. intros Hp. apply wpx_exit. split; [done|by left]. Qed.

Lemma free_above t : (forall fd, 0 <= fd <= 2 -> is_Some (t !! fd)) -> 2 < lowest_free t.
Proof.
  intros Hs. destruct (lowest_free_spec t) as [Hn Hp]. destruct (decide (2 < lowest_free t)); [done|].
  destruct (Hs (lowest_free t)) as [d Hd]; [lia|congruence].
Qed.

Lemma wpx_step_01 w :
  stdio_open w -> pipe_out w = [] ->
  wpx (step_01_close_all_file_descriptors sys) (fun fds w' => fds.1 <> fds.2 /\ starting fds.2 w') exit_failed w.
Proof.
  intros Hs Hp. unfold step_01_close_all_file_descriptors. apply wpx_bind, wpx_call.
  pose proof (Hlimit (pr_env w)) as Hl. destruct (sys_rlimit sys (pr_env w)) as [[r|] e]; cbn [fst snd] in *.
  - apply wpx_bind, wpx_close_from; [by apply Hl|]. cbn [table pipe_out err_out pr_env]. intros t Ht.
    apply wpx_bind, wpx_call. cbn [pr_env table pipe_out err_out]. destruct (sys_pipe sys e) as [[] e']; cbn [fst snd].
    + apply wpx_bind, wpx_pgets. cbn [table]. apply wpx_bind, wpx_update, wpx_ret. cbn [fst snd].
      assert (forall fd, 0 <= fd <= 2 -> is_Some (t !! fd)) as Hst by (intros fd Hfd; rewrite Ht by lia; by apply Hs).
      set (t' := <[lowest_free t:=PipeRead]> t).
      assert (forall fd, 0 <= fd <= 2 -> is_Some (t' !! fd)) as Hst'.
      { intros fd Hfd. unfold t'. pose proof (free_above t Hst). rewrite lookup_insert_ne by lia. by apply Hst. }
      assert (lowest_free t <> lowest_free t') as Hne.
      { intros Heq. destruct (lowest_free_spec t') as [Hn _]. rewrite <- Heq in Hn. unfold t' in Hn. by rewrite lookup_insert_eq in Hn. }
      split; [done|]. split_and!; [by apply free_above|cbn; apply lookup_insert_eq|done].
    + apply wpx_bind, wpx_update. by apply exit_silent.
  - apply wpx_bind, wpx_update. by apply exit_silent.
Qed.

Ltac failing := eapply wpx_exitWithFailure; [eassumption|reflexivity].

(** A call that may fail, and then the daemon reports it. *)
Lemma wpx_check fd (f : E -> bool * E) msg s w (Q : unit -> W -> Prop) (k : Proc E unit) :
  starting fd w -> msg = x46 :: s -> (forall w', starting fd w' -> wpx k Q exit_failed w') ->
  wpx (ok ← call f; if ok : bool then k else exitWithFailure sys fd msg) Q exit_failed w.
Proof.
  intros Hw Hm Hk. apply wpx_bind, wpx_call. destruct (f (pr_env w)) as [[] e]; [by apply Hk, starting_env|].
  eapply wpx_exitWithFailure; [by apply starting_env|done].
Qed.

Lemma wpx_check_neg fd (f : E -> bool * E) msg s w (Q : unit -> W -> Prop) (k : Proc E unit) :
  starting fd w -> msg = x46 :: s -> (forall w', starting fd w' -> wpx k Q exit_failed w') ->
  wpx (ok ← call f; if negb ok then exitWithFailure sys fd msg else k) Q exit_failed w.
Proof.
  intros Hw Hm Hk. apply wpx_bind, wpx_call. destruct (f (pr_env w)) as [[] e]; [by apply Hk, starting_env|].
  eapply wpx_exitWithFailure; [by apply starting_env|done].
Qed.

Lemma wpx_step_09 fd w : starting fd w -> wpx (step_09_redirect_stdio_to_devnull sys fd) (fun _ => starting fd) exit_failed w.
Proof.
  intros Hw. unfold step_09_redirect_stdio_to_devnull. apply wpx_bind. eapply wpx_open_file; [done|done|].
  clear w Hw. intros fd' w Hw Hne _. destruct (Z.eqb_spec fd' (-1)); [failing|].
  do 3 (apply wpx_bind; eapply wpx_dup2; [done|lia|]; clear w Hw; intros w Hw).
  destruct (Z.ltb_spec 2 fd'); [|by apply wpx_ret]. apply wpx_update, starting_table; [done|].
  rewrite lookup_delete_ne by done. by destruct Hw as (_ & Ht & _).
Qed.

Lemma wpx_step_12 fd w : starting fd w -> wpx (step_12_create_pid_file sys fd) (fun _ => starting fd) exit_failed w.
Proof.
  intros Hw. unfold step_12_create_pid_file. apply wpx_bind. eapply wpx_open_file; [done|done|].
  clear w Hw. intros fd' w Hw Hne _. destruct (Z.eqb_spec fd' (-1)); [failing|].
  do 3 (eapply wpx_check_neg; [eassumption|reflexivity|]; clear w Hw; intros w Hw). by apply wpx_ret.
Qed.

Lemma wpx_daemonize w :
  stdio_open w -> pipe_out w = [] -> wpx (daemonize sys) starting exit_failed w.
Proof.
  intros Hs Hp. unfold daemonize. apply wpx_bind. eapply wpx_mono; [by apply wpx_step_01| |done].
  clear w Hs Hp. intros [fd0 fd1] w [Hne Hw]. cbn [fst snd] in *.
  apply wpx_bind, wpx_bind, wpx_call, wpx_call. cbn [fst snd pr_env table pipe_out err_out].
  match goal with |- wpx _ _ _ ?w' => assert (starting fd1 w') as Hw0 by (by apply starting_env) end.
  revert Hw0. match goal with |- starting _ ?w' -> _ => generalize w' end. clear w Hw. intros w Hw.
  apply wpx_bind. unfold step_05_fork_to_background. apply wpx_bind, wpx_call. rewrite Hfork. cbn [Z.ltb Z.eqb Z.compare].
  apply wpx_bind, wpx_update, wpx_ret. cbn beta iota. cbn [fst snd].
  match goal with |- wpx _ _ _ ?w' => assert (starting fd1 w') as Hw1 end.
  { apply (starting_table fd1 (mkProcess _ _ _ _)); [by apply starting_env|]. cbn [table].
    rewrite lookup_delete_ne by done. by destruct Hw as (_ & Ht & _). }
  revert Hw1. match goal with |- starting _ ?w' -> _ => generalize w' end. clear w Hw. intros w Hw.
  apply wpx_bind. eapply wpx_check; [done|reflexivity|]. clear w Hw. intros w Hw. apply wpx_ret.
  apply wpx_bind. unfold step_07_08_fork_and_exit_again. apply wpx_bind, wpx_call. rewrite Hfork. cbn [Z.ltb Z.compare]. apply wpx_ret.
  apply wpx_bind. eapply wpx_mono; [apply wpx_step_09; by apply starting_env| |done]. clear w Hw. intros [] w Hw.
  apply wpx_bind, wpx_call. cbn [fst snd].
  match goal with |- wpx _ _ _ ?w' => assert (starting fd1 w') as Hw0 by (by apply starting_env) end.
  revert Hw0. match goal with |- starting _ ?w' -> _ => generalize w' end. clear w Hw. intros w Hw.
  apply wpx_bind. eapply wpx_check; [done|reflexivity|]. clear w Hw. intros w Hw. apply wpx_ret.
  apply wpx_bind. eapply wpx_mono; [by apply wpx_step_12| |done]. clear w Hw. intros [] w Hw. by apply wpx_ret.
Qed.

Lemma wpx_loadConfig fd daemon args w : starting fd w -> wpx (loadConfig sys fd daemon args) (fun _ => starting fd) exit_failed w.
Proof.
  intros Hw. unfold loadConfig. apply wpx_bind, wpx_call.
  destruct (sys_load_config sys _ (pr_env w)) as [[[what|]|[]] e]; [| |by apply wpx_ret].
  - eapply wpx_report; [by apply starting_env|reflexivity|]. intros w' Hp _. eapply exit_reported. by exists [].
  - eapply wpx_report; [by apply starting_env|reflexivity|]. intros w' Hp _. eapply exit_reported. by exists [].
Qed.

Lemma wpx_setupLogging fd daemon w : starting fd w -> wpx (setupLogging sys fd daemon) (fun _ => starting fd) exit_failed w.
Proof.
  intros Hw. unfold setupLogging. apply wpx_bind, wpx_pgets. apply wpx_bind, wpx_call.
  destruct (sys_setup_logging sys _ (pr_env w)) as [[what|] e]; [|by apply wpx_ret].
  eapply wpx_report; [by apply starting_env|reflexivity|]. intros w' Hp Ht.
  eapply (wpx_report_more _ _ _ _); [by exists []|rewrite Ht; by apply Hw|]. intros w'' Hp'. by eapply exit_reported.
Qed.

(** The daemon's [main] either reports exactly that it started, or fails, and then
    what it reported, if anything, begins like a failure. *)
Lemma wpx_main_start args w :
  should_daemonize args = true -> stdio_open w -> pipe_out w = [] ->
  wpx (main_start sys args) (fun _ w' => pipe_out w' = [s_init_complete]) exit_failed w.
Proof.
  intros Hd Hs Hp. unfold main_start. rewrite Hd. apply wpx_bind. eapply wpx_mono; [by apply wpx_daemonize| |done].
  clear w Hs Hp. intros fd w Hw. apply wpx_bind. eapply wpx_mono; [by apply wpx_loadConfig| |done]. clear w Hw. intros [] w Hw.
  apply wpx_bind. eapply wpx_mono; [by apply wpx_setupLogging| |done]. clear w Hw. intros [] w Hw.
  apply wpx_bind, wpx_call. destruct (sys_engine_init sys (pr_env w)) as [[|failure_str|] e]; cbn [fst snd].
  - unfold step_14_notify_init_complete. apply wpx_bind, wpx_update, wpx_update. destruct Hw as (_ & Ht & Hp').
    cbn [table pipe_out]. rewrite Ht, Hp'. reflexivity.
  - eapply wpx_report; [by apply starting_env|reflexivity|]. intros w' Hp' Ht.
    eapply (wpx_report_more _ _ _ _); [by exists []|rewrite Ht; by apply Hw|]. intros w'' Hp''. by eapply exit_reported.
  - apply exit_silent. by destruct Hw as (_ & _ & Hp').
Qed.
End Child.

(** ** The parent's side *)
Section Parent.
Context {E : Type} (sys : Sys E).
Abbreviation W := (Process E).

(** The parent's [main] exits with what it reads. *)
Lemma wpx_original args data w :
  should_daemonize args = true ->
  (forall e, 0 < (sys_fork sys e).1) -> (forall e, exists r, (sys_rlimit sys e).1 = Some r /\ r < INT_MAX) ->
  (forall e, (sys_pipe sys e).1 = true) -> (forall e, (sys_read sys e).1 = Some data) ->
  wpx (main_start sys args) (fun _ _ => False)
    (fun code _ => code = if bool_decide (c_str (take 1023 data) = s_init_complete) then EXIT_SUCCESS else EXIT_FAILURE) w.
Proof.
  intros Hd Hfork Hlimit Hpipe Hread. unfold main_start. rewrite Hd. apply wpx_bind. unfold daemonize. apply wpx_bind.
  unfold step_01_close_all_file_descriptors. apply wpx_bind, wpx_call. destruct (Hlimit (pr_env w)) as (r & -> & Hr).
  apply wpx_bind, wpx_close_from; [done|]. intros t _. apply wpx_bind, wpx_call. rewrite Hpipe.
  apply wpx_bind, wpx_pgets. apply wpx_bind, wpx_update, wpx_ret. cbn beta.
  apply wpx_bind, wpx_bind, wpx_call, wpx_call. cbn [fst snd pr_env table pipe_out err_out].
  apply wpx_bind. unfold step_05_fork_to_background. apply wpx_bind, wpx_call. cbn [pr_env].
  match goal with |- context [sys_fork sys ?v] => pose proof (Hfork v); destruct (Z.ltb_spec (sys_fork sys v).1 0); [lia|];
    destruct (Z.eqb_spec (sys_fork sys v).1 0); [lia|] end.
  apply wpx_bind, wpx_update, wpx_ret. cbn beta iota.
  apply wpx_bind. unfold step_15_exit_org_process. apply wpx_bind, wpx_call. rewrite Hread.
  case_bool_decide as Hc; (apply wpx_bind, wpx_update, wpx_exit).
  - by rewrite bool_decide_eq_false_2.
  - destruct (decide (c_str (take 1023 data) = s_init_complete)) as [Heq|Heq]; [by rewrite bool_decide_eq_true_2|by destruct Hc].
Qed.
End Parent.

(** What the parent's one [read] may give of what was written: nothing, if the
    writing ends were closed before anything was written; otherwise the first
    writes, up to the size of the buffer. *)
Definition may_read (ws : list bytes) (data : bytes) : Prop :=
  (ws = [] /\ data = []) \/ exists j, (0 < j <= length ws)%nat /\ data = take 1023 (mjoin (take j ws)).

Lemma may_read_started data : may_read [s_init_complete] data -> c_str (take 1023 data) = s_init_complete.
Proof.
  intros [[? _]|(j & Hj & ->)]; [done|]. assert (j = 1)%nat as -> by (cbn in Hj; lia). reflexivity.
Qed.

Lemma may_read_failed ws data : failed_report ws -> may_read ws data -> c_str (take 1023 data) <> s_init_complete.
Proof.
  intros [->|(s & rest & ->)] [[? ->]|(j & Hj & ->)]; [done|cbn in Hj; lia|done|].
  destruct j as [|j]; [lia|]. cbn. done.
Qed.

(** C34: who starts the daemon is told the truth, once the process that was started first has its
    pipe and its child: [pipe], both [fork]s and its [read] succeed, its standard descriptors
    are open (otherwise the pipe gets one of their numbers and the answer is
    wrong: [closed_stdout_misreported]), and the limit on descriptors is known to it and below [INT_MAX] in
    both processes (otherwise closing them is undefined: [unlimited_descriptors_undefined]). Then, when the
    daemon's process gets to the point where the engine runs, the first process exits
    with success; when the daemon's process ends before that, at whichever of its steps,
    it exits with a failure, and so does the first process; whatever part of
    what was written the first process reads. *)
Theorem start_is_reported {E} (child parent : Sys E) args (w w' : Process E) :
  should_daemonize args = true ->
  (forall e, (sys_fork child e).1 = 0) -> (forall e, 0 < (sys_fork parent e).1) ->
  (forall e r, (sys_rlimit child e).1 = Some r -> r < INT_MAX) -> (forall e, exists r, (sys_rlimit parent e).1 = Some r /\ r < INT_MAX) ->
  (forall e, (sys_pipe parent e).1 = true) -> stdio_open w -> pipe_out w = [] ->
  let parent_exits code ws := forall data, may_read ws data -> (forall e, (sys_read parent e).1 = Some data) ->
    wpx (main_start parent args) (fun _ _ => False) (fun c _ => c = code) w' in
  wpx (main_start child args) (fun _ w1 => parent_exits EXIT_SUCCESS (pipe_out w1))
    (fun code w1 => code = EXIT_FAILURE /\ parent_exits EXIT_FAILURE (pipe_out w1)) w.
Proof.
  intros Hd Hc Hp Hlc Hlp Hpipe Hs Hw. cbn zeta. eapply wpx_mono; [by apply wpx_main_start| |].
  - intros [] w1 -> data Hdata Hread. eapply wpx_mono; [by apply (wpx_original parent args data)|done|].
    intros code _ ->. by rewrite bool_decide_eq_true_2 by by apply may_read_started.
  - intros code w1 [-> Hf]. split; [done|]. intros data Hdata Hread.
    eapply wpx_mono; [by apply (wpx_original parent args data)|done|].
    intros code _ ->. rewrite bool_decide_eq_false_2; [done|]. by eapply may_read_failed.
Qed.

(** With no limit on the number of descriptors ([RLIM_INFINITY]), or one of
    the largest [int] or more, closing them counts beyond the largest [int], which is
    undefined: the daemon cannot start. *)
Theorem unlimited_descriptors_undefined {E} (sys : Sys E) (w : Process E) r e :
  sys_rlimit sys (pr_env w) = (Some r, e) -> INT_MAX <= r -> step_01_close_all_file_descriptors sys w = Undef.
Proof.
  intros Hr Hmax. unfold step_01_close_all_file_descriptors. unfold mbind, Stops_bind, call. rewrite Hr. cbn [fst snd].
  rewrite (close_from_overflow (Z.to_nat (r `min` INT_MAX)) 3 r) by (unfold INT_MAX in *; lia). done.
Qed.

(** ** Examples *)
Module MainExample.
(** A host on which everything succeeds, except, perhaps, the engine. *)
Definition system (pid : Z) (rlimit : Z) (data : bytes) (engine : InitResult) : Sys unit := mkSys
  (fun e => (Some rlimit, e)) (fun e => (true, e)) (fun e => (pid, e)) (fun e => (true, e)) (fun _ e => (true, e))
  (fun _ e => (true, e)) (fun e => (true, e)) (fun e => (true, e)) (fun e => (true, e)) (fun e => (Some data, e))
  (fun _ => str "no such file") (fun _ e => (inr tt, e)) (fun _ => None) (fun _ e => (None, e)) (fun e => (engine, e))
  (fun _ e => e) (fun _ e => e).

Definition shell : Process unit := mkProcess {[0 := Stdio 0; 1 := Stdio 1; 2 := Stdio 2; 7 := OtherFile]} [] [] tt.

Definition parent (data : bytes) : Sys unit := system 4242 16 data InitOk.
End MainExample.

Section Witnesses.
Import MainExample.

Lemma start_is_reported_witness :
  exists w1, main_start (system 0 16 [] InitOk) [] shell = Done (inr tt, w1) /\ pipe_out w1 = [s_init_complete] /\
    wpx (main_start (parent s_init_complete) []) (fun _ _ => False) (fun c _ => c = EXIT_SUCCESS) shell.
Proof.
  assert (stdio_open shell) as Hs.
  { intros fd Hfd. assert (fd = 0 \/ fd = 1 \/ fd = 2) as [-> | [-> | ->]] by lia; by eexists. }
  assert (forall e r, (sys_rlimit (system 0 16 [] InitOk) e).1 = Some r -> r < INT_MAX) as Hl by (intros e r [= <-]; reflexivity).
  assert (forall e, exists r, (sys_rlimit (parent s_init_complete) e).1 = Some r /\ r < INT_MAX) as Hl'
    by (intros e; exists 16; split; reflexivity).
  pose proof (start_is_reported (system 0 16 [] InitOk) (parent s_init_complete) [] shell shell eq_refl
    (fun e => eq_refl) (fun e => eq_refl) Hl Hl' (fun e => eq_refl) Hs eq_refl) as Hw.
  assert (exists w1, main_start (system 0 16 [] InitOk) [] shell = Done (inr tt, w1) /\ pipe_out w1 = [s_init_complete]) as (w1 & E & Hp)
    by (vm_compute; eexists; split; reflexivity).
  pose proof (wpx_returns _ _ _ _ _ _ Hw E) as Hret. exists w1. split; [exact E|]. split; [exact Hp|].
  apply (Hret s_init_complete); [|intros e; reflexivity]. right. exists 1%nat. rewrite Hp. split; [cbn; lia|reflexivity].
Defined.

Lemma unlimited_descriptors_undefined_witness :
  step_01_close_all_file_descriptors (system 0 (2 ^ 64 - 1) [] InitOk) shell = Undef.
Proof. apply (unlimited_descriptors_undefined _ _ (2 ^ 64 - 1) tt); [reflexivity|unfold INT_MAX; lia]. Defined.
End Witnesses.

(** A failure of the engine reaches the parent's standard error; here it has read
    both messages. *)
Example engine_failure_reported :
  match main_start (MainExample.system 0 16 [] (InitFailed (str "no CAN"))) [] MainExample.shell with
  | Done (inl code, w) => (code, mjoin (pipe_out w))
  | _ => (0, [])
  end = (1, str "Failed to init engine: no CAN").
Proof. vm_compute. reflexivity. Qed.

(** Why the standard descriptors must be open: without the first two, the pipe takes
    their place, and the redirection to [/dev/null] takes the place of the
    pipe. The daemon runs, nothing is written to the pipe, and the parent fails. *)
Example closed_stdout_misreported :
  match main_start (MainExample.system 0 16 [] InitOk) [] (mkProcess {[2 := Stdio 2]} [] [] tt) with
  | Done (inr tt, w) => pipe_out w
  | _ => [s_init_complete]
  end = [].
Proof. vm_compute. reflexivity. Qed.

(** The configuration file that is loaded. *)
Example config_path_last :
  config_path true [str "--config-file=a.toml"; str "x"; str "--config-file=/b.toml"] = str "/b.toml" /\
  config_path true [] = str "/etc/ocvsmd/ocvsmd.toml" /\ config_path false [] = str "./ocvsmd.toml".
Proof. vm_compute. done. Qed.
