(* ===== verification/Sdk.v ===== *)
(** * The SDK as its users see it

    Models the public headers [include/ocvsmd/sdk/daemon.hpp],
    [node_command_client.hpp], [node_registry_client.hpp], [file_server.hpp],
    [node_pub_sub.hpp] and [node_rpc_client.hpp] as one interface: the operations that
    a program can ask for, the type of the result of each, and a class [Sdk] of
    what waits for a result. [Execution], [NodeSenders], [RelayClients] and
    [FileServerClients] model what is behind it. The programs that use the interface are
    computations that may throw. *)
From S2P Require Import Prelude Errors NodeService ExecCmd AccessRegisters NodeClients FileServerClients Execution.

Local Open Scope Z_scope.

(** ** The operations and their results *)

(** [NodeCommandClient]; durations are in microseconds. *)
Inductive CommandCall : Type :=
| Restart (node_ids : list NodeId) (timeout : Z)
| BeginSoftwareUpdate (node_ids : list NodeId) (file_path : bytes) (timeout : Z).

Definition CommandResult : Type := Error + gmap NodeId (NodeResult ExecCmd.ResponsePayload).

Section Calls.
Context {Val : Type}.

(** [NodeRegistryClient]: the operations on nodes, and those for one node. *)
Inductive RegistryCall : Type :=
| ListNodes (node_ids : list NodeId) (timeout : Z)
| ReadNodes (node_ids : list NodeId) (registers : list bytes) (timeout : Z)
| WriteNodes (node_ids : list NodeId) (registers : list (AccessRegs.RegKeyValue Val)) (timeout : Z)
| ListNode (node_id : NodeId) (timeout : Z)
| ReadNode (node_id : NodeId) (registers : list bytes) (timeout : Z)
| WriteNode (node_id : NodeId) (registers : list (AccessRegs.RegKeyValue Val)) (timeout : Z).

(** [List::NodeRegisters::Result], [Access::NodeRegisters::Result] *)
Definition ListNodeResult : Type := NodeResult (list bytes).
Definition AccessNodeResult : Type := NodeResult (list (bytes * (Val + Error))).

(** [List::Result], [Access::Result] *)
Definition RegistryResult (call : RegistryCall) : Type :=
  match call with
  | ListNodes _ _ => Error + gmap NodeId ListNodeResult
  | ReadNodes _ _ _ | WriteNodes _ _ _ => Error + gmap NodeId AccessNodeResult
  | ListNode _ _ => ListNodeResult
  | ReadNode _ _ _ | WriteNode _ _ _ => AccessNodeResult
  end.

(** [FileServer]; the success of pushing and popping is [cetl::monostate]. *)
Definition FilesResult (call : RootsCall) : Type :=
  match call with
  | CallList => Error + list bytes
  | CallPop _ _ | CallPush _ _ => Error + unit
  end.

(** [Daemon]: what makes publishers, subscribers and RPC clients. *)
Inductive FactoryCall : Type :=
| MakePublisher (subject_id : Z)
| MakeSubscriber (subject_id extent_bytes : Z)
| MakeRpcClient (service_id server_node_id extent_bytes : Z).

(** An object that the factory made, by its identity. *)
Definition Ptr : Type := Z.
Definition FactoryResult : Type := Error + Ptr.

(** What is used of the generated messages [uavcan.node.Heartbeat.1.0] and
    [uavcan.time.Synchronization.1.0]. *)
Record Heartbeat := mkHeartbeat { uptime : Z; health : Z; mode : Z; vendor_specific_status_code : Z }.
Record SyncMessage := mkSync { previous_transmission_timestamp_microsecond : Z }.

(** The operations of the objects: [Publisher::publish], [Subscriber::receive],
    [NodeRpcClient::call]. *)
Inductive ObjectCall : Type :=
| Publish (publisher : Ptr) (message : SyncMessage) (timeout : Z)
| Receive (subscriber : Ptr)
| CallCommand (rpc_client : Ptr) (request : ExecCmd.RequestPayload) (request_timeout response_timeout : Z).

Definition ObjectResult (call : ObjectCall) : Type :=
  match call with
  | Publish _ _ _ => OptError
  | Receive _ => Received Heartbeat + Error
  | CallCommand _ _ _ _ => Called ExecCmd.ResponsePayload + Error
  end.

(** Any operation that gives a sender. *)
Inductive Ask : Type :=
| Command (call : CommandCall)
| Registry (call : RegistryCall)
| Files (call : RootsCall)
| Factory (call : FactoryCall)
| Object (call : ObjectCall).

Definition Result (ask : Ask) : Type :=
  match ask with
  | Command _ => CommandResult
  | Registry call => RegistryResult call
  | Files call => FilesResult call
  | Factory _ => FactoryResult
  | Object call => ObjectResult call
  end.
End Calls.
Arguments RegistryCall : clear implicits.
Arguments Ask : clear implicits.

(** [CyphalPriority] *)
Definition High := 3.
Definition Low := 5.

(** ** The class *)

(** The SDK and the system, for a program with one executor. [sdk_wait ask timeout]
    makes the sender of [ask] and gives it to [sync_wait] with this timeout: it ends with a
    result, or with an exception ([what()]). *)
Class Sdk (Val E : Type) := {
  sdk_make : bytes -> E -> bool * E;
  sdk_wait : forall ask : Ask Val, Z -> E -> (bytes + Result ask) * E;
  sdk_setPriority : Ptr -> Z -> E -> OptError * E;
  sdk_now : E -> Z * E;
  sdk_usleep : Z -> E -> E;
  sdk_setupLogging : list bytes -> E -> bool * E;
  sdk_getenv : bytes -> E -> option bytes;
  sdk_signals : E -> list Z;
}.

(** [e'] comes after [e] by the clock [time]: time does not go back, and no signal is
    forgotten. *)
Definition later {Val E} `{Sdk Val E} (time : E -> Z) (e e' : E) : Prop :=
  time e <= time e' /\ (length (sdk_signals e) <= length (sdk_signals e'))%nat.

(** What the theorems assume of time and of signals: every operation leads to a later
    world, a reading of the clock is not older than the moment it was asked for, and
    [usleep] sleeps as long as it was told, unless a signal is caught meanwhile: then it
    returns ([EINTR]) as early as it wants. *)
Class SdkClock (Val E : Type) `{Sdk Val E} := {
  time : E -> Z;
  now_time : forall e, time e <= (sdk_now e).1 <= time (sdk_now e).2;
  now_later : forall e, later time e (sdk_now e).2;
  wait_later : forall ask timeout e, later time e (sdk_wait ask timeout e).2;
  priority_later : forall object priority e, later time e (sdk_setPriority object priority e).2;
  make_later : forall connection e, later time e (sdk_make connection e).2;
  usleep_later : forall us e, 0 <= us -> later time e (sdk_usleep us e);
  usleep_time : forall us e,
    time e + us <= time (sdk_usleep us e) \/ (length (sdk_signals e) < length (sdk_signals (sdk_usleep us e)))%nat;
}.

#[export] Instance later_preorder {Val E} `{Sdk Val E} (time : E -> Z) : PreOrder (later time).
Proof. split; [split; lia|intros e1 e2 e3 [? ?] [? ?]; split; lia]. Qed.

(** ** Programs *)

(** The levels of the log that are used, and a message: its format and its arguments. *)
Inductive Level : Type := Debug | Info | Warn | LogError | Critical.

#[export] Instance Level_eq_dec : EqDecision Level.
Proof. solve_decision. Defined.

Section Program.
Context {Val E : Type} `{Sdk Val E}.

Inductive Arg : Type :=
| ANum (n : Z)
| AText (text : bytes)
| AErr (error : Error)
| AVal (val : Val).

Record Line := mkLine { level : Level; format : bytes; args : list Arg }.

(** What a program asked for, in order; with the timeout of its [sync_wait]. *)
Inductive Made : Type :=
| Asked (ask : Ask Val) (timeout : Z)
| Prioritised (object : Ptr) (priority : Z).

Record Program := mkProgram { log_ : list Line; made : list Made; pr_env : E }.

(** Why a program stops: an exception, [std::exit], or the fuel of a loop is used up. *)
Inductive Stop : Type :=
| Thrown (what : bytes)
| Exited (code : Z)
| OutOfFuel.

Abbreviation P := (Stops Program Stop).

Definition upd (f : Program -> Program) : P unit := fun w => Done (inr tt, f w).

Definition log (lv : Level) (fmt : string) (arguments : list Arg) : P unit :=
  upd (fun w => mkProgram (log_ w ++ [mkLine lv (str fmt) arguments]) (made w) (pr_env w)).

(** [sync_wait<Result>(executor, sender, timeout)] *)
Definition sync_wait_ask (ask : Ask Val) (timeout : Z) : P (Result ask) := fun w =>
  let '(r, e) := sdk_wait ask timeout (pr_env w) in
  let w' := mkProgram (log_ w) (made w ++ [Asked ask timeout]) e in
  Done (match r with inr result => inr result | inl what => inl (Thrown what) end, w').

(** [executor.now()]: microseconds, in 64 bits that last for 292,000 years. *)
Definition now : P Z := fun w =>
  let '(t, e) := sdk_now (pr_env w) in Done (inr t, mkProgram (log_ w) (made w) e).

(** [setPriority] of a publisher or an RPC client. *)
Definition setPriority (object : Ptr) (priority : Z) : P OptError := fun w =>
  let '(r, e) := sdk_setPriority object priority (pr_env w) in
  Done (inr r, mkProgram (log_ w) (made w ++ [Prioritised object priority]) e).

Definition usleep (us : Z) : P unit :=
  upd (fun w => mkProgram (log_ w) (made w) (sdk_usleep us (pr_env w))).

(** [while (until > executor.now()) body]; the body returns [None] to leave the function. *)
Fixpoint while_before {St} (fuel : nat) (until : Z) (body : St -> P (option St)) (st : St) : P unit :=
  match fuel with
  | O => stop OutOfFuel
  | S fuel' =>
      t ← now;
      if until >? t then
        r ← body st;
        match r with Some st' => while_before fuel' until body st' | None => mret tt end
      else mret tt
  end.
End Program.
Arguments Arg : clear implicits.
Arguments Line : clear implicits.
Arguments Made : clear implicits.
Arguments Program : clear implicits.
