(* ===== verification/Cli.v ===== *)
(** * The command line tool

    Models [src/cli/main.cpp]: the scenarios that use the SDK one after the other, and
    [main]. A scenario is a program over the interface of [Sdk]; messages of the
    log are kept as their format and arguments ([fmt_helpers.hpp] prints the
    arguments). *)
From S2P Require Import Prelude Errors NodeService ExecCmd AccessRegisters NodeClients FileServerClients Execution DaemonMain Sdk.

Local Open Scope Z_scope.

(** The generated constants of the messages, and a register's value that is a string. *)
Record Generated (Val : Type) := mkGenerated {
  Heartbeat_FixedPortId : Z;
  Heartbeat_ExtentBytes : Z;
  Synchronization_FixedPortId : Z;
  ExecuteCommand_FixedPortId : Z;
  ExecuteCommand_Response_ExtentBytes : Z;
  COMMAND_IDENTIFY : Z;
  string_value : bytes -> Val;
}.
Arguments Heartbeat_FixedPortId {Val}. Arguments Heartbeat_ExtentBytes {Val}.
Arguments Synchronization_FixedPortId {Val}. Arguments ExecuteCommand_FixedPortId {Val}.
Arguments ExecuteCommand_Response_ExtentBytes {Val}. Arguments COMMAND_IDENTIFY {Val}.
Arguments string_value {Val}. Arguments mkGenerated {Val}.

(** ** [std::set<std::string>] *)

(** The order of strings: the bytes as unsigned numbers, a prefix is smaller. *)
Fixpoint string_lt (a b : bytes) : bool :=
  match a, b with
  | _, [] => false
  | [], _ :: _ => true
  | x :: a', y :: b' =>
      if Z_of_byte x <? Z_of_byte y then true
      else if Z_of_byte y <? Z_of_byte x then false
      else string_lt a' b'
  end.

(** [insert]: the elements are in order, each of them once. *)
Fixpoint set_insert (name : bytes) (names : list bytes) : list bytes :=
  match names with
  | [] => [name]
  | n :: names' =>
      if string_lt name n then name :: names
      else if string_lt n name then n :: set_insert name names'
      else names
  end.

(** ** Signals *)
Definition SIGINT := 2.
Definition SIGTERM := 15.

(** The handler of both signals; [g_running] is 1 at first. *)
Definition signalHandler (g_running sig : Z) : Z :=
  if (sig =? SIGINT) || (sig =? SIGTERM) then 0 else g_running.

Section Cli.
Context {Val E : Type} `{HS : Sdk Val E} (G : Generated Val).
Abbreviation P := (Stops (Program Val E) Stop).

Definition setRegisterValue (text : bytes) : Val := string_value G text.

(** ** Logging helpers *)

Definition logCommandResult (cmd_result : CommandResult) : P unit :=
  match cmd_result with
  | inl failure => log LogError "Failed to send command (err={})." [AErr failure]
  | inr responds =>
      foldr (fun (node_and_respond : NodeId * NodeResult ExecCmd.ResponsePayload) (rest : P unit) =>
        (match node_and_respond.2 with
         | inl failure => log Warn "{:4} → err={}" [ANum node_and_respond.1; AErr failure]
         | inr response => log Info "{:4} → status={}." [ANum node_and_respond.1; ANum (ExecCmd.status response)]
         end);; rest) (mret tt) (map_to_list responds)
  end.

(** [reg_names_set] is returned as it is after the call. *)
Fixpoint log_names (node_id : NodeId) (node_regs reg_names_set : list bytes) : P (list bytes) :=
  match node_regs with
  | [] => mret reg_names_set
  | reg_name :: node_regs' =>
      let reg_names_set := set_insert reg_name reg_names_set in
      log Info "{:4} → '{}'" [ANum node_id; AText reg_name];;
      log_names node_id node_regs' reg_names_set
  end.

Definition logRegistryListNodeResult (reg_names_set : list bytes) (node_id : NodeId) (result : ListNodeResult) : P (list bytes) :=
  match result with
  | inl failure => log Warn "{:4} → err={}" [ANum node_id; AErr failure];; mret reg_names_set
  | inr node_regs => log_names node_id node_regs reg_names_set
  end.

Definition log_value (node_id : NodeId) (reg_key_val : bytes * (Val + Error)) : P unit :=
  match reg_key_val.2 with
  | inr failure => log Warn "{:4} → '{}' err={}" [ANum node_id; AText reg_key_val.1; AErr failure]
  | inl reg_val => log Info "{:4} → '{}'={}" [ANum node_id; AText reg_key_val.1; AVal reg_val]
  end.

Definition logRegistryAccessNodeResult (node_id : NodeId) (result : AccessNodeResult (Val := Val)) : P unit :=
  match result with
  | inl failure => log Warn "{:4} → err={}" [ANum node_id; AErr failure]
  | inr node_reg_vals => foldr (fun reg_key_val (rest : P unit) => log_value node_id reg_key_val;; rest) (mret tt) node_reg_vals
  end.

(** It is called with a success only: otherwise [cetl::get] has nothing to get. *)
Definition logRegistryAccessResult (result : Error + gmap NodeId (AccessNodeResult (Val := Val))) : P unit :=
  match result with
  | inl _ => fun _ => Undef
  | inr node_id_to_reg_vals =>
      log Info "Engine responded with list of nodes (cnt={}):" [ANum (Z.of_nat (size node_id_to_reg_vals))];;
      foldr (fun (id_and_reg_vals : NodeId * AccessNodeResult) (rest : P unit) =>
        logRegistryAccessNodeResult id_and_reg_vals.1 id_and_reg_vals.2;; rest) (mret tt) (map_to_list node_id_to_reg_vals)
  end.

Definition logHeartbeat (hb : Heartbeat) (opt_node_id : option Z) (priority : Z) : P unit :=
  let arguments := [ANum (uptime hb); ANum (health hb); ANum (mode hb); ANum (vendor_specific_status_code hb); ANum priority] in
  match opt_node_id with
  | Some node_id =>
      log Info "❤️ heartbeat from {} node: uptime={}s, health={}, mode={}, vendor_status={} (cy_priority={})." (ANum node_id :: arguments)
  | None =>
      log Info "🖤 heartbeat from anonymous node: uptime={}s, health={}, mode={}, vendor_status={} (cy_priority={})." arguments
  end.

Definition logExeCmdResponse (response : ExecCmd.ResponsePayload) (node_id priority : Z) : P unit :=
  log Info "🆔 response from {} node: status={} (cy_priority={})." [ANum node_id; ANum (ExecCmd.status response); ANum priority].

(** ** Scenarios *)

Definition s1 := 1000000.
Definition s2 := 2000000.
Definition three_nodes : list NodeId := [42; 43; 44].

(** The timeout of [restart] is the default of its parameter. *)
Definition tryResetNodesScenario : P unit :=
  log Info "tryResetNodesScenario -----------------" [];;
  cmd_result ← sync_wait_ask (Command (Restart three_nodes s1)) s2;
  logCommandResult cmd_result;;
  usleep 100000.

Definition tryBeginSoftwareUpdateScenario : P unit :=
  log Info "tryBeginSoftwareUpdateScenario -----------------" [];;
  cmd_result ← sync_wait_ask (Command (BeginSoftwareUpdate three_nodes (str "firmware.bin") s1)) s2;
  logCommandResult cmd_result.

Definition tryPushRootScenario : P unit :=
  log Info "tryPushRootScenario -----------------" [];;
  let path := str "key" in
  cmd_result ← sync_wait_ask (Files (CallPush path true)) s2;
  match cmd_result with
  | inl failure => log LogError "Failed to push FS root (path='{}', err={})." [AText path; AErr failure]
  | inr _ => log Info "File Server responded ok on 'PushRoot'." []
  end.

Definition tryPopRootScenario : P unit :=
  log Info "tryPopRootScenario -----------------" [];;
  let path := str "key" in
  cmd_result ← sync_wait_ask (Files (CallPop path true)) s2;
  match cmd_result with
  | inl failure => log LogError "Failed to pop FS root (path='{}', err={})." [AText path; AErr failure]
  | inr _ => log Info "File Server responded ok on 'PopRoot'." []
  end.

Fixpoint log_roots (i : nat) (roots : list bytes) : P unit :=
  match roots with
  | [] => mret tt
  | root :: roots' => log Info "{:4} → '{}'" [ANum (Z.of_nat i); AText root];; log_roots (S i) roots'
  end.

Definition tryListRootsScenario : P unit :=
  log Info "tryListRootsScenario -----------------" [];;
  cmd_result ← sync_wait_ask (Files CallList) s2;
  match cmd_result with
  | inl failure => log LogError "Failed to list FS roots (err={})." [AErr failure]
  | inr roots =>
      log Info "File Server responded with list of roots (cnt={}):" [ANum (Z.of_nat (length roots))];;
      log_roots O roots
  end.

Definition description : bytes := str "uavcan.node.description".

(** The loop over what the nodes listed; [reg_names_set] begins empty. *)
Fixpoint log_listed (node_id_to_regs : list (NodeId * ListNodeResult)) (reg_names_set : list bytes) : P (list bytes) :=
  match node_id_to_regs with
  | [] => mret reg_names_set
  | id_and_regs :: node_id_to_regs' =>
      reg_names_set' ← logRegistryListNodeResult reg_names_set id_and_regs.1 id_and_regs.2;
      log_listed node_id_to_regs' reg_names_set'
  end.

Definition tryListReadWriteRegsOfNodesScenario : P unit :=
  log Info "tryListReadWriteRegsOfNodesScenario -----------------" [];;
  list_result ← sync_wait_ask (Registry (ListNodes three_nodes s1)) s2;
  match list_result with
  | inl list_failure => log LogError "Failed to list registers (err={})." [AErr list_failure]
  | inr node_id_to_regs =>
      log Info "Engine responded with list of nodes (cnt={}):" [ANum (Z.of_nat (size node_id_to_regs))];;
      reg_names ← log_listed (map_to_list node_id_to_regs) [];
      read_result ← sync_wait_ask (Registry (ReadNodes three_nodes reg_names s1)) s2;
      (match read_result with
       | inl failure => log LogError "Failed to read registers (err={})." [AErr failure]
       | inr _ => logRegistryAccessResult read_result
       end);;
      let reg_keys_and_values := [AccessRegs.mkReg description (setRegisterValue (str "libcyphal demo node3"))] in
      write_result ← sync_wait_ask (Registry (WriteNodes three_nodes reg_keys_and_values s1)) s2;
      match write_result with
      | inl failure => log LogError "Failed to write registers (err={})." [AErr failure]
      | inr _ => logRegistryAccessResult write_result
      end
  end.

Definition tryListReadWriteRegsOfSingleNodeScenario : P unit :=
  log Info "tryListReadWriteRegsOfSingleNodeScenario -----------------" [];;
  let node_id := 42 in
  list_node_result ← sync_wait_ask (Registry (ListNode node_id s1)) s2;
  logRegistryListNodeResult [] node_id list_node_result;;
  let reg_keys_and_values := [AccessRegs.mkReg description (setRegisterValue (str "libcyphal demo node42"))] in
  write_node_result ← sync_wait_ask (Registry (WriteNode node_id reg_keys_and_values s1)) s2;
  logRegistryAccessNodeResult node_id write_node_result;;
  read_node_result ← sync_wait_ask (Registry (ReadNode node_id [description] s1)) s2;
  logRegistryAccessNodeResult node_id read_node_result.

(** A turn of the loop that receives. *)
Definition receive_turn (subscriber : Ptr) (until_timepoint : Z) (u : unit) : P (option unit) :=
  t ← now;
  rcv_result ← sync_wait_ask (Object (Receive subscriber)) (until_timepoint - t);
  match rcv_result with
  | inr failure => log Warn "Failed to receive message (err={})." [AErr failure];; mret None
  | inl received =>
      logHeartbeat (message _ received) (rc_publisher_node_id _ received) (rc_priority _ received);;
      mret (Some tt)
  end.

Definition trySubscriberScenario (fuel : nat) : P unit :=
  log Info "trySubscriberScenario -----------------" [];;
  sub_result ← sync_wait_ask (Factory (MakeSubscriber (Heartbeat_FixedPortId G) (Heartbeat_ExtentBytes G))) s2;
  match sub_result with
  | inl failure => log LogError "Failed to make subscriber (err={})." [AErr failure]
  | inr subscriber =>
      log Info "Printing heartbeat messages for {} secs..." [ANum 10];;
      t ← now;
      let until_timepoint := t + 10000000 in
      while_before fuel until_timepoint (receive_turn subscriber until_timepoint) tt
  end.

(** A turn of the loop that publishes: [counter] and [sync_msg] are as they are before it. *)
Definition publish_turn (publisher : Ptr) (until_timepoint : Z) (st : Z * SyncMessage) : P (option (Z * SyncMessage)) :=
  let '(counter, sync_msg) := st in
  let counter := counter + 1 in
  (if counter =? 15 then
     opt_error ← setPriority publisher High;
     match opt_error with
     | Some e => log Warn "Failed to set 'high' priority publishing (err={})." [AErr e]
     | None => mret tt
     end
   else mret tt);;
  t ← now;
  error ← sync_wait_ask (Object (Publish publisher sync_msg s1)) (until_timepoint - t);
  match error with
  | Some e => log Warn "Failed to publish message (err={})." [AErr e];; mret None
  | None =>
      sent ← now;
      usleep 1000000;;
      mret (Some (counter, mkSync (u64 sent)))
  end.

Definition tryPublisherScenario (fuel : nat) : P unit :=
  log Info "tryPublisherScenario -----------------" [];;
  pub_result ← sync_wait_ask (Factory (MakePublisher (Synchronization_FixedPortId G))) s2;
  match pub_result with
  | inl failure => log LogError "Failed to make publisher (err={})." [AErr failure]
  | inr publisher =>
      opt_error ← setPriority publisher Low;
      (match opt_error with
       | Some e => log Warn "Failed to set 'low' priority publishing (err={})." [AErr e]
       | None => mret tt
       end);;
      log Info "Publishing time syncs for {} secs..." [ANum 30];;
      t ← now;
      let until_timepoint := t + 30000000 in
      while_before fuel until_timepoint (publish_turn publisher until_timepoint) (0, mkSync 0)
  end.

Definition tryRpcClientScenario : P unit :=
  log Info "tryRpcClientScenario -----------------" [];;
  rpc_client_result ← sync_wait_ask (Factory (MakeRpcClient (ExecuteCommand_FixedPortId G) 42 (ExecuteCommand_Response_ExtentBytes G))) s2;
  match rpc_client_result with
  | inl failure => log LogError "Failed to make RPC client (err={})." [AErr failure]
  | inr rpc_client =>
      opt_error ← setPriority rpc_client Low;
      (match opt_error with
       | Some e => log Warn "Failed to set 'low' priority calling (err={})." [AErr e]
       | None => mret tt
       end);;
      let request := ExecCmd.mkReqPayload (COMMAND_IDENTIFY G) [] in
      call_result ← sync_wait_ask (Object (CallCommand rpc_client request s1 1990000)) s2;
      match call_result with
      | inr failure => log LogError "Failed to make RPC client call (err={})." [AErr failure]
      | inl called => logExeCmdResponse (response _ called) (cl_server_node_id _ called) (cl_priority _ called)
      end
  end.

(** ** [main] *)

(** The scenarios, in their order. *)
Definition scenarios (fuel : nat) : P unit :=
  tryResetNodesScenario;;
  tryBeginSoftwareUpdateScenario;;
  tryPushRootScenario;;
  tryPopRootScenario;;
  tryListRootsScenario;;
  tryListReadWriteRegsOfNodesScenario;;
  tryListReadWriteRegsOfSingleNodeScenario;;
  trySubscriberScenario fuel;;
  tryPublisherScenario fuel;;
  tryRpcClientScenario.

Definition sdk_call {A} (f : E -> A * E) : P A := fun w =>
  let '(a, e) := f (pr_env w) in Done (inr a, mkProgram (log_ w) (made w) e).

(** [try { m } catch (const std::exception& ex) { handler }] *)
Definition try_catch {A} (m : P A) (handler : bytes -> P A) : P A := fun w =>
  match m w with
  | Done (inl (Thrown what), w') => handler what w'
  | r => r
  end.

(** The body of the [try] of [main]; [None] when it does not return from [main]. *)
Definition main_body (fuel : nat) : P (option Z) :=
  env_connection_str ← (fun w => Done (inr (sdk_getenv (str "OCVSMD_CONNECTION") (pr_env w)), w));
  let ipc_connection := default (str "unix-abstract:org.opencyphal.ocvsmd.ipc") env_connection_str in
  daemon ← sdk_call (sdk_make ipc_connection);
  if negb daemon then
    log Critical "Failed to create daemon." [];;
    mret (Some EXIT_FAILURE)
  else
    scenarios fuel;;
    g_running ← (fun w => Done (inr (foldl signalHandler 1 (sdk_signals (pr_env w))), w));
    (if g_running =? 0 then log Debug "Received termination signal." [] else mret tt);;
    mret None.

(** [VERSION_MAJOR], [VERSION_MINOR] are set by the build. When the log cannot be set up,
    [setupLogging] exits. *)
Definition main (VERSION_MAJOR VERSION_MINOR : Z) (argv : list bytes) (fuel : nat) : P Z :=
  logging ← sdk_call (sdk_setupLogging argv);
  (if logging : bool then mret tt else stop (Exited EXIT_FAILURE));;
  log Info "OCVSMD client started (ver='{}.{}')." [ANum VERSION_MAJOR; ANum VERSION_MINOR];;
  returned ← try_catch
    (r ← main_body fuel; mret (inr r))
    (fun what => log Critical "Unhandled exception: {}" [AText what];; mret (inl EXIT_FAILURE));
  match returned with
  | inr (Some code) => mret code
  | inr None => log Info "OCVSMD client terminated." [];; mret EXIT_SUCCESS
  | inl result => log Info "OCVSMD client terminated." [];; mret result
  end.
End Cli.
