(* ===== verification/CliRules.v ===== *)
(** * Programs over the SDK: rules

    The weakest preconditions of the operations of [Sdk]; what a program writes to its
    log ([Quiet]) and what it asks for ([Plans]), and how these compose. *)
From S2P Require Import Prelude Errors NodeService ExecCmd AccessRegisters NodeClients FileServerClients Execution Sdk Cli.

Local Open Scope Z_scope.

(** ** Rules *)
Section Rules.
Context {Val E : Type} `{HC : SdkClock Val E}.
Abbreviation W := (Program Val E).
Abbreviation P := (Stops W Stop).

(** The signals that were caught so far. *)
Definition signals (w : W) : nat := length (sdk_signals (pr_env w)).

(** The world of [w'] comes after that of [w]. *)
Definition passes (w w' : W) : Prop := later time (pr_env w) (pr_env w').

#[export] Instance passes_preorder : PreOrder passes.
Proof. split; [intros w; apply later_preorder|intros w1 w2 w3; apply later_preorder]. Qed.

Lemma wpx_log lv fmt arguments (Q : unit -> W -> Prop) (R : Stop -> W -> Prop) w :
  Q tt (mkProgram (log_ w ++ [mkLine lv (str fmt) arguments]) (made w) (pr_env w)) -> wpx (log lv fmt arguments) Q R w.
Proof. done. Qed.

(** What an answer of the SDK, or an exception, leads to. *)
Lemma wpx_ask ask timeout (Q : Result ask -> W -> Prop) (R : Stop -> W -> Prop) w :
  (forall result e, sdk_wait ask timeout (pr_env w) = (inr result, e) -> later time (pr_env w) e ->
    Q result (mkProgram (log_ w) (made w ++ [Asked ask timeout]) e)) ->
  (forall what e, sdk_wait ask timeout (pr_env w) = (inl what, e) -> later time (pr_env w) e ->
    R (Thrown what) (mkProgram (log_ w) (made w ++ [Asked ask timeout]) e)) ->
  wpx (sync_wait_ask ask timeout) Q R w.
Proof.
  intros HQ HR. unfold wpx, sync_wait_ask. pose proof (wait_later ask timeout (pr_env w)) as Ht.
  destruct (sdk_wait ask timeout (pr_env w)) as [[what|result] e] eqn:Hw; cbn in Ht; eauto.
Qed.

Lemma wpx_now (Q : Z -> W -> Prop) (R : Stop -> W -> Prop) w :
  (forall t e, time (pr_env w) <= t <= time e -> later time (pr_env w) e -> Q t (mkProgram (log_ w) (made w) e)) -> wpx now Q R w.
Proof.
  intros HQ. unfold wpx, now. pose proof (now_time (pr_env w)) as Ht. pose proof (now_later (pr_env w)) as Hl.
  destruct (sdk_now (pr_env w)) as [t e]. by apply HQ.
Qed.

Lemma wpx_setPriority object priority (Q : OptError -> W -> Prop) (R : Stop -> W -> Prop) w :
  (forall r e, later time (pr_env w) e -> Q r (mkProgram (log_ w) (made w ++ [Prioritised object priority]) e)) ->
  wpx (setPriority object priority) Q R w.
Proof.
  intros HQ. unfold wpx, setPriority. pose proof (priority_later object priority (pr_env w)) as Ht.
  destruct (sdk_setPriority object priority (pr_env w)) as [r e]. by apply HQ.
Qed.

(** A sleep is as long as it was told to be, or a signal is caught. *)
Lemma wpx_usleep us (Q : unit -> W -> Prop) (R : Stop -> W -> Prop) w : 0 <= us ->
  (forall e, later time (pr_env w) e -> time (pr_env w) + us <= time e \/ (signals w < length (sdk_signals e))%nat ->
    Q tt (mkProgram (log_ w) (made w) e)) ->
  wpx (usleep us) Q R w.
Proof. intros Hus HQ. apply HQ; [by apply usleep_later|apply usleep_time]. Qed.

(** A loop ends when a quantity decreases with every turn, if there is more fuel than it is
    at first. *)
Lemma wpx_while_before {St} fuel until (left_ : St -> W -> Z) (body : St -> P (option St)) st (I : St -> W -> Prop) (Q : unit -> W -> Prop) R w :
  (forall st w, I st w -> 0 <= left_ st w) ->
  (forall st w e t, I st w -> time (pr_env w) <= t <= time e -> later time (pr_env w) e -> until <= t ->
    Q tt (mkProgram (log_ w) (made w) e)) ->
  (forall st w e t, I st w -> time (pr_env w) <= t <= time e -> later time (pr_env w) e -> t < until ->
    wpx (body st) (fun r w' => match r with Some st' => I st' w' /\ left_ st' w' < left_ st w | None => Q tt w' end) R
      (mkProgram (log_ w) (made w) e)) ->
  I st w -> left_ st w < Z.of_nat fuel ->
  wpx (while_before fuel until body st) Q R w.
Proof.
  intros Hleft Hend Hturn. revert st w. induction fuel as [|fuel IH]; intros st w HI Hf; [specialize (Hleft _ _ HI); lia|].
  cbn [while_before]. apply wpx_bind, wpx_now. intros t e Ht Hl. rewrite Z.gtb_ltb. destruct (Z.ltb_spec t until) as [Hlt|Hge].
  - apply wpx_bind. eapply wpx_mono; [by eapply Hturn| |done]. intros [st'|] w' Hw'; cbn beta iota in Hw' |- *; [|exact Hw'].
    destruct Hw' as [HI' Hdec]. apply IH; [done|lia].
  - apply wpx_ret. by eapply Hend.
Qed.

(** ** What a program writes to its log *)

Definition critical (l : Line Val) : bool := bool_decide (level l = Critical).

(** The first message of a scenario. *)
Definition titles : list bytes := str <$> [
  "tryResetNodesScenario -----------------"; "tryBeginSoftwareUpdateScenario -----------------";
  "tryPushRootScenario -----------------"; "tryPopRootScenario -----------------"; "tryListRootsScenario -----------------";
  "tryListReadWriteRegsOfNodesScenario -----------------"; "tryListReadWriteRegsOfSingleNodeScenario -----------------";
  "trySubscriberScenario -----------------"; "tryPublisherScenario -----------------"; "tryRpcClientScenario -----------------"]%string.

Definition title (l : Line Val) : bool := bool_decide (format l ∈ titles).

(** The scenarios that began. *)
Definition begun (ls : list (Line Val)) : list bytes := format <$> filter (fun l => title l = true) ls.

Definition quiet (l : Line Val) : Prop := critical l = false /\ title l = false.

(** [w'] comes after [w], and its new messages are quiet. *)
Definition after (w w' : W) : Prop :=
  (exists ls, log_ w' = log_ w ++ ls /\ Forall quiet ls) /\ passes w w'.

#[export] Instance after_preorder : PreOrder after.
Proof.
  split.
  - intros w. split; [|done]. exists []. by rewrite app_nil_r.
  - intros w1 w2 w3 [(l1 & H1 & Q1) T1] [(l2 & H2 & Q2) T2]. split; [|by etrans].
    exists (l1 ++ l2). rewrite H2, H1, <- app_assoc, Forall_app. done.
Qed.

(** The program stops only by an exception, and its messages are quiet. *)
Definition thrown (R : W -> Prop) (s : Stop) (w : W) : Prop := (exists what, s = Thrown what) /\ R w.

Definition Quiet {A} (m : P A) : Prop := forall w, wpx m (fun _ => after w) (thrown (after w)) w.

Lemma quiet_ret {A} (a : A) : Quiet (mret a).
Proof. intros w. by apply wpx_ret. Qed.

Lemma quiet_bind {A B} (m : P A) (f : A -> P B) : Quiet m -> (forall a, Quiet (f a)) -> Quiet (m ≫= f).
Proof.
  intros Hm Hf w. apply wpx_bind. eapply wpx_mono; [apply Hm| |done]. cbn beta. intros a w' Hw'.
  eapply wpx_mono; [apply Hf| |]; cbn beta; [intros ? ? ?; by etrans|]. intros s w'' [? ?]. split; [done|by etrans].
Qed.

Lemma after_log (w : W) ls ms e lv fmt arguments :
  quiet (mkLine lv (str fmt) arguments) -> log_ w = ls -> later time (pr_env w) e ->
  after w (mkProgram (ls ++ [mkLine lv (str fmt) arguments]) ms e).
Proof. intros Hq <- He. split; [|done]. exists [mkLine lv (str fmt) arguments]. split; [done|]. by constructor. Qed.

Lemma quiet_log lv fmt arguments : quiet (mkLine lv (str fmt) arguments) -> Quiet (log lv fmt arguments).
Proof. intros Hq w. apply wpx_log, after_log; [done|done|reflexivity]. Qed.

Lemma after_same_log w ms e : later time (pr_env w) e -> after w (mkProgram (log_ w) ms e).
Proof. intros He. split; [|done]. exists []. by rewrite app_nil_r. Qed.

Lemma quiet_ask ask timeout : Quiet (sync_wait_ask ask timeout).
Proof. intros w. apply wpx_ask; intros; [|split; [eauto|]]; by apply after_same_log. Qed.

Lemma quiet_now : Quiet now.
Proof. intros w. apply wpx_now. intros. by apply after_same_log. Qed.

Lemma quiet_setPriority object priority : Quiet (setPriority object priority).
Proof. intros w. apply wpx_setPriority. intros. by apply after_same_log. Qed.

Lemma quiet_usleep us : 0 <= us -> Quiet (usleep us).
Proof. intros Hus w. apply wpx_usleep; [done|]. intros. by apply after_same_log. Qed.

Lemma quiet_foldr {A} (f : A -> P unit) (l : list A) :
  (forall a, Quiet (f a)) -> Quiet (foldr (fun a (rest : P unit) => f a;; rest) (mret tt) l).
Proof. intros Hf. induction l; cbn [foldr]; [apply quiet_ret|]. by apply quiet_bind. Qed.

(** ** What a program asks for *)

(** [w'] comes after [w], and [T] holds of what the program asked for in between. *)
Definition asks (T : list (Made Val) -> Prop) (w w' : W) : Prop := exists ms, made w' = made w ++ ms /\ T ms.

(** What [T] allows, cut short by an exception. *)
Definition cut (T : list (Made Val) -> Prop) (ms : list (Made Val)) : Prop := exists more, T (ms ++ more).

(** The program asks for what [T] says; an exception cuts it short. *)
Definition Plans {A} (T : list (Made Val) -> Prop) (m : P A) : Prop := forall w, wpx m (fun _ => asks T w) (fun _ => asks (cut T) w) w.

(** The program asks for nothing, and does not stop. *)
Definition Logs {A} (m : P A) : Prop := forall w, wpx m (fun _ w' => made w' = made w) (fun _ _ => False) w.

Lemma asks_trans (T1 T2 T : list (Made Val) -> Prop) w1 w2 w3 :
  (forall ms1 ms2, T1 ms1 -> T2 ms2 -> T (ms1 ++ ms2)) -> asks T1 w1 w2 -> asks T2 w2 w3 -> asks T w1 w3.
Proof. intros HT (m1 & H1 & ?) (m2 & H2 & ?). exists (m1 ++ m2). rewrite H2, H1, app_assoc. eauto. Qed.

Lemma asks_mono (T1 T2 : list (Made Val) -> Prop) w w' : (forall ms, T1 ms -> T2 ms) -> asks T1 w w' -> asks T2 w w'.
Proof. intros HT (ms & ? & ?). exists ms. eauto. Qed.

Lemma cut_whole (T : list (Made Val) -> Prop) ms : T ms -> cut T ms.
Proof. intros. exists []. by rewrite app_nil_r. Qed.

Lemma cut_mono (T1 T2 : list (Made Val) -> Prop) ms : (forall ms', T1 ms' -> T2 ms') -> cut T1 ms -> cut T2 ms.
Proof. intros HT [more ?]. exists more. auto. Qed.

Lemma logs_ret {A} (a : A) : Logs (mret a).
Proof. done. Qed.

Lemma logs_log lv fmt arguments : Logs (log lv fmt arguments).
Proof. done. Qed.

Lemma logs_usleep us : Logs (usleep us).
Proof. done. Qed.

Lemma logs_bind {A B} (m : P A) (f : A -> P B) : Logs m -> (forall a, Logs (f a)) -> Logs (m ≫= f).
Proof.
  intros Hm Hf w. apply wpx_bind. eapply wpx_mono; [apply Hm| |done]. cbn beta. intros a w' <-. apply Hf.
Qed.

Lemma logs_foldr {A} (f : A -> P unit) (l : list A) :
  (forall a, Logs (f a)) -> Logs (foldr (fun a (rest : P unit) => f a;; rest) (mret tt) l).
Proof. intros Hf. induction l; [by intros w; apply wpx_ret|]. by apply logs_bind. Qed.

Lemma plans_mono {A} (T1 T2 : list (Made Val) -> Prop) (m : P A) : (forall ms, T1 ms -> T2 ms) -> Plans T1 m -> Plans T2 m.
Proof.
  intros HT Hm w. eapply wpx_mono; [apply Hm| |]; cbn beta; intros ? w'; apply asks_mono; [done|].
  intros ms. by apply cut_mono.
Qed.

Lemma plans_logs {A} (m : P A) : Logs m -> Plans (eq []) m.
Proof. intros Hm w. eapply wpx_mono; [apply Hm| |done]. cbn beta. intros _ w' Hw'. exists []. by rewrite app_nil_r. Qed.

Lemma plans_ask ask timeout : Plans (eq [Asked ask timeout]) (sync_wait_ask ask timeout).
Proof. intros w. apply wpx_ask; intros; (eexists; split; [done|]); [done|by apply cut_whole]. Qed.

Lemma plans_setPriority object priority : Plans (eq [Prioritised object priority]) (setPriority object priority).
Proof. intros w. apply wpx_setPriority. intros. by eexists. Qed.

(** One after the other; what follows depends on a result. *)
Lemma plans_bind {A B} (T1 T : list (Made Val) -> Prop) (T2 : A -> list (Made Val) -> Prop) (m : P A) (f : A -> P B) :
  Plans T1 m -> (forall a, Plans (T2 a) (f a)) -> (exists rest, forall ms, T1 ms -> T (ms ++ rest)) ->
  (forall a ms1 ms2, T1 ms1 -> T2 a ms2 -> T (ms1 ++ ms2)) -> Plans T (m ≫= f).
Proof.
  intros Hm Hf (rest & Hrest) HT w. apply wpx_bind. eapply wpx_mono; [apply Hm| |]; cbn beta.
  - intros a w1 Hw1. eapply wpx_mono; [apply Hf| |]; cbn beta; intros ? w2 Hw2; (eapply asks_trans; [|exact Hw1|exact Hw2]); [eauto|].
    intros ms1 ms2 H1 [more H2]. exists more. rewrite <- app_assoc. eauto.
  - intros s w1. apply asks_mono. intros ms [more H1]. exists (more ++ rest). rewrite app_assoc. eauto.
Qed.

Lemma plans_then {A B} (ms1 ms2 : list (Made Val)) (m : P A) (f : A -> P B) :
  Plans (eq ms1) m -> (forall a, Plans (eq ms2) (f a)) -> Plans (eq (ms1 ++ ms2)) (m ≫= f).
Proof.
  intros Hm Hf. apply (plans_bind (eq ms1) _ (fun _ => eq ms2)); [done|done|exists ms2; by intros ? <-|].
  by intros _ ? ? <- <-.
Qed.
End Rules.

(** Waiting for the answer to a given question. *)
Ltac ask_step :=
  lazymatch goal with
  | |- wpx (sync_wait_ask ?a ?t) ?Q ?R ?w => refine (wpx_ask a t Q R w _ _); cbn [log_ made pr_env]
  end.

Ltac ask_plans :=
  lazymatch goal with
  | |- Plans _ (sync_wait_ask ?a ?t) => exact (plans_ask a t)
  end.

Create HintDb quiet.
#[export] Hint Extern 1 (Quiet (sync_wait_ask _ _)) => exact (quiet_ask _ _) : quiet.
#[export] Hint Resolve quiet_ret quiet_now quiet_setPriority : quiet.
#[export] Hint Extern 1 (Quiet (usleep _)) => apply quiet_usleep; lia : quiet.
#[export] Hint Extern 1 (Quiet (log _ _ _)) => apply quiet_log; split; vm_compute; reflexivity : quiet.

(** The database of what only writes to the log. *)
Create HintDb logs.
#[export] Hint Resolve logs_ret logs_log logs_usleep : logs.

Ltac quiet_step :=
  lazymatch goal with
  | |- Quiet (_ ≫= _) => apply quiet_bind; [|intros ?]
  | |- Quiet (foldr _ _ _) => apply quiet_foldr; intros ?
  | |- Quiet (match ?x with _ => _ end) => destruct x
  | |- Quiet _ => solve [eauto with quiet]
  | |- Logs (_ ≫= _) => apply logs_bind; [|intros ?]
  | |- Logs (foldr _ _ _) => apply logs_foldr; intros ?
  | |- Logs (match ?x with _ => _ end) => destruct x
  | |- Logs _ => solve [eauto with logs]
  end.
Ltac quiet_steps := repeat (quiet_step; cbn beta iota zeta).

Ltac head_of m := lazymatch m with ?f _ => head_of f | _ => m end.
