(* ===== verification/CliFacts.v ===== *)
(** * The command line tool: theory

    The names that are read are those that were listed; the loops end and keep to their
    bounds; [main] runs every scenario, each asks for what [scenario_specs] says, and the exit
    code says whether they could. *)
From Stdlib Require Import Sorting.Sorted.
From S2P Require Import Prelude Errors NodeService ExecCmd AccessRegisters NodeClients FileServerClients Execution DaemonMain Sdk Cli CliRules.

Local Open Scope Z_scope.

(** ** Sets of strings *)

Lemma string_lt_irrefl a : string_lt a a = false.
Proof. induction a as [|x a IH]; [done|]. cbn. rewrite Z.ltb_irrefl. done. Qed.

Lemma string_lt_cons x a y b :
  string_lt (x :: a) (y :: b) = true <-> Z_of_byte x < Z_of_byte y \/ x = y /\ string_lt a b = true.
Proof.
  cbn. destruct (Z.ltb_spec (Z_of_byte x) (Z_of_byte y)); [naive_solver|].
  destruct (Z.ltb_spec (Z_of_byte y) (Z_of_byte x)).
  - split; [done|]. intros [?|[-> ?]]; lia.
  - split; [|intros [?|[_ ?]]; [lia|done]]. intros Hlt. right. split; [|done].
    rewrite <- (byte_of_Z_of_byte x), <- (byte_of_Z_of_byte y). f_equal. lia.
Qed.

Lemma string_lt_trans a b c : string_lt a b = true -> string_lt b c = true -> string_lt a c = true.
Proof.
  revert b c. induction a as [|x a IH]; intros [|y b] [|z c]; try done.
  rewrite !string_lt_cons. intros [?|[-> ?]] [?|[-> ?]]; [left; lia|by left|by left|right; eauto].
Qed.

Lemma string_lt_total a b : string_lt a b = false -> string_lt b a = false -> a = b.
Proof.
  revert b. induction a as [|x a IH]; intros [|y b]; try done. cbn.
  destruct (Z.ltb_spec (Z_of_byte x) (Z_of_byte y)); [done|].
  destruct (Z.ltb_spec (Z_of_byte y) (Z_of_byte x)); [done|]. intros ? ?. f_equal; [|auto].
  rewrite <- (byte_of_Z_of_byte x), <- (byte_of_Z_of_byte y). f_equal. lia.
Qed.

(** A [std::set]: strictly increasing. *)
Definition ordered (names : list bytes) : Prop := StronglySorted (fun a b => string_lt a b = true) names.

Lemma elem_of_set_insert x name names : x ∈ set_insert name names <-> x = name \/ x ∈ names.
Proof.
  induction names as [|n names IH]; cbn; [set_solver|].
  destruct (string_lt name n) eqn:H1; [set_solver|]. destruct (string_lt n name) eqn:H2; [set_solver|].
  rewrite (string_lt_total name n H1 H2). set_solver.
Qed.

Lemma set_insert_ordered name names : ordered names -> ordered (set_insert name names).
Proof.
  unfold ordered. induction 1 as [|n names Hs IH Hn]; cbn; [by repeat constructor|].
  destruct (string_lt name n) eqn:H1.
  - constructor; [by constructor|]. constructor; [done|]. eapply Forall_impl; [exact Hn|]. cbn. intros c. by apply string_lt_trans.
  - destruct (string_lt n name) eqn:H2; [|by constructor]. constructor; [done|].
    apply Forall_forall. intros x [->|Hx]%elem_of_set_insert; [done|]. by eapply Forall_forall in Hn.
Qed.

(** ** The scenarios without loops *)
Section Scenarios.
Context {Val E : Type} `{HC : SdkClock Val E} (G : Generated Val).
Abbreviation W := (Program Val E).
Abbreviation P := (Stops W Stop).

Lemma quiet_command_result (r : CommandResult) : Quiet (logCommandResult (Val := Val) (E := E) r).
Proof. unfold logCommandResult. quiet_steps. Qed.

Lemma logs_command_result (r : CommandResult) : Logs (logCommandResult (Val := Val) (E := E) r).
Proof. unfold logCommandResult. quiet_steps. Qed.

Lemma quiet_log_names node_id regs names : Quiet (log_names (Val := Val) (E := E) node_id regs names).
Proof. revert names. induction regs; intros names; cbn [log_names]; quiet_steps. Qed.

Lemma logs_log_names node_id regs names : Logs (log_names (Val := Val) (E := E) node_id regs names).
Proof. revert names. induction regs; intros names; cbn [log_names]; quiet_steps. Qed.

Lemma quiet_list_node names node_id r : Quiet (logRegistryListNodeResult (Val := Val) (E := E) names node_id r).
Proof. unfold logRegistryListNodeResult. quiet_steps. apply quiet_log_names. Qed.

Lemma logs_list_node names node_id r : Logs (logRegistryListNodeResult (Val := Val) (E := E) names node_id r).
Proof. unfold logRegistryListNodeResult. quiet_steps. apply logs_log_names. Qed.

Lemma quiet_listed rs names : Quiet (log_listed (Val := Val) (E := E) rs names).
Proof. revert names. induction rs; intros names; cbn [log_listed]; quiet_steps. apply quiet_list_node. Qed.

Lemma logs_listed rs names : Logs (log_listed (Val := Val) (E := E) rs names).
Proof. revert names. induction rs; intros names; cbn [log_listed]; quiet_steps. apply logs_list_node. Qed.

Lemma quiet_access_node node_id r : Quiet (logRegistryAccessNodeResult (Val := Val) (E := E) node_id r).
Proof. unfold logRegistryAccessNodeResult, log_value. quiet_steps. Qed.

Lemma logs_access_node node_id r : Logs (logRegistryAccessNodeResult (Val := Val) (E := E) node_id r).
Proof. unfold logRegistryAccessNodeResult, log_value. quiet_steps. Qed.

Lemma quiet_access (m : gmap NodeId (AccessNodeResult (Val := Val))) : Quiet (logRegistryAccessResult (Val := Val) (E := E) (inr m)).
Proof. unfold logRegistryAccessResult. quiet_steps. apply quiet_access_node. Qed.

Lemma logs_access (m : gmap NodeId (AccessNodeResult (Val := Val))) : Logs (logRegistryAccessResult (Val := Val) (E := E) (inr m)).
Proof. unfold logRegistryAccessResult. quiet_steps. apply logs_access_node. Qed.

Lemma quiet_roots i roots : Quiet (log_roots (Val := Val) (E := E) i roots).
Proof. revert i. induction roots; intros i; cbn [log_roots]; quiet_steps. Qed.

Lemma logs_roots i roots : Logs (log_roots (Val := Val) (E := E) i roots).
Proof. revert i. induction roots; intros i; cbn [log_roots]; quiet_steps. Qed.
End Scenarios.
#[export] Hint Resolve quiet_command_result quiet_log_names quiet_list_node quiet_listed quiet_access_node quiet_access quiet_roots : quiet.
#[export] Hint Resolve logs_command_result logs_log_names logs_list_node logs_listed logs_access_node logs_access logs_roots : logs.

(** ** The loops *)
Section Loops.
Context {Val E : Type} `{HC : SdkClock Val E} (G : Generated Val).
Abbreviation W := (Program Val E).
Abbreviation P := (Stops W Stop).

(** A scenario: its title, then quiet messages. *)
Definition began (name : string) (w w' : W) : Prop :=
  exists w1, log_ w1 = log_ w ++ [mkLine Info (str name) []] /\ passes w w1 /\ after w1 w'.

Definition Headed (name : string) (m : P unit) : Prop := forall w, wpx m (fun _ => began name w) (thrown (began name w)) w.

Lemma headed name (m : P unit) : Quiet m -> Headed name (log Info name [];; m).
Proof.
  intros Hm w. apply wpx_bind, wpx_log.
  assert (forall w', after (mkProgram (log_ w ++ [mkLine Info (str name) []]) (made w) (pr_env w)) w' -> began name w w') as Hb.
  { intros w' Hw'. eexists. split; [|split; [|exact Hw']]; [done|]. unfold passes. reflexivity. }
  eapply wpx_mono; [apply Hm| |]; cbn beta; [auto|]. intros s w' [Hs Hw']. split; auto.
Qed.

(** A message is received in at least a microsecond. *)
Definition receiving_takes_time : Prop := forall subscriber timeout e,
  time e + 1 <= time (sdk_wait (Object (Receive subscriber)) timeout e).2.

Definition receive_within (subscriber : Ptr) (limit : Z) (m : Made Val) : Prop :=
  exists timeout, m = Asked (Object (Receive subscriber)) timeout /\ timeout <= limit.

Lemma quiet_receive_turn subscriber until u : Quiet (receive_turn (Val := Val) (E := E) subscriber until u).
Proof. unfold receive_turn, logHeartbeat. quiet_steps. Qed.

Lemma receive_turn_asks subscriber until limit u w :
  receiving_takes_time -> until - limit <= time (pr_env w) ->
  wpx (receive_turn (Val := Val) subscriber until u)
    (fun r w' => asks (Forall (receive_within subscriber limit)) w w' /\ time (pr_env w) + 1 <= time (pr_env w'))
    (fun _ => asks (Forall (receive_within subscriber limit)) w) w.
Proof.
  intros Hstep Hlim. apply wpx_bind, wpx_now. intros t e Ht _.
  assert (Forall (receive_within subscriber limit) [Asked (Object (Receive subscriber)) (until - t)]) as HT.
  { constructor; [|done]. eexists. split; [done|]. lia. }
  apply wpx_bind. ask_step; [|intros; by eexists].
  intros result e' Hr _. pose proof (Hstep subscriber (until - t) e) as Hone. rewrite Hr in Hone. cbn in Hone.
  destruct result as [rcv|failure]; apply wpx_bind.
  - unfold logHeartbeat. destruct (rc_publisher_node_id _ rcv); apply wpx_log, wpx_ret; (split; [by eexists|cbn; lia]).
  - apply wpx_log, wpx_ret. split; [by eexists|cbn; lia].
Qed.

Lemma receive_loop_runs fuel subscriber w :
  receiving_takes_time -> 10000000 < Z.of_nat fuel -> forall t, t <= time (pr_env w) ->
  wpx (while_before fuel (t + 10000000) (receive_turn (Val := Val) subscriber (t + 10000000)) tt)
    (fun _ w' => after w w' /\ asks (Forall (receive_within subscriber 10000000)) w w')
    (fun s w' => thrown (after w) s w' /\ asks (Forall (receive_within subscriber 10000000)) w w') w.
Proof.
  intros Hstep Hf t Ht.
  apply (wpx_while_before _ _ (fun _ w' => Z.max 0 (t + 10000000 - time (pr_env w'))) _ _
    (fun _ w' => (after w w' /\ t <= time (pr_env w')) /\ asks (Forall (receive_within subscriber 10000000)) w w')).
  - intros. lia.
  - intros [] w1 e t1 [[Haf _] Hm] _ Hl _. split; [|done]. etrans; [exact Haf|]. by apply after_same_log.
  - intros [] w1 e t1 [[Haf Hle] Hm] Ht1 Hl Hlt.
    assert (forall w2, asks (Forall (receive_within subscriber 10000000)) (mkProgram (log_ w1) (made w1) e) w2 ->
      asks (Forall (receive_within subscriber 10000000)) w w2) as Hasks.
    { intros w2 Hm2. eapply asks_trans; [|exact Hm|exact Hm2]. intros ms1 ms2 ? ?. by apply Forall_app. }
    assert (after w (mkProgram (log_ w1) (made w1) e)) as Haf1 by (etrans; [exact Haf|]; by apply after_same_log).
    eapply wpx_mono; [apply wpx_and; [apply quiet_receive_turn|apply (receive_turn_asks _ _ 10000000); [done|cbn; lia]]| |]; cbn beta; cbn [pr_env].
    + intros r w2 (Haf2 & Hm2 & Htime). assert (after w w2) by (by etrans). destruct r as [u|]; [|eauto].
      split; [split; [split; [done|lia]|by apply Hasks]|lia].
    + intros s w2 [[Hs Haf2] Hm2]. split; [split; [done|by etrans]|by apply Hasks].
  - split; [split; [done|lia]|]. exists []. by rewrite app_nil_r.
  - lia.
Qed.
(** *** Publishing *)

(** What the loop asks for when it publishes these messages with these timeouts: from the
    fifteenth message on, the priority is high. *)
Fixpoint plan (publisher : Ptr) (counter : Z) (sends : list (SyncMessage * Z)) : list (Made Val) :=
  match sends with
  | [] => []
  | (msg, timeout) :: sends' =>
      (if counter + 1 =? 15 then [Prioritised publisher High] else []) ++
      Asked (Object (Publish publisher msg s1)) timeout :: plan publisher (counter + 1) sends'
  end.

Lemma plan_app publisher counter sends1 sends2 :
  plan publisher counter (sends1 ++ sends2) = plan publisher counter sends1 ++ plan publisher (counter + Z.of_nat (length sends1)) sends2.
Proof.
  revert counter. induction sends1 as [|[msg timeout] sends1 IH]; intros counter; cbn [plan length app].
  - by rewrite Z.add_0_r.
  - rewrite IH, <- app_assoc. replace (counter + Z.of_nat (S (length sends1))) with (counter + 1 + Z.of_nat (length sends1)) by lia. done.
Qed.

(** A message has the time when the one before it was sent; the first has none. *)
Definition stamps (ts : list Z) : list SyncMessage := mkSync 0 :: ((fun t => mkSync (u64 t)) <$> ts).

Lemma stamps_app ts t : stamps (ts ++ [t]) = stamps ts ++ [mkSync (u64 t)].
Proof. unfold stamps. by rewrite fmap_app. Qed.

(** The times that are less than a second after the one before. *)
Fixpoint rushed (ts : list Z) : nat :=
  match ts with
  | t1 :: ((t2 :: _) as ts') => (if (t2 <? t1 + 1000000)%Z then 1 else 0) + rushed ts'
  | _ => 0
  end.

Lemma rushed_snoc ts t1 t2 : rushed (ts ++ [t1; t2]) = (rushed (ts ++ [t1]) + if (t2 <? t1 + 1000000)%Z then 1 else 0)%nat.
Proof.
  induction ts as [|t ts IH]; [cbn; destruct (t2 <? t1 + 1000000); done|].
  destruct ts as [|t' ts]; cbn in IH |- *; [destruct (t1 <? t + 1000000); lia|]. rewrite IH. lia.
Qed.

Lemma rushed_grows ts t : (rushed ts <= rushed (ts ++ [t]))%nat.
Proof. induction ts as [|t1 ts IH]; [cbn; lia|]. destruct ts as [|t2 ts]; cbn in IH |- *; lia. Qed.

Definition increasing (ts : list Z) : Prop := StronglySorted Z.le ts.

Lemma increasing_snoc ts t : increasing ts -> Forall (fun t' => t' <= t) ts -> increasing (ts ++ [t]).
Proof.
  unfold increasing. induction 1 as [|t' ts Hs IH Hall]; intros Hf; [by repeat constructor|].
  apply Forall_cons in Hf as [? ?]. cbn. constructor; [by apply IH|]. apply Forall_app. by repeat constructor.
Qed.

(** The signals that are caught between two worlds. *)
Definition caught (w w' : W) : nat := signals w' - signals w.

(** In the whole life of the program, at most [n] signals are caught. *)
Definition at_most_signals (n : nat) : Prop := forall e : E, (length (sdk_signals e) <= n)%nat.

Definition sent_once publisher counter msg limit (w w' : W) : Prop :=
  exists timeout, timeout <= limit /\ made w' = made w ++ plan publisher counter [(msg, timeout)].

Lemma quiet_publish_turn publisher until st : Quiet (publish_turn (Val := Val) (E := E) publisher until st).
Proof. unfold publish_turn. quiet_steps. Qed.

Lemma publish_turn_asks publisher until counter msg w :
  wpx (publish_turn (Val := Val) publisher until (counter, msg))
    (fun r w' => sent_once publisher counter msg (until - time (pr_env w)) w w' /\
       match r with
       | Some (counter', msg') => counter' = counter + 1 /\
           exists sent, msg' = mkSync (u64 sent) /\ time (pr_env w) <= sent <= time (pr_env w') /\
             (sent + 1000000 <= time (pr_env w') \/ (signals w < signals w')%nat)
       | None => True
       end)
    (fun _ w' => sent_once publisher counter msg (until - time (pr_env w)) w w') w.
Proof.
  apply wpx_bind, (wpx_mono _ (fun _ w1 => passes w w1 /\
    made w1 = made w ++ (if counter + 1 =? 15 then [Prioritised publisher High] else [])) _ (fun _ _ => False)); [| |done].
  { destruct (counter + 1 =? 15); [|apply wpx_ret; by rewrite app_nil_r].
    apply wpx_bind, wpx_setPriority. intros [e|] env Henv; [apply wpx_log|apply wpx_ret]; by split. }
  intros [] w1 [[Ht1 Hs1] Hm1]. apply wpx_bind, wpx_now. intros t e Ht [_ Hs2].
  assert (forall ls e', sent_once publisher counter msg (until - time (pr_env w)) w
    (mkProgram ls (made w1 ++ [Asked (Object (Publish publisher msg s1)) (until - t)]) e')) as Hsent.
  { intros ls e'. exists (until - t). split; [lia|]. cbn. by rewrite Hm1, <- app_assoc. }
  apply wpx_bind. ask_step; [|intros; apply Hsent]. intros [err|] e' _ [He' Hs3].
  - apply wpx_bind, wpx_log, wpx_ret. split; [apply Hsent|done].
  - apply wpx_bind, wpx_now. cbn [pr_env]. intros sent e2 He2 [_ Hs4]. apply wpx_bind, wpx_usleep; [lia|].
    unfold signals. cbn [pr_env log_ made]. intros e3 [He3 _] Hsleep. apply wpx_ret. cbn [pr_env log_ made].
    split; [apply Hsent|]. split; [done|]. exists sent. split; [done|]. lia.
Qed.

(** What the loop asks for while [n] signals are caught. *)
Definition publisher_sends (n : nat) (publisher : Ptr) (ms : list (Made Val)) : Prop :=
  exists sends ts, ms = plan publisher 0 sends /\ (length sends <= 30 + n)%nat /\ Forall (fun s => s.2 <= 30000000) sends /\
    sends.*1 `prefix_of` stamps ts /\ increasing ts /\ (rushed ts <= n)%nat.

Lemma publisher_sends_mono n n' publisher ms : (n <= n')%nat -> publisher_sends n publisher ms -> publisher_sends n' publisher ms.
Proof. intros Hn (sends & ts & ? & ? & ? & ? & ? & ?). exists sends, ts. repeat split; try done; lia. Qed.

(** The state of the loop, that began at [t] in the world [w]. *)
Record publishing (publisher : Ptr) (t : Z) (w : W) (st : Z * SyncMessage) (w' : W) : Prop := {
  pb_after : after w w';
  pb_start : t <= time (pr_env w);
  pb_bound : st.1 <= 30 + Z.of_nat (caught w w');
  pb_time : t + (st.1 - Z.of_nat (caught w w')) * 1000000 <= time (pr_env w');
  pb_sends : exists sends ts,
    made w' = made w ++ plan publisher 0 sends /\ st.1 = Z.of_nat (length sends) /\ Forall (fun s => s.2 <= 30000000) sends /\
    sends.*1 ++ [st.2] = stamps ts /\ Forall (fun t' => t' <= time (pr_env w')) ts /\ increasing ts /\
    forall t', time (pr_env w') <= t' -> (rushed (ts ++ [t']) <= caught w w')%nat;
}.

Lemma publishing_done publisher t w st w' : publishing publisher t w st w' -> asks (publisher_sends (caught w w') publisher) w w'.
Proof.
  intros [_ _ Hle _ (sends & ts & Hm & Hn & Hlim & Hst & _ & Hs & Hr)]. eexists. split; [exact Hm|].
  exists sends, ts. repeat split; try done; [lia|rewrite <- Hst; by apply prefix_app_r|].
  etrans; [apply (rushed_grows _ (time (pr_env w')))|]. by apply Hr.
Qed.

(** One more message was sent. *)
Lemma publishing_sent publisher t w st w1 w2 limit :
  publishing publisher t w st w1 -> (signals w1 <= signals w2)%nat -> st.1 < 30 + Z.of_nat (caught w w1) -> limit <= 30000000 ->
  sent_once publisher st.1 st.2 limit w1 w2 -> asks (publisher_sends (caught w w2) publisher) w w2.
Proof.
  intros [_ _ _ _ (sends & ts & Hm & Hn & Hlim & Hst & _ & Hs & Hr)] Hsig H30 Hl (timeout & Hto & Hm2).
  assert (caught w w1 <= caught w w2)%nat as Hc by (unfold caught; lia).
  exists (plan publisher 0 (sends ++ [(st.2, timeout)])). split.
  - rewrite Hm2, Hm, plan_app, <- app_assoc, Hn. done.
  - exists (sends ++ [(st.2, timeout)]), ts. split; [done|]. rewrite length_app. cbn. split; [lia|].
    split; [apply Forall_app; repeat constructor; [done|cbn; lia]|]. split; [by rewrite fmap_app, <- Hst|]. split; [done|].
    etrans; [apply (rushed_grows _ (time (pr_env w1)))|]. etrans; [by apply Hr|exact Hc].
Qed.

(** The state after one more turn: either it lasted a second, or a signal was caught. *)
Lemma publishing_next publisher t w counter msg w1 e sent timeout w2 :
  publishing publisher t w (counter, msg) w1 -> later time (pr_env w1) e -> after w w2 -> (signals w <= signals w1)%nat ->
  (length (sdk_signals e) <= signals w2)%nat -> counter < 30 + Z.of_nat (caught w w1) -> timeout <= 30000000 ->
  made w2 = made w1 ++ plan publisher counter [(msg, timeout)] ->
  time e <= sent <= time (pr_env w2) -> sent + 1000000 <= time (pr_env w2) \/ (length (sdk_signals e) < signals w2)%nat ->
  publishing publisher t w (counter + 1, mkSync (u64 sent)) w2.
Proof.
  intros [_ Hstart _ Ht (sends & ts & Hm & Hn & Hlim & Hst & Hts & Hs & Hr)] [Hte Hse] Haf Hw Hsig H30 Hto Hm2 Hsent Hlong.
  cbn [fst snd] in *. unfold signals in Hse, Hsig, Hlong, Hw. unfold caught, signals in *.
  constructor; cbn [fst snd]; unfold caught, signals; [done|done|lia|lia|]. exists (sends ++ [(msg, timeout)]), (ts ++ [sent]).
  split; [rewrite Hm2, Hm, plan_app, <- app_assoc, Hn; done|]. rewrite length_app. cbn [length]. split; [lia|].
  split; [apply Forall_app; repeat constructor; [done|cbn; lia]|].
  split; [by rewrite stamps_app, <- Hst, fmap_app|].
  split; [apply Forall_app; split; [eapply Forall_impl; [exact Hts|]; cbn; lia|repeat constructor; lia]|].
  split; [apply increasing_snoc; [done|eapply Forall_impl; [exact Hts|]; cbn; lia]|].
  intros t' Ht'. rewrite <- app_assoc. cbn [app]. rewrite rushed_snoc. specialize (Hr sent ltac:(lia)).
  destruct (Z.ltb_spec t' (sent + 1000000)); lia.
Qed.

Lemma publishing_turn publisher t w st w1 e t1 :
  publishing publisher t w st w1 -> time (pr_env w1) <= t1 <= time e -> later time (pr_env w1) e -> t1 < t + 30000000 ->
  wpx (publish_turn (Val := Val) publisher (t + 30000000) st)
    (fun r w2 => match r with
      | Some st' => publishing publisher t w st' w2 /\ st'.1 = st.1 + 1
      | None => after w w2 /\ asks (publisher_sends (caught w w2) publisher) w w2 end)
    (fun s w2 => thrown (after w) s w2 /\ asks (publisher_sends (caught w w2) publisher) w w2)
    (mkProgram (log_ w1) (made w1) e).
Proof.
  intros Hp Ht Hl Hlt. destruct st as [counter msg]. pose proof (pb_time _ _ _ _ _ Hp) as Hc. cbn [fst] in Hc.
  assert (0 <= counter) as Hc0 by (destruct (pb_sends _ _ _ _ _ Hp) as (? & ? & _ & Hn & _); cbn in Hn; lia).
  assert (counter < 30 + Z.of_nat (caught w w1)) as H30 by lia.
  pose proof (pb_after _ _ _ _ _ Hp) as Haf1. pose proof Haf1 as [_ [Htw Hsw]].
  assert (after w (mkProgram (log_ w1) (made w1) e)) as Haf by (etrans; [exact Haf1|]; by apply after_same_log).
  destruct Hl as [Hl1 Hl2].
  assert (t + 30000000 - time e <= 30000000) as Hlimit by (pose proof (pb_start _ _ _ _ _ Hp); lia).
  eapply wpx_mono; [apply wpx_and; [apply quiet_publish_turn|apply publish_turn_asks]| |]; cbn beta; cbn [pr_env].
  - intros r w2 (Haf2 & Hsent & Hr). assert (after w w2) by (by etrans). destruct r as [[counter' msg']|].
    + destruct Hr as (-> & sent & -> & Hs1 & Hs2). split; [|done]. destruct Hsent as (timeout & Hto & Hm2). cbn in Hm2.
      destruct Haf2 as [_ [_ Hs3]].
      apply (publishing_next publisher t w counter msg w1 e sent timeout w2); [exact Hp|by split|done|exact Hsw|exact Hs3|done|lia|done|done|done].
    + split; [done|]. destruct Haf2 as [_ [_ Hs2]]. cbn in Hs2. unfold signals in *.
      eapply (publishing_sent _ _ _ (counter, msg)); [exact Hp| | |exact Hlimit|exact Hsent]; [unfold signals; lia|done].
  - intros s w2 [[Hs Haf2] Hsent]. split; [split; [done|by etrans]|].
    destruct Haf2 as [_ [_ Hs2]]. cbn in Hs2.
    eapply (publishing_sent _ _ _ (counter, msg)); [exact Hp| | |exact Hlimit|exact Hsent]; [unfold signals; lia|done].
Qed.

Lemma publish_loop_runs n fuel publisher w t :
  at_most_signals n -> (31 + n <= fuel)%nat -> t <= time (pr_env w) ->
  wpx (while_before fuel (t + 30000000) (publish_turn (Val := Val) publisher (t + 30000000)) (0, mkSync 0))
    (fun _ w' => after w w' /\ asks (publisher_sends (caught w w') publisher) w w')
    (fun s w' => thrown (after w) s w' /\ asks (publisher_sends (caught w w') publisher) w w') w.
Proof.
  intros Hn Hf Ht.
  apply (wpx_while_before _ _ (fun st _ => 30 + Z.of_nat n - st.1) _ _ (publishing publisher t w)).
  - intros st w1 Hp. pose proof (pb_bound _ _ _ _ _ Hp) as Hb. unfold caught, signals in Hb. specialize (Hn (pr_env w1)). cbn beta. lia.
  - intros st w1 e t1 Hp Ht1 Hl Hend. split; [etrans; [apply (pb_after _ _ _ _ _ Hp)|]; by apply after_same_log|].
    destruct (publishing_done _ _ _ _ _ Hp) as (ms & Hms & HT). exists ms. split; [done|].
    eapply publisher_sends_mono; [|exact HT]. destruct Hl as [_ Hl]. unfold caught, signals. cbn. lia.
  - intros st w1 e t1 Hp Ht1 Hl Hlt. eapply wpx_mono; [by eapply publishing_turn| |done]. cbn beta.
    intros [st'|] w2 Hw2; [|done]. destruct Hw2 as [? ->]. split; [done|lia].
  - assert (caught w w = 0%nat) as Hc by (unfold caught; lia).
    constructor; rewrite ?Hc; cbn; [done|done|lia|lia|]. exists [], []. cbn [plan]. rewrite app_nil_r. repeat (split; [done || constructor|]).
    cbn. lia.
  - cbn. lia.
Qed.

(** *** The two scenarios *)

(** The object that an answer of the factory gives. *)
Definition object_of (answer : bytes + FactoryResult) : option Ptr :=
  match answer with inr (inr object) => Some object | _ => None end.

(** The questions to the factory. *)
Definition make_subscriber : Ask Val := Factory (MakeSubscriber (Heartbeat_FixedPortId G) (Heartbeat_ExtentBytes G)).
Definition make_publisher : Ask Val := Factory (MakePublisher (Synchronization_FixedPortId G)).

(** What [trySubscriberScenario] and [tryPublisherScenario] ask for, when the factory gives
    this object; the latter while [n] signals are caught. *)
Definition subscriber_asks (object : option Ptr) (ms : list (Made Val)) : Prop :=
  match object with
  | Some subscriber => exists rest, ms = Asked make_subscriber s2 :: rest /\ Forall (receive_within subscriber 10000000) rest
  | None => ms = [Asked make_subscriber s2]
  end.

Definition publisher_asks (n : nat) (object : option Ptr) (ms : list (Made Val)) : Prop :=
  match object with
  | Some publisher => exists more, ms = Asked make_publisher s2 :: Prioritised publisher Low :: more /\ publisher_sends n publisher more
  | None => ms = [Asked make_publisher s2]
  end.

Lemma began_after name w w1 w2 : began name w w1 -> after w1 w2 -> began name w w2.
Proof. intros (w0 & Hl & Hp & Haf) Haf2. exists w0. split; [done|]. split; [done|by etrans]. Qed.

Lemma began_passes name w w' : began name w w' -> passes w w'.
Proof. intros (w0 & _ & Hp & [_ Hp2]). by etrans. Qed.

Lemma began_log name w ms e : later time (pr_env w) e ->
  began name w (mkProgram (log_ w ++ [mkLine Info (str name) []]) ms e).
Proof. intros He. eexists. split; [|split; [|reflexivity]]; done. Qed.

Lemma began_log2 name w ms ls e e' lv fmt arguments : quiet (mkLine lv (str fmt) arguments) -> later time (pr_env w) e -> later time e e' ->
  ls = log_ w ++ [mkLine Info (str name) []] ->
  began name w (mkProgram (ls ++ [mkLine lv (str fmt) arguments]) ms e').
Proof. intros Hq He He' ->. eapply began_after; [by apply (began_log name w ms e)|]. by apply after_log. Qed.

Lemma subscriber_runs fuel w :
  receiving_takes_time -> 10000000 < Z.of_nat fuel ->
  let asked := asks (subscriber_asks (object_of (sdk_wait make_subscriber s2 (pr_env w)).1)) w in
  wpx (trySubscriberScenario (Val := Val) G fuel)
    (fun _ w' => began "trySubscriberScenario -----------------" w w' /\ asked w')
    (fun s w' => thrown (began "trySubscriberScenario -----------------" w) s w' /\ asked w') w.
Proof.
  intros Hstep Hf asked. unfold asked. apply wpx_bind, wpx_log, wpx_bind. fold make_subscriber. ask_step.
  2: { intros what e -> He. split; [split; [eauto|by apply began_log]|]. by eexists. }
  intros [failure|subscriber] e -> He; cbn [fst object_of].
  - apply wpx_log. split; [|by eexists]. by apply (began_log2 _ _ _ _ e); [split; vm_compute; done| | |].
  - apply wpx_bind, wpx_log, wpx_bind, wpx_now. cbn [log_ made pr_env]. intros t e' Ht He'.
    match goal with |- wpx _ _ _ ?w1 => assert (began "trySubscriberScenario -----------------" w w1) as Hbegan end.
    { by apply (began_log2 _ _ _ _ e); [split; vm_compute; done| | |]. }
    eapply wpx_mono; [apply receive_loop_runs; [done|done|cbn; lia]| |]; cbn beta.
    + intros [] w2 [Haf (ms & Hms & HR)]. split; [by eapply began_after|].
      eexists. split; [rewrite Hms; cbn [made]; rewrite <- app_assoc; done|]. by exists ms.
    + intros s w2 [[Hs Haf] (ms & Hms & HR)]. split; [split; [done|by eapply began_after]|].
      eexists. split; [rewrite Hms; cbn [made]; rewrite <- app_assoc; done|]. by exists ms.
Qed.

Lemma publisher_runs n fuel w :
  at_most_signals n -> (31 + n <= fuel)%nat ->
  let asked := fun w' => asks (publisher_asks (caught w w') (object_of (sdk_wait make_publisher s2 (pr_env w)).1)) w w' in
  wpx (tryPublisherScenario (Val := Val) G fuel)
    (fun _ w' => began "tryPublisherScenario -----------------" w w' /\ asked w')
    (fun s w' => thrown (began "tryPublisherScenario -----------------" w) s w' /\ asked w') w.
Proof.
  intros Hn Hf asked. unfold asked. apply wpx_bind, wpx_log, wpx_bind. fold make_publisher. ask_step.
  2: { intros what e -> He. split; [split; [eauto|by apply began_log]|]. by eexists. }
  intros [failure|publisher] e -> He; cbn [fst object_of].
  - apply wpx_log. split; [|by eexists]. by apply (began_log2 _ _ _ _ e); [split; vm_compute; done| | |].
  - apply wpx_bind, (wpx_mono _ (fun opt_error w1 => began "tryPublisherScenario -----------------" w w1 /\
      made w1 = made w ++ [Asked make_publisher s2; Prioritised publisher Low]) _ (fun _ _ => False)); [| |done].
    { apply wpx_setPriority. cbn [log_ made pr_env]. intros r e1 He1. split; [apply began_log; by etrans|]. cbn. by rewrite <- app_assoc. }
    intros opt_error w1 [Hb1 Hm1].
    apply wpx_bind, (wpx_mono _ (fun _ w2 => began "tryPublisherScenario -----------------" w w2 /\ made w2 = made w1) _ (fun _ _ => False)); [| |done].
    { destruct opt_error; [apply wpx_log|by apply wpx_ret]. split; [|done]. eapply began_after; [exact Hb1|].
      by apply after_log; [split; vm_compute; done| |]. }
    intros [] w2 [Hb2 Hm2]. apply wpx_bind, wpx_log, wpx_bind, wpx_now. cbn [log_ made pr_env]. intros t e' Ht He'.
    match goal with |- wpx _ _ _ ?w3 => assert (began "tryPublisherScenario -----------------" w w3) as Hbegan end.
    { eapply began_after; [exact Hb2|]. by apply after_log; [split; vm_compute; done| |]. }
    match goal with |- wpx _ _ _ ?w3 => assert (forall w4, asks (publisher_sends (caught w3 w4) publisher) w3 w4 ->
      asks (publisher_asks (caught w w4) (Some publisher)) w w4) as Hasks end.
    { intros w4 (ms & Hms & HR). eexists. split; [rewrite Hms; cbn [made]; rewrite Hm2, Hm1, <- app_assoc; done|].
      exists ms. split; [done|]. eapply publisher_sends_mono; [|exact HR].
      apply began_passes in Hbegan as [_ Hp]. unfold caught, signals. cbn in Hp |- *. lia. }
    eapply wpx_mono; [apply (publish_loop_runs n); [done|done|cbn; lia]| |]; cbn beta.
    + intros [] w3 [Haf Has]. split; [by eapply began_after|by eapply Hasks].
    + intros s w3 [[Hs Haf] Has]. split; [split; [done|by eapply began_after]|by eapply Hasks].
Qed.
End Loops.

(** ** All scenarios, and [main] *)
Section Main.
Context {Val E : Type} `{HC : SdkClock Val E} (G : Generated Val).
Abbreviation W := (Program Val E).
Abbreviation P := (Stops W Stop).

(** *** What the scenarios without loops ask for *)

(** What is asked for once the nodes were listed. *)
Definition registers_asks (names : list bytes) : list (Made Val) :=
  [Asked (Registry (ListNodes three_nodes s1)) s2;
   Asked (Registry (ReadNodes three_nodes names s1)) s2;
   Asked (Registry (WriteNodes three_nodes [AccessRegs.mkReg description (setRegisterValue G (str "libcyphal demo node3"))] s1)) s2].

Definition single_node_asks : list (Made Val) :=
  [Asked (Registry (ListNode 42 s1)) s2;
   Asked (Registry (WriteNode 42 [AccessRegs.mkReg description (setRegisterValue G (str "libcyphal demo node42"))] s1)) s2;
   Asked (Registry (ReadNode 42 [description] s1)) s2].

Definition make_rpc_client : Ask Val :=
  Factory (MakeRpcClient (ExecuteCommand_FixedPortId G) 42 (ExecuteCommand_Response_ExtentBytes G)).

Definition rpc_asks (object : option Ptr) : list (Made Val) :=
  Asked make_rpc_client s2 ::
  match object with
  | Some rpc_client =>
      [Prioritised rpc_client Low;
       Asked (Object (CallCommand rpc_client (ExecCmd.mkReqPayload (COMMAND_IDENTIFY G) []) s1 1990000)) s2]
  | None => []
  end.

Lemma logs_warn_opt (o : OptError) lv fmt : Logs (match o with Some e => log (Val := Val) (E := E) lv fmt [AErr e] | None => mret tt end).
Proof. by destruct o. Qed.

(** The nodes are listed; if that succeeds, names are read and a register is written. *)
Lemma plans_registers :
  Plans (fun ms => ms = take 1 (registers_asks []) \/ exists names, ms = registers_asks names)
    (tryListReadWriteRegsOfNodesScenario (E := E) G).
Proof.
  eapply (plans_bind (eq []) _ (fun _ ms => ms = take 1 (registers_asks []) \/ exists names, ms = registers_asks names));
    [by apply plans_logs|intros _|eexists; intros ? <-; by left|by intros _ ? ? <-].
  eapply (plans_bind _ _ (fun _ ms => ms = [] \/ exists names, ms = drop 1 (registers_asks names)));
    [ask_plans| |exists []; intros ? <-; by left|intros _ ? ? <- [->|[names ->]]; [by left|right; by exists names]].
  intros [failure|m]; [apply (plans_mono (eq [])); [by intros ? <-; left|by apply plans_logs]|].
  eapply (plans_bind (eq []) _ (fun _ ms => exists names, ms = drop 1 (registers_asks names)));
    [by apply plans_logs|intros _|exists []; intros ? <-; by left|intros _ ? ? <- [names ->]; right; by exists names].
  eapply (plans_bind (eq []) _ (fun names => eq (drop 1 (registers_asks names))));
    [apply plans_logs, logs_listed|intros names|exists (drop 1 (registers_asks [])); intros ? <-; by exists []|intros names ? ? <- <-; by exists names].
  cbn [drop registers_asks]. apply (plans_then [_] [_]); [ask_plans|intros read_result].
  apply (plans_then [] [_]); [apply plans_logs; quiet_steps|intros _].
  apply (plans_then [_] []); [ask_plans|intros write_result]. apply plans_logs. quiet_steps.
Qed.

Lemma plans_single_node : Plans (eq single_node_asks) (tryListReadWriteRegsOfSingleNodeScenario (E := E) G).
Proof.
  unfold tryListReadWriteRegsOfSingleNodeScenario, single_node_asks.
  apply (plans_then [] _); [by apply plans_logs|intros _]. apply (plans_then [_] _); [ask_plans|intros r1].
  apply (plans_then [] _); [apply plans_logs; quiet_steps|intros _]. apply (plans_then [_] _); [ask_plans|intros r2].
  apply (plans_then [] _); [apply plans_logs; quiet_steps|intros _]. apply (plans_then [_] []); [ask_plans|intros r3].
  apply plans_logs. quiet_steps.
Qed.

Lemma plans_rpc : Plans (fun ms => exists object, ms = rpc_asks object) (tryRpcClientScenario (E := E) G).
Proof.
  eapply (plans_bind (eq []) _ (fun _ ms => exists object, ms = rpc_asks object));
    [by apply plans_logs|intros _|eexists; intros ? <-; by exists None|by intros _ ? ? <-].
  eapply (plans_bind _ _ (fun _ ms => exists object, ms = drop 1 (rpc_asks object)));
    [ask_plans| |exists []; intros ? <-; by exists None|intros _ ? ? <- [object ->]; by exists object].
  intros [failure|rpc_client].
  - apply (plans_mono (eq [])); [intros ? <-; by exists None|by apply plans_logs].
  - apply (plans_mono (eq (drop 1 (rpc_asks (Some rpc_client))))); [intros ? <-; by eexists|]. cbn [drop rpc_asks].
    apply (plans_then [_] _); [apply plans_setPriority|intros o]. apply (plans_then [] _); [apply plans_logs, logs_warn_opt|intros _].
    apply (plans_then [_] []); [ask_plans|intros r]. apply plans_logs. unfold logExeCmdResponse. quiet_steps.
Qed.

(** *** One scenario after the other *)

(** A scenario: its title, and what it may ask for. *)
Definition Spec : Type := bytes * (list (Made Val) -> Prop).

(** The parts of what is asked for, one after the other. *)
Fixpoint each (Ts : list (list (Made Val) -> Prop)) (ms : list (Made Val)) : Prop :=
  match Ts with
  | [] => ms = []
  | T :: Ts' => exists ms1 ms2, ms = ms1 ++ ms2 /\ T ms1 /\ each Ts' ms2
  end.

Lemma each_app Ts1 Ts2 ms1 ms2 : each Ts1 ms1 -> each Ts2 ms2 -> each (Ts1 ++ Ts2) (ms1 ++ ms2).
Proof.
  revert ms1. induction Ts1 as [|T Ts1 IH]; intros ms1; cbn; [by intros ->|].
  intros (a & b & -> & HT & H1) H2. exists a, (b ++ ms2). rewrite <- app_assoc. auto.
Qed.

Definition calm (l : Line Val) : Prop := critical l = false.

(** These scenarios began, in this order, and asked for what they may; no new message is critical. *)
Definition ran (specs : list Spec) (w w' : W) : Prop :=
  (exists ls, log_ w' = log_ w ++ ls /\ Forall calm ls /\ begun ls = specs.*1) /\ asks (each specs.*2) w w'.

(** An exception cut one of them short, and the ones before it ran. *)
Definition stopped (specs : list Spec) (w w' : W) : Prop :=
  exists before spec rest, specs = before ++ spec :: rest /\ ran (before ++ [(spec.1, cut spec.2)]) w w'.

Definition Runs (specs : list Spec) (m : P unit) : Prop := forall w,
  wpx m (fun _ => ran specs w) (thrown (stopped specs w)) w.

Lemma begun_app (ls1 ls2 : list (Line Val)) : begun (ls1 ++ ls2) = begun ls1 ++ begun ls2.
Proof. unfold begun. by rewrite filter_app, fmap_app. Qed.

Lemma begun_quiet (ls : list (Line Val)) : Forall quiet ls -> Forall calm ls /\ begun ls = [].
Proof.
  unfold begun. induction 1 as [|l ls [Hc Ht] _ [IH1 IH2]]; [done|]. split; [by constructor|].
  rewrite filter_cons, Ht. by rewrite decide_False.
Qed.

Lemma ran_trans s1 s2 w1 w2 w3 : ran s1 w1 w2 -> ran s2 w2 w3 -> ran (s1 ++ s2) w1 w3.
Proof.
  intros [(l1 & H1 & C1 & B1) A1] [(l2 & H2 & C2 & B2) A2]. split.
  - exists (l1 ++ l2). rewrite H2, H1, <- app_assoc, begun_app, B1, B2, fmap_app. split; [done|]. split; [by apply Forall_app|done].
  - eapply asks_trans; [|exact A1|exact A2]. intros ms1 ms2 ? ?. rewrite fmap_app. by apply each_app.
Qed.

(** Quiet messages, and nothing is asked for. *)
Lemma ran_nothing (w w' : W) ls : log_ w' = log_ w ++ ls -> Forall quiet ls -> made w' = made w -> ran [] w w'.
Proof.
  intros Hl Hq Hm. destruct (begun_quiet ls Hq). split; [by exists ls|]. exists []. by rewrite app_nil_r.
Qed.

Lemma stopped_after specs w1 w2 w3 : ran [] w1 w2 -> stopped specs w2 w3 -> stopped specs w1 w3.
Proof. intros H1 (before & spec & rest & -> & H2). exists before, spec, rest. split; [done|]. by apply (ran_trans [] _ _ w2). Qed.

Lemma ran_began name (T : list (Made Val) -> Prop) w w' : str name ∈ titles -> began name w w' -> asks T w w' -> ran [(str name, T)] w w'.
Proof.
  intros Hn (w1 & Hl & _ & [(ls & Hls & Hq) _]) (ms & Hm & HT). destruct (begun_quiet ls Hq) as [Hc Hb]. split.
  - exists (mkLine Info (str name) [] :: ls). rewrite Hls, Hl, <- app_assoc. split; [done|]. split; [by constructor|].
    change (mkLine Info (str name) [] :: ls) with ([mkLine Info (str name) []] ++ ls). rewrite begun_app, Hb, app_nil_r.
    unfold begun. rewrite filter_cons, decide_True; [done|]. unfold title. by rewrite bool_decide_eq_true.
  - exists ms. split; [done|]. exists ms, []. by rewrite app_nil_r.
Qed.

Lemma stopped_one name (T : list (Made Val) -> Prop) w w' : ran [(str name, cut T)] w w' -> stopped [(str name, T)] w w'.
Proof. intros Hran. by exists [], (str name, T), []. Qed.

Lemma runs_one name T (m : P unit) : str name ∈ titles -> Headed name m -> Plans T m -> Runs [(str name, T)] m.
Proof.
  intros Hn Hm HT w. eapply wpx_mono; [apply wpx_and; [apply Hm|apply HT]| |]; cbn beta.
  - intros _ w' [Hw' Ha]. by apply ran_began.
  - intros s w' [[Hs Hw'] Ha]. split; [done|]. by apply stopped_one, ran_began.
Qed.

Lemma runs_seq s1 s2 (m1 m2 : P unit) : Runs s1 m1 -> Runs s2 m2 -> Runs (s1 ++ s2) (m1;; m2).
Proof.
  intros H1 H2 w. apply wpx_bind. eapply wpx_mono; [apply H1| |]; cbn beta.
  - intros [] w1 Hr1. eapply wpx_mono; [apply H2| |]; cbn beta.
    + intros [] w2 Hr2. by eapply ran_trans.
    + intros s w2 [Hs (before & spec & rest & -> & Hk)]. split; [done|]. exists (s1 ++ before), spec, rest.
      rewrite <- !app_assoc. split; [done|]. by eapply ran_trans.
  - intros s w1 [Hs (before & spec & rest & -> & Hk)]. split; [done|]. exists before, spec, (rest ++ s2). by rewrite <- app_assoc.
Qed.

Lemma runs_title name T (m : P unit) : str name ∈ titles -> Plans T (log Info name [];; m) -> Quiet m -> Runs [(str name, T)] (log Info name [];; m).
Proof. intros. apply runs_one; [done|by apply headed|done]. Qed.
(** *** What the tool does *)

(** The scenarios, in their order; at most [n] signals are caught. *)
Definition scenario_specs (n : nat) : list Spec := [
  (str "tryResetNodesScenario -----------------", eq [Asked (Command (Restart three_nodes s1)) s2]);
  (str "tryBeginSoftwareUpdateScenario -----------------",
    eq [Asked (Command (BeginSoftwareUpdate three_nodes (str "firmware.bin") s1)) s2]);
  (str "tryPushRootScenario -----------------", eq [Asked (Files (CallPush (str "key") true)) s2]);
  (str "tryPopRootScenario -----------------", eq [Asked (Files (CallPop (str "key") true)) s2]);
  (str "tryListRootsScenario -----------------", eq [Asked (Files CallList) s2]);
  (str "tryListReadWriteRegsOfNodesScenario -----------------",
    fun ms => ms = take 1 (registers_asks []) \/ exists names, ms = registers_asks names);
  (str "tryListReadWriteRegsOfSingleNodeScenario -----------------", eq single_node_asks);
  (str "trySubscriberScenario -----------------", fun ms => exists object, subscriber_asks G object ms);
  (str "tryPublisherScenario -----------------", fun ms => exists object, publisher_asks G n object ms);
  (str "tryRpcClientScenario -----------------", fun ms => exists object, ms = rpc_asks object)].

Lemma title_in name : bool_decide (str name ∈ titles) = true -> str name ∈ titles.
Proof. apply bool_decide_eq_true. Qed.

Lemma runs_subscriber fuel : receiving_takes_time (Val := Val) (E := E) -> 10000000 < Z.of_nat fuel ->
  Runs [(str "trySubscriberScenario -----------------", fun ms => exists object, subscriber_asks G object ms)] (trySubscriberScenario G fuel).
Proof.
  intros Hstep Hf w. eapply wpx_mono; [by apply subscriber_runs| |]; cbn beta.
  - intros _ w' [Hb Ha]. apply ran_began; [by apply title_in|done|]. eapply asks_mono; [|exact Ha]. eauto.
  - intros s w' [[Hs Hb] Ha]. split; [done|]. apply stopped_one, ran_began; [by apply title_in|done|].
    eapply asks_mono; [|exact Ha]. intros ms ?. apply cut_whole. eauto.
Qed.

Lemma runs_publisher n fuel : at_most_signals (Val := Val) (E := E) n -> (31 + n <= fuel)%nat ->
  Runs [(str "tryPublisherScenario -----------------", fun ms => exists object, publisher_asks G n object ms)] (tryPublisherScenario G fuel).
Proof.
  intros Hn Hf w.
  assert (forall (w' : W) object ms, publisher_asks G (caught w w') object ms -> publisher_asks G n object ms) as Hmono.
  { intros w' [publisher|] ms; [|done]. intros (more & -> & Hmore). exists more. split; [done|].
    eapply publisher_sends_mono; [|exact Hmore]. specialize (Hn (pr_env w')). unfold caught, signals. lia. }
  eapply wpx_mono; [by apply (publisher_runs _ n)| |]; cbn beta.
  - intros _ w' [Hb Ha]. apply ran_began; [by apply title_in|done|]. eapply asks_mono; [|exact Ha]. eauto.
  - intros s w' [[Hs Hb] Ha]. split; [done|]. apply stopped_one, ran_began; [by apply title_in|done|].
    eapply asks_mono; [|exact Ha]. intros ms ?. apply cut_whole. eauto.
Qed.

Ltac runs_step := apply runs_title; [by apply title_in| |unfold logExeCmdResponse; quiet_steps].

(** A scenario with one question. *)
Ltac asks_one :=
  apply (plans_then [] _); [by apply plans_logs|intros _]; apply (plans_then [_] []); [ask_plans|intros ?; apply plans_logs; quiet_steps].

Lemma scenarios_run n fuel :
  receiving_takes_time (Val := Val) (E := E) -> at_most_signals (Val := Val) (E := E) n -> 10000000 + Z.of_nat n < Z.of_nat fuel ->
  Runs (scenario_specs n) (scenarios G fuel).
Proof.
  intros Hstep Hn Hf. unfold scenarios, scenario_specs.
  do 9 (refine (runs_seq [_] _ _ _ _ _);
    [first [apply runs_subscriber; [done|lia]|apply runs_publisher; [done|lia]
           |runs_step; first [exact plans_registers|exact plans_single_node|asks_one]]|]).
  runs_step. exact plans_rpc.
Qed.

(** A question that the SDK answers at once. *)
Lemma wpx_sdk_make connection (Q : bool -> W -> Prop) (R : Stop -> W -> Prop) w :
  (forall e, Q (sdk_make connection (pr_env w)).1 (mkProgram (log_ w) (made w) e)) -> wpx (sdk_call (sdk_make connection)) Q R w.
Proof. intros HQ. unfold wpx, sdk_call. destruct (sdk_make connection (pr_env w)) as [b e] eqn:Hm. apply (HQ e). Qed.

Lemma wpx_try_catch {A} (m : P A) (handler : bytes -> P A) (Q : A -> W -> Prop) (R : Stop -> W -> Prop) w :
  wpx m Q (fun s w' => match s with Thrown what => wpx (handler what) Q R w' | _ => R s w' end) w ->
  wpx (try_catch m handler) Q R w.
Proof. unfold wpx, try_catch. by destruct (m w) as [[[[what|code|]|a] w']|]. Qed.

(** Whether the daemon can be reached from this world. *)
Definition connects (e : E) : bool :=
  (sdk_make (default (str "unix-abstract:org.opencyphal.ocvsmd.ipc") (sdk_getenv (str "OCVSMD_CONNECTION") e)) e).1.

(** The ends of the [try] of [main]. *)
Definition body_ends (n : nat) (w : W) (r : option Z) (w' : W) : Prop :=
  match r with
  | None => connects (pr_env w) = true /\ ran (scenario_specs n) w w'
  | Some code => connects (pr_env w) = false /\ code = EXIT_FAILURE /\
      log_ w' = log_ w ++ [mkLine Critical (str "Failed to create daemon.") []] /\ made w' = made w
  end.

Lemma main_body_runs n fuel w :
  receiving_takes_time (Val := Val) (E := E) -> at_most_signals (Val := Val) (E := E) n -> 10000000 + Z.of_nat n < Z.of_nat fuel ->
  wpx (main_body G fuel) (body_ends n w) (thrown (fun w' => connects (pr_env w) = true /\ stopped (scenario_specs n) w w')) w.
Proof.
  intros Hstep Hn Hf. unfold main_body. apply wpx_bind. unfold wpx at 1. apply wpx_bind, wpx_sdk_make. intros e.
  fold (connects (pr_env w)). destruct (connects (pr_env w)) eqn:Hc; cbn [negb].
  - assert (ran [] w (mkProgram (log_ w) (made w) e)) as H0 by (apply (ran_nothing _ _ []); [by rewrite app_nil_r|done|done]).
    apply wpx_bind. eapply wpx_mono; [by apply (scenarios_run n)| |]; cbn beta.
    + intros [] w1 Hr. apply (ran_trans [] _ _ _ _ H0) in Hr.
      apply wpx_bind. unfold wpx at 1. apply wpx_bind.
      destruct (foldl signalHandler 1 (sdk_signals (pr_env w1)) =? 0); [apply wpx_log|apply wpx_ret]; apply wpx_ret; split; try done.
      rewrite <- (app_nil_r (scenario_specs n)). eapply ran_trans; [exact Hr|]. eapply ran_nothing; [done| |done]. by repeat constructor.
    + intros s w1 [Hs Hr]. split; [done|]. split; [done|]. by eapply stopped_after.
  - by apply wpx_bind, wpx_log, wpx_ret.
Qed.

(** How [main] returns. *)
Inductive main_ends (n : nat) (w : W) (e : E) : Z -> W -> Prop :=
| main_unconnected started_line w' :
    connects e = false -> quiet started_line ->
    log_ w' = log_ w ++ [started_line; mkLine Critical (str "Failed to create daemon.") []] -> made w' = made w ->
    main_ends n w e EXIT_FAILURE w'
| main_done w' :
    connects e = true -> ran (scenario_specs n) w w' -> main_ends n w e EXIT_SUCCESS w'
| main_threw what w1 w' :
    connects e = true -> stopped (scenario_specs n) w w1 -> made w' = made w1 ->
    log_ w' = log_ w1 ++ [mkLine Critical (str "Unhandled exception: {}") [AText what]; mkLine Info (str "OCVSMD client terminated.") []] ->
    main_ends n w e EXIT_FAILURE w'.


(** C38: the publisher's scenario ends with [31 + n] turns of fuel when at most [n] signals are
    caught in the life of the program. It asks the factory for a publisher; when it has
    one, it sets the priority to low and publishes at most 30 messages, and one more for every
    signal that is caught meanwhile (a signal cuts [usleep] short). A message carries the
    time when the one before it was sent; these times increase, and are a second apart but for as many as
    there are signals. The priority is set to high with the fifteenth message: of thirty,
    fourteen are sent with the low priority and sixteen with the high one, where the comment of
    the function ("the first half with low priority, and the second half with high priority")
    has fifteen and fifteen. *)
Theorem publisher_bounds n fuel w :
  at_most_signals (Val := Val) (E := E) n -> (31 + n <= fuel)%nat ->
  let asked := fun w' => asks (publisher_asks G (caught w w') (object_of (sdk_wait (make_publisher G) s2 (pr_env w)).1)) w w' in
  wpx (tryPublisherScenario G fuel) (fun _ => asked) (fun s w' => (exists what, s = Thrown what) /\ asked w') w.
Proof.
  intros Hn Hf asked. eapply wpx_mono; [by apply (publisher_runs _ n)| |]; cbn beta; [by intros [] ? [_ ?]|].
  intros s w' [[Hs _] Ha]. by split.
Qed.

(** The subscriber's scenario ends after its ten seconds, and never waits longer. *)
Theorem subscriber_bounds fuel w :
  receiving_takes_time (Val := Val) (E := E) -> 10000000 < Z.of_nat fuel ->
  let asked := asks (subscriber_asks G (object_of (sdk_wait (make_subscriber G) s2 (pr_env w)).1)) w in
  wpx (trySubscriberScenario G fuel) (fun _ => asked) (fun s w' => (exists what, s = Thrown what) /\ asked w') w.
Proof.
  intros Hstep Hf asked. eapply wpx_mono; [by apply subscriber_runs| |]; cbn beta; [by intros [] ? [_ ?]|].
  intros s w' [[Hs _] Ha]. by split.
Qed.

(** The priorities that are set while [sends] are published: one, with the fifteenth. *)
Definition priorities (ms : list (Made Val)) : list Z :=
  omap (fun m => match m with Prioritised _ priority => Some priority | Asked _ _ => None end) ms.

Lemma plan_priorities publisher sends counter :
  priorities (plan publisher counter sends) =
    if (counter <? 15) && (15 <=? counter + Z.of_nat (length sends)) then [High] else [].
Proof.
  revert counter. induction sends as [|[msg timeout] sends IH]; intros counter; cbn [plan length].
  - change (Z.of_nat 0) with 0. destruct (Z.ltb_spec counter 15), (Z.leb_spec 15 (counter + 0)); (done || lia).
  - destruct (Z.eqb_spec (counter + 1) 15); cbn [app]; unfold priorities in *; cbn [omap list_omap]; rewrite IH;
      destruct (Z.ltb_spec (counter + 1) 15), (Z.leb_spec 15 (counter + 1 + Z.of_nat (length sends)));
      destruct (Z.ltb_spec counter 15), (Z.leb_spec 15 (counter + Z.of_nat (S (length sends)))); cbn [andb]; (done || lia).
Qed.

(** *** Registers *)

Lemma log_names_asks node_id regs names w :
  wpx (log_names (Val := Val) (E := E) node_id regs names)
    (fun names' w' => (ordered names -> ordered names') /\ (forall x, x ∈ names' <-> x ∈ names \/ x ∈ regs) /\
       made w' = made w /\ pr_env w' = pr_env w) (fun _ _ => False) w.
Proof.
  revert names w. induction regs as [|reg regs IH]; intros names w; cbn [log_names].
  - apply wpx_ret. set_solver.
  - apply wpx_bind, wpx_log. eapply wpx_mono; [apply IH| |done]. cbn beta. intros names' w' (Ho & Hin & Hm).
    split; [intros ?; by apply Ho, set_insert_ordered|]. split; [|done]. intros x. rewrite Hin, elem_of_set_insert. set_solver.
Qed.

Lemma log_listed_asks rs names w :
  wpx (log_listed (Val := Val) (E := E) rs names)
    (fun names' w' => (ordered names -> ordered names') /\
       (forall x, x ∈ names' <-> x ∈ names \/ exists id regs, (id, inr regs) ∈ rs /\ x ∈ regs) /\
       made w' = made w /\ pr_env w' = pr_env w) (fun _ _ => False) w.
Proof.
  revert names w. induction rs as [|[id r] rs IH]; intros names w; cbn [log_listed fst snd].
  - apply wpx_ret. split; [done|]. split; [|done]. intros x. split; [by left|]. intros [?|(? & ? & []%elem_of_nil & _)]. done.
  - apply wpx_bind, (wpx_mono _ (fun names' w' => (ordered names -> ordered names') /\
      (forall x, x ∈ names' <-> x ∈ names \/ exists regs, r = inr regs /\ x ∈ regs) /\ made w' = made w /\ pr_env w' = pr_env w) _ (fun _ _ => False)); [| |done].
    { destruct r as [failure|regs]; cbn [logRegistryListNodeResult].
      - apply wpx_bind, wpx_log, wpx_ret. split; [done|]. split; [|done]. naive_solver.
      - eapply wpx_mono; [apply log_names_asks| |done]. cbn beta. intros names' w' (Ho & Hin & Hm). split; [done|]. split; [|done].
        intros x. rewrite Hin. naive_solver. }
    intros names1 w1 (Ho1 & Hin1 & Hm1 & He1). eapply wpx_mono; [apply IH| |done]. cbn beta. intros names2 w2 (Ho2 & Hin2 & Hm2 & He2).
    split; [auto|]. split; [|by rewrite Hm2, He2]. intros x. rewrite Hin2, Hin1. setoid_rewrite elem_of_cons. naive_solver.
Qed.
(** The names of all nodes that could be listed, each once and in order. *)
Definition names_of (m : gmap NodeId ListNodeResult) (names : list bytes) : Prop :=
  ordered names /\ forall x, x ∈ names <-> exists id regs, m !! id = Some (inr regs) /\ x ∈ regs.

(** What the scenario asks for when the nodes answer [answer]. *)
Definition registers_plan (answer : bytes + (Error + gmap NodeId ListNodeResult)) (ms : list (Made Val)) : Prop :=
  match answer with
  | inr (inr m) => exists names, names_of m names /\ ms = registers_asks names
  | _ => ms = take 1 (registers_asks [])
  end.

(** C40: what is read are the names that were listed, in order; an exception of the SDK cuts the
    three operations short. *)
Theorem listed_registers_are_read w :
  wpx (tryListReadWriteRegsOfNodesScenario G)
    (fun _ => asks (registers_plan (sdk_wait (Registry (ListNodes three_nodes s1)) s2 (pr_env w)).1) w)
    (fun s w' => (exists what, s = Thrown what) /\ exists names k, (k <= 3)%nat /\
       asks (fun ms => ms = take k (registers_asks names)) w w' /\
       forall m e, sdk_wait (Registry (ListNodes three_nodes s1)) s2 (pr_env w) = (inr (inr m), e) -> names_of m names) w.
Proof.
  apply wpx_bind, wpx_log, wpx_bind. cbn [log_ made pr_env]. ask_step.
  2: { intros what e Hans _. split; [eauto|]. exists [], 1%nat. split; [lia|]. split; [by eexists|]. intros m e' Hm. by rewrite Hans in Hm. }
  intros [failure|m] e Hans _; rewrite Hans; cbn [fst registers_plan].
  { apply wpx_log. by eexists. }
  apply wpx_bind, wpx_log, wpx_bind. eapply wpx_mono; [apply log_listed_asks| |done]. cbn beta. cbn [log_ made pr_env].
  intros names w1 (Ho & Hin & Hm1 & _).
  assert (names_of m names) as Hnames.
  { split; [apply Ho; constructor|]. intros x. rewrite Hin. setoid_rewrite elem_of_map_to_list. set_solver. }
  assert (forall m' e', (inr (inr m), e) = ((inr (inr m'), e') : (bytes + (Error + gmap NodeId ListNodeResult)) * E) -> names_of m' names)
    as Hsame by (by intros m' e' [= <- _]).
  apply wpx_bind. ask_step.
  2: { intros what e1 _ _. split; [eauto|]. exists names, 2%nat. split; [lia|]. split; [|done]. eexists. split; [cbn; rewrite Hm1, <- app_assoc; done|done]. }
  intros read_result e1 _ _. apply wpx_bind.
  apply (wpx_mono _ (fun _ w2 => made w2 = made w ++ take 2 (registers_asks names)) _ (fun _ _ => False)); [| |done].
  { destruct read_result as [failure|vals]; [apply wpx_log; cbn; by rewrite Hm1, <- app_assoc|].
    eapply wpx_mono; [apply logs_access| |done]. cbn beta. intros [] w2 ->. cbn. by rewrite Hm1, <- app_assoc. }
  intros [] w2 Hm2. apply wpx_bind. ask_step.
  2: { intros what e2 _ _. split; [eauto|]. exists names, 3%nat. split; [lia|]. split; [|done]. eexists. split; [cbn; rewrite Hm2, <- app_assoc; done|done]. }
  intros write_result e2 _ _. apply (wpx_mono _ (fun _ w3 => made w3 = made w ++ registers_asks names) _ (fun _ _ => False)); [| |done].
  { destruct write_result as [failure|vals]; [apply wpx_log; cbn; by rewrite Hm2, <- app_assoc|].
    eapply wpx_mono; [apply logs_access| |done]. cbn beta. intros [] w3 ->. cbn. by rewrite Hm2, <- app_assoc. }
  intros [] w3 Hm3. exists (registers_asks names). split; [done|]. by exists names.
Qed.
End Main.

(** ** Signals *)
Section Signals.
Context {Val E : Type} (HS : Sdk Val E) (G : Generated Val).

(** The same world, but with these signals. *)
Definition with_signals (signals : E -> list Z) : Sdk Val E := {|
  sdk_make := sdk_make (Sdk := HS);
  sdk_wait := sdk_wait (Sdk := HS);
  sdk_setPriority := sdk_setPriority (Sdk := HS);
  sdk_now := sdk_now (Sdk := HS);
  sdk_usleep := sdk_usleep (Sdk := HS);
  sdk_setupLogging := sdk_setupLogging (Sdk := HS);
  sdk_getenv := sdk_getenv (Sdk := HS);
  sdk_signals := signals;
|}.

(** How a run ends, what it asked for, and the world it leaves. *)
Definition observed {A} (r : outcome ((Stop + A) * Program Val E)) : option ((Stop + A) * list (Made Val) * E) :=
  match r with Done (a, w) => Some (a, made w, pr_env w) | Undef => None end.

(** [main] looks at the signals when all scenarios are done: with the same answers of the
    SDK and the same sleeps, what it knows of signals changes nothing that it does. *)
Theorem signals_do_not_stop signals VERSION_MAJOR VERSION_MINOR argv fuel w :
  observed (main (HS := with_signals signals) G VERSION_MAJOR VERSION_MINOR argv fuel w) =
  observed (main (HS := HS) G VERSION_MAJOR VERSION_MINOR argv fuel w).
Proof.
  assert (forall w, scenarios (HS := with_signals signals) G fuel w = scenarios (HS := HS) G fuel w) as Hsame by reflexivity.
  unfold main, main_body, try_catch, sdk_call, log, upd, mbind, Stops_bind, mret, Stops_ret, stop. cbn [with_signals sdk_setupLogging sdk_make sdk_getenv sdk_signals].
  destruct (sdk_setupLogging argv (pr_env w)) as [[] e]; [|done]. cbn [pr_env log_ made].
  destruct (sdk_make _ e) as [[] e1]; [|done]. cbn [negb]. rewrite Hsame.
  destruct (scenarios _ _ _) as [[[s|[]] w1]|]; [done| |done].
  destruct (foldl signalHandler 1 (signals (pr_env w1)) =? 0), (foldl signalHandler 1 (sdk_signals (pr_env w1)) =? 0); done.
Qed.
End Signals.

(** ** An example *)
Module CliExample.
Definition consts : Generated bytes := mkGenerated 7509 12 7168 435 48 65532 id.

(** Two nodes have registers; messages do not arrive; every operation takes a millisecond. A
    signal comes after five seconds, and cuts a sleep short. *)
Definition answer (ask : Ask bytes) : Result ask :=
  match ask return Result ask with
  | Command _ => inr ∅
  | Registry call =>
      match call return RegistryResult call with
      | ListNodes _ _ => inr {[42 := inr [str "b"; str "a"]; 43 := inr [str "b"; str "c"]; 44 := inl (Err Code.TimedOut)]}
      | ReadNodes _ _ _ | WriteNodes _ _ _ => inr ∅
      | ListNode _ _ => inr [str "a"]
      | ReadNode _ _ _ | WriteNode _ _ _ => inr []
      end
  | Files call => match call return FilesResult call with CallList => inr [str "/r"] | CallPop _ _ | CallPush _ _ => inr tt end
  | Factory _ => inr 7
  | Object call =>
      match call return ObjectResult call with
      | Publish _ _ _ => None
      | Receive _ => inr (Err Code.TimedOut)
      | CallCommand _ _ _ _ => inr (Err Code.TimedOut)
      end
  end.

#[export] Instance sdk : Sdk bytes Z := {
  sdk_make _ e := (true, e + 1000);
  sdk_wait ask _ e := (inr (answer ask), e + 1000);
  sdk_setPriority _ _ e := (None, e);
  sdk_now e := (e, e);
  sdk_usleep us e := if (e <? 5000000) && (5000000 <=? e + us) then 5000000 else e + us;
  sdk_setupLogging _ e := (true, e);
  sdk_getenv _ _ := None;
  sdk_signals e := if e <? 5000000 then [] else [SIGTERM];
}.

#[export] Instance sdk_clock : SdkClock bytes Z.
Proof.
  apply (@Build_SdkClock bytes Z sdk id); unfold later, id; cbn -[Z.ltb Z.leb Z.add]; intros; try lia;
    repeat (match goal with
      | |- context [?a <=? ?b] => destruct (Z.leb_spec a b)
      | |- context [?a <? ?b] => is_var a; destruct (Z.ltb_spec a b)
      | |- context [?a <? ?b] => destruct (Z.ltb_spec a b)
      end; cbn -[Z.ltb Z.leb Z.add]); lia.
Defined.

Definition started : Program bytes Z := mkProgram [] [] 0.

Definition run : option (Z * list (Made bytes)) :=
  match main consts 1 0 [] 32 started with Done (inr code, w) => Some (code, made w) | _ => None end.

(** [main] asks for 50 operations, and succeeds; the names are read in order. The signal makes
    the publisher send a message more than thirty. *)
Example run_main : (fun r : Z * list (Made bytes) =>
    (r.1, length r.2, r.2 !! 6%nat, length (filter (fun m => match m with Asked (Object (Publish _ _ _)) _ => true | _ => false end = true) r.2))) <$> run =
  Some (0, 50%nat, Some (Asked (Registry (ReadNodes [42; 43; 44] [str "a"; str "b"; str "c"] 1000000)) 2000000), 31%nat).
Proof. vm_compute. reflexivity. Qed.

Lemma example_receiving : receiving_takes_time (Val := bytes) (E := Z).
Proof. intros subscriber timeout e. cbn. lia. Qed.

Lemma example_signals : at_most_signals (Val := bytes) (E := Z) 1.
Proof. intros e. cbn. destruct (e <? 5000000); cbn; lia. Qed.


Lemma publisher_bounds_witness :
  let asked := fun w' => asks (publisher_asks consts (caught started w')
    (object_of (sdk_wait (make_publisher consts) s2 (pr_env started)).1)) started w' in
  wpx (tryPublisherScenario consts 32) (fun _ => asked) (fun s w' => (exists what, s = Thrown what) /\ asked w') started.
Proof. apply (publisher_bounds consts 1 32 started); [apply example_signals|lia]. Defined.

Lemma listed_registers_are_read_witness :
  wpx (tryListReadWriteRegsOfNodesScenario consts)
    (fun _ => asks (registers_plan consts (sdk_wait (Registry (ListNodes three_nodes s1)) s2 0).1) started)
    (fun s w' => (exists what, s = Thrown what) /\ exists names k, (k <= 3)%nat /\
       asks (fun ms => ms = take k (registers_asks consts names)) started w' /\
       forall m e, sdk_wait (Registry (ListNodes three_nodes s1)) s2 0 = (inr (inr m), e) -> names_of m names) started.
Proof. exact (listed_registers_are_read consts started). Defined.
End CliExample.
