(* ===== verification/Logging.v ===== *)
(** * The flush levels of the loggers

    Models [src/daemon/setup_logging.hpp] and [src/cli/setup_logging.hpp] (whose
    [detail] parts are the same) as far as they decide when a logger flushes: the levels
    in the configuration and in the arguments, and the default for the loggers that
    they do not name. Loggers, sinks and the parsing of levels are the logging
    library's. *)
From S2P Require Import Prelude Config.

Local Open Scope Z_scope.

Section Logging.
(** Of the logging library: [extract_key_vals_], [to_lower_], [level::from_str], which
    gives [off] for a name that it does not know. *)
Context (extract_key_vals_ : bytes -> gmap bytes bytes) (to_lower_ : bytes -> bytes) (from_str : bytes -> Z) (off : Z).

(** The registered loggers by name, with [flush_level()]; the default logger has no name. *)
Abbreviation Loggers := (gmap bytes Z).

(** [logger->flush_on(level)], if there is such a logger. *)
Definition flush_on (logger_name : bytes) (level : Z) (loggers : Loggers) : Loggers :=
  alter (fun _ => level) logger_name loggers.

(** A turn of the loop over [key_vals]. *)
Definition apply_level (name_level : bytes * bytes) (loggers : Loggers) : Loggers :=
  let level_name := to_lower_ name_level.2 in
  let level := from_str level_name in
  if (level =? off) && negb (bool_decide (level_name = str "off")) then loggers
  else flush_on name_level.1 level loggers.

Definition max_levels_len := 512.

(** The loop goes over the map in the order of its elements; without a default logger,
    its pointer is null. *)
Definition loadFlushLevels (flush_levels : bytes) (loggers : Loggers) : outcome Loggers :=
  if bool_decide (flush_levels = []) || (max_levels_len <? Z.of_nat (length flush_levels)) then Done loggers
  else
    let key_vals := extract_key_vals_ flush_levels in
    let loggers := foldl (fun loggers name_level => apply_level name_level loggers) loggers (map_to_list key_vals) in
    match loggers !! [] with
    | None => Undef
    | Some default_flush_level =>
        Done (map_imap (fun name level =>
          Some (if negb (bool_decide (name = [])) && bool_decide (key_vals !! name = None) then default_flush_level else level)) loggers)
    end.

Definition spdlog_level_prefix : bytes := str "SPDLOG_FLUSH_LEVEL=".

(** [args] are [argv] without the program. *)
Fixpoint loadArgvFlushLevels (args : list bytes) (loggers : Loggers) : outcome Loggers :=
  match args with
  | [] => Done loggers
  | arg_str :: args' =>
      (if is_prefix spdlog_level_prefix arg_str
       then loadFlushLevels (drop (length spdlog_level_prefix) arg_str) loggers
       else Done loggers) ≫= loadArgvFlushLevels args'
  end.

(** The loggers that are made, which do not flush at first. *)
Definition make_loggers (names : list bytes) : Loggers := list_to_map ((fun name => (name, off)) <$> [] :: names).

(** What [setupLogging] of the daemon does with the flush levels. *)
Definition daemon_flush_levels {T} `{Toml T} (config : Config T) (args : list bytes) : outcome Loggers :=
  let loggers := make_loggers (str <$> ["io"; "ipc"; "engine"]%string) in
  (match getLoggingFlushLevel config with
   | Some logging_flush_level => loadFlushLevels logging_flush_level loggers
   | None => Done loggers
   end) ≫= loadArgvFlushLevels args.

(** What [setupLogging] of the command line tool does with them. *)
Definition cli_flush_levels (args : list bytes) : outcome Loggers :=
  loadArgvFlushLevels args (make_loggers (str <$> ["io"; "ipc"; "sdk"; "svc"]%string)).

(** ** Theory *)

(** What the levels say of a logger: nothing, if its level has a name that is unknown. *)
Definition level_of (key_vals : gmap bytes bytes) (name : bytes) : option Z :=
  level_name ← to_lower_ <$> key_vals !! name;
  if (from_str level_name =? off) && negb (bool_decide (level_name = str "off")) then None else Some (from_str level_name).

(** The level a logger gets by a pair that names it. *)
Definition given (level_name : bytes) (old : Z) : Z :=
  let level_name := to_lower_ level_name in
  if (from_str level_name =? off) && negb (bool_decide (level_name = str "off")) then old else from_str level_name.

Lemma apply_level_lookup name_level loggers name :
  apply_level name_level loggers !! name =
    if decide (name = name_level.1) then given name_level.2 <$> loggers !! name else loggers !! name.
Proof.
  unfold apply_level, flush_on, given. destruct (_ && _).
  - case_decide; [|done]. by destruct (loggers !! name).
  - case_decide; [subst; by rewrite lookup_alter_eq|by rewrite lookup_alter_ne].
Qed.

(** Each key is there once: what the loop does to a logger does not depend on the order. *)
Lemma apply_levels_lookup (l : list (bytes * bytes)) loggers name :
  NoDup l.*1 ->
  foldl (fun loggers name_level => apply_level name_level loggers) loggers l !! name =
    (fun old => match (list_to_map l : gmap bytes bytes) !! name with Some level_name => given level_name old | None => old end) <$> loggers !! name.
Proof.
  revert loggers. induction l as [|[n lv] l IH]; intros loggers Hnd; cbn [foldl list_to_map foldr].
  - rewrite lookup_empty. by destruct (loggers !! name).
  - apply NoDup_cons in Hnd as [Hn Hnd]. rewrite (IH _ Hnd), apply_level_lookup. cbn [fst snd].
    destruct (decide (name = n)) as [->|Hne].
    + change (list_to_map ((n, lv) :: l)) with (<[n := lv]> (list_to_map l) : gmap bytes bytes).
      rewrite lookup_insert_eq, (not_elem_of_list_to_map_1 (M := gmap bytes) l n Hn). by destruct (loggers !! n).
    + change (list_to_map ((n, lv) :: l)) with (<[n := lv]> (list_to_map l) : gmap bytes bytes). by rewrite lookup_insert_ne.
Qed.

(** What [loadFlushLevels] makes of a logger: a known level that is given to it; what it
    had, if the level is not known; or what the default logger has then. *)
Definition flush_spec (key_vals : gmap bytes bytes) (old_default : Z) (name : bytes) (old : Z) : Z :=
  match key_vals !! name with
  | Some level_name => given level_name old
  | None => match key_vals !! [] with Some level_name => given level_name old_default | None => old_default end
  end.

(** Loading levels gives every logger the level of [flush_spec]. *)
Theorem loadFlushLevels_spec flush_levels loggers old_default :
  flush_levels <> [] -> Z.of_nat (length flush_levels) <= max_levels_len -> loggers !! [] = Some old_default ->
  loadFlushLevels flush_levels loggers =
    Done (map_imap (fun name old => Some (flush_spec (extract_key_vals_ flush_levels) old_default name old)) loggers).
Proof.
  intros Hne Hlen Hd. unfold loadFlushLevels. rewrite bool_decide_eq_false_2 by done.
  destruct (Z.ltb_spec max_levels_len (Z.of_nat (length flush_levels))); [lia|]. cbn [orb].
  set (kv := extract_key_vals_ flush_levels).
  assert (forall name, foldl (fun loggers name_level => apply_level name_level loggers) loggers (map_to_list kv) !! name =
    (fun old => match kv !! name with Some level_name => given level_name old | None => old end) <$> loggers !! name) as Hfold.
  { intros name. rewrite apply_levels_lookup by apply NoDup_fst_map_to_list. by rewrite list_to_map_to_list. }
  rewrite Hfold, Hd. cbn [fmap option_fmap option_map]. f_equal. apply map_eq. intros name.
  rewrite !map_lookup_imap, Hfold. destruct (loggers !! name) as [old|] eqn:Hold; [|done]. cbn. f_equal. unfold flush_spec.
  destruct (kv !! name) as [level_name|] eqn:Hk.
  - rewrite (bool_decide_eq_false_2 (Some _ = None)) by done. by rewrite andb_false_r.
  - rewrite (bool_decide_eq_true_2 (None = None)) by done. rewrite andb_true_r. case_bool_decide; [|done]. subst name.
    rewrite Hk. cbn. congruence.
Qed.
Lemma loadFlushLevels_keeps flush_levels loggers :
  is_Some (loggers !! []) -> exists loggers', loadFlushLevels flush_levels loggers = Done loggers' /\ dom loggers' = dom loggers.
Proof.
  intros [old_default Hd]. destruct (decide (flush_levels = [])) as [->|Hne]; [by eexists|].
  destruct (Z.ltb_spec max_levels_len (Z.of_nat (length flush_levels))) as [Hlong|Hshort].
  - exists loggers. split; [|done]. unfold loadFlushLevels. by rewrite (proj2 (Z.ltb_lt _ _) Hlong), orb_true_r.
  - eexists. split; [by apply loadFlushLevels_spec|]. apply set_eq. intros name.
    rewrite !elem_of_dom, map_lookup_imap. destruct (loggers !! name); cbn; [|done]. by split.
Qed.

Lemma loadArgvFlushLevels_keeps args loggers :
  is_Some (loggers !! []) -> exists loggers', loadArgvFlushLevels args loggers = Done loggers' /\ dom loggers' = dom loggers.
Proof.
  revert loggers. induction args as [|arg args IH]; intros loggers Hd; cbn [loadArgvFlushLevels]; [by eexists|].
  destruct (is_prefix spdlog_level_prefix arg).
  - destruct (loadFlushLevels_keeps (drop (length spdlog_level_prefix) arg) loggers Hd) as (loggers1 & -> & Hdom).
    destruct (IH loggers1) as (loggers2 & Heq & Hdom2); [|by exists loggers2; rewrite <- Hdom].
    apply elem_of_dom. rewrite Hdom. by apply elem_of_dom.
  - by apply IH.
Qed.

(** Whatever is configured and given in the arguments, the flush levels can be loaded, and
    the loggers stay the same. *)
Theorem flush_levels_load {T} `{Toml T} (config : Config T) args :
  (exists loggers, daemon_flush_levels config args = Done loggers /\ dom loggers = dom (make_loggers (str <$> ["io"; "ipc"; "engine"]%string))) /\
  (exists loggers, cli_flush_levels args = Done loggers /\ dom loggers = dom (make_loggers (str <$> ["io"; "ipc"; "sdk"; "svc"]%string))).
Proof.
  split; [|by apply loadArgvFlushLevels_keeps; eexists]. unfold daemon_flush_levels.
  assert (is_Some (make_loggers (str <$> ["io"; "ipc"; "engine"]%string) !! [])) as Hd by by eexists.
  destruct (getLoggingFlushLevel config) as [levels|]; [|by apply loadArgvFlushLevels_keeps].
  destruct (loadFlushLevels_keeps levels _ Hd) as (loggers1 & -> & Hdom). rewrite <- Hdom. apply loadArgvFlushLevels_keeps.
  apply elem_of_dom. rewrite Hdom. by apply elem_of_dom.
Qed.
End Logging.

(** ** An example *)
Module LoggingExample.
(** [SPDLOG_FLUSH_LEVEL=warn,engine=debug,io=loud], as the library reads it; [loud] is no level. *)
Definition read (levels : bytes) : gmap bytes bytes :=
  {[ [] := str "warn"; str "engine" := str "debug"; str "io" := str "loud" ]}.

Definition number (name : bytes) : Z :=
  if bool_decide (name = str "debug") then 1 else if bool_decide (name = str "warn") then 3 else 6.

Example load_example :
  (map_to_list <$> (match loadArgvFlushLevels read id number 6 [str "--no-daemon"; str "SPDLOG_FLUSH_LEVEL=warn,engine=debug,io=loud"]
    (make_loggers 6 (str <$> ["io"; "ipc"; "engine"]%string)) with Done loggers => Some loggers | Undef => None end)) =
  Some (map_to_list ({[ [] := 3; str "io" := 6; str "ipc" := 3; str "engine" := 1 ]} : gmap bytes Z)).
Proof. vm_compute. reflexivity. Qed.
End LoggingExample.
