(* ===== verification/Reports.v ===== *)
(** * What is reported to people

    Models the texts of errors and of the values of registers in the command line tool
    ([src/cli/fmt_helpers.hpp]), of the events of channels and of unexpected exceptions
    ([src/common/common_helpers.hpp]), and the reports of transient errors of the transports ([src/daemon/engine/cyphal/transport_helpers.hpp]). A
    logger is the list of its lines. *)
From Stdlib Require Import Ascii.
From S2P Require Import Prelude Errors.

Local Open Scope Z_scope.
Local Open Scope string_scope.

(** ** Errors *)

(** The command line tool's [fmt::formatter<sdk::Error>]. *)
Definition cli_error_name (code : Z) : string :=
  if (code =? Code.Other)%Z then "Other"
  else if (code =? Code.Busy)%Z then "Busy"
  else if (code =? Code.NoEntry)%Z then "NoEntry"
  else if (code =? Code.TimedOut)%Z then "TimedOut"
  else if (code =? Code.OutOfMemory)%Z then "OutOfMemory"
  else if (code =? Code.AlreadyExists)%Z then "AlreadyExists"
  else if (code =? Code.InvalidArgument)%Z then "InvalidArgument"
  else if (code =? Code.Canceled)%Z then "Canceled"
  else if (code =? Code.NotConnected)%Z then "NotConnected"
  else if (code =? Code.Disconnected)%Z then "Disconnected"
  else if (code =? Code.Shutdown)%Z then "Shutdown"
  else if (code =? Code.OperationInProgress)%Z then "OperationInProgress"
  else "ErrorCode".

Definition cli_format_error (error : Error) : string :=
  match getOptErrno error with
  | Some opt_errno => cli_error_name (getCode error) +:+ "(errno=" +:+ pretty opt_errno +:+ ")"
  | None => cli_error_name (getCode error)
  end.

(** ** Events of channels *)

Definition format_bool (b : bool) : string := if b then "true" else "false".

(** [fmt::formatter<AnyChannel::Completed>] *)
Definition format_completed (opt_error : OptError) (keep_alive : bool) : string :=
  match opt_error with
  | Some error => "Completed(alive=" +:+ format_bool keep_alive +:+ ", err=" +:+ format_error error +:+ ")"
  | None => "Completed(alive=" +:+ format_bool keep_alive +:+ ")"
  end.

(** [fmt::formatter<AnyChannel::Connected>] *)
Definition format_connected : string := "Connected".

(** [performWithoutThrowing]: an action that may throw an exception ([what()]); it is reported, and does
    not leave. *)
Definition performWithoutThrowing {E} (action : E -> option string * E) (logged : list string) (e : E) :
    bool * list string * E :=
  let '(thrown, e) := action e in
  match thrown with
  | None => (true, logged, e)
  | Some what => (false, app logged ["Unexpected C++ exception is caught: " +:+ what], e)
  end.

(** ** Values of registers *)

Section Values.
(** The arrays of bits, numbers and bytes that a register may have, and their text in the
    formatting library (as a range). *)
Context {A : Type} (format_range : A -> string).

(** [uavcan::_register::Value_1_0] *)
Inductive Value : Type :=
| ValueEmpty
| ValueString (value : bytes)
| ValueArray (arr : A).

(** [fmt::formatter<Value_1_0>::format] *)
Definition format_value (value : Value) : string :=
  match value with
  | ValueEmpty => "empty"
  | ValueString str => "'" +:+ String.string_of_list_byte str +:+ "'"
  | ValueArray arr => format_range arr
  end.
End Values.
Arguments Value : clear implicits.

(** ** Transient errors *)

(** [libcyphal::transport::AnyFailure] *)
Inductive AnyFailure : Type :=
| FailArgument
| FailMemory
| FailAnonymous
| FailCapacity
| FailAlreadyExists
| FailPlatform (code : Z).

(** [describeError], and [describeAnyFailure], which visits the variant with it. *)
Definition describeAnyFailure (failure : AnyFailure) : string :=
  match failure with
  | FailArgument => "ArgumentError"
  | FailMemory => "MemoryError"
  | FailAnonymous => "AnonymousError"
  | FailCapacity => "CapacityError"
  | FailAlreadyExists => "AlreadyExistsError"
  | FailPlatform code => "PlatformError(code=" +:+ pretty code +:+ ")"
  end.

(** [ICanTransport::TransientErrorReport::Variant] *)
Inductive CanReport : Type :=
| CanardTxPush (media_index : Z) (failure : AnyFailure)
| CanardRxAccept (media_index : Z) (failure : AnyFailure)
| MediaPop (media_index : Z) (failure : AnyFailure)
| ConfigureMedia (failure : AnyFailure)
| MediaConfig (media_index : Z) (failure : AnyFailure)
| MediaPush (media_index : Z) (failure : AnyFailure).

(** [IUdpTransport::TransientErrorReport::Variant] *)
Inductive UdpReport : Type :=
| UdpardTxPublish (media_index : Z) (failure : AnyFailure)
| UdpardTxRequest (media_index : Z) (failure : AnyFailure)
| UdpardTxRespond (media_index : Z) (failure : AnyFailure)
| UdpardRxMsgReceive (failure : AnyFailure)
| UdpardRxSvcReceive (media_index : Z) (failure : AnyFailure)
| MediaMakeRxSocket (media_index : Z) (failure : AnyFailure)
| MediaMakeTxSocket (media_index : Z) (failure : AnyFailure)
| MediaTxSocketSend (media_index : Z) (failure : AnyFailure)
| MediaRxSocketReceive (media_index : Z) (failure : AnyFailure).

(** ["<what> (mediaIdx={}): {}."] and ["<what>: {}."] *)
Definition at_media (what : string) (media_index : Z) (failure : AnyFailure) : string :=
  what +:+ " (mediaIdx=" +:+ pretty media_index +:+ "): " +:+ describeAnyFailure failure +:+ ".".
Definition at_transport (what : string) (failure : AnyFailure) : string :=
  what +:+ ": " +:+ describeAnyFailure failure +:+ ".".

Definition can_log (report : CanReport) : string :=
  match report with
  | CanardTxPush i f => at_media "Failed to push TX frame to canard" i f
  | CanardRxAccept i f => at_media "Failed to accept RX frame at canard" i f
  | MediaPop i f => at_media "Failed to pop frame from media" i f
  | ConfigureMedia f => at_transport "Failed to configure CAN" f
  | MediaConfig i f => at_media "Failed to configure media" i f
  | MediaPush i f => at_media "Failed to push frame to media" i f
  end.

Definition udp_log (report : UdpReport) : string :=
  match report with
  | UdpardTxPublish i f => at_media "Failed to TX message frame to udpard" i f
  | UdpardTxRequest i f => at_media "Failed to TX request frame to udpard" i f
  | UdpardTxRespond i f => at_media "Failed to TX response frame to udpard" i f
  | UdpardRxMsgReceive f => at_transport "Failed to accept RX message frame at udpard" f
  | UdpardRxSvcReceive i f => at_media "Failed to accept RX service frame at udpard" i f
  | MediaMakeRxSocket i f => at_media "Failed to make RX socket" i f
  | MediaMakeTxSocket i f => at_media "Failed to make TX socket" i f
  | MediaTxSocketSend i f => at_media "Failed to TX frame to socket" i f
  | MediaRxSocketReceive i f => at_media "Failed to RX frame from socket" i f
  end.

(** [operator()] of the reporters: the failure is logged, and not passed on. *)
Definition CanTransientErrorReporter (report_var : CanReport) (logger : list string) : option AnyFailure * list string :=
  (None, (logger ++ [can_log report_var])%list).
Definition UdpTransientErrorReporter (report_var : UdpReport) (logger : list string) : option AnyFailure * list string :=
  (None, (logger ++ [udp_log report_var])%list).

(** ** Properties *)

(** Both programs name errors alike. *)
Lemma cli_formats_alike error : cli_format_error error = format_error error.
Proof. reflexivity. Qed.

(** Texts without a closing parenthesis. *)
Fixpoint unclosed (s : string) : Prop :=
  match s with
  | EmptyString => True
  | String a s' => a <> ")"%char /\ unclosed s'
  end.

Lemma closed_inj s1 s2 t1 t2 :
  unclosed s1 -> unclosed s2 -> s1 +:+ String ")" t1 = s2 +:+ String ")" t2 -> s1 = s2 /\ t1 = t2.
Proof.
  revert s2. induction s1 as [|a s1 IH]; intros [|b s2]; cbn.
  - by intros _ _ [= ->].
  - intros _ [Hb _] [= <- _]. done.
  - intros [Ha _] _ [= -> _]. done.
  - intros [_ H1] [_ H2] [= -> E]. by destruct (IH s2 H1 H2 E) as [-> ->].
Qed.

Lemma pretty_char_open n : pretty_N_char n <> ")"%char.
Proof. unfold pretty_N_char. by repeat case_match. Qed.

Lemma pretty_go_unclosed n : forall s, unclosed s -> unclosed (pretty_N_go n s).
Proof.
  induction (N.lt_wf_0 n) as [n _ IH]. intros s Hs. destruct (decide (0 < n)%N) as [Hn|Hn].
  - rewrite pretty_N_go_step by done. apply IH; [by apply N.div_lt|]. split; [apply pretty_char_open|done].
  - assert (n = 0%N) as -> by lia. by rewrite pretty_N_go_0.
Qed.

Lemma pretty_N_unclosed (n : N) : unclosed (pretty n).
Proof. unfold pretty, pretty_N. case_decide; [by cbn|by apply pretty_go_unclosed]. Qed.

Lemma pretty_Z_unclosed (z : Z) : unclosed (pretty z).
Proof.
  destruct z as [|p|p]; cbn -[pretty]; [by cbn|apply (pretty_N_unclosed (Npos p))|].
  split; [done|apply (pretty_N_unclosed (Npos p))].
Qed.

Lemma closed_number_inj (a b : Z) t1 t2 :
  pretty a +:+ String ")" t1 = pretty b +:+ String ")" t2 -> a = b /\ t1 = t2.
Proof.
  intros E. apply closed_inj in E as [E ->]; [|apply pretty_Z_unclosed..]. split; [|done]. by apply (inj pretty).
Qed.

Lemma append_assoc s1 s2 s3 : (s1 +:+ s2) +:+ s3 = s1 +:+ s2 +:+ s3.
Proof. induction s1 as [|a s1 IH]; [done|]. exact (f_equal (String a) IH). Qed.

(** The text of an error tells the error. *)
Lemma format_error_inj e1 e2 :
  1 <= getCode e1 <= Code.OperationInProgress -> 1 <= getCode e2 <= Code.OperationInProgress ->
  format_error e1 = format_error e2 -> e1 = e2.
Proof.
  destruct e1 as [c1 n1], e2 as [c2 n2]. cbn [getCode]. unfold Code.OperationInProgress. intros H1 H2.
  assert (forall c, 1 <= c <= 12 -> c ∈ [1; 2; 3; 4; 5; 6; 7; 8; 9; 10; 11; 12]) as Hin.
  { intros c Hc. rewrite !elem_of_cons. lia. }
  apply Hin in H1, H2. clear Hin. rewrite !elem_of_cons, elem_of_nil in H1, H2. unfold format_error.
  destruct_or?; subst; try done; destruct n1 as [n1|], n2 as [n2|]; cbn -[pretty]; intros E; simplify_eq/=; try done;
    by apply closed_number_inj in E as [-> _].
Qed.

(** The text of a register's string tells the string, and the texts of strings and of
    registers without a value are not those of ranges, which begin with a bracket. *)
Lemma format_value_told {A} (format_range : A -> string) (v1 v2 : Value A) :
  (forall arr1 arr2, format_range arr1 = format_range arr2 -> arr1 = arr2) ->
  (forall arr, exists s, format_range arr = "[" +:+ s) ->
  format_value format_range v1 = format_value format_range v2 -> v1 = v2.
Proof.
  intros Hinj Hrange. assert (forall l1 l2, String.string_of_list_byte l1 +:+ "'" = String.string_of_list_byte l2 +:+ "'" -> l1 = l2) as Hs.
  { intros l1. induction l1 as [|b1 l1 IH]; intros [|b2 l2] E; cbn in E; try done.
    - injection E as E0 E. by destruct l2.
    - injection E as E0 E. by destruct l1.
    - injection E as E0 E. f_equal; [|by apply IH].
      rewrite <- (byte_of_ascii_of_byte b1), <- (byte_of_ascii_of_byte b2). by f_equal. }
  destruct v1 as [|l1|a1], v2 as [|l2|a2]; cbn; try done.
  - by destruct (Hrange a2) as [s ->].
  - intros E. injection E as E. f_equal. by apply Hs.
  - by destruct (Hrange a2) as [s ->].
  - by destruct (Hrange a1) as [s ->].
  - by destruct (Hrange a1) as [s ->].
  - intros E. f_equal. by apply Hinj.
Qed.

Lemma describe_inj f1 f2 t : describeAnyFailure f1 +:+ t = describeAnyFailure f2 +:+ t -> f1 = f2.
Proof.
  destruct f1, f2; cbn -[pretty]; intros E; simplify_eq/=; try done.
  rewrite !append_assoc in E. by apply closed_number_inj in E as [-> _].
Qed.

Lemma at_media_inj what i1 i2 f1 f2 : at_media what i1 f1 = at_media what i2 f2 -> i1 = i2 /\ f1 = f2.
Proof.
  unfold at_media. intros E. apply (inj (String.append what)) in E. cbn -[pretty describeAnyFailure] in E. simplify_eq.
  apply closed_number_inj in E as [-> E]. cbn -[describeAnyFailure] in E. simplify_eq. by apply describe_inj in E as ->.
Qed.

Lemma at_transport_inj what f1 f2 : at_transport what f1 = at_transport what f2 -> f1 = f2.
Proof.
  unfold at_transport. intros E. apply (inj (String.append what)) in E. cbn -[describeAnyFailure] in E. simplify_eq.
  by apply describe_inj in E as ->.
Qed.

Ltac told_apart :=
  intros E; first
    [ exfalso; unfold at_media, at_transport in E; cbn -[pretty describeAnyFailure] in E; discriminate E
    | apply at_media_inj in E as [-> ->]; reflexivity
    | apply at_transport_inj in E as ->; reflexivity ].

(** Transient errors are not passed on to the transport, and the line in the log tells which
    it was: what happened, on which medium, and the failure. *)
Theorem transient_errors_told :
  (forall r logger, exists line, CanTransientErrorReporter r logger = (None, (logger ++ [line])%list)) /\
  (forall r logger, exists line, UdpTransientErrorReporter r logger = (None, (logger ++ [line])%list)) /\
  (forall r1 r2, can_log r1 = can_log r2 -> r1 = r2) /\
  (forall r1 r2, udp_log r1 = udp_log r2 -> r1 = r2).
Proof.
  split; [by intros r logger; exists (can_log r)|]. split; [by intros r logger; exists (udp_log r)|]. split.
  - intros [] []; cbn [can_log]; told_apart.
  - intros [] []; cbn [udp_log]; told_apart.
Qed.
